(** * Telegram-Claude-Obsidian: session orchestration, buffering, rate
      limiting and the safety gate, embedded in Rocq.

    The development follows the TypeScript sources:
    - [src/security.ts]            (Module [Security])
    - [src/handlers/media-group.ts] (Module [MediaGroup])
    - [src/handlers/streaming.ts]   (Module [Streaming])
    - [src/session.ts]              (Module [ClaudeSession])
    - [src/handlers/assistant.ts], [src/handlers/commands.ts] (Module [Handlers])
    - [src/handlers/text.ts]        (Module [TextHandler])
    - [src/vault.ts]                (Module [Vault])

    Conventions of the embedding.
    - JavaScript strings are [string]s, one character per UTF-16 code unit;
      [String.length], [String.prefix] and [String.substring] play [length],
      [startsWith] and [slice].  For texts of ASCII characters
      ([Js.ascii_only]) this is exact; a character outside ASCII is several
      bytes of the [string] where JavaScript counts one or two code units,
      and [Js.is_space] and [Js.toLowerCase] know the ASCII range only.
    - [Date.now()] is an integer number of milliseconds ([Z]).  The token
      arithmetic of the rate limiter is given twice: over exact rationals
      ([Q], Module [Security]) and, as the program computes it, in IEEE 754
      double precision (Module [Security.Double]).  What depends on
      rounding, or on a division by zero, is stated over the second.
    - [Map] objects are [gmap]s; arrays are lists.
    - Effects on the chat transport are recorded in an explicit log; the
      transport's answers (failures of an edit, of a rich-text send, ...) come
      from an oracle that is a parameter of the run. *)

From Stdlib Require Import ZArith QArith Qminmax Lqa Lia Bool Ascii String List.
From Stdlib Require SpecFloat.
From stdpp Require Import gmap strings list fin_maps.
Import ListNotations.

Local Open Scope Z_scope.

(* ===================================================================== *)
(** * JavaScript string primitives *)
(* ===================================================================== *)

Module Js.

(** [s.startsWith(p)] *)
Definition startsWith (s p : string) : bool := String.prefix p s.

(** [s.includes(p)]: [p] occurs somewhere in [s]. *)
Fixpoint includes (s p : string) : bool :=
  String.prefix p s ||
  match s with
  | EmptyString => false
  | String _ s' => includes s' p
  end.

(** [s.slice(i, j)] for [0 <= i <= j] (clamped at the end of [s]). *)
Definition slice (s : string) (i j : nat) : string :=
  String.substring i (j - i) s.

(** [s.slice(i)] *)
Definition slice_from (s : string) (i : nat) : string :=
  String.substring i (String.length s - i) s.

Definition lower_ascii (c : ascii) : ascii :=
  let n := nat_of_ascii c in
  if (65 <=? n)%nat && (n <=? 90)%nat then ascii_of_nat (n + 32) else c.

(** [s.toLowerCase()] on ASCII text. *)
Fixpoint toLowerCase (s : string) : string :=
  match s with
  | EmptyString => EmptyString
  | String c s' => String (lower_ascii c) (toLowerCase s')
  end.

(** The truth value of a string: only the empty string is falsy. *)
Definition truthy (s : string) : bool :=
  match s with EmptyString => false | _ => true end.

(** The truth value of an optional string ([undefined] is falsy). *)
Definition truthy_opt (o : option string) : bool :=
  match o with Some s => truthy s | None => false end.

(** The text is made of ASCII characters.  For such a text the bytes of the
    [string] are the UTF-16 code units of the JavaScript string, and
    [is_space], [toLowerCase] and [String.length] below are JavaScript's
    [\s], [toLowerCase()] and [length]. *)
Definition ascii_only (s : string) : bool :=
  forallb (fun c => (nat_of_ascii c <? 128)%nat) (list_ascii_of_string s).

(** Code units matched by [\s] (ASCII range): tab, LF, VT, FF, CR, space.
    JavaScript's class also holds U+00A0, U+FEFF and the Unicode space
    separators, which an [ascii_only] text does not contain. *)
Definition is_space (c : ascii) : bool :=
  let n := nat_of_ascii c in
  ((9 <=? n)%nat && (n <=? 13)%nat) || (n =? 32)%nat.

(** Line terminators, which [.] does not match (ASCII range): LF and CR. *)
Definition is_line_terminator (c : ascii) : bool :=
  let n := nat_of_ascii c in
  (n =? 10)%nat || (n =? 13)%nat.

(** [s.split(/\s+/)]: every maximal run of white space is one separator;
    [prev_space] tells that the previous code unit belonged to such a run. *)
Fixpoint split_ws_from (prev_space : bool) (s : string) : list string :=
  match s with
  | EmptyString => [EmptyString]
  | String c s' =>
      if is_space c then
        if prev_space then split_ws_from true s'
        else EmptyString :: split_ws_from true s'
      else
        match split_ws_from false s' with
        | tok :: toks => String c tok :: toks
        | [] => [String c EmptyString]
        end
  end.

Definition split_ws (s : string) : list string := split_ws_from false s.

(** [s.split("/")] *)
Fixpoint split_slash (s : string) : list string :=
  match s with
  | EmptyString => [EmptyString]
  | String c s' =>
      if Ascii.eqb c "/" then EmptyString :: split_slash s'
      else
        match split_slash s' with
        | seg :: segs => String c seg :: segs
        | [] => [String c EmptyString]
        end
  end.

(** [segs.join("/")] *)
Fixpoint join_slash (segs : list string) : string :=
  match segs with
  | [] => EmptyString
  | [seg] => seg
  | seg :: rest => (seg ++ "/" ++ join_slash rest)%string
  end.

Definition first_is_slash (s : string) : bool :=
  match s with
  | String c _ => Ascii.eqb c "/"
  | EmptyString => false
  end.

Fixpoint last_is_slash (s : string) : bool :=
  match s with
  | EmptyString => false
  | String c EmptyString => Ascii.eqb c "/"
  | String _ s' => last_is_slash s'
  end.

Fixpoint trimStart (s : string) : string :=
  match s with
  | String c s' => if is_space c then trimStart s' else s
  | EmptyString => EmptyString
  end.

Fixpoint trimEnd (s : string) : string :=
  match s with
  | String c s' =>
      match trimEnd s' with
      | EmptyString => if is_space c then EmptyString else String c EmptyString
      | t => String c t
      end
  | EmptyString => EmptyString
  end.

(** [s.trim()] on ASCII text. *)
Definition trim (s : string) : string := trimEnd (trimStart s).

(** The line feed of a template literal. *)
Definition nl : string := String (ascii_of_nat 10) EmptyString.

(** [parts.join("")] *)
Definition join (parts : list string) : string :=
  fold_right String.append EmptyString parts.

End Js.

(* ===================================================================== *)
(** * The [path] module of the runtime (POSIX flavour) *)
(* ===================================================================== *)

Module Path.

(** [normalizeString]: the segments of the path are pushed on a stack
    ([acc], most recent first); empty segments and [.] are dropped, [..]
    pops a proper segment and is kept only above the root of a relative
    path. *)
Fixpoint normalize_segments (allowAboveRoot : bool) (segs acc : list string)
  : list string :=
  match segs with
  | [] => rev acc
  | seg :: rest =>
      if String.eqb seg "" || String.eqb seg "." then
        normalize_segments allowAboveRoot rest acc
      else if String.eqb seg ".." then
        match acc with
        | top :: acc' =>
            if String.eqb top ".." then
              normalize_segments allowAboveRoot rest
                (if allowAboveRoot then ".."%string :: acc else acc)
            else normalize_segments allowAboveRoot rest acc'
        | [] =>
            normalize_segments allowAboveRoot rest
              (if allowAboveRoot then [".."%string] else [])
        end
      else normalize_segments allowAboveRoot rest (seg :: acc)
  end.

Definition normalizeString (path : string) (allowAboveRoot : bool) : string :=
  Js.join_slash (normalize_segments allowAboveRoot (Js.split_slash path) []).

(** [path.normalize(p)] *)
Definition normalize (path : string) : string :=
  if String.eqb path "" then "."%string
  else
    let isAbsolute := Js.first_is_slash path in
    let trailingSeparator := Js.last_is_slash path in
    let p := normalizeString path (negb isAbsolute) in
    if String.eqb p "" then
      if isAbsolute then "/"%string
      else if trailingSeparator then "./"%string else "."%string
    else
      let p := if trailingSeparator then (p ++ "/")%string else p in
      if isAbsolute then ("/" ++ p)%string else p.

(** [path.resolve(p)] in a process whose working directory is [cwd]. *)
Definition resolve (cwd : string) (path : string) : string :=
  let r1 := if String.eqb path "" then ""%string else (path ++ "/")%string in
  let abs1 := Js.first_is_slash path in
  let '(r2, abs2) :=
    if abs1 then (r1, true)
    else if String.eqb cwd "" then (r1, false)
    else ((cwd ++ "/" ++ r1)%string, Js.first_is_slash cwd) in
  let r := normalizeString r2 (negb abs2) in
  if abs2 then ("/" ++ r)%string
  else if String.eqb r "" then "."%string else r.

End Path.

(* ===================================================================== *)
(** * Configuration ([src/config.ts]) and process environment *)
(* ===================================================================== *)

(** Modelled from the spec: the constants that the sources import from
    [./config], whose source is not available.  Every theorem quantifies
    over them. *)
Record Config := {
  ALLOWED_USERS : list Z;
  ALLOWED_PATHS : list string;
  TEMP_PATHS : list string;
  BLOCKED_PATTERNS : list string;
  RATE_LIMIT_ENABLED : bool;
  RATE_LIMIT_REQUESTS : Q;
  RATE_LIMIT_WINDOW : Q;
  TELEGRAM_MESSAGE_LIMIT : nat;
  TELEGRAM_SAFE_LIMIT : nat;
  STREAMING_THROTTLE_MS : Z;
  MEDIA_GROUP_TIMEOUT : Z;
  THINKING_KEYWORDS : list string;
  THINKING_DEEP_KEYWORDS : list string;
  SAFETY_PROMPT : string;
  WORKING_DIR : string
}.

(** The process environment seen by the safety gate: [process.env.HOME], the
    working directory of the process, and the file system as seen through
    [realpathSync] ([None] when the call throws, e.g. for a path that does not
    exist yet). *)
Record Env := {
  HOME : option string;
  CLAUDE_CODE_PATH : option string;
  cwd : string;
  realpathSync : string -> option string
}.

(** The input of a tool call, as far as the orchestrator reads it:
    [toolInput.command] and [toolInput.file_path]. *)
Record ToolInput := {
  command : option string;
  file_path : option string
}.

(** Modelled from the spec: the functions that the sources import from
    [./formatting], whose source is not available, and the number and date
    formatting of the runtime. *)
Record Formatting := {
  convertMarkdownToHtml : string -> string;
  escapeHtml : string -> string;
  formatToolStatus : string -> ToolInput -> string;
  toFixed1 : Q -> string;
  toLocaleDateString : Z -> string;
  toISOString : Z -> string
}.

(** A message of the chat transport, as far as the handlers look at it:
    [msg.chat.id] and [msg.message_id]. *)
Record Message := { msg_chat_id : Z; message_id : Z }.

(** What the handlers read from a grammY [Context]: [ctx.from?.id],
    [ctx.from?.username], [ctx.chat?.id] and [ctx.message?.caption]. *)
Record Ctx := {
  from_id : option Z;
  from_username : option string;
  chat_id : option Z;
  msg_caption : option string
}.

(** [!x] for an optional number. *)
Definition falsy_id (o : option Z) : bool :=
  match o with
  | Some n => n =? 0
  | None => true
  end.

(** [ctx.from?.username || "unknown"] *)
Definition username_of (c : Ctx) : string :=
  match from_username c with
  | Some u => if Js.truthy u then u else "unknown"%string
  | None => "unknown"%string
  end.

(* ===================================================================== *)
(** * The chat transport *)
(* ===================================================================== *)

Module Transport.

(** The requests that the handlers send: [ctx.reply(text, {parse_mode})],
    [ctx.api.editMessageText] and [ctx.api.deleteMessage].  [html] tells
    whether [parse_mode: "HTML"] was given. *)
Inductive Request :=
| Reply (chat : Z) (text : string) (html : bool)
| EditMessageText (m : Message) (text : string) (html : bool)
| DeleteMessage (m : Message).

(** The requests so far with their outcome ([true]: the promise resolved),
    most recent last, and the next message id. *)
Record State := {
  log : list (Request * bool);
  next_id : Z
}.

Definition init : State := {| log := []; next_id := 1 |}.

(** The transport decides the outcome of a request from the history. *)
Definition Oracle := list (Request * bool) -> Request -> bool.

Definition reliable : Oracle := fun _ _ => true.

Definition call (orc : Oracle) (r : Request) (tr : State) : State * bool :=
  let ok := orc (log tr) r in
  ({| log := log tr ++ [(r, ok)]; next_id := next_id tr |}, ok).

(** [await ctx.reply(...)]: the sent message, or [None] when it throws. *)
Definition reply (orc : Oracle) (chat : Z) (text : string) (html : bool)
    (tr : State) : State * option Message :=
  let '(tr1, ok) := call orc (Reply chat text html) tr in
  if ok then
    ({| log := log tr1; next_id := next_id tr1 + 1 |},
     Some {| msg_chat_id := chat; message_id := next_id tr1 |})
  else (tr1, None).

Definition editMessageText (orc : Oracle) (m : Message) (text : string)
    (html : bool) (tr : State) : State * bool :=
  call orc (EditMessageText m text html) tr.

Definition deleteMessage (orc : Oracle) (m : Message) (tr : State)
  : State * bool :=
  call orc (DeleteMessage m) tr.

(** [for (const m of ms) { try { await deleteMessage(m) } catch {} }] *)
Fixpoint deleteAll (orc : Oracle) (ms : list Message) (tr : State) : State :=
  match ms with
  | [] => tr
  | m :: rest => deleteAll orc rest (fst (deleteMessage orc m tr))
  end.

(** The entry of the log is a [ctx.reply] to [chat]. *)
Definition is_reply_to (chat : Z) (e : Request * bool) : Prop :=
  exists text html, fst e = Reply chat text html.

(** The texts of the replies that went through, in order. *)
Definition sent_texts (l : list (Request * bool)) : list string :=
  omap (fun e => match e with
                 | (Reply _ text _, true) => Some text
                 | _ => None
                 end) l.

End Transport.

(* ===================================================================== *)
(** * [src/security.ts] *)
(* ===================================================================== *)

Module Security.

(** ** Authorization *)

(** [isAuthorized(userId, allowedUsers)].  [userId] is [number | undefined];
    [!userId] holds for [undefined] and for [0]. *)
Definition isAuthorized (userId : option Z) (allowedUsers : list Z) : bool :=
  match userId with
  | None => false
  | Some u =>
      if u =? 0 then false
      else if (List.length allowedUsers =? 0)%nat then false
      else existsb (Z.eqb u) allowedUsers
  end.

(** ** Path validation *)

(** [path.replace(/^~/, process.env.HOME || "")] *)
Definition expand_home (env : Env) (path : string) : string :=
  match path with
  | String c rest =>
      if Ascii.eqb c "~" then
        ((match HOME env with
          | Some h => if Js.truthy h then h else ""
          | None => ""
          end) ++ rest)%string
      else path
  | EmptyString => path
  end.

(** The path that the containment tests look at: home expansion,
    normalization, then [realpathSync] with [resolve] as its fallback. *)
Definition resolved_path (env : Env) (path : string) : string :=
  let expanded := expand_home env path in
  let normalized := Path.normalize expanded in
  match realpathSync env normalized with
  | Some real => real
  | None => Path.resolve (cwd env) normalized
  end.

(** The test of the first loop: [resolved.startsWith(tempPath)]. *)
Definition under_temp (cfg : Config) (resolved : string) : bool :=
  existsb (fun tempPath => Js.startsWith resolved tempPath) (TEMP_PATHS cfg).

(** The test of the second loop, on the resolved allowed root. *)
Definition under_allowed (cfg : Config) (env : Env) (resolved : string) : bool :=
  existsb
    (fun allowed =>
       let allowedResolved := Path.resolve (cwd env) allowed in
       String.eqb resolved allowedResolved ||
       Js.startsWith resolved (allowedResolved ++ "/"))
    (ALLOWED_PATHS cfg).

(** [isPathAllowed(path)].  None of the calls in the body throws on a string
    argument apart from [realpathSync], whose failure is handled inside; the
    outer [catch] is therefore never entered. *)
Definition isPathAllowed (cfg : Config) (env : Env) (path : string) : bool :=
  let resolved := resolved_path env path in
  if under_temp cfg resolved then true
  else under_allowed cfg env resolved.

(** ** Command safety *)

(** Longest prefix without a line terminator: what a greedy [.+] takes. *)
Fixpoint take_line (s : string) : string :=
  match s with
  | EmptyString => EmptyString
  | String c s' =>
      if Js.is_line_terminator c then EmptyString else String c (take_line s')
  end.

(** The tail [\s*(.+)] of the pattern once one white-space unit has been
    consumed: the greedy [\s+] takes every further white-space unit and gives
    them back one at a time until [.+] finds a unit it can start with. *)
Fixpoint after_ws (s : string) : option string :=
  match s with
  | EmptyString => None
  | String c s' =>
      let here :=
        if Js.is_line_terminator c then None else Some (take_line s) in
      if Js.is_space c then
        match after_ws s' with
        | Some r => Some r
        | None => here
        end
      else here
  end.

(** The pattern [/rm\s+(.+)/i] anchored at the first code unit of [s];
    the result is capture group 1. *)
Definition rm_here (s : string) : option string :=
  match s with
  | String c1 (String c2 (String c3 rest)) =>
      if Ascii.eqb (Js.lower_ascii c1) "r" &&
         Ascii.eqb (Js.lower_ascii c2) "m" &&
         Js.is_space c3
      then after_ws rest else None
  | _ => None
  end.

(** [command.match(/rm\s+(.+)/i)]: the leftmost match, capture group 1. *)
Fixpoint rm_match (s : string) : option string :=
  match rm_here s with
  | Some r => Some r
  | None =>
      match s with
      | EmptyString => None
      | String _ s' => rm_match s'
      end
  end.

(** The arguments that the loop does not look at: [arg.startsWith("-") ||
    arg.length <= 1].  [String.length] is the number of code units for an
    [Js.ascii_only] argument. *)
Definition skipped_arg (arg : string) : bool :=
  Js.startsWith arg "-" || (String.length arg <=? 1)%nat.

(** [checkCommandSafety(command)].  [match], [split] and [isPathAllowed]
    do not throw, so the [catch] clause of the [rm] block is never entered. *)
Definition checkCommandSafety (cfg : Config) (env : Env) (command : string)
  : bool * string :=
  let lowerCommand := Js.toLowerCase command in
  match
    find (fun pattern => Js.includes lowerCommand (Js.toLowerCase pattern))
         (BLOCKED_PATTERNS cfg)
  with
  | Some pattern => (false, ("Blocked pattern: " ++ pattern)%string)
  | None =>
      if Js.includes lowerCommand "rm " then
        match rm_match command with
        | Some rest =>
            match
              find (fun arg =>
                      negb (skipped_arg arg) && negb (isPathAllowed cfg env arg))
                   (Js.split_ws rest)
            with
            | Some arg =>
                (false, ("rm target outside allowed paths: " ++ arg)%string)
            | None => (true, ""%string)
            end
        | None => (true, ""%string)
        end
      else (true, ""%string)
  end.

(** ** Rate limiter *)

Record RateLimitBucket := { tokens : Q; lastUpdate : Z }.

Definition maxTokens (cfg : Config) : Q := RATE_LIMIT_REQUESTS cfg.

(** tokens per second.  With [RATE_LIMIT_WINDOW = 0] the quotient is 0 here
    and [Infinity] or [NaN] in the program ([Double.refillRate_of]): what is
    stated about the rationals assumes a window other than 0. *)
Definition refillRate (cfg : Config) : Q :=
  (RATE_LIMIT_REQUESTS cfg / RATE_LIMIT_WINDOW cfg)%Q.

(** The bucket of [userId], created full on first use. *)
Definition bucket_of (cfg : Config) (now : Z) (userId : Z)
    (buckets : gmap Z RateLimitBucket) : RateLimitBucket :=
  match buckets !! userId with
  | Some b => b
  | None => {| tokens := maxTokens cfg; lastUpdate := now |}
  end.

(** Seconds elapsed since the bucket was last touched. *)
Definition elapsed (now : Z) (b : RateLimitBucket) : Q :=
  (inject_Z (now - lastUpdate b) / 1000)%Q.

(** The refill step: [Math.min(maxTokens, tokens + elapsed * refillRate)],
    without rounding; [Double.refill] is the same step as the program
    rounds it. *)
Definition refill (cfg : Config) (now : Z) (b : RateLimitBucket) : Q :=
  Qmin (maxTokens cfg) (tokens b + elapsed now b * refillRate cfg)%Q.

(** [RateLimiter.check(userId)] at clock reading [now]: the new bucket table
    and the pair [(allowed, retryAfter)]. *)
Definition check (cfg : Config) (now : Z) (userId : Z)
    (buckets : gmap Z RateLimitBucket)
  : gmap Z RateLimitBucket * (bool * option Q) :=
  if negb (RATE_LIMIT_ENABLED cfg) then (buckets, (true, None))
  else
    let b := bucket_of cfg now userId buckets in
    let t := refill cfg now b in
    if Qle_bool 1 t then
      (<[userId := {| tokens := (t - 1)%Q; lastUpdate := now |}]> buckets,
       (true, None))
    else
      (<[userId := {| tokens := t; lastUpdate := now |}]> buckets,
       (false, Some ((1 - t) / refillRate cfg)%Q)).

(** A sequence of calls [(now, userId)], threaded through the table; the
    results are returned in call order. *)
Fixpoint run_checks (cfg : Config) (calls : list (Z * Z))
    (buckets : gmap Z RateLimitBucket)
  : gmap Z RateLimitBucket * list (bool * option Q) :=
  match calls with
  | [] => (buckets, [])
  | (now, uid) :: rest =>
      let '(buckets1, r) := check cfg now uid buckets in
      let '(buckets2, rs) := run_checks cfg rest buckets1 in
      (buckets2, r :: rs)
  end.

(** Number of calls of [userId] that were admitted in a run. *)
Fixpoint admitted (userId : Z) (calls : list (Z * Z))
    (results : list (bool * option Q)) : nat :=
  match calls, results with
  | (_, uid) :: cs, (ok, _) :: rs =>
      ((if (uid =? userId)%Z && ok then 1 else 0) + admitted userId cs rs)%nat
  | _, _ => 0%nat
  end.

(** The clock readings of a run never go back: each call is made at or
    after the previous reading, starting from [t]. *)
Fixpoint monotone_from (t : Z) (calls : list (Z * Z)) : bool :=
  match calls with
  | [] => true
  | (now, _) :: rest => (t <=? now) && monotone_from now rest
  end.

(** The clock reading of the last call of a run that starts at [t]. *)
Fixpoint last_time (t : Z) (calls : list (Z * Z)) : Z :=
  match calls with
  | [] => t
  | (now, _) :: rest => last_time now rest
  end.

(** The invariant of the data model for one bucket, together with the fact
    that it was last touched at or before clock reading [t]. *)
Definition bucket_ok (cfg : Config) (t : Z) (b : RateLimitBucket) : Prop :=
  (0 <= tokens b)%Q /\ (tokens b <= maxTokens cfg)%Q /\ lastUpdate b <= t.

Definition buckets_ok (cfg : Config) (t : Z)
    (buckets : gmap Z RateLimitBucket) : Prop :=
  forall uid b, buckets !! uid = Some b -> bucket_ok cfg t b.

(** Tokens gained over [d] milliseconds at the refill rate. *)
Definition gain (cfg : Config) (d : Z) : Q :=
  (inject_Z d / 1000 * refillRate cfg)%Q.

(** The tokens that a check of [uid] at clock reading [t] would find after
    its refill step. *)
Definition potential (cfg : Config) (uid : Z)
    (bs : gmap Z RateLimitBucket) (t : Z) : Q :=
  refill cfg t (bucket_of cfg t uid bs).

(** Containment as the specification words it: the path is the root or has
    [root + "/"] as a prefix. *)
Definition contained_in (root resolved : string) : bool :=
  String.eqb resolved root || Js.startsWith resolved (root ++ "/").

(** The reading of [isPathAllowed] in which temp roots and allowed roots
    are both tested for containment. *)
Definition allowed_by_containment (cfg : Config) (env : Env)
    (resolved : string) : bool :=
  existsb (fun tempPath => contained_in tempPath resolved) (TEMP_PATHS cfg) ||
  existsb (fun allowed => contained_in (Path.resolve (cwd env) allowed) resolved)
          (ALLOWED_PATHS cfg).

(** [p] is a prefix of [s]. *)
Definition has_prefix (p s : string) : Prop :=
  exists rest, s = (p ++ rest)%string.

(** A path segment that normalization must not leave in an absolute path. *)
Definition dot_segment (seg : string) : bool :=
  String.eqb seg "" || String.eqb seg "." || String.eqb seg "..".

(** A segment of a canonical absolute path: it is not empty, not a dot
    segment, and holds no separator. *)
Definition proper_segment (seg : string) : bool :=
  negb (dot_segment seg) && negb (Js.includes seg "/").

(** ** Status of a bucket *)

Record RateLimitStatus := {
  status_tokens : Q;
  status_max : Q;
  status_refillRate : Q
}.

(** [RateLimiter.getStatus(userId)]: the tokens as the last check stored
    them (there is no refill here), or [maxTokens] for an identity without
    bucket; the table is not changed. *)
Definition getStatus (cfg : Config) (userId : Z)
    (buckets : gmap Z RateLimitBucket) : RateLimitStatus :=
  {| status_tokens :=
       match buckets !! userId with
       | Some bucket => tokens bucket
       | None => maxTokens cfg
       end;
     status_max := maxTokens cfg;
     status_refillRate := refillRate cfg |}.

(** The calls of a run that [userId] made, and the results of the run that
    answer them. *)
Definition calls_of (userId : Z) (calls : list (Z * Z)) : list (Z * Z) :=
  List.filter (fun c => snd c =? userId) calls.

Fixpoint results_of (userId : Z) (calls : list (Z * Z))
    (results : list (bool * option Q)) : list (bool * option Q) :=
  match calls, results with
  | (_, uid) :: cs, r :: rs =>
      if uid =? userId then r :: results_of userId cs rs
      else results_of userId cs rs
  | _, _ => []
  end.

(** ** The rate limiter in double precision

    [tokens], [maxTokens], [refillRate] and [retryAfter] are JavaScript
    numbers: IEEE 754 binary64, every operation rounded to nearest even.
    The class is given again with these numbers, for the limiter switched
    on.  Clock readings and their differences are integers below [2^53],
    which are exact. *)
Module Double.

Import SpecFloat.

Definition prec : Z := 53.
Definition emax : Z := 1024.

(** The double of an integer. *)
Definition of_Z (z : Z) : spec_float := binary_normalize prec emax z 0 false.

Definition add : spec_float -> spec_float -> spec_float := SFadd prec emax.
Definition sub : spec_float -> spec_float -> spec_float := SFsub prec emax.
Definition mul : spec_float -> spec_float -> spec_float := SFmul prec emax.
Definition div : spec_float -> spec_float -> spec_float := SFdiv prec emax.

(** [Math.min(a, b)]: [NaN] if one of them is [NaN], and [-0] below [+0]. *)
Definition min (a b : spec_float) : spec_float :=
  match a, b with
  | S754_nan, _ => S754_nan
  | _, S754_nan => S754_nan
  | _, _ =>
      if SFltb b a then b
      else if SFltb a b then a
      else match a with S754_zero true => a | _ => b end
  end.

Record RateLimitBucket := { tokens : spec_float; lastUpdate : Z }.

(** The fields that the constructor sets from [RATE_LIMIT_REQUESTS] and
    [RATE_LIMIT_WINDOW]. *)
Definition maxTokens_of (requests : Z) : spec_float := of_Z requests.

Definition refillRate_of (requests window : Z) : spec_float :=
  div (of_Z requests) (of_Z window).

Definition bucket_of (maxTokens : spec_float) (now userId : Z)
    (buckets : gmap Z RateLimitBucket) : RateLimitBucket :=
  match buckets !! userId with
  | Some b => b
  | None => {| tokens := maxTokens; lastUpdate := now |}
  end.

Definition elapsed (now : Z) (b : RateLimitBucket) : spec_float :=
  div (of_Z (now - lastUpdate b)) (of_Z 1000).

(** [Math.min(maxTokens, tokens + elapsed * refillRate)] *)
Definition refill (maxTokens refillRate : spec_float) (now : Z)
    (b : RateLimitBucket) : spec_float :=
  min maxTokens (add (tokens b) (mul (elapsed now b) refillRate)).

(** [RateLimiter.check(userId)] at clock reading [now]. *)
Definition check (maxTokens refillRate : spec_float) (now userId : Z)
    (buckets : gmap Z RateLimitBucket)
  : gmap Z RateLimitBucket * (bool * option spec_float) :=
  let b := bucket_of maxTokens now userId buckets in
  let t := refill maxTokens refillRate now b in
  if SFleb (of_Z 1) t then
    (<[userId := {| tokens := sub t (of_Z 1); lastUpdate := now |}]> buckets,
     (true, None))
  else
    (<[userId := {| tokens := t; lastUpdate := now |}]> buckets,
     (false, Some (div (sub (of_Z 1) t) refillRate))).

(** A sequence of calls [(now, userId)], as [run_checks] above. *)
Fixpoint run_checks (maxTokens refillRate : spec_float)
    (calls : list (Z * Z)) (buckets : gmap Z RateLimitBucket)
  : gmap Z RateLimitBucket * list (bool * option spec_float) :=
  match calls with
  | [] => (buckets, [])
  | (now, uid) :: rest =>
      let '(buckets1, r) := check maxTokens refillRate now uid buckets in
      let '(buckets2, rs) := run_checks maxTokens refillRate rest buckets1 in
      (buckets2, r :: rs)
  end.

(** Every bucket of the table holds [NaN] tokens. *)
Definition spoiled (bs : gmap Z RateLimitBucket) : Prop :=
  forall u b, bs !! u = Some b -> tokens b = S754_nan.

(** The wait in seconds between two clock readings, as a double. *)
Definition seconds_between (now now' : Z) : spec_float :=
  div (of_Z (now' - now)) (of_Z 1000).

End Double.

End Security.


(* ===================================================================== *)
(** * [src/handlers/media-group.ts] *)
(* ===================================================================== *)

Module MediaGroup.

Section Buffer.

Context {T : Type}.

Record PendingMediaGroup := {
  items : list T;
  ctx : Ctx;
  caption : option string;
  statusMsg : option Message;
  timeout : nat
}.

(** What a run of the buffer does to the outside world, in order. *)
Inductive Effect :=
| AuditRateLimit (userId : Z) (username : string) (retryAfter : Q)
| ReplyRateLimited (c : Ctx) (retryAfter : Q)
| ReplyReceiving (c : Ctx) (sent : Message)
| EditProcessing (m : Message) (count : nat)
| Batch (groupId : string) (c : Ctx) (batch : list T)
        (cap : option string) (userId : Z) (username : string) (chatId : Z)
| DeleteStatus (m : Message).

(** The closure state of [createMediaGroupBuffer] together with what it
    shares with the rest of the process: the timers of the runtime (handle
    to group id and due time), the buckets of the [rateLimiter] singleton,
    the next message id that the transport hands out, and the effects so
    far (most recent last). *)
Record State := {
  pendingGroups : gmap string PendingMediaGroup;
  timers : gmap nat (string * Z);
  nextTimer : nat;
  buckets : gmap Z Security.RateLimitBucket;
  nextMessageId : Z;
  effects : list Effect
}.

Definition init : State :=
  {| pendingGroups := ∅; timers := ∅; nextTimer := 0%nat; buckets := ∅;
     nextMessageId := 1; effects := [] |}.

Definition emit (e : Effect) (st : State) : State :=
  {| pendingGroups := pendingGroups st; timers := timers st;
     nextTimer := nextTimer st; buckets := buckets st;
     nextMessageId := nextMessageId st; effects := effects st ++ [e] |}.

Definition set_groups (g : gmap string PendingMediaGroup) (st : State) : State :=
  {| pendingGroups := g; timers := timers st;
     nextTimer := nextTimer st; buckets := buckets st;
     nextMessageId := nextMessageId st; effects := effects st |}.

Definition set_buckets (b : gmap Z Security.RateLimitBucket) (st : State) : State :=
  {| pendingGroups := pendingGroups st; timers := timers st;
     nextTimer := nextTimer st; buckets := b;
     nextMessageId := nextMessageId st; effects := effects st |}.

(** [setTimeout(() => processGroup(groupId, cb), MEDIA_GROUP_TIMEOUT)] *)
Definition setTimeout (cfg : Config) (now : Z) (groupId : string) (st : State)
  : State * nat :=
  let h := nextTimer st in
  ({| pendingGroups := pendingGroups st;
      timers := <[h := (groupId, now + MEDIA_GROUP_TIMEOUT cfg)]> (timers st);
      nextTimer := S h; buckets := buckets st;
      nextMessageId := nextMessageId st; effects := effects st |}, h).

Definition clearTimeout (h : nat) (st : State) : State :=
  {| pendingGroups := pendingGroups st; timers := delete h (timers st);
     nextTimer := nextTimer st; buckets := buckets st;
     nextMessageId := nextMessageId st; effects := effects st |}.

(** [ctx.reply(...)] that succeeded: the transport returns a new message of
    the chat of [c]. *)
Definition fresh_message (c : Ctx) (st : State) : State * Message :=
  let m := {| msg_chat_id := default 0 (chat_id c);
              message_id := nextMessageId st |} in
  ({| pendingGroups := pendingGroups st; timers := timers st;
      nextTimer := nextTimer st; buckets := buckets st;
      nextMessageId := nextMessageId st + 1; effects := effects st |}, m).

(** The part of [processGroup] that runs before its first [await]: look the
    group up, delete it from the map, and give up when the context has no
    user or chat id.  The group is returned when there is a batch to
    deliver. *)
Definition processGroup_take (groupId : string) (st : State)
  : State * option (PendingMediaGroup * Z * string * Z) :=
  match pendingGroups st !! groupId with
  | None => (st, None)
  | Some group =>
      let st1 := set_groups (delete groupId (pendingGroups st)) st in
      let userId := from_id (ctx group) in
      let username := username_of (ctx group) in
      let chatId := chat_id (ctx group) in
      if falsy_id userId || falsy_id chatId then (st1, None)
      else (st1, Some (group, default 0 userId, username, default 0 chatId))
  end.

(** The rest of [processGroup]: update the status message, hand the batch
    to the callback, delete the status message.  Failures of the edit and of
    the delete are caught; when the callback throws ([cb_ok = false]) the
    status message stays. *)
Definition processGroup_deliver (groupId : string)
    (taken : PendingMediaGroup * Z * string * Z) (cb_ok : bool) (st : State)
  : State :=
  let '(group, userId, username, chatId) := taken in
  let st1 :=
    match statusMsg group with
    | Some m => emit (EditProcessing m (List.length (items group))) st
    | None => st
    end in
  let st2 :=
    emit (Batch groupId (ctx group) (items group) (caption group)
                userId username chatId) st1 in
  if cb_ok then
    match statusMsg group with
    | Some m => emit (DeleteStatus m) st2
    | None => st2
    end
  else st2.

(** [processGroup(groupId, processCallback)] *)
Definition processGroup (groupId : string) (cb_ok : bool) (st : State) : State :=
  match processGroup_take groupId st with
  | (st1, Some taken) => processGroup_deliver groupId taken cb_ok st1
  | (st1, None) => st1
  end.

Inductive AddResult := Added | RateLimited | Threw.

(** The branch of [addToGroup] for a group id without entry, up to the
    reply that announces the album: the rate limit check of the first item
    and the messages to the user.  [reply_ok] tells whether the [ctx.reply]
    calls of this run succeed.  The result is the status message, or how
    the call ended. *)
Definition addToGroup_open (cfg : Config) (now : Z) (c : Ctx) (userId : Z)
    (username : string) (reply_ok : bool) (st : State)
  : State * (AddResult + Message) :=
  let '(b, (allowed, retryAfter)) :=
    Security.check cfg now userId (buckets st) in
  let st1 := set_buckets b st in
  if negb allowed then
    let ra := default 0%Q retryAfter in
    let st2 := emit (AuditRateLimit userId username ra) st1 in
    if reply_ok then (emit (ReplyRateLimited c ra) st2, inl RateLimited)
    else (st2, inl Threw)
  else if negb reply_ok then (st1, inl Threw)
  else
    let '(st2, sent) := fresh_message c st1 in
    (emit (ReplyReceiving c sent) st2, inr sent).

(** [pendingGroups.set(mediaGroupId, {...})] with a new timer: what follows
    the reply of [addToGroup_open]. *)
Definition addToGroup_create (cfg : Config) (now : Z) (mediaGroupId : string)
    (item : T) (c : Ctx) (sent : Message) (st : State) : State :=
  let '(st1, h) := setTimeout cfg now mediaGroupId st in
  set_groups
    (<[mediaGroupId :=
         {| items := [item]; ctx := c; caption := msg_caption c;
            statusMsg := Some sent; timeout := h |}]>
       (pendingGroups st1)) st1.

(** The branch of [addToGroup] for a group id with an entry: the item is
    appended, the caption adopted if the group has none, and the timer
    replaced. *)
Definition addToGroup_append (cfg : Config) (now : Z) (mediaGroupId : string)
    (item : T) (c : Ctx) (group : PendingMediaGroup) (st : State) : State :=
  let cap :=
    if Js.truthy_opt (msg_caption c) && negb (Js.truthy_opt (caption group))
    then msg_caption c else caption group in
  let st1 := clearTimeout (timeout group) st in
  let '(st2, h) := setTimeout cfg now mediaGroupId st1 in
  set_groups
    (<[mediaGroupId :=
         {| items := items group ++ [item]; ctx := ctx group;
            caption := cap; statusMsg := statusMsg group;
            timeout := h |}]>
       (pendingGroups st2)) st2.

(** [addToGroup(mediaGroupId, item, ctx, userId, username, processCallback)]
    at clock reading [now], run without another handler or timer in between
    (the updates of one chat are handled one at a time). *)
Definition addToGroup (cfg : Config) (now : Z) (mediaGroupId : string)
    (item : T) (c : Ctx) (userId : Z) (username : string) (reply_ok : bool)
    (st : State) : State * AddResult :=
  match pendingGroups st !! mediaGroupId with
  | None =>
      match addToGroup_open cfg now c userId username reply_ok st with
      | (st1, inr sent) =>
          (addToGroup_create cfg now mediaGroupId item c sent st1, Added)
      | (st1, inl r) => (st1, r)
      end
  | Some group =>
      (addToGroup_append cfg now mediaGroupId item c group st, Added)
  end.

(** The runtime fires timer [h] at clock reading [now]: a timer fires once,
    not before it is due, and runs [processGroup] for its group id. *)
Definition fire (now : Z) (h : nat) (cb_ok : bool) (st : State) : State :=
  match timers st !! h with
  | Some (groupId, due) =>
      if due <=? now then processGroup groupId cb_ok (clearTimeout h st)
      else st
  | None => st
  end.

(** What can happen to the buffer, one handler or timer at a time. *)
Inductive Op :=
| OpAdd (now : Z) (groupId : string) (item : T) (c : Ctx) (userId : Z)
        (username : string) (reply_ok : bool)
| OpFire (now : Z) (h : nat) (cb_ok : bool)
| OpProcess (groupId : string) (cb_ok : bool).

Definition step (cfg : Config) (op : Op) (st : State)
  : State * option AddResult :=
  match op with
  | OpAdd now g item c uid uname ok =>
      let '(st', r) := addToGroup cfg now g item c uid uname ok st in
      (st', Some r)
  | OpFire now h ok => (fire now h ok st, None)
  | OpProcess g ok => (processGroup g ok st, None)
  end.

(** A run: the final state and the items that [addToGroup] accepted, each
    with the group id it was added under, in arrival order. *)
Fixpoint run (cfg : Config) (ops : list Op) (st : State)
  : State * list (string * T) :=
  match ops with
  | [] => (st, [])
  | op :: rest =>
      let '(st1, r) := step cfg op st in
      let '(st2, acc) := run cfg rest st1 in
      (st2,
       match op, r with
       | OpAdd _ g item _ _ _ _, Some Added => (g, item) :: acc
       | _, _ => acc
       end)
  end.

(** The items of the batches that were handed to the callback for
    [groupId], in the order of the calls. *)
Fixpoint delivered (groupId : string) (es : list Effect) : list T :=
  match es with
  | [] => []
  | Batch g _ batch _ _ _ _ :: es' =>
      if String.eqb g groupId then batch ++ delivered groupId es'
      else delivered groupId es'
  | _ :: es' => delivered groupId es'
  end.

(** The number of callback invocations for [groupId]. *)
Fixpoint batches (groupId : string) (es : list Effect) : nat :=
  match es with
  | [] => 0%nat
  | Batch g _ _ _ _ _ _ :: es' =>
      ((if String.eqb g groupId then 1 else 0) + batches groupId es')%nat
  | _ :: es' => batches groupId es'
  end.

(** The items waiting in the live map under [groupId]. *)
Definition waiting (groupId : string) (st : State) : list T :=
  match pendingGroups st !! groupId with
  | Some group => items group
  | None => []
  end.

(** The accepted items of a run that were added under [groupId]. *)
Definition accepted (groupId : string) (acc : list (string * T)) : list T :=
  map snd (List.filter (fun p => String.eqb (fst p) groupId) acc).

Definition valid_ctx (c : Ctx) : bool :=
  negb (falsy_id (from_id c)) && negb (falsy_id (chat_id c)).

Definition op_valid (op : Op) : bool :=
  match op with
  | OpAdd _ _ _ c _ _ _ => valid_ctx c
  | _ => true
  end.

(** Every pending group was opened by a context with a user and a chat. *)
Definition groups_valid (st : State) : Prop :=
  forall g grp, pendingGroups st !! g = Some grp -> valid_ctx (ctx grp) = true.

(** The operation is not a direct call of [processGroup]: the handlers
    only call [addToGroup], and [processGroup] runs from the timers. *)
Definition timer_driven (op : Op) : bool :=
  match op with
  | OpProcess _ _ => false
  | _ => true
  end.

(** The timers and the pending groups match: the timer of every pending
    group is armed for its group id, every armed timer is the timer of the
    pending group of its id, and the handles in use were handed out. *)
Definition timers_ok (st : State) : Prop :=
  (forall g grp, pendingGroups st !! g = Some grp ->
     exists due, timers st !! timeout grp = Some (g, due)) /\
  (forall h g due, timers st !! h = Some (g, due) ->
     exists grp, pendingGroups st !! g = Some grp /\ timeout grp = h) /\
  (forall h x, timers st !! h = Some x -> (h < nextTimer st)%nat).

(** Further items of the album [groupId]: clock reading, item, context,
    user and whether the replies go through. *)
Definition more_items (groupId : string)
    (more : list (Z * T * Ctx * Z * string * bool)) : list Op :=
  map (fun '(now, item, c, userId, username, reply_ok) =>
         OpAdd now groupId item c userId username reply_ok) more.

(** The caption that a group ends up with: the first one that is not
    empty. *)
Fixpoint first_caption (captions : list (option string)) : option string :=
  match captions with
  | [] => None
  | cap :: rest => if Js.truthy_opt cap then cap else first_caption rest
  end.

End Buffer.

Arguments PendingMediaGroup : clear implicits.
Arguments Effect : clear implicits.
Arguments State : clear implicits.
Arguments Op : clear implicits.

End MediaGroup.


(* ===================================================================== *)
(** * [src/handlers/streaming.ts] *)
(* ===================================================================== *)

Module Streaming.

Record StreamingState := {
  textMessages : gmap nat Message;
  toolMessages : list Message;
  lastEditTimes : gmap nat Z;
  lastContent : gmap nat string
}.

(** [new StreamingState()] *)
Definition fresh : StreamingState :=
  {| textMessages := ∅; toolMessages := []; lastEditTimes := ∅;
     lastContent := ∅ |}.

Definition push_tool (m : Message) (st : StreamingState) : StreamingState :=
  {| textMessages := textMessages st; toolMessages := toolMessages st ++ [m];
     lastEditTimes := lastEditTimes st; lastContent := lastContent st |}.

Definition set_text (seg : nat) (m : Message) (formatted : string)
    (st : StreamingState) : StreamingState :=
  {| textMessages := <[seg := m]> (textMessages st);
     toolMessages := toolMessages st;
     lastEditTimes := lastEditTimes st;
     lastContent := <[seg := formatted]> (lastContent st) |}.

Definition set_content (seg : nat) (formatted : string)
    (st : StreamingState) : StreamingState :=
  {| textMessages := textMessages st; toolMessages := toolMessages st;
     lastEditTimes := lastEditTimes st;
     lastContent := <[seg := formatted]> (lastContent st) |}.

Definition set_edit_time (seg : nat) (now : Z)
    (st : StreamingState) : StreamingState :=
  {| textMessages := textMessages st; toolMessages := toolMessages st;
     lastEditTimes := <[seg := now]> (lastEditTimes st);
     lastContent := lastContent st |}.

(** [content.length > limit ? content.slice(0, limit) + "..." : content] *)
Definition truncate (limit : nat) (content : string) : string :=
  if (limit <? String.length content)%nat
  then (Js.slice content 0 limit ++ "...")%string
  else content.

(** The loop
    [for (let i = 0; i < formatted.length; i += TELEGRAM_SAFE_LIMIT)]
    that sends the chunks, from position [i].  Each chunk is tried as HTML
    and then as plain text; when both sends throw, the exception leaves the
    loop ([Some] of the transport so far: it is caught by the caller).
    [None]: the fuel ran out, the loop has not finished. *)
Fixpoint send_chunks (fuel : nat) (cfg : Config) (orc : Transport.Oracle)
    (chat : Z) (formatted : string) (i : nat) (tr : Transport.State)
  : option Transport.State :=
  if (i <? String.length formatted)%nat then
    match fuel with
    | O => None
    | S fuel' =>
        let chunk := Js.slice formatted i (i + TELEGRAM_SAFE_LIMIT cfg) in
        let '(tr1, sent) := Transport.reply orc chat chunk true tr in
        match sent with
        | Some _ =>
            send_chunks fuel' cfg orc chat formatted
                        (i + TELEGRAM_SAFE_LIMIT cfg) tr1
        | None =>
            let '(tr2, sent2) := Transport.reply orc chat chunk false tr1 in
            match sent2 with
            | Some _ =>
                send_chunks fuel' cfg orc chat formatted
                            (i + TELEGRAM_SAFE_LIMIT cfg) tr2
            | None => Some tr2
            end
        end
    end
  else Some tr.

(** The branch [statusType === "segment_end"]. *)
Definition on_segment_end (cfg : Config) (fmt : Formatting)
    (orc : Transport.Oracle) (chat : Z) (content : string) (seg : nat)
    (st : StreamingState) (tr : Transport.State)
  : option (StreamingState * Transport.State) :=
  match textMessages st !! seg with
  | Some msg =>
      if Js.truthy content then
        let formatted := convertMarkdownToHtml fmt content in
        if bool_decide (lastContent st !! seg = Some formatted) then
          Some (st, tr)
        else if (String.length formatted <=? TELEGRAM_MESSAGE_LIMIT cfg)%nat
        then
          Some (st, fst (Transport.editMessageText orc msg formatted true tr))
        else
          let tr1 := fst (Transport.deleteMessage orc msg tr) in
          tr2 ← send_chunks (S (String.length formatted)) cfg orc chat
                            formatted 0 tr1;
          Some (st, tr2)
      else Some (st, tr)
  | None => Some (st, tr)
  end.

(** The branch [statusType === "text"]. *)
Definition on_text (cfg : Config) (fmt : Formatting)
    (orc : Transport.Oracle) (chat : Z) (now : Z) (content : string)
    (seg : nat) (st : StreamingState) (tr : Transport.State)
  : StreamingState * Transport.State :=
  let lastEdit := default 0 (lastEditTimes st !! seg) in
  match textMessages st !! seg with
  | None =>
      let formatted :=
        convertMarkdownToHtml fmt (truncate (TELEGRAM_SAFE_LIMIT cfg) content) in
      let '(tr1, sent) := Transport.reply orc chat formatted true tr in
      match sent with
      | Some msg => (set_edit_time seg now (set_text seg msg formatted st), tr1)
      | None =>
          let '(tr2, sent2) := Transport.reply orc chat formatted false tr1 in
          match sent2 with
          | Some msg =>
              (set_edit_time seg now (set_text seg msg formatted st), tr2)
          | None => (st, tr2)
          end
      end
  | Some msg =>
      if STREAMING_THROTTLE_MS cfg <? now - lastEdit then
        let formatted :=
          convertMarkdownToHtml fmt
            (truncate (TELEGRAM_SAFE_LIMIT cfg) content) in
        if bool_decide (lastContent st !! seg = Some formatted) then (st, tr)
        else
          let '(tr1, ok) :=
            Transport.editMessageText orc msg formatted true tr in
          if ok then (set_edit_time seg now (set_content seg formatted st), tr1)
          else
            let '(tr2, ok2) :=
              Transport.editMessageText orc msg formatted false tr1 in
            if ok2
            then (set_edit_time seg now (set_content seg formatted st), tr2)
            else (set_edit_time seg now st, tr2)
      else (st, tr)
  end.

(** The callback returned by [createStatusCallback(ctx, state)], called as
    [statusCallback(statusType, content, segmentId)] at clock reading [now];
    [chat] is the chat of [ctx].  Every exception is caught inside.
    [None]: the call does not return (the chunk loop of [segment_end] with a
    chunk length of zero). *)
Definition statusCallback (cfg : Config) (fmt : Formatting)
    (orc : Transport.Oracle) (chat : Z) (now : Z)
    (statusType : string) (content : string) (segmentId : option nat)
    (st : StreamingState) (tr : Transport.State)
  : option (StreamingState * Transport.State) :=
  if String.eqb statusType "thinking" then
    let preview :=
      if (500 <? String.length content)%nat
      then (Js.slice content 0 500 ++ "...")%string else content in
    let escaped := escapeHtml fmt preview in
    let '(tr1, sent) :=
      Transport.reply orc chat ("🧠 <i>" ++ escaped ++ "</i>")%string true tr in
    match sent with
    | Some m => Some (push_tool m st, tr1)
    | None => Some (st, tr1)
    end
  else if String.eqb statusType "tool" then
    let '(tr1, sent) := Transport.reply orc chat content true tr in
    match sent with
    | Some m => Some (push_tool m st, tr1)
    | None => Some (st, tr1)
    end
  else
    match segmentId with
    | Some seg =>
        if String.eqb statusType "text" then
          Some (on_text cfg fmt orc chat now content seg st tr)
        else if String.eqb statusType "segment_end" then
          on_segment_end cfg fmt orc chat content seg st tr
        else if String.eqb statusType "done" then
          Some (st, Transport.deleteAll orc (toolMessages st) tr)
        else Some (st, tr)
    | None =>
        if String.eqb statusType "done" then
          Some (st, Transport.deleteAll orc (toolMessages st) tr)
        else Some (st, tr)
    end.

(** One call of the status callback: the clock reading and the arguments. *)
Record Call := {
  call_now : Z;
  call_type : string;
  call_content : string;
  call_segment : option nat
}.

(** The calls that one streaming state receives, one after the other. *)
Fixpoint run_calls (cfg : Config) (fmt : Formatting) (orc : Transport.Oracle)
    (chat : Z) (cs : list Call) (st : StreamingState) (tr : Transport.State)
  : option (StreamingState * Transport.State) :=
  match cs with
  | [] => Some (st, tr)
  | c :: rest =>
      '(st1, tr1) ← statusCallback cfg fmt orc chat (call_now c) (call_type c)
                      (call_content c) (call_segment c) st tr;
      run_calls cfg fmt orc chat rest st1 tr1
  end.

(** The display units of the state were handed out by the transport: their
    ids are below the next id. *)
Definition units_known (st : StreamingState) (tr : Transport.State) : Prop :=
  (forall m, In m (toolMessages st) -> message_id m < Transport.next_id tr) /\
  (forall seg m, textMessages st !! seg = Some m ->
                 message_id m < Transport.next_id tr).

(** No ephemeral unit is the unit of a text segment. *)
Definition units_apart (st : StreamingState) : Prop :=
  forall m seg m',
    In m (toolMessages st) -> textMessages st !! seg = Some m' ->
    message_id m <> message_id m'.

(** What one call may do to the units: the next id does not go back, the
    units that the state holds stay, a unit that comes in has an id that
    the transport handed out during the call, and a call does not add to
    both kinds of units. *)
Definition units_step (st : StreamingState) (tr : Transport.State)
    (st' : StreamingState) (tr' : Transport.State) : Prop :=
  Transport.next_id tr <= Transport.next_id tr' /\
  (forall s m, textMessages st !! s = Some m -> textMessages st' !! s = Some m) /\
  (forall s m, textMessages st' !! s = Some m ->
     textMessages st !! s = Some m \/
     (Transport.next_id tr <= message_id m /\
      message_id m < Transport.next_id tr' /\
      toolMessages st' = toolMessages st)) /\
  (forall m, In m (toolMessages st') ->
     In m (toolMessages st) \/
     (Transport.next_id tr <= message_id m /\
      message_id m < Transport.next_id tr' /\
      textMessages st' = textMessages st)).

(** The text of a request that shows something. *)
Definition shown_text (r : Transport.Request) : option string :=
  match r with
  | Transport.Reply _ text _ => Some text
  | Transport.EditMessageText _ text _ => Some text
  | Transport.DeleteMessage _ => None
  end.

End Streaming.


(* ===================================================================== *)
(** * [src/session.ts] *)
(* ===================================================================== *)

Module ClaudeSession.

Record TokenUsage := {
  input_tokens : Z;
  output_tokens : Z;
  cache_read_input_tokens : option Z;
  cache_creation_input_tokens : option Z
}.

(** The record of the durable session store. *)
Record SessionData := {
  session_id : option string;
  saved_at : option string;
  working_dir : option string
}.

(** What [resumeLast] finds at [SESSION_FILE]: no file or an empty one, a
    content that [JSON.parse] rejects or that is not an object ([err] is the
    exception as a string), or a record. *)
Inductive SessionFile :=
| NoFile
| Unparsable (err : string)
| Saved (data : SessionData).

(** [AbortController]: [Some aborted], or [None] for [null]. *)
Record Session := {
  sessionId : option string;
  lastActivity : option Z;
  queryStarted : option Z;
  currentTool : option string;
  lastTool : option string;
  lastError : option string;
  lastErrorTime : option Z;
  lastUsage : option TokenUsage;
  lastMessage : option string;
  abortController : option bool;
  isQueryRunning : bool;
  stopRequested : bool;
  _isProcessing : bool;
  _wasInterruptedByNewMessage : bool
}.

(** [new ClaudeSession()] *)
Definition empty : Session :=
  {| sessionId := None; lastActivity := None; queryStarted := None;
     currentTool := None; lastTool := None; lastError := None;
     lastErrorTime := None; lastUsage := None; lastMessage := None;
     abortController := None; isQueryRunning := false;
     stopRequested := false; _isProcessing := false;
     _wasInterruptedByNewMessage := false |}.

Definition isActive (s : Session) : bool :=
  match sessionId s with Some _ => true | None => false end.

Definition isRunning (s : Session) : bool :=
  isQueryRunning s || _isProcessing s.

Definition set_stopRequested (b : bool) (s : Session) : Session :=
  {| sessionId := sessionId s; lastActivity := lastActivity s;
     queryStarted := queryStarted s; currentTool := currentTool s;
     lastTool := lastTool s; lastError := lastError s;
     lastErrorTime := lastErrorTime s; lastUsage := lastUsage s;
     lastMessage := lastMessage s; abortController := abortController s;
     isQueryRunning := isQueryRunning s; stopRequested := b;
     _isProcessing := _isProcessing s;
     _wasInterruptedByNewMessage := _wasInterruptedByNewMessage s |}.

Definition set_isProcessing (b : bool) (s : Session) : Session :=
  {| sessionId := sessionId s; lastActivity := lastActivity s;
     queryStarted := queryStarted s; currentTool := currentTool s;
     lastTool := lastTool s; lastError := lastError s;
     lastErrorTime := lastErrorTime s; lastUsage := lastUsage s;
     lastMessage := lastMessage s; abortController := abortController s;
     isQueryRunning := isQueryRunning s; stopRequested := stopRequested s;
     _isProcessing := b;
     _wasInterruptedByNewMessage := _wasInterruptedByNewMessage s |}.

Definition set_interrupted (b : bool) (s : Session) : Session :=
  {| sessionId := sessionId s; lastActivity := lastActivity s;
     queryStarted := queryStarted s; currentTool := currentTool s;
     lastTool := lastTool s; lastError := lastError s;
     lastErrorTime := lastErrorTime s; lastUsage := lastUsage s;
     lastMessage := lastMessage s; abortController := abortController s;
     isQueryRunning := isQueryRunning s; stopRequested := stopRequested s;
     _isProcessing := _isProcessing s;
     _wasInterruptedByNewMessage := b |}.

Definition set_sessionId (i : option string) (s : Session) : Session :=
  {| sessionId := i; lastActivity := lastActivity s;
     queryStarted := queryStarted s; currentTool := currentTool s;
     lastTool := lastTool s; lastError := lastError s;
     lastErrorTime := lastErrorTime s; lastUsage := lastUsage s;
     lastMessage := lastMessage s; abortController := abortController s;
     isQueryRunning := isQueryRunning s; stopRequested := stopRequested s;
     _isProcessing := _isProcessing s;
     _wasInterruptedByNewMessage := _wasInterruptedByNewMessage s |}.

Definition set_lastActivity (t : option Z) (s : Session) : Session :=
  {| sessionId := sessionId s; lastActivity := t;
     queryStarted := queryStarted s; currentTool := currentTool s;
     lastTool := lastTool s; lastError := lastError s;
     lastErrorTime := lastErrorTime s; lastUsage := lastUsage s;
     lastMessage := lastMessage s; abortController := abortController s;
     isQueryRunning := isQueryRunning s; stopRequested := stopRequested s;
     _isProcessing := _isProcessing s;
     _wasInterruptedByNewMessage := _wasInterruptedByNewMessage s |}.

Definition set_lastMessage (m : option string) (s : Session) : Session :=
  {| sessionId := sessionId s; lastActivity := lastActivity s;
     queryStarted := queryStarted s; currentTool := currentTool s;
     lastTool := lastTool s; lastError := lastError s;
     lastErrorTime := lastErrorTime s; lastUsage := lastUsage s;
     lastMessage := m; abortController := abortController s;
     isQueryRunning := isQueryRunning s; stopRequested := stopRequested s;
     _isProcessing := _isProcessing s;
     _wasInterruptedByNewMessage := _wasInterruptedByNewMessage s |}.

Definition set_tools (cur last : option string) (s : Session) : Session :=
  {| sessionId := sessionId s; lastActivity := lastActivity s;
     queryStarted := queryStarted s; currentTool := cur;
     lastTool := last; lastError := lastError s;
     lastErrorTime := lastErrorTime s; lastUsage := lastUsage s;
     lastMessage := lastMessage s; abortController := abortController s;
     isQueryRunning := isQueryRunning s; stopRequested := stopRequested s;
     _isProcessing := _isProcessing s;
     _wasInterruptedByNewMessage := _wasInterruptedByNewMessage s |}.

Definition set_lastUsage (u : option TokenUsage) (s : Session) : Session :=
  {| sessionId := sessionId s; lastActivity := lastActivity s;
     queryStarted := queryStarted s; currentTool := currentTool s;
     lastTool := lastTool s; lastError := lastError s;
     lastErrorTime := lastErrorTime s; lastUsage := u;
     lastMessage := lastMessage s; abortController := abortController s;
     isQueryRunning := isQueryRunning s; stopRequested := stopRequested s;
     _isProcessing := _isProcessing s;
     _wasInterruptedByNewMessage := _wasInterruptedByNewMessage s |}.

Definition set_lastError (e : option string) (t : option Z) (s : Session)
  : Session :=
  {| sessionId := sessionId s; lastActivity := lastActivity s;
     queryStarted := queryStarted s; currentTool := currentTool s;
     lastTool := lastTool s; lastError := e;
     lastErrorTime := t; lastUsage := lastUsage s;
     lastMessage := lastMessage s; abortController := abortController s;
     isQueryRunning := isQueryRunning s; stopRequested := stopRequested s;
     _isProcessing := _isProcessing s;
     _wasInterruptedByNewMessage := _wasInterruptedByNewMessage s |}.

(** [consumeInterruptFlag()] *)
Definition consumeInterruptFlag (s : Session) : Session * bool :=
  let was := _wasInterruptedByNewMessage s in
  let s1 := set_interrupted false s in
  (if was then set_stopRequested false s1 else s1, was).

(** [markInterrupt()] *)
Definition markInterrupt (s : Session) : Session := set_interrupted true s.

(** [clearStopRequested()] *)
Definition clearStopRequested (s : Session) : Session :=
  set_stopRequested false s.

(** [startProcessing()]; the function that it returns is [release]. *)
Definition startProcessing (s : Session) : Session := set_isProcessing true s.

Definition release (s : Session) : Session := set_isProcessing false s.

Inductive StopResult := Stopped | Pending | NothingToStop.

(** [stop()]: ["stopped"], ["pending"] or [false]. *)
Definition stop (s : Session) : Session * StopResult :=
  if isQueryRunning s && bool_decide (abortController s <> None) then
    ({| sessionId := sessionId s; lastActivity := lastActivity s;
        queryStarted := queryStarted s; currentTool := currentTool s;
        lastTool := lastTool s; lastError := lastError s;
        lastErrorTime := lastErrorTime s; lastUsage := lastUsage s;
        lastMessage := lastMessage s; abortController := Some true;
        isQueryRunning := isQueryRunning s; stopRequested := true;
        _isProcessing := _isProcessing s;
        _wasInterruptedByNewMessage := _wasInterruptedByNewMessage s |},
     Stopped)
  else if _isProcessing s then (set_stopRequested true s, Pending)
  else (s, NothingToStop).

(** [kill()] *)
Definition kill (s : Session) : Session :=
  set_lastActivity None (set_sessionId None s).

(** [getThinkingLevel(message)] *)
Definition getThinkingLevel (cfg : Config) (message : string) : Z :=
  let msgLower := Js.toLowerCase message in
  if existsb (fun k => Js.includes msgLower k) (THINKING_DEEP_KEYWORDS cfg)
  then 50000
  else if existsb (fun k => Js.includes msgLower k) (THINKING_KEYWORDS cfg)
  then 10000
  else 0.

(** [resumeLast()] at clock reading [now], on the content of the session
    file. *)
Definition resumeLast (cfg : Config) (now : Z) (file : SessionFile)
    (s : Session) : Session * (bool * string) :=
  match file with
  | NoFile => (s, (false, "No saved session found"%string))
  | Unparsable err => (s, (false, ("Failed to load session: " ++ err)%string))
  | Saved data =>
      if negb (Js.truthy_opt (session_id data)) then
        (s, (false, "Saved session file is empty"%string))
      else if Js.truthy_opt (working_dir data) &&
              negb (bool_decide (working_dir data = Some (WORKING_DIR cfg)))
      then
        (s, (false, ("Session was for different directory: " ++
                     default "" (working_dir data))%string))
      else
        (set_lastActivity (Some now) (set_sessionId (session_id data) s),
         (true,
          ("Resumed session `" ++
           Js.slice (default "" (session_id data)) 0 8 ++
           "...` (saved at " ++ default "undefined" (saved_at data) ++ ")")%string))
  end.

(** ** The engine *)

Inductive Block :=
| Thinking (thinking : string)
| ToolUse (name : string) (input : ToolInput)
| Text (text : string)
| OtherBlock.

Inductive Body :=
| Assistant (content : list Block)
| Result (usage : option TokenUsage)
| OtherBody.

Record SDKMessage := { ev_session_id : option string; body : Body }.

(** The texts of the text blocks of a message content, in order. *)
Definition text_parts (content : list Block) : list string :=
  omap (fun block => match block with
                     | Text text => Some text
                     | _ => None
                     end) content.

(** [getTextFromMessage(msg)]: [None] is [null]. *)
Definition getTextFromMessage (msg : SDKMessage) : option string :=
  match body msg with
  | Assistant content =>
      let textParts := text_parts content in
      if (0 <? List.length textParts)%nat then Some (Js.join textParts)
      else None
  | _ => None
  end.

(** What other handlers do to the session while the orchestrator waits for
    the next event of the stream. *)
Inductive Poke :=
| PokeStop
| PokeClearStopRequested
| PokeMarkInterrupt
| PokeKill.

(** One turn of the [for await] loop: what happened to the session while
    waiting, the clock reading when the event arrives, and the event. *)
Record StreamItem := { pokes : list Poke; at_ms : Z; event : SDKMessage }.

(** The behaviour of one engine invocation: the events that it yields and
    how the stream ends, normally or with an exception ([failure] is the
    exception as [String(error)]). *)
Record EngineRun := {
  stream : list StreamItem;
  end_pokes : list Poke;
  end_ms : Z;
  failure : option string
}.

(** The options that vary from one [query()] call to the next. *)
Record Invocation := {
  prompt : string;
  inv_cwd : string;
  systemPrompt : string;
  maxThinkingTokens : Z;
  additionalDirectories : list string;
  resume : option string;
  pathToClaudeCodeExecutable : option string
}.

(** The engine collaborator: its behaviour on an invocation, given the
    number of invocations before it. *)
Definition Engine := nat -> Invocation -> EngineRun.

(** The orchestrator and what it shares with its callers. *)
Record World := {
  session : Session;
  file : SessionFile;
  invocations : list Invocation;
  transport : Transport.State
}.

Definition with_session (s : Session) (w : World) : World :=
  {| session := s; file := file w; invocations := invocations w;
     transport := transport w |}.

Definition with_transport (tr : Transport.State) (w : World) : World :=
  {| session := session w; file := file w; invocations := invocations w;
     transport := tr |}.

Definition poke (p : Poke) (s : Session) : Session :=
  match p with
  | PokeStop => fst (stop s)
  | PokeClearStopRequested => clearStopRequested s
  | PokeMarkInterrupt => markInterrupt s
  | PokeKill => kill s
  end.

Definition poke_all (ps : list Poke) (w : World) : World :=
  with_session (fold_left (fun s p => poke p s) ps (session w)) w.

(** [saveSession()] at clock reading [now]. *)
Definition saveSession (cfg : Config) (fmt : Formatting) (now : Z)
    (w : World) : World :=
  if negb (Js.truthy_opt (sessionId (session w))) then w
  else
    {| session := session w;
       file := Saved {| session_id := sessionId (session w);
                        saved_at := Some (toISOString fmt now);
                        working_dir := Some (WORKING_DIR cfg) |};
       invocations := invocations w; transport := transport w |}.

(** The local variables of [sendMessageStreaming]. *)
Record Locals := {
  responseParts : list string;
  currentSegmentId : nat;
  currentSegmentText : string;
  lastTextUpdate : Z;
  queryCompleted : bool
}.

Inductive Outcome :=
| Returns (response : string)
| Throws (errorStr : string).

(** The fields of the session that the handler of the turn manages. *)
Definition handler_fields (s : Session) : bool * option string :=
  (_isProcessing s, lastMessage s).

(** The reads that are let through without a path check: [Read] of a
    path that starts with a temp root or that contains [/.claude/]. *)
Definition exempt_read (cfg : Config) (toolName filePath : string) : bool :=
  String.eqb toolName "Read" &&
  (existsb (fun p => Js.startsWith filePath p) (TEMP_PATHS cfg) ||
   Js.includes filePath "/.claude/").

(** The block passes the checks that come before a tool call is shown: a
    [Bash] command is judged safe, and the path of a file tool, if it has
    one, is exempt or allowed. *)
Definition tool_cleared (cfg : Config) (env : Env) (b : Block) : bool :=
  match b with
  | ToolUse toolName toolInput =>
      let filePath := default ""%string (file_path toolInput) in
      (negb (String.eqb toolName "Bash") ||
       fst (Security.checkCommandSafety cfg env
              (default ""%string (command toolInput)))) &&
      (negb (existsb (String.eqb toolName) ["Read"; "Write"; "Edit"]%string &&
             Js.truthy filePath) ||
       exempt_read cfg toolName filePath ||
       Security.isPathAllowed cfg env filePath)
  | _ => true
  end.

Section Streaming.

Variables (cfg : Config) (env : Env) (fmt : Formatting)
          (orc : Transport.Oracle) (chat : Z).

(** [await statusCallback(statusType, content, segmentId)] *)
Definition callback (now : Z) (statusType content : string)
    (segmentId : option nat) (st : Streaming.StreamingState) (w : World)
  : option (Streaming.StreamingState * World) :=
  '(st1, tr1) ← Streaming.statusCallback cfg fmt orc chat now statusType
                  content segmentId st (transport w);
  Some (st1, with_transport tr1 w).

(** The body of the loop over the content blocks for one block; the last
    component is the exception that the block raised, if any. *)
Definition process_block (now : Z) (b : Block)
    (st : Streaming.StreamingState) (w : World) (l : Locals)
  : option (Streaming.StreamingState * World * Locals * option string) :=
  match b with
  | Thinking thinkingText =>
      if Js.truthy thinkingText then
        '(st1, w1) ← callback now "thinking" thinkingText None st w;
        Some (st1, w1, l, None)
      else Some (st, w, l, None)
  | ToolUse toolName toolInput =>
      let '(isSafe, reason) :=
        if String.eqb toolName "Bash"
        then Security.checkCommandSafety cfg env (default "" (command toolInput))
        else (true, ""%string) in
      if negb isSafe then
        '(st1, w1) ← callback now "tool" ("BLOCKED: " ++ reason) None st w;
        Some (st1, w1, l, Some ("Error: Unsafe command blocked: " ++ reason)%string)
      else
        let filePath := default ""%string (file_path toolInput) in
        let isFileTool :=
          existsb (String.eqb toolName) ["Read"; "Write"; "Edit"]%string in
        let isTmpRead :=
          String.eqb toolName "Read" &&
          (existsb (fun p => Js.startsWith filePath p) (TEMP_PATHS cfg) ||
           Js.includes filePath "/.claude/") in
        if isFileTool && Js.truthy filePath && negb isTmpRead &&
           negb (Security.isPathAllowed cfg env filePath)
        then
          '(st1, w1) ← callback now "tool" ("Access denied: " ++ filePath)
                         None st w;
          Some (st1, w1, l, Some ("Error: File access blocked: " ++ filePath)%string)
        else
          '(st1, w1, l1) ←
            (if Js.truthy (currentSegmentText l) then
               '(st1, w1) ← callback now "segment_end" (currentSegmentText l)
                              (Some (currentSegmentId l)) st w;
               Some (st1, w1,
                     {| responseParts := responseParts l;
                        currentSegmentId := S (currentSegmentId l);
                        currentSegmentText := "";
                        lastTextUpdate := lastTextUpdate l;
                        queryCompleted := queryCompleted l |})
             else Some (st, w, l));
          let toolDisplay := formatToolStatus fmt toolName toolInput in
          let w2 :=
            with_session
              (set_tools (Some toolDisplay) (Some toolDisplay) (session w1))
              w1 in
          '(st2, w3) ← callback now "tool" toolDisplay None st1 w2;
          Some (st2, w3, l1, None)
  | Text text =>
      let segText := (currentSegmentText l ++ text)%string in
      let l1 :=
        {| responseParts := responseParts l ++ [text];
           currentSegmentId := currentSegmentId l;
           currentSegmentText := segText;
           lastTextUpdate := lastTextUpdate l;
           queryCompleted := queryCompleted l |} in
      if (STREAMING_THROTTLE_MS cfg <? now - lastTextUpdate l) &&
         (20 <? String.length segText)%nat
      then
        '(st1, w1) ← callback now "text" segText
                       (Some (currentSegmentId l)) st w;
        Some (st1, w1,
              {| responseParts := responseParts l1;
                 currentSegmentId := currentSegmentId l1;
                 currentSegmentText := currentSegmentText l1;
                 lastTextUpdate := now;
                 queryCompleted := queryCompleted l1 |}, None)
      else Some (st, w, l1, None)
  | OtherBlock => Some (st, w, l, None)
  end.

(** [for (const block of event.message.content)], left at the first
    exception. *)
Fixpoint process_blocks (now : Z) (bs : list Block)
    (st : Streaming.StreamingState) (w : World) (l : Locals)
  : option (Streaming.StreamingState * World * Locals * option string) :=
  match bs with
  | [] => Some (st, w, l, None)
  | b :: rest =>
      '(st1, w1, l1, raised) ← process_block now b st w l;
      match raised with
      | Some e => Some (st1, w1, l1, Some e)
      | None => process_blocks now rest st1 w1 l1
      end
  end.

(** The body of the [for await] loop for one event that passed the stop
    check. *)
Definition process_event (now : Z) (ev : SDKMessage)
    (st : Streaming.StreamingState) (w : World) (l : Locals)
  : option (Streaming.StreamingState * World * Locals * option string) :=
  let w1 :=
    if negb (Js.truthy_opt (sessionId (session w))) &&
       Js.truthy_opt (ev_session_id ev)
    then saveSession cfg fmt now
           (with_session (set_sessionId (ev_session_id ev) (session w)) w)
    else w in
  match body ev with
  | Assistant content => process_blocks now content st w1 l
  | Result usage =>
      let w2 :=
        match usage with
        | Some u => with_session (set_lastUsage (Some u) (session w1)) w1
        | None => w1
        end in
      Some (st, w2,
            {| responseParts := responseParts l;
               currentSegmentId := currentSegmentId l;
               currentSegmentText := currentSegmentText l;
               lastTextUpdate := lastTextUpdate l;
               queryCompleted := true |}, None)
  | OtherBody => Some (st, w1, l, None)
  end.

(** How the [for await] loop was left. *)
Inductive LoopExit :=
| Exhausted
| Broke
| Raised (errorStr : string).

(** [for await (const event of queryInstance)] *)
Fixpoint consume (items : list StreamItem)
    (st : Streaming.StreamingState) (w : World) (l : Locals)
  : option (Streaming.StreamingState * World * Locals * LoopExit) :=
  match items with
  | [] => Some (st, w, l, Exhausted)
  | item :: rest =>
      let w1 := poke_all (pokes item) w in
      if stopRequested (session w1) then Some (st, w1, l, Broke)
      else
        '(st2, w2, l2, raised) ← process_event (at_ms item) (event item) st w1 l;
        match raised with
        | Some e => Some (st2, w2, l2, Raised e)
        | None => consume rest st2 w2 l2
        end
  end.

(** The state of the session when the query starts. *)
Definition begin_query (now : Z) (s : Session) : Session :=
  {| sessionId := sessionId s; lastActivity := lastActivity s;
     queryStarted := Some now; currentTool := None;
     lastTool := lastTool s; lastError := lastError s;
     lastErrorTime := lastErrorTime s; lastUsage := lastUsage s;
     lastMessage := lastMessage s; abortController := Some false;
     isQueryRunning := true; stopRequested := false;
     _isProcessing := _isProcessing s;
     _wasInterruptedByNewMessage := _wasInterruptedByNewMessage s |}.

(** The [finally] clause. *)
Definition end_query (s : Session) : Session :=
  {| sessionId := sessionId s; lastActivity := lastActivity s;
     queryStarted := None; currentTool := None;
     lastTool := lastTool s; lastError := lastError s;
     lastErrorTime := lastErrorTime s; lastUsage := lastUsage s;
     lastMessage := lastMessage s; abortController := None;
     isQueryRunning := false; stopRequested := stopRequested s;
     _isProcessing := _isProcessing s;
     _wasInterruptedByNewMessage := _wasInterruptedByNewMessage s |}.

(** The prompt: the message, after a date line on the first turn of a
    session. *)
Definition messageToSend (now : Z) (isNewSession : bool) (message : string)
  : string :=
  if isNewSession then
    ("[Current date/time: " ++ toLocaleDateString fmt now ++ "]" ++
     Js.nl ++ Js.nl ++ message)%string
  else message.

(** The options of the [query()] call, as they are built at the start of
    [sendMessageStreaming]. *)
Definition invocation_of (now : Z) (message : string) (s : Session)
  : Invocation :=
  {| prompt := messageToSend now (negb (isActive s)) message;
     inv_cwd := WORKING_DIR cfg;
     systemPrompt := SAFETY_PROMPT cfg;
     maxThinkingTokens := getThinkingLevel cfg message;
     additionalDirectories := ALLOWED_PATHS cfg;
     resume := if Js.truthy_opt (sessionId s) then sessionId s else None;
     pathToClaudeCodeExecutable :=
       if Js.truthy_opt (CLAUDE_CODE_PATH env) then CLAUDE_CODE_PATH env
       else None |}.

(** [sendMessageStreaming(message, username, userId, statusCallback)] at
    clock reading [now]; the status callback is the one of [chat] and of the
    streaming state [st].  [None]: the call does not return. *)
Definition sendMessageStreaming (engine : Engine) (now : Z)
    (message : string) (st : Streaming.StreamingState) (w : World)
  : option (Streaming.StreamingState * World * Outcome) :=
  let s := session w in
  let isNewSession := negb (isActive s) in
  let inv := invocation_of now message s in
  let s1 :=
    if Js.truthy_opt (sessionId s) && negb isNewSession then s
    else set_sessionId None s in
  if stopRequested s1 then
    Some (st, with_session (set_stopRequested false s1) w,
          Throws "Error: Query cancelled")
  else
    let run := engine (List.length (invocations w)) inv in
    let w1 :=
      {| session := begin_query now s1; file := file w;
         invocations := invocations w ++ [inv];
         transport := transport w |} in
    let l0 :=
      {| responseParts := []; currentSegmentId := 0%nat;
         currentSegmentText := ""; lastTextUpdate := 0;
         queryCompleted := false |} in
    '(st2, w2, l2, exit) ← consume (stream run) st w1 l0;
    let '(w3, raised) :=
      match exit with
      | Exhausted => (poke_all (end_pokes run) w2, failure run)
      | Broke => (w2, None)
      | Raised e => (w2, Some e)
      end in
    let rethrown :=
      match raised with
      | Some e =>
          let errorStr := Js.toLowerCase e in
          let isCleanupError :=
            Js.includes errorStr "cancel" || Js.includes errorStr "abort" in
          if isCleanupError &&
             (queryCompleted l2 || stopRequested (session w3))
          then None else Some e
      | None => None
      end in
    match rethrown with
    | Some e =>
        let s4 :=
          end_query
            (set_lastError (Some (Js.slice e 0 100)) (Some (end_ms run))
                           (session w3)) in
        Some (st2, with_session s4 w3, Throws e)
    | None =>
        let s4 :=
          set_lastError None None
            (set_lastActivity (Some (end_ms run)) (end_query (session w3))) in
        let w4 := with_session s4 w3 in
        '(st5, w5) ←
          (if Js.truthy (currentSegmentText l2) then
             callback (end_ms run) "segment_end" (currentSegmentText l2)
                      (Some (currentSegmentId l2)) st2 w4
           else Some (st2, w4));
        '(st6, w6) ← callback (end_ms run) "done" "" None st5 w5;
        let response := Js.join (responseParts l2) in
        Some (st6, w6,
              Returns (if Js.truthy response then response
                       else "No response from Claude."))
    end.

End Streaming.

End ClaudeSession.

(* ===================================================================== *)
(** * [src/handlers/assistant.ts] and [src/handlers/commands.ts] *)
(* ===================================================================== *)

Module Handlers.

Inductive AuditEvent :=
| AuditMessage (userId : Z) (username messageType content response : string)
| AuditRateLimit (userId : Z) (username : string) (retryAfter : Q).

(** The process as the handlers see it: the session and the transport, the
    buckets of the rate limiter, the audit log, and a record of the calls of
    [session.sendMessageStreaming] (message and streaming state handed to
    each call). *)
Record State := {
  world : ClaudeSession.World;
  buckets : gmap Z Security.RateLimitBucket;
  audit : list AuditEvent;
  calls : list (string * Streaming.StreamingState)
}.

Definition with_world (w : ClaudeSession.World) (hs : State) : State :=
  {| world := w; buckets := buckets hs; audit := audit hs;
     calls := calls hs |}.

Definition with_session (s : ClaudeSession.Session) (hs : State) : State :=
  with_world (ClaudeSession.with_session s (world hs)) hs.

Definition session_of (hs : State) : ClaudeSession.Session :=
  ClaudeSession.session (world hs).

Definition log_audit (e : AuditEvent) (hs : State) : State :=
  {| world := world hs; buckets := buckets hs; audit := audit hs ++ [e];
     calls := calls hs |}.

Definition log_call (message : string) (st : Streaming.StreamingState)
    (hs : State) : State :=
  {| world := world hs; buckets := buckets hs; audit := audit hs;
     calls := calls hs ++ [(message, st)] |}.

(** How a handler is left: it returns, or an exception of a [ctx.reply]
    that nothing catches leaves it. *)
Inductive Exit := Completed | Uncaught.

(** [await ctx.reply(text)] in a handler, without parse mode. *)
Definition say (orc : Transport.Oracle) (chat : Z) (text : string)
    (hs : State) : State * bool :=
  let '(tr, sent) :=
    Transport.reply orc chat text false
                    (ClaudeSession.transport (world hs)) in
  (with_world (ClaudeSession.with_transport tr (world hs)) hs,
   match sent with Some _ => true | None => false end).

Definition MAX_RETRIES : nat := 1.

(** The start of the [catch] block: the tool messages of the failed attempt
    are deleted, failures of the deletion being ignored. *)
Definition cleanup_tools (orc : Transport.Oracle)
    (st : Streaming.StreamingState) (hs : State) : State :=
  with_world
    (ClaudeSession.with_transport
       (Transport.deleteAll orc (Streaming.toolMessages st)
          (ClaudeSession.transport (world hs)))
       (world hs)) hs.

(** The crash branch up to its [continue]: [session.kill()] and the notice
    to the user. *)
Definition announce_retry (orc : Transport.Oracle) (chat : Z) (hs : State)
  : State * bool :=
  say orc chat "⚠️ Claude crashed, retrying..."
      (with_session (ClaudeSession.kill (session_of hs)) hs).

(** The state in which the retry is made after a first attempt on
    [trimmed] that ended in the streaming state [st1] and the world [w1]. *)
Definition retry_state (orc : Transport.Oracle) (chat : Z) (trimmed : string)
    (st1 : Streaming.StreamingState) (w1 : ClaudeSession.World) (hs : State)
  : State :=
  fst (announce_retry orc chat
         (cleanup_tools orc st1
            (with_world w1 (log_call trimmed Streaming.fresh hs)))).

(** The other branch of the [catch] block: a cancellation shows the stop
    notice unless a new message interrupted the query; any other error is
    shown. *)
Definition report_failure (orc : Transport.Oracle) (chat : Z)
    (errorStr : string) (hs : State) : State * bool :=
  if Js.includes errorStr "abort" || Js.includes errorStr "cancel" then
    let '(s', wasInterrupt) :=
      ClaudeSession.consumeInterruptFlag (session_of hs) in
    let hs1 := with_session s' hs in
    if negb wasInterrupt then say orc chat "🛑 Query stopped." hs1
    else (hs1, true)
  else say orc chat ("❌ Error: " ++ Js.slice errorStr 0 200) hs.

Section Assistant.

Variables (cfg : Config) (env : Env) (fmt : Formatting)
          (orc : Transport.Oracle) (engine : ClaudeSession.Engine)
          (clock : nat -> Z).

(** The loop [for (let attempt = 0; attempt <= MAX_RETRIES; attempt++)];
    [remaining] counts the iterations that the loop condition still
    allows. *)
Fixpoint attempts (remaining attempt : nat) (chat userId : Z)
    (username trimmed : string) (st : Streaming.StreamingState) (hs : State)
  : option (State * Exit) :=
  match remaining with
  | O => Some (hs, Completed)
  | S remaining' =>
      let hs1 := log_call trimmed st hs in
      '(st1, w1, out) ←
        ClaudeSession.sendMessageStreaming cfg env fmt orc chat engine
          (clock attempt) trimmed st (world hs1);
      let hs2 := with_world w1 hs1 in
      match out with
      | ClaudeSession.Returns response =>
          Some (log_audit
                  (AuditMessage userId username "CLAUDE" trimmed response) hs2,
                Completed)
      | ClaudeSession.Throws errorStr =>
          let isClaudeCodeCrash := Js.includes errorStr "exited with code" in
          let hs3 := cleanup_tools orc st1 hs2 in
          if isClaudeCodeCrash && (attempt <? MAX_RETRIES)%nat then
            let '(hs4, ok) := announce_retry orc chat hs3 in
            if ok then
              attempts remaining' (S attempt) chat userId username trimmed
                       Streaming.fresh hs4
            else Some (hs4, Uncaught)
          else
            let '(hs4, ok) := report_failure orc chat errorStr hs3 in
            Some (hs4, if ok then Completed else Uncaught)
      end
  end.

(** [handleAssistantMessage(ctx, message)].  The typing indicator, which
    only sends chat actions until it is stopped, is left out.  [None]: the
    handler does not return. *)
Definition handleAssistantMessage (c : Ctx) (message : string) (hs : State)
  : option (State * Exit) :=
  if falsy_id (from_id c) || falsy_id (chat_id c) then Some (hs, Completed)
  else
    let userId := default 0 (from_id c) in
    let chat := default 0 (chat_id c) in
    let username := username_of c in
    if negb (Security.isAuthorized (Some userId) (ALLOWED_USERS cfg)) then
      let '(hs1, ok) :=
        say orc chat "Unauthorized. Contact the bot owner for access." hs in
      Some (hs1, if ok then Completed else Uncaught)
    else
      let '(b, (allowed, retryAfter)) :=
        Security.check cfg (clock 0%nat) userId (buckets hs) in
      let hs1 :=
        {| world := world hs; buckets := b; audit := audit hs;
           calls := calls hs |} in
      if negb allowed then
        let ra := default 0%Q retryAfter in
        let hs2 := log_audit (AuditRateLimit userId username ra) hs1 in
        let '(hs3, ok) :=
          say orc chat
              ("⏳ Rate limited. Please wait " ++ toFixed1 fmt ra ++ " seconds.")
              hs2 in
        Some (hs3, if ok then Completed else Uncaught)
      else
        let trimmed := Js.trim message in
        if negb (Js.truthy trimmed) then
          let '(hs2, ok) :=
            say orc chat "Please include a message after /claude." hs1 in
          Some (hs2, if ok then Completed else Uncaught)
        else
          let hs2 :=
            with_session
              (ClaudeSession.startProcessing
                 (ClaudeSession.set_lastMessage (Some trimmed) (session_of hs1)))
              hs1 in
          '(hs3, exit) ← attempts (S MAX_RETRIES) 0 chat userId username trimmed
                            Streaming.fresh hs2;
          match exit with
          | Completed =>
              Some (with_session (ClaudeSession.release (session_of hs3)) hs3,
                    Completed)
          | Uncaught => Some (hs3, Uncaught)
          end.

End Assistant.

(** [handleStop(ctx)] up to its [await Bun.sleep(100)]: the authorization
    check and [session.stop()].  The result tells whether the second half is
    still to run. *)
Definition handleStop_begin (cfg : Config) (orc : Transport.Oracle) (c : Ctx)
    (hs : State) : State * bool :=
  if negb (Security.isAuthorized (from_id c) (ALLOWED_USERS cfg)) then
    (fst (say orc (default 0 (chat_id c)) "Unauthorized." hs), false)
  else if ClaudeSession.isRunning (session_of hs) then
    let '(s', result) := ClaudeSession.stop (session_of hs) in
    (with_session s' hs,
     match result with
     | ClaudeSession.NothingToStop => false
     | _ => true
     end)
  else (hs, false).

(** The second half of [handleStop], 100 ms later:
    [session.clearStopRequested()]. *)
Definition handleStop_finish (hs : State) : State :=
  with_session (ClaudeSession.clearStopRequested (session_of hs)) hs.

(** [handleNew(ctx)] up to its [await Bun.sleep(100)]: the authorization
    check and the stop of a running query.  [None]: the handler has
    returned; [Some slept]: the rest is still to run, after the sleep when
    [slept] holds. *)
Definition handleNew_begin (cfg : Config) (orc : Transport.Oracle) (c : Ctx)
    (hs : State) : State * option bool :=
  if negb (Security.isAuthorized (from_id c) (ALLOWED_USERS cfg)) then
    (fst (say orc (default 0 (chat_id c)) "Unauthorized." hs), None)
  else if ClaudeSession.isRunning (session_of hs) then
    let '(s', result) := ClaudeSession.stop (session_of hs) in
    (with_session s' hs,
     Some match result with
          | ClaudeSession.NothingToStop => false
          | _ => true
          end)
  else (hs, Some false).

(** The rest of [handleNew]: [session.clearStopRequested()] after the
    sleep, [session.kill()] and the confirmation. *)
Definition handleNew_finish (orc : Transport.Oracle) (c : Ctx) (slept : bool)
    (hs : State) : State * bool :=
  let hs1 :=
    if slept
    then with_session (ClaudeSession.clearStopRequested (session_of hs)) hs
    else hs in
  say orc (default 0 (chat_id c))
      "🆕 Session cleared. Next message starts fresh."
      (with_session (ClaudeSession.kill (session_of hs1)) hs1).

(** [handleNew(ctx)] when nothing else touches the session during its
    sleep. *)
Definition handleNew (cfg : Config) (orc : Transport.Oracle) (c : Ctx)
    (hs : State) : State :=
  match handleNew_begin cfg orc c hs with
  | (hs1, Some slept) => fst (handleNew_finish orc c slept hs1)
  | (hs1, None) => hs1
  end.

(** [handleResume(ctx)] at clock reading [now]; the result tells whether
    the reply went through. *)
Definition handleResume (cfg : Config) (orc : Transport.Oracle) (now : Z)
    (c : Ctx) (hs : State) : State * bool :=
  let chat := default 0 (chat_id c) in
  if negb (Security.isAuthorized (from_id c) (ALLOWED_USERS cfg)) then
    say orc chat "Unauthorized." hs
  else if ClaudeSession.isActive (session_of hs) then
    say orc chat "Session already active. Use /new to start fresh first." hs
  else
    let '(s', (success, message)) :=
      ClaudeSession.resumeLast cfg now (ClaudeSession.file (world hs))
                               (session_of hs) in
    say orc chat ((if success then "✅ " else "❌ ") ++ message)
        (with_session s' hs).

(** The gates of [handleAssistantMessage]: the ids, the authorization, the
    rate limit at clock reading [now] and the empty message. *)
Definition refused (cfg : Config) (now : Z) (c : Ctx) (message : string)
    (hs : State) : bool :=
  falsy_id (from_id c) || falsy_id (chat_id c) ||
  negb (Security.isAuthorized (Some (default 0 (from_id c))) (ALLOWED_USERS cfg)) ||
  negb (fst (snd (Security.check cfg now (default 0 (from_id c)) (buckets hs)))) ||
  negb (Js.truthy (Js.trim message)).

End Handlers.

(* ===================================================================== *)
(** * [src/handlers/text.ts] *)
(* ===================================================================== *)

Module TextHandler.

(** [appendDailyEntry(rawText)] as the handler sees it, given the entries
    appended so far: it throws ([inl] of the exception as a string) or it
    has appended the entry and returns [dateStamp] and [timeStamp]. *)
Definition Vault := list string -> string -> string + (string * string).

(** The process as [handleText] sees it: what the other handlers see, and
    the entries appended to the daily notes. *)
Record State := { base : Handlers.State; entries : list string }.

Definition with_base (hs : Handlers.State) (ts : State) : State :=
  {| base := hs; entries := entries ts |}.

(** [await ctx.reply(text)] *)
Definition say (orc : Transport.Oracle) (chat : Z) (text : string)
    (ts : State) : State * bool :=
  let '(hs, ok) := Handlers.say orc chat text (base ts) in
  (with_base hs ts, ok).

(** [handleText(ctx)] at clock reading [now]; [text] is
    [ctx.message?.text] and [replyError] the exception of a [ctx.reply]
    that throws, as a string. *)
Definition handleText (cfg : Config) (fmt : Formatting)
    (orc : Transport.Oracle) (vault : Vault) (replyError : string) (now : Z)
    (c : Ctx) (text : option string) (ts : State) : State * Handlers.Exit :=
  if falsy_id (from_id c) || negb (Js.truthy_opt text) || falsy_id (chat_id c)
  then (ts, Handlers.Completed)
  else
    let userId := default 0 (from_id c) in
    let chat := default 0 (chat_id c) in
    let username := username_of c in
    let message := default ""%string text in
    let finish := fun (r : State * bool) =>
      (fst r, if snd r then Handlers.Completed else Handlers.Uncaught) in
    if negb (Security.isAuthorized (Some userId) (ALLOWED_USERS cfg)) then
      finish (say orc chat "Unauthorized. Contact the bot owner for access." ts)
    else if Js.startsWith message "/" then (ts, Handlers.Completed)
    else
      let '(b, (allowed, retryAfter)) :=
        Security.check cfg now userId (Handlers.buckets (base ts)) in
      let ts1 :=
        with_base {| Handlers.world := Handlers.world (base ts);
                     Handlers.buckets := b;
                     Handlers.audit := Handlers.audit (base ts);
                     Handlers.calls := Handlers.calls (base ts) |} ts in
      if negb allowed then
        let ra := default 0%Q retryAfter in
        finish
          (say orc chat
             ("⏳ Rate limited. Please wait " ++ toFixed1 fmt ra ++ " seconds.")
             (with_base
                (Handlers.log_audit
                   (Handlers.AuditRateLimit userId username ra) (base ts1))
                ts1))
      else
        match vault (entries ts1) (Js.trim message) with
        | inl error =>
            finish (say orc chat ("❌ Error: " ++ Js.slice error 0 200) ts1)
        | inr (dateStamp, timeStamp) =>
            let ts2 :=
              {| base :=
                   Handlers.log_audit
                     (Handlers.AuditMessage userId username "CAPTURE" message "")
                     (base ts1);
                 entries := entries ts1 ++ [Js.trim message] |} in
            let '(ts3, ok) :=
              say orc chat
                  ("✅ Added to Daily/" ++ dateStamp ++ ".md (" ++ timeStamp ++ ")")
                  ts2 in
            if ok then (ts3, Handlers.Completed)
            else
              finish
                (say orc chat ("❌ Error: " ++ Js.slice replyError 0 200) ts3)
        end.

End TextHandler.

(* ===================================================================== *)
(** * [src/vault.ts] *)
(* ===================================================================== *)

Module Vault.

(** The search of [s.indexOf(p, from)] in [rest], the part of [s] from
    position [pos] on. *)
Fixpoint indexOf_in (rest p : string) (pos : nat) : option nat :=
  if String.prefix p rest then Some pos
  else
    match rest with
    | EmptyString => None
    | String _ rest' => indexOf_in rest' p (S pos)
    end.

(** [s.indexOf(p, from)]; [None] is [-1]. *)
Definition indexOf (s p : string) (from : nat) : option nat :=
  indexOf_in (Js.slice_from s from) p from.

(** The [while (cursor < text.length)] loop of [replaceOutsideWikilinks].
    [None]: the fuel ran out, the loop has not finished. *)
Fixpoint replace_loop (fuel : nat) (replacer : string -> string)
    (text : string) (cursor : nat) (result : string) : option string :=
  if (cursor <? String.length text)%nat then
    match fuel with
    | O => None
    | S fuel' =>
        match indexOf text "[[" cursor with
        | None => Some (result ++ replacer (Js.slice_from text cursor))%string
        | Some start =>
            match indexOf text "]]" (start + 2) with
            | None =>
                Some (result ++ replacer (Js.slice_from text cursor))%string
            | Some end_ =>
                replace_loop fuel' replacer text (end_ + 2)
                  (result ++ replacer (Js.slice text cursor start) ++
                   Js.slice text start (end_ + 2))%string
            end
        end
    end
  else Some result.

(** [replaceOutsideWikilinks(text, replacer)] *)
Definition replaceOutsideWikilinks (text : string)
    (replacer : string -> string) : option string :=
  replace_loop (S (String.length text)) replacer text 0 "".

(** A text cut in stretches outside links, each followed by a link, and a
    rest; and what the replacer makes of it when it is applied to the
    stretches outside and to the rest, if there is one. *)
Definition assemble (parts : list (string * string)) (rest : string) : string :=
  (Js.join (map (fun '(outside, link) => (outside ++ link)%string) parts) ++
   rest)%string.

Definition replaced (replacer : string -> string)
    (parts : list (string * string)) (rest : string) : string :=
  (Js.join (map (fun '(outside, link) => (replacer outside ++ link)%string)
                parts) ++
   (if Js.truthy rest then replacer rest else ""))%string.

(** [s.slice(n)], by recursion on the text. *)
Fixpoint drop (n : nat) (s : string) : string :=
  match n, s with
  | O, _ => s
  | S n', String _ s' => drop n' s'
  | S _, EmptyString => EmptyString
  end.

(** [p] occurs in [s] at position [i]; [i] is the first such position; [p]
    does not occur in [s]. *)
Definition occurs_at (p s : string) (i : nat) : Prop :=
  String.prefix p (drop i s) = true.

Definition first_at (p s : string) (i : nat) : Prop :=
  occurs_at p s i /\ forall j, (j < i)%nat -> ~ occurs_at p s j.

Definition absent (p s : string) : Prop := forall j, ~ occurs_at p s j.

(** A stretch and the link that follows it: the link starts at the first
    opening pair of the two together, and its closing pair is the first one
    after its opening pair. *)
Definition stretch_and_link (part : string * string) : Prop :=
  first_at "[[" (fst part ++ snd part) (String.length (fst part)) /\
  exists inner,
    snd part = ("[[" ++ inner ++ "]]")%string /\
    first_at "]]" (inner ++ "]]") (String.length inner).

(** A rest holds no link: no opening pair, or no closing pair after its
    first opening pair. *)
Definition no_link (rest : string) : Prop :=
  absent "[[" rest \/
  exists i, first_at "[[" rest i /\ absent "]]" (drop (i + 2) rest).

End Vault.

(* ===================================================================== *)
(** * Sample configurations *)
(* ===================================================================== *)

Module Sample.

Definition fmt : Formatting :=
  {| convertMarkdownToHtml := fun s => s;
     escapeHtml := fun s => s;
     formatToolStatus := fun name _ => name;
     toFixed1 := fun _ => "0.0"%string;
     toLocaleDateString := fun _ => "Monday"%string;
     toISOString := fun _ => "1970-01-01T00:00:00.000Z"%string |}.

(** A vault under the home directory, [/tmp/] as the temp root, two tokens
    per four seconds, and display units of ten code units cut in chunks of
    eight. *)
Definition cfg : Config :=
  {| ALLOWED_USERS := [7];
     ALLOWED_PATHS := ["/home/claude/vault"%string];
     TEMP_PATHS := ["/tmp/"%string];
     BLOCKED_PATTERNS := ["rm -rf /"; "rm -rf ~"; "sudo rm"]%string;
     RATE_LIMIT_ENABLED := true;
     RATE_LIMIT_REQUESTS := 2;
     RATE_LIMIT_WINDOW := 4;
     TELEGRAM_MESSAGE_LIMIT := 10;
     TELEGRAM_SAFE_LIMIT := 8;
     STREAMING_THROTTLE_MS := 500;
     MEDIA_GROUP_TIMEOUT := 1000;
     THINKING_KEYWORDS := ["think"%string];
     THINKING_DEEP_KEYWORDS := ["ultrathink"%string];
     SAFETY_PROMPT := "stay inside the vault"%string;
     WORKING_DIR := "/home/claude/vault"%string |}.

(** The same with the temp root written without its final slash. *)
Definition cfg_tmp : Config :=
  {| ALLOWED_USERS := ALLOWED_USERS cfg;
     ALLOWED_PATHS := ALLOWED_PATHS cfg;
     TEMP_PATHS := ["/tmp"%string];
     BLOCKED_PATTERNS := BLOCKED_PATTERNS cfg;
     RATE_LIMIT_ENABLED := true;
     RATE_LIMIT_REQUESTS := RATE_LIMIT_REQUESTS cfg;
     RATE_LIMIT_WINDOW := RATE_LIMIT_WINDOW cfg;
     TELEGRAM_MESSAGE_LIMIT := TELEGRAM_MESSAGE_LIMIT cfg;
     TELEGRAM_SAFE_LIMIT := TELEGRAM_SAFE_LIMIT cfg;
     STREAMING_THROTTLE_MS := STREAMING_THROTTLE_MS cfg;
     MEDIA_GROUP_TIMEOUT := MEDIA_GROUP_TIMEOUT cfg;
     THINKING_KEYWORDS := THINKING_KEYWORDS cfg;
     THINKING_DEEP_KEYWORDS := THINKING_DEEP_KEYWORDS cfg;
     SAFETY_PROMPT := SAFETY_PROMPT cfg;
     WORKING_DIR := WORKING_DIR cfg |}.

(** The same with the rate limiter switched off. *)
Definition cfg_off : Config :=
  {| ALLOWED_USERS := ALLOWED_USERS cfg;
     ALLOWED_PATHS := ALLOWED_PATHS cfg;
     TEMP_PATHS := TEMP_PATHS cfg;
     BLOCKED_PATTERNS := BLOCKED_PATTERNS cfg;
     RATE_LIMIT_ENABLED := false;
     RATE_LIMIT_REQUESTS := RATE_LIMIT_REQUESTS cfg;
     RATE_LIMIT_WINDOW := RATE_LIMIT_WINDOW cfg;
     TELEGRAM_MESSAGE_LIMIT := TELEGRAM_MESSAGE_LIMIT cfg;
     TELEGRAM_SAFE_LIMIT := TELEGRAM_SAFE_LIMIT cfg;
     STREAMING_THROTTLE_MS := STREAMING_THROTTLE_MS cfg;
     MEDIA_GROUP_TIMEOUT := MEDIA_GROUP_TIMEOUT cfg;
     THINKING_KEYWORDS := THINKING_KEYWORDS cfg;
     THINKING_DEEP_KEYWORDS := THINKING_DEEP_KEYWORDS cfg;
     SAFETY_PROMPT := SAFETY_PROMPT cfg;
     WORKING_DIR := WORKING_DIR cfg |}.

(** The same with thinking keywords written with capitals. *)
Definition cfg_caps : Config :=
  {| ALLOWED_USERS := ALLOWED_USERS cfg;
     ALLOWED_PATHS := ALLOWED_PATHS cfg;
     TEMP_PATHS := TEMP_PATHS cfg;
     BLOCKED_PATTERNS := BLOCKED_PATTERNS cfg;
     RATE_LIMIT_ENABLED := true;
     RATE_LIMIT_REQUESTS := RATE_LIMIT_REQUESTS cfg;
     RATE_LIMIT_WINDOW := RATE_LIMIT_WINDOW cfg;
     TELEGRAM_MESSAGE_LIMIT := TELEGRAM_MESSAGE_LIMIT cfg;
     TELEGRAM_SAFE_LIMIT := TELEGRAM_SAFE_LIMIT cfg;
     STREAMING_THROTTLE_MS := STREAMING_THROTTLE_MS cfg;
     MEDIA_GROUP_TIMEOUT := MEDIA_GROUP_TIMEOUT cfg;
     THINKING_KEYWORDS := ["Think"%string];
     THINKING_DEEP_KEYWORDS := ["ULTRATHINK"%string];
     SAFETY_PROMPT := SAFETY_PROMPT cfg;
     WORKING_DIR := WORKING_DIR cfg |}.

(** A process in [/home/claude/bot] on a file system without symbolic
    links where none of the paths that are asked about exists. *)
Definition env : Env :=
  {| HOME := Some "/home/claude"%string;
     CLAUDE_CODE_PATH := None;
     cwd := "/home/claude/bot"%string;
     realpathSync := fun _ => None |}.

Definition ctx : Ctx :=
  {| from_id := Some 7; from_username := Some "ada"%string;
     chat_id := Some 42; msg_caption := None |}.

(** A streaming state in which segment 0 has been rendered as ["abc"] in
    message 5 of chat 42. *)
Definition unit0 : Message := {| msg_chat_id := 42; message_id := 5 |}.

Definition streaming : Streaming.StreamingState :=
  {| Streaming.textMessages := {[0%nat := unit0]};
     Streaming.toolMessages := [];
     Streaming.lastEditTimes := {[0%nat := 0]};
     Streaming.lastContent := {[0%nat := "abc"%string]} |}.

(** The calls of one answer: a thinking notice, the first text of segment
    0, a tool notice, and the end of the segment with a text that does not
    fit in one display unit. *)
Definition display_calls : list Streaming.Call :=
  [ {| Streaming.call_now := 1000; Streaming.call_type := "thinking";
       Streaming.call_content := "hm"; Streaming.call_segment := None |};
    {| Streaming.call_now := 2000; Streaming.call_type := "text";
       Streaming.call_content := "Hello Ada, how are you?";
       Streaming.call_segment := Some 0%nat |};
    {| Streaming.call_now := 2100; Streaming.call_type := "tool";
       Streaming.call_content := "Read notes.md";
       Streaming.call_segment := None |};
    {| Streaming.call_now := 3000; Streaming.call_type := "segment_end";
       Streaming.call_content := "Hello Ada, how are you? Fine.";
       Streaming.call_segment := Some 0%nat |} ]%string.

(** The local variables of [sendMessageStreaming] when the query starts. *)
Definition locals0 : ClaudeSession.Locals :=
  {| ClaudeSession.responseParts := [];
     ClaudeSession.currentSegmentId := 0;
     ClaudeSession.currentSegmentText := "";
     ClaudeSession.lastTextUpdate := 0;
     ClaudeSession.queryCompleted := false |}.

(** An album of three photos of user 7 under group id [g1], with a photo of
    another album in between; both debounce timers fire when they are due,
    and the timers that were replaced fire into nothing. *)
Definition album : list (MediaGroup.Op string) :=
  [ MediaGroup.OpAdd 0 "g1" "a" ctx 7 "ada" true;
    MediaGroup.OpAdd 500 "g1" "b" ctx 7 "ada" true;
    MediaGroup.OpAdd 600 "g2" "x" ctx 7 "ada" true;
    MediaGroup.OpAdd 900 "g1" "c" ctx 7 "ada" true;
    MediaGroup.OpFire 1000 0 true;
    MediaGroup.OpFire 1600 2 true;
    MediaGroup.OpFire 1900 3 true;
    MediaGroup.OpFire 1900 3 true;
    MediaGroup.OpProcess "g1" true ]%string.

(** An engine whose model asks to read a file outside the allowed roots. *)
Definition blocked_read : ClaudeSession.EngineRun :=
  {| ClaudeSession.stream :=
       [ {| ClaudeSession.pokes := [];
            ClaudeSession.at_ms := 10;
            ClaudeSession.event :=
              {| ClaudeSession.ev_session_id := Some "sess-1"%string;
                 ClaudeSession.body :=
                   ClaudeSession.Assistant
                     [ClaudeSession.ToolUse "Read"
                        {| command := None;
                           file_path :=
                             Some "/etc/exited with code/cancel"%string |}] |}
         |} ];
     ClaudeSession.end_pokes := [];
     ClaudeSession.end_ms := 20;
     ClaudeSession.failure := None |}.

Definition engine_blocked : ClaudeSession.Engine := fun _ _ => blocked_read.

(** An engine whose process dies on its first invocation, after a thinking
    block, and answers on the next ones. *)
Definition crash : ClaudeSession.EngineRun :=
  {| ClaudeSession.stream :=
       [ {| ClaudeSession.pokes := [];
            ClaudeSession.at_ms := 10;
            ClaudeSession.event :=
              {| ClaudeSession.ev_session_id := Some "sess-1"%string;
                 ClaudeSession.body :=
                   ClaudeSession.Assistant
                     [ClaudeSession.Thinking "hm"] |} |} ];
     ClaudeSession.end_pokes := [];
     ClaudeSession.end_ms := 20;
     ClaudeSession.failure :=
       Some "Error: Claude Code process exited with code 1"%string |}.

Definition answer : ClaudeSession.EngineRun :=
  {| ClaudeSession.stream :=
       [ {| ClaudeSession.pokes := [];
            ClaudeSession.at_ms := 1010;
            ClaudeSession.event :=
              {| ClaudeSession.ev_session_id := Some "sess-2"%string;
                 ClaudeSession.body :=
                   ClaudeSession.Assistant [ClaudeSession.Text "Hello Ada."] |} |};
         {| ClaudeSession.pokes := [];
            ClaudeSession.at_ms := 1020;
            ClaudeSession.event :=
              {| ClaudeSession.ev_session_id := Some "sess-2"%string;
                 ClaudeSession.body := ClaudeSession.Result None |} |} ];
     ClaudeSession.end_pokes := [];
     ClaudeSession.end_ms := 1030;
     ClaudeSession.failure := None |}.

(** An engine whose process is killed on every invocation and says so in
    the words of a cancellation. *)
Definition engine_cancelled_crash : ClaudeSession.Engine :=
  fun _ _ =>
    {| ClaudeSession.stream := [];
       ClaudeSession.end_pokes := [];
       ClaudeSession.end_ms := 20;
       ClaudeSession.failure :=
         Some "Error: process exited with code 143 (request cancelled)"%string |}.

Definition engine_crash_once : ClaudeSession.Engine :=
  fun n _ => if (n =? 0)%nat then crash else answer.

Definition clock (attempt : nat) : Z := 1000 * Z.of_nat attempt.

(** The process at its start. *)
Definition world0 : ClaudeSession.World :=
  {| ClaudeSession.session := ClaudeSession.empty;
     ClaudeSession.file := ClaudeSession.NoFile;
     ClaudeSession.invocations := [];
     ClaudeSession.transport := Transport.init |}.

Definition state0 : Handlers.State :=
  {| Handlers.world := world0; Handlers.buckets := ∅;
     Handlers.audit := []; Handlers.calls := [] |}.

(** Checks [(clock reading, user)] of the rate limiter: a burst of user 7,
    and a run in which user 8 comes in between. *)
Definition burst : list (Z * Z) := [(0, 7); (0, 7); (2000, 7)].

Definition mixed : list (Z * Z) := [(0, 7); (0, 7); (500, 8); (2000, 7)].

(** For five requests per 51 s: six checks of user 7 at clock reading 0, the
    sixth of which is denied, and a seventh 10200 ms later. *)
Definition retry_run : list (Z * Z) :=
  [(0, 7); (0, 7); (0, 7); (0, 7); (0, 7); (0, 7); (10200, 7)].

End Sample.

(* ===================================================================== *)
(** * Proof automation *)
(* ===================================================================== *)

(** Inversion of the option monad: [open_bind] opens one bind that returned
    a value, [crunch] follows every match and bind of the hypotheses. *)
Ltac split_pairs :=
  repeat match goal with p : (_ * _)%type |- _ => destruct p end.

Ltac open_bind H :=
  let x := fresh "x" in
  let E := fresh "E" in
  apply bind_Some in H; destruct H as (x & E & H); split_pairs; simpl in H.

Ltac crunch :=
  repeat match goal with
  | H : (_ ≫= _) = Some _ |- _ => open_bind H
  | H : (match ?x with _ => _ end) = Some _ |- _ =>
      destruct x eqn:?; simpl in H
  | H : (let '(_, _) := ?x in _) = Some _ |- _ =>
      destruct x eqn:?; simpl in H
  | H : (match ?x with _ => _ end) = (_, _) |- _ =>
      destruct x eqn:?; simpl in H
  | H : None = Some _ |- _ => discriminate H
  | H : Some _ = Some _ |- _ => injection H as H; subst
  | H : pair _ _ = pair _ _ |- _ => injection H as H; subst
  end.

(* ===================================================================== *)
(** * Properties of [src/security.ts] *)
(* ===================================================================== *)

Section Authorization.

Lemma existsb_Zeqb_In (u : Z) (l : list Z) :
  existsb (Z.eqb u) l = true <-> In u l.
Proof.
  rewrite existsb_exists. split.
  - intros (x & Hx & Heq). apply Z.eqb_eq in Heq. now subst.
  - intros Hin. exists u. split; [assumption | apply Z.eqb_refl].
Qed.

(** C10, as stated, at the user id [0] on the allow-list [[0]]: the user id
    is defined and the list is non-empty and contains it, yet the call
    answers [false], because [!userId] also holds for [0]. *)
Lemma isAuthorized_zero_denied :
  Security.isAuthorized (Some 0) [0] = false /\
  (exists u, Some 0 = Some u /\ [0] <> [] /\ In u [0]).
Proof.
  split; [reflexivity |].
  exists 0. repeat split; [discriminate | now left].
Qed.

(** C10 (amended): [isAuthorized(userId, allowedUsers)] is true exactly when
    [userId] is defined and not [0] and the list contains it (so the list is
    not empty); an empty allow-list denies every user. *)
Theorem isAuthorized_iff (userId : option Z) (allowedUsers : list Z) :
  (Security.isAuthorized userId allowedUsers = true <->
   exists u, userId = Some u /\ u <> 0 /\ allowedUsers <> [] /\
             In u allowedUsers) /\
  Security.isAuthorized userId [] = false.
Proof.
  split.
  - unfold Security.isAuthorized. destruct userId as [u|].
    + destruct (Z.eqb_spec u 0) as [->|Hu].
      * split; [discriminate |]. intros (u & [= <-] & Hne & _). now elim Hne.
      * destruct allowedUsers as [|a l]; simpl.
        -- split; [discriminate |]. intros (? & _ & _ & Hne & _). now elim Hne.
        -- change ((u =? a) || existsb (Z.eqb u) l) with (existsb (Z.eqb u) (a :: l)).
           rewrite existsb_Zeqb_In. split.
           ++ intros Hin. exists u. repeat split; [assumption | discriminate | assumption].
           ++ intros (u' & [= <-] & _ & _ & Hin). assumption.
    + split; [discriminate |]. intros (? & [=] & _).
  - unfold Security.isAuthorized. destruct userId as [u|]; [| reflexivity].
    now destruct (u =? 0).
Qed.

End Authorization.

Section RateLimiter.

Variable cfg : Config.
Hypothesis Hreq : (0 <= RATE_LIMIT_REQUESTS cfg)%Q.
Hypothesis Hwin : (0 < RATE_LIMIT_WINDOW cfg)%Q.

Import Security.

Lemma refillRate_nonneg : (0 <= refillRate cfg)%Q.
Proof. unfold refillRate. apply Qle_shift_div_l; [assumption | lra]. Qed.

Lemma refillRate_window : (refillRate cfg * RATE_LIMIT_WINDOW cfg == RATE_LIMIT_REQUESTS cfg)%Q.
Proof. unfold refillRate. field. lra. Qed.

Lemma inject_Z_nonneg (d : Z) : 0 <= d -> (0 <= inject_Z d)%Q.
Proof. intros H. change 0%Q with (inject_Z 0). now rewrite <- Zle_Qle. Qed.

Lemma gain_nonneg (d : Z) : 0 <= d -> (0 <= gain cfg d)%Q.
Proof.
  intros H. unfold gain. pose proof refillRate_nonneg. pose proof (inject_Z_nonneg d H).
  assert (0 <= inject_Z d / 1000)%Q by (apply Qle_shift_div_l; lra).
  nra.
Qed.

Lemma gain_plus (a b : Z) : (gain cfg (a + b) == gain cfg a + gain cfg b)%Q.
Proof. unfold gain. rewrite inject_Z_plus. field. Qed.

Lemma gain_zero : (gain cfg 0 == 0)%Q.
Proof. unfold gain. change (inject_Z 0) with 0%Q. field. Qed.

Lemma gain_window (d : Z) :
  (inject_Z d <= 1000 * RATE_LIMIT_WINDOW cfg)%Q -> (gain cfg d <= maxTokens cfg)%Q.
Proof.
  intros H. unfold gain, maxTokens. rewrite <- refillRate_window.
  pose proof refillRate_nonneg.
  assert (inject_Z d / 1000 <= RATE_LIMIT_WINDOW cfg)%Q by (apply Qle_shift_div_r; lra).
  nra.
Qed.

Lemma elapsed_gain (now : Z) (b : RateLimitBucket) :
  (elapsed now b * refillRate cfg == gain cfg (now - lastUpdate b))%Q.
Proof. reflexivity. Qed.

Lemma refill_le_max (now : Z) (b : RateLimitBucket) :
  (refill cfg now b <= maxTokens cfg)%Q.
Proof. apply Q.le_min_l. Qed.

Lemma refill_nonneg (now : Z) (b : RateLimitBucket) :
  (0 <= tokens b)%Q -> lastUpdate b <= now -> (0 <= refill cfg now b)%Q.
Proof.
  intros Ht Hl. unfold refill. apply Q.min_glb; [exact Hreq |].
  rewrite elapsed_gain.
  assert (Hd : 0 <= now - lastUpdate b) by lia.
  pose proof (gain_nonneg _ Hd). lra.
Qed.

Lemma Qmin_plus_le (a b c : Q) : (0 <= c -> Qmin a (b + c) <= Qmin a b + c)%Q.
Proof.
  intros Hc.
  destruct (Q.min_spec a (b + c)) as [[? ->]|[? ->]];
    destruct (Q.min_spec a b) as [[? ->]|[? ->]]; lra.
Qed.


Lemma potential_le_max uid bs t : (potential cfg uid bs t <= maxTokens cfg)%Q.
Proof. apply refill_le_max. Qed.

Lemma potential_grows uid bs (t t' : Z) :
  t <= t' -> (potential cfg uid bs t' <= potential cfg uid bs t + gain cfg (t' - t))%Q.
Proof.
  intros Hle. unfold potential, bucket_of.
  assert (Hd : 0 <= t' - t) by lia. pose proof (gain_nonneg _ Hd) as Hg.
  destruct (bs !! uid) as [b|]; unfold refill; rewrite !elapsed_gain; simpl.
  - replace (t' - lastUpdate b) with ((t - lastUpdate b) + (t' - t)) by lia.
    rewrite gain_plus, Qplus_assoc. now apply Qmin_plus_le.
  - rewrite !Z.sub_diag, gain_zero.
    destruct (Q.min_spec (maxTokens cfg) (maxTokens cfg + 0)) as [[? ->]|[? ->]]; lra.
Qed.

Lemma bucket_of_ok t now uid bs :
  buckets_ok cfg t bs -> t <= now ->
  (0 <= tokens (bucket_of cfg now uid bs))%Q /\
  lastUpdate (bucket_of cfg now uid bs) <= now.
Proof.
  intros Hok Hle. unfold bucket_of.
  destruct (bs !! uid) as [b|] eqn:Hb; simpl.
  - destruct (Hok _ _ Hb) as (H0 & _ & Hl). split; [assumption | lia].
  - split; [exact Hreq | lia].
Qed.

Lemma check_preserves_ok t now uid bs :
  buckets_ok cfg t bs -> t <= now ->
  buckets_ok cfg now (fst (check cfg now uid bs)).
Proof.
  intros Hok Hle. unfold check.
  destruct (RATE_LIMIT_ENABLED cfg); simpl.
  - destruct (bucket_of_ok t now uid bs Hok Hle) as [Hb0 Hbl].
    pose proof (refill_nonneg now _ Hb0 Hbl) as Hr0.
    pose proof (refill_le_max now (bucket_of cfg now uid bs)) as Hrm.
    destruct (Qle_bool 1 _) eqn:Hq; simpl; intros u b Hu;
      (destruct (decide (uid = u)) as [->|Hne];
       [ rewrite lookup_insert_eq in Hu; injection Hu as <-
       | rewrite lookup_insert_ne in Hu by assumption;
         destruct (Hok _ _ Hu) as (? & ? & ?); repeat split; (assumption || lia) ]).
    + apply Qle_bool_iff in Hq. repeat split; simpl; (lra || lia).
    + repeat split; simpl; (lra || lia).
  - intros u b Hu. destruct (Hok _ _ Hu) as (? & ? & ?).
    repeat split; (assumption || lia).
Qed.

Lemma run_checks_preserves_ok calls : forall t bs,
  buckets_ok cfg t bs -> monotone_from t calls = true ->
  buckets_ok cfg (last_time t calls) (fst (run_checks cfg calls bs)).
Proof.
  induction calls as [|[now uid] rest IH]; intros t bs Hok Hm; simpl.
  - assumption.
  - simpl in Hm. apply andb_true_iff in Hm as [Hle Hm]. apply Z.leb_le in Hle.
    pose proof (check_preserves_ok t now uid bs Hok Hle) as Hok1.
    destruct (check cfg now uid bs) as [bs1 r] eqn:Hc. simpl in Hok1.
    specialize (IH now bs1 Hok1 Hm).
    destruct (run_checks cfg rest bs1) as [bs2 rs]. exact IH.
Qed.

Hypothesis Henabled : RATE_LIMIT_ENABLED cfg = true.

Lemma check_enabled now uid bs :
  check cfg now uid bs =
  let t := refill cfg now (bucket_of cfg now uid bs) in
  if Qle_bool 1 t then
    (<[uid := {| tokens := (t - 1)%Q; lastUpdate := now |}]> bs, (true, None))
  else
    (<[uid := {| tokens := t; lastUpdate := now |}]> bs,
     (false, Some ((1 - t) / refillRate cfg)%Q)).
Proof. unfold check. now rewrite Henabled. Qed.

Lemma potential_after_check uid now u bs :
  (potential cfg uid (fst (check cfg now u bs)) now ==
   potential cfg uid bs now -
   (if (u =? uid) && fst (snd (check cfg now u bs)) then 1 else 0))%Q.
Proof.
  rewrite check_enabled. cbv zeta.
  pose proof (refill_le_max now (bucket_of cfg now u bs)) as Hmax.
  destruct (Z.eqb_spec u uid) as [->|Hne].
  - unfold potential at 1.
    destruct (Qle_bool 1 _) eqn:Hq; simpl;
      unfold bucket_of at 1; rewrite lookup_insert_eq;
      unfold refill at 1; rewrite elapsed_gain; simpl;
      rewrite Z.sub_diag, gain_zero; fold (potential cfg uid bs now);
      unfold potential in *;
      match goal with |- (Qmin ?a ?b == _)%Q =>
        destruct (Q.min_spec a b) as [[? ->]|[? ->]] end; lra.
  - unfold potential, bucket_of.
    destruct (Qle_bool 1 _); simpl; rewrite lookup_insert_ne by assumption; lra.
Qed.


Lemma admitted_potential uid calls : forall t bs,
  monotone_from t calls = true ->
  (inject_Z (Z.of_nat (admitted uid calls (snd (run_checks cfg calls bs)))) +
   potential cfg uid (fst (run_checks cfg calls bs)) (last_time t calls)
   <= potential cfg uid bs t + gain cfg (last_time t calls - t))%Q.
Proof.
  induction calls as [|[now u] rest IH]; intros t bs Hm; simpl.
  - rewrite Z.sub_diag, gain_zero. change (inject_Z (Z.of_nat 0)) with 0%Q. lra.
  - simpl in Hm. apply andb_true_iff in Hm as [Hle Hm]. apply Z.leb_le in Hle.
    pose proof (potential_after_check uid now u bs) as Hstep.
    pose proof (potential_grows uid bs t now Hle) as Hgrow.
    destruct (check cfg now u bs) as [bs1 [ok ra]] eqn:Hc. simpl in Hstep.
    specialize (IH now bs1 Hm).
    destruct (run_checks cfg rest bs1) as [bs2 rs] eqn:Hr. simpl in IH |- *.
    replace (last_time now rest - t) with ((now - t) + (last_time now rest - now)) by lia.
    rewrite gain_plus.
    rewrite Nat2Z.inj_add, inject_Z_plus.
    destruct ((u =? uid) && ok);
      [change (inject_Z (Z.of_nat 1)) with 1%Q
      | change (inject_Z (Z.of_nat 0)) with 0%Q]; lra.
Qed.


Lemma admitted_in_window uid t0 bs0 calls :
  buckets_ok cfg t0 bs0 ->
  monotone_from t0 calls = true ->
  (inject_Z (last_time t0 calls - t0) <= 1000 * RATE_LIMIT_WINDOW cfg)%Q ->
  (inject_Z (Z.of_nat (admitted uid calls (snd (run_checks cfg calls bs0))))
   <= 2 * maxTokens cfg)%Q.
Proof.
  intros Hok Hm Hspan.
  pose proof (admitted_potential uid calls t0 bs0 Hm) as Hpot.
  pose proof (run_checks_preserves_ok calls t0 bs0 Hok Hm) as Hfin.
  pose proof (potential_le_max uid bs0 t0) as Hp0.
  pose proof (gain_window _ Hspan) as Hg.
  assert (0 <= potential cfg uid (fst (run_checks cfg calls bs0)) (last_time t0 calls))%Q as Hp.
  { unfold potential.
    destruct (bucket_of_ok (last_time t0 calls) (last_time t0 calls) uid _ Hfin
                (Z.le_refl _)) as [H0 Hl].
    now apply refill_nonneg. }
  lra.
Qed.

Hypothesis Hreq1 : (1 <= RATE_LIMIT_REQUESTS cfg)%Q.

Lemma refillRate_pos : (0 < refillRate cfg)%Q.
Proof. unfold refillRate. apply Qlt_shift_div_l; lra. Qed.

(** In exact arithmetic the wait that a denied check reports is enough. *)
Lemma denied_then_retry now uid bs :
  fst (snd (check cfg now uid bs)) = false ->
  exists b1 ra,
    fst (check cfg now uid bs) !! uid = Some b1 /\
    snd (snd (check cfg now uid bs)) = Some ra /\
    ra = ((1 - tokens b1) / refillRate cfg)%Q /\
    (tokens b1 < 1)%Q /\
    forall now' bs',
      bs' !! uid = Some b1 ->
      (ra <= inject_Z (now' - now) / 1000)%Q ->
      fst (snd (check cfg now' uid bs')) = true.
Proof.
  rewrite check_enabled. cbv zeta.
  destruct (Qle_bool 1 _) eqn:Hq; simpl; [discriminate |]. intros _.
  set (t := refill cfg now (bucket_of cfg now uid bs)) in *.
  exists {| tokens := t; lastUpdate := now |}, ((1 - t) / refillRate cfg)%Q.
  assert (Ht : (t < 1)%Q).
  { apply Qnot_le_lt. intros Hle. apply Qle_bool_iff in Hle. congruence. }
  rewrite lookup_insert_eq. repeat split; [exact Ht |].
  intros now' bs' Hb Hwait. simpl.
  rewrite check_enabled. cbv zeta. unfold bucket_of. rewrite Hb.
  assert (Hr : (1 <= refill cfg now' {| tokens := t; lastUpdate := now |})%Q).
  { unfold refill, elapsed. simpl. apply Q.min_glb; [exact Hreq1 |].
    pose proof refillRate_pos as Hpos.
    assert ((1 - t) <= inject_Z (now' - now) / 1000 * refillRate cfg)%Q.
    { apply (Qmult_le_r _ _ (refillRate cfg)) in Hwait; [| assumption].
      assert (Heq : ((1 - t) / refillRate cfg * refillRate cfg == 1 - t)%Q)
        by (field; lra).
      rewrite Heq in Hwait. exact Hwait. }
    lra. }
  apply Qle_bool_iff in Hr. now rewrite Hr.
Qed.

End RateLimiter.

(** C5, as stated, on a clock that moves backwards: user 7 is checked at
    clock reading 10000 and then at clock reading 0.  The elapsed time of the
    second check is negative (the source does not clamp it) and the bucket
    ends with a negative number of tokens. *)
Lemma tokens_negative_on_backward_clock :
  exists b,
    fst (Security.run_checks Sample.cfg [(10000, 7); (0, 7)] ∅) !! 7 = Some b /\
    (Security.tokens b < 0)%Q.
Proof.
  eexists. split; [vm_compute; reflexivity | vm_compute; reflexivity].
Qed.

(** C5 (amended): when the clock readings of successive checks never go
    back, every bucket satisfies [0 <= tokens <= maxTokens] after every
    check; for every pair of clock readings (also backwards) the refill is
    capped at [maxTokens], the bucket stays at or below [maxTokens], and a
    call is allowed exactly when the refilled bucket holds at least one
    token, of which it consumes exactly one. *)
Theorem bucket_invariant_monotone_clock (cfg : Config)
    (Hreq : (0 <= RATE_LIMIT_REQUESTS cfg)%Q)
    (Hwin : (0 < RATE_LIMIT_WINDOW cfg)%Q)
    (t0 : Z) (bs0 : gmap Z Security.RateLimitBucket) (calls : list (Z * Z))
    (Hok : Security.buckets_ok cfg t0 bs0)
    (Hmono : Security.monotone_from t0 calls = true) :
  Security.buckets_ok cfg (Security.last_time t0 calls)
    (fst (Security.run_checks cfg calls bs0)) /\
  (forall now uid bs,
     RATE_LIMIT_ENABLED cfg = true ->
     let r := Security.refill cfg now (Security.bucket_of cfg now uid bs) in
     (r <= Security.maxTokens cfg)%Q /\
     (fst (snd (Security.check cfg now uid bs)) = true <-> (1 <= r)%Q) /\
     exists b',
       fst (Security.check cfg now uid bs) !! uid = Some b' /\
       (Security.tokens b' <= Security.maxTokens cfg)%Q /\
       Security.tokens b' =
         (if fst (snd (Security.check cfg now uid bs)) then (r - 1)%Q else r)).
Proof.
  split.
  - now apply run_checks_preserves_ok.
  - intros now uid bs Hen r.
    pose proof (refill_le_max cfg now (Security.bucket_of cfg now uid bs)) as Hmax.
    fold r in Hmax. split; [exact Hmax |].
    rewrite (check_enabled cfg Hen). cbv zeta. fold r.
    destruct (Qle_bool 1 r) eqn:Hq; simpl.
    + apply Qle_bool_iff in Hq. split; [tauto |].
      eexists. rewrite lookup_insert_eq. split; [reflexivity |].
      simpl. split; [lra | reflexivity].
    + assert (~ (1 <= r)%Q) as Hn.
      { intros Hle. apply Qle_bool_iff in Hle. congruence. }
      split; [split; [discriminate | tauto] |].
      eexists. rewrite lookup_insert_eq. split; [reflexivity |].
      simpl. split; [exact Hmax | reflexivity].
Qed.

Lemma buckets_ok_empty (cfg : Config) (t : Z) : Security.buckets_ok cfg t ∅.
Proof. intros uid b H. rewrite lookup_empty in H. discriminate. Defined.

(** The invariant on a run of the sample configuration: three checks of
    user 7 and one of user 8 on a clock that advances. *)
Lemma bucket_invariant_monotone_clock_witness :
  (0 <= RATE_LIMIT_REQUESTS Sample.cfg)%Q /\
  (0 < RATE_LIMIT_WINDOW Sample.cfg)%Q /\
  Security.monotone_from 0 Sample.mixed = true /\
  Security.buckets_ok Sample.cfg 2000
    (fst (Security.run_checks Sample.cfg
Sample.mixed ∅)).
Proof.
  assert (H1 : (0 <= RATE_LIMIT_REQUESTS Sample.cfg)%Q) by (vm_compute; discriminate).
  assert (H2 : (0 < RATE_LIMIT_WINDOW Sample.cfg)%Q) by reflexivity.
  assert (H3 : Security.monotone_from 0 Sample.mixed = true)
    by reflexivity.
  split; [exact H1 | split; [exact H2 | split; [exact H3 |]]].
  apply (proj1 (bucket_invariant_monotone_clock Sample.cfg H1 H2 0 ∅
                  Sample.mixed
                  (buckets_ok_empty Sample.cfg 0) H3)).
Defined.

(** C4, as stated, on the sample configuration (two tokens per window of
    four seconds): user 7 is checked at clock readings 0, 0 and 2000 ms.
    All three calls are admitted, although they lie within one window and
    [maxTokens] is 2: the full bucket is spent at once and one token has
    come back after two seconds. *)
Lemma three_admissions_in_one_window :
  Security.admitted 7 Sample.burst
    (snd (Security.run_checks Sample.cfg Sample.burst ∅))
  = 3%nat /\
  (Security.maxTokens Sample.cfg == 2)%Q /\
  (inject_Z (2000 - 0) < 1000 * RATE_LIMIT_WINDOW Sample.cfg)%Q.
Proof. repeat split; vm_compute; reflexivity. Qed.

(** C4 (amended): with the limiter enabled, at least one token per window
    and clock readings that never go back, the calls of one identity that
    are admitted within any interval of [windowSeconds] number at most
    [2 * maxTokens] (a full bucket plus one window of refill).  Every denied
    call reports [retryAfter = (1 - tokens) / refillRate], where [tokens] is
    the refilled bucket, below 1, so that the wait is positive.  The wait
    does not guarantee the next check: computed in doubles, as the program
    computes, at five requests per 51 s the denied check reports 10.2 s and
    the check made 10200 ms later is denied again. *)
Theorem rate_limit_burst_and_retry (cfg : Config)
    (Henabled : RATE_LIMIT_ENABLED cfg = true)
    (Hreq1 : (1 <= RATE_LIMIT_REQUESTS cfg)%Q)
    (Hwin : (0 < RATE_LIMIT_WINDOW cfg)%Q)
    (uid t0 : Z) (bs0 : gmap Z Security.RateLimitBucket)
    (calls : list (Z * Z))
    (Hok : Security.buckets_ok cfg t0 bs0)
    (Hmono : Security.monotone_from t0 calls = true)
    (Hspan : (inject_Z (Security.last_time t0 calls - t0)
              <= 1000 * RATE_LIMIT_WINDOW cfg)%Q) :
  (inject_Z (Z.of_nat (Security.admitted uid calls
                         (snd (Security.run_checks cfg calls bs0))))
   <= 2 * Security.maxTokens cfg)%Q /\
  (forall now bs,
     fst (snd (Security.check cfg now uid bs)) = false ->
     exists b1 ra,
       fst (Security.check cfg now uid bs) !! uid = Some b1 /\
       snd (snd (Security.check cfg now uid bs)) = Some ra /\
       ra = ((1 - Security.tokens b1) / Security.refillRate cfg)%Q /\
       (Security.tokens b1 < 1)%Q /\
       (0 < ra)%Q /\
       (Security.tokens b1 + ra * Security.refillRate cfg == 1)%Q) /\
  (let rs := snd (Security.Double.run_checks
                    (Security.Double.maxTokens_of 5)
                    (Security.Double.refillRate_of 5 51)
                    Sample.retry_run ∅) in
   nth_error rs 5 =
     Some (false, Some (Security.Double.seconds_between 0 10200)) /\
   fst <$> nth_error rs 6 = Some false).
Proof.
  assert (Hreq : (0 <= RATE_LIMIT_REQUESTS cfg)%Q) by lra.
  split; [| split].
  - eapply admitted_in_window; eassumption.
  - intros now bs Hden.
    destruct (denied_then_retry cfg Hwin Henabled Hreq1 now uid bs Hden)
      as (b1 & ra & Hb & Hra & Heq & Ht & _).
    pose proof (refillRate_pos cfg Hwin Hreq1) as Hpos.
    exists b1, ra. split; [exact Hb |]. split; [exact Hra |].
    split; [exact Heq |]. split; [exact Ht |].
    rewrite Heq. split.
    + apply Qlt_shift_div_l; lra.
    + field. lra.
  - split; vm_compute; reflexivity.
Qed.

(** The bound on a burst of user 7 on the sample configuration: checks at
    0 ms, 0 ms and 2000 ms. *)
Lemma rate_limit_burst_and_retry_witness :
  RATE_LIMIT_ENABLED Sample.cfg = true /\
  (1 <= RATE_LIMIT_REQUESTS Sample.cfg)%Q /\
  (0 < RATE_LIMIT_WINDOW Sample.cfg)%Q /\
  Security.monotone_from 0 Sample.burst = true /\
  (inject_Z (Security.last_time 0 Sample.burst - 0)
   <= 1000 * RATE_LIMIT_WINDOW Sample.cfg)%Q /\
  (inject_Z (Z.of_nat (Security.admitted 7 Sample.burst
       (snd (Security.run_checks Sample.cfg Sample.burst ∅))))
   <= 2 * Security.maxTokens Sample.cfg)%Q.
Proof.
  assert (H0 : RATE_LIMIT_ENABLED Sample.cfg = true) by reflexivity.
  assert (H1 : (1 <= RATE_LIMIT_REQUESTS Sample.cfg)%Q) by (vm_compute; discriminate).
  assert (H2 : (0 < RATE_LIMIT_WINDOW Sample.cfg)%Q) by reflexivity.
  assert (H3 : Security.monotone_from 0 Sample.burst = true)
    by reflexivity.
  assert (H4 : (inject_Z (Security.last_time 0 Sample.burst - 0)
                <= 1000 * RATE_LIMIT_WINDOW Sample.cfg)%Q)
    by (vm_compute; discriminate).
  split; [exact H0 | split; [exact H1 | split; [exact H2 |]]].
  split; [exact H3 | split; [exact H4 |]].
  apply (proj1 (rate_limit_burst_and_retry Sample.cfg H0 H1 H2 7 0 ∅
                  Sample.burst
                  (buckets_ok_empty Sample.cfg 0) H3 H4)).
Defined.

Section PathValidation.

Import Security.

Lemma prefix_has_prefix (p s : string) :
  String.prefix p s = true <-> has_prefix p s.
Proof.
  revert s. induction p as [|a p IH]; intros s.
  - split; [intros _; now exists s | intros _; now destruct s].
  - destruct s as [|b s]; simpl.
    + split; [discriminate | intros [rest H]; discriminate].
    + destruct (ascii_dec a b) as [->|Hne].
      * rewrite IH. split; intros [rest H]; exists rest.
        -- simpl. now rewrite H.
        -- simpl in H. now injection H.
      * split; [discriminate |]. intros [rest H]. simpl in H.
        injection H as H1 _. congruence.
Qed.

Variables (cfg : Config) (env : Env).

Lemma under_temp_iff (resolved : string) :
  under_temp cfg resolved = true <->
  exists t, In t (TEMP_PATHS cfg) /\ has_prefix t resolved.
Proof.
  unfold under_temp. rewrite existsb_exists.
  split; intros (t & Hin & H); exists t; (split; [assumption|]);
    unfold Js.startsWith in *; now apply prefix_has_prefix.
Qed.

Lemma under_allowed_iff (resolved : string) :
  under_allowed cfg env resolved = true <->
  exists a, In a (ALLOWED_PATHS cfg) /\
            (resolved = Path.resolve (cwd env) a \/
             has_prefix (Path.resolve (cwd env) a ++ "/") resolved).
Proof.
  unfold under_allowed. rewrite existsb_exists.
  split; intros (a & Hin & H); exists a; (split; [assumption|]).
  - apply orb_true_iff in H as [H|H].
    + left. now apply String.eqb_eq.
    + right. now apply prefix_has_prefix.
  - apply orb_true_iff. destruct H as [H|H].
    + left. now apply String.eqb_eq.
    + right. now apply prefix_has_prefix.
Qed.

Lemma normalize_segments_no_dots (segs : list string) : forall acc,
  Forall (fun seg => dot_segment seg = false) acc ->
  Forall (fun seg => dot_segment seg = false)
         (Path.normalize_segments false segs acc).
Proof.
  induction segs as [|seg rest IH]; intros acc Hacc; simpl.
  - now apply Forall_rev.
  - destruct (String.eqb seg "" || String.eqb seg ".") eqn:H1; [now apply IH |].
    destruct (String.eqb seg "..") eqn:H2.
    + destruct acc as [|top acc']; [now apply IH |].
      destruct (String.eqb top ".."); apply IH; [assumption |].
      now inversion Hacc.
    + apply IH. constructor; [| assumption].
      unfold dot_segment. apply orb_false_iff in H1 as [-> ->]. now rewrite H2.
Qed.

Lemma resolve_no_dot_segments (path : string) :
  Js.first_is_slash (cwd env) = true ->
  exists segs,
    Path.resolve (cwd env) path = ("/" ++ Js.join_slash segs)%string /\
    Forall (fun seg => dot_segment seg = false) segs.
Proof.
  intros Habs. unfold Path.resolve.
  destruct (Js.first_is_slash path) eqn:Hp.
  - eexists. split; [reflexivity |]. now apply normalize_segments_no_dots.
  - destruct (String.eqb (cwd env) "") eqn:Hc.
    + apply String.eqb_eq in Hc. rewrite Hc in Habs. discriminate.
    + rewrite Habs. eexists. split; [reflexivity |].
      now apply normalize_segments_no_dots.
Qed.

End PathValidation.

(** C2, as stated, with the temp root configured as [/tmp]: the path
    [/tmpfoo/secret] is neither the temp root nor below [/tmp/], and it is
    outside the vault, yet it is allowed, because temp roots are matched as
    plain string prefixes. *)
Lemma temp_root_prefix_is_not_containment :
  Security.isPathAllowed Sample.cfg_tmp Sample.env "/tmpfoo/secret" = true /\
  Security.resolved_path Sample.env "/tmpfoo/secret" = "/tmpfoo/secret"%string /\
  Security.allowed_by_containment Sample.cfg_tmp Sample.env
    (Security.resolved_path Sample.env "/tmpfoo/secret") = false.
Proof. repeat split; vm_compute; reflexivity. Qed.

(** C2 (amended): [isPathAllowed(path)] is true exactly when the path, after
    home expansion, normalization and symlink resolution (or absolute
    resolution when the path does not exist), has a temp root as a plain
    string prefix, or is equal to a resolved allowed root or has that root
    followed by [/] as a prefix.  On the sample configuration, a path whose
    [..] segments lead out of the vault is refused and one whose [..]
    segments lead back into it is allowed. *)
Theorem isPathAllowed_iff (cfg : Config) (env : Env) (path : string) :
  (Security.isPathAllowed cfg env path = true <->
   (exists t, In t (TEMP_PATHS cfg) /\
              Security.has_prefix t (Security.resolved_path env path)) \/
   (exists a, In a (ALLOWED_PATHS cfg) /\
      (Security.resolved_path env path = Path.resolve (cwd env) a \/
       Security.has_prefix (Path.resolve (cwd env) a ++ "/")
                           (Security.resolved_path env path)))) /\
  Security.isPathAllowed Sample.cfg Sample.env
    "/home/claude/vault/notes/../../.ssh/id_rsa" = false /\
  Security.isPathAllowed Sample.cfg Sample.env
    "/home/claude/.ssh/../vault/notes/a.md" = true.
Proof.
  split; [| split; vm_compute; reflexivity].
  unfold Security.isPathAllowed.
  rewrite <- under_temp_iff, <- (under_allowed_iff cfg env).
  destruct (Security.under_temp cfg _); [tauto |].
  split; [now right | intros [H|H]; [discriminate | assumption]].
Qed.

Section CommandSafety.

Variables (cfg : Config) (env : Env).

(** A command that contains a forbidden substring, in any case, is
    refused. *)
Lemma blocked_pattern_rejected (command pattern : string) :
  In pattern (BLOCKED_PATTERNS cfg) ->
  Js.includes (Js.toLowerCase command) (Js.toLowerCase pattern) = true ->
  fst (Security.checkCommandSafety cfg env command) = false.
Proof.
  intros Hin Hinc. unfold Security.checkCommandSafety.
  destruct (find _ (BLOCKED_PATTERNS cfg)) as [p|] eqn:Hf; [reflexivity |].
  pose proof (find_none _ _ Hf pattern Hin) as Hn. simpl in Hn. congruence.
Qed.

(** A target of two or more code units on the first line after [rm] that
    [isPathAllowed] refuses makes the command unsafe. *)
Lemma rm_target_rejected (command rest arg : string) :
  Js.includes (Js.toLowerCase command) "rm " = true ->
  Security.rm_match command = Some rest ->
  In arg (Js.split_ws rest) ->
  Security.skipped_arg arg = false ->
  Security.isPathAllowed cfg env arg = false ->
  fst (Security.checkCommandSafety cfg env command) = false.
Proof.
  intros Hrm Hm Hin Hskip Hpath. unfold Security.checkCommandSafety.
  destruct (find _ (BLOCKED_PATTERNS cfg)) as [p|]; [reflexivity |].
  rewrite Hrm, Hm.
  destruct (find _ (Js.split_ws rest)) as [a|] eqn:Hf; [reflexivity |].
  pose proof (find_none _ _ Hf arg Hin) as Hn. simpl in Hn.
  rewrite Hskip, Hpath in Hn. discriminate.
Qed.

End CommandSafety.

(** C3, at the command [rm -fr /] on the sample configuration (whose
    forbidden substrings include [rm -rf /]): the argument list is
    [-fr], [/]; the target [/] is outside the allowed roots, but the loop
    skips every argument of length at most one, and the command is reported
    safe. *)
Theorem rm_of_single_character_target_passes :
  Security.checkCommandSafety Sample.cfg Sample.env "rm -fr /" = (true, ""%string) /\
  Security.rm_match "rm -fr /" = Some "-fr /"%string /\
  Js.split_ws "-fr /" = ["-fr"; "/"]%string /\
  Security.skipped_arg "/" = true /\
  Security.isPathAllowed Sample.cfg Sample.env "/" = false.
Proof. repeat split; vm_compute; reflexivity. Qed.

(* ===================================================================== *)
(** * Properties of [src/handlers/streaming.ts] *)
(* ===================================================================== *)

Section Substring.

Lemma substring_zero (s : string) : forall i, String.substring i 0 s = ""%string.
Proof. induction s as [|c s IH]; intros [|i]; simpl; auto. Qed.

Lemma substring_plus (s : string) : forall i a b,
  String.substring i (a + b) s =
  (String.substring i a s ++ String.substring (i + a) b s)%string.
Proof.
  induction s as [|c s IH]; intros i a b.
  - destruct i, a, b; reflexivity.
  - destruct i as [|i].
    + destruct a as [|a]; simpl.
      * reflexivity.
      * f_equal. rewrite (IH 0%nat a b). reflexivity.
    + simpl. apply IH.
Qed.

Lemma substring_past_end (s : string) : forall i m,
  (String.length s - i <= m)%nat ->
  String.substring i m s = String.substring i (String.length s - i) s.
Proof.
  induction s as [|c s IH]; intros i m H.
  - destruct i, m; reflexivity.
  - destruct i as [|i]; simpl in *.
    + destruct m as [|m]; [lia |]. f_equal.
      rewrite (IH 0%nat m) by lia. now rewrite Nat.sub_0_r.
    + now apply IH.
Qed.

Lemma append_empty_r (s : string) : (s ++ "")%string = s.
Proof.
  induction s as [|c s IH]; [reflexivity |].
  change (String c (s ++ "")%string = String c s). now rewrite IH.
Qed.

Lemma substring_all (s : string) :
  String.substring 0 (String.length s) s = s.
Proof. induction s as [|c s IH]; simpl; [reflexivity | now rewrite IH]. Qed.

Lemma length_substring_le (s : string) : forall i m,
  (String.length (String.substring i m s) <= m)%nat.
Proof.
  induction s as [|c s IH]; intros i m.
  - destruct i, m; simpl; lia.
  - destruct i as [|i]; simpl.
    + destruct m as [|m]; simpl; [lia |]. specialize (IH 0%nat m). lia.
    + apply IH.
Qed.

Lemma substring_nonempty (s : string) : forall i m,
  (i < String.length s)%nat -> (0 < m)%nat -> String.substring i m s <> ""%string.
Proof.
  induction s as [|c s IH]; intros i m Hi Hm; simpl in Hi; [lia |].
  destruct i as [|i]; simpl.
  - destruct m; [lia | discriminate].
  - apply IH; lia.
Qed.

End Substring.

Section Sink.

Variables (cfg : Config) (fmt : Formatting) (orc : Transport.Oracle) (chat : Z).

Hypothesis Hlimit : (0 < TELEGRAM_SAFE_LIMIT cfg)%nat.
Hypothesis Hplain : forall h c t, orc h (Transport.Reply c t false) = true.


Lemma send_chunks_spec (formatted : string) (fuel : nat) : forall i tr,
  (String.length formatted - i <= fuel)%nat ->
  exists tr' sends,
    Streaming.send_chunks fuel cfg orc chat formatted i tr = Some tr' /\
    Transport.log tr' = Transport.log tr ++ sends /\
    Forall (Transport.is_reply_to chat) sends /\
    Js.join (Transport.sent_texts sends) =
      String.substring i (String.length formatted - i) formatted /\
    Forall (fun text => (String.length text <= TELEGRAM_SAFE_LIMIT cfg)%nat /\
                        text <> ""%string)
           (Transport.sent_texts sends).
Proof.
  set (k := TELEGRAM_SAFE_LIMIT cfg) in *.
  induction fuel as [|fuel IH]; intros i tr Hfuel.
  - exists tr, []. simpl.
    destruct (Nat.ltb_spec i (String.length formatted)); [lia |].
    rewrite app_nil_r. repeat split; auto.
    replace (String.length formatted - i)%nat with 0%nat by lia.
    now rewrite substring_zero.
  - simpl. destruct (Nat.ltb_spec i (String.length formatted)) as [Hlt|Hge].
    2:{ exists tr, []. rewrite app_nil_r. repeat split; auto.
        replace (String.length formatted - i)%nat with 0%nat by lia.
        now rewrite substring_zero. }
    fold k.
    set (chunk := Js.slice formatted i (i + k)).
    assert (Hchunk : chunk = String.substring i k formatted).
    { unfold chunk, Js.slice. f_equal. lia. }
    assert (Hsplit : String.substring i (String.length formatted - i) formatted =
                     (chunk ++ String.substring (i + k)
                        (String.length formatted - (i + k)) formatted)%string).
    { rewrite Hchunk.
      destruct (Nat.le_gt_cases (i + k) (String.length formatted)) as [Hle|Hgt].
      - replace (String.length formatted - i)%nat
          with (k + (String.length formatted - (i + k)))%nat by lia.
        apply substring_plus.
      - replace (String.length formatted - (i + k))%nat with 0%nat by lia.
        rewrite substring_zero, (substring_past_end formatted i k) by lia.
        now rewrite append_empty_r. }
    assert (Hok : (String.length chunk <= k)%nat /\ chunk <> ""%string).
    { rewrite Hchunk. split; [apply length_substring_le |].
      apply substring_nonempty; assumption. }
    unfold Transport.reply, Transport.call.
    destruct (orc (Transport.log tr) (Transport.Reply chat chunk true)) eqn:Hhtml.
    + simpl.
      match goal with |- context [Streaming.send_chunks fuel cfg orc chat formatted _ ?t] =>
        destruct (IH (i + k)%nat t ltac:(lia)) as (tr' & sends & Hs & Hlog & Hrep & Hjoin & Hlen)
      end.
      exists tr', ((Transport.Reply chat chunk true, true) :: sends).
      split; [exact Hs |]. simpl in Hlog.
      split; [rewrite Hlog, <- app_assoc; reflexivity |].
      split; [constructor; [now exists chunk, true | assumption] |].
      split; [simpl; rewrite Hjoin; now rewrite Hsplit |].
      simpl. constructor; assumption.
    + simpl. rewrite Hplain. simpl.
      match goal with |- context [Streaming.send_chunks fuel cfg orc chat formatted _ ?t] =>
        destruct (IH (i + k)%nat t ltac:(lia)) as (tr' & sends & Hs & Hlog & Hrep & Hjoin & Hlen)
      end.
      exists tr', ((Transport.Reply chat chunk true, false) ::
                   (Transport.Reply chat chunk false, true) :: sends).
      split; [exact Hs |]. simpl in Hlog.
      split; [rewrite Hlog, <- !app_assoc; reflexivity |].
      split; [constructor; [now exists chunk, true |
                            constructor; [now exists chunk, false | assumption]] |].
      split; [simpl; rewrite Hjoin; now rewrite Hsplit |].
      simpl. constructor; assumption.
Qed.


Lemma segment_end_dispatch (now : Z) (content : string) (seg : nat)
    (st : Streaming.StreamingState) (tr : Transport.State) :
  Streaming.statusCallback cfg fmt orc chat now "segment_end" content
    (Some seg) st tr =
  Streaming.on_segment_end cfg fmt orc chat content seg st tr.
Proof. reflexivity. Qed.

(** A segment that was never rendered gets nothing at its end. *)
Lemma segment_end_without_unit (now : Z) (content : string) (seg : nat)
    (st : Streaming.StreamingState) (tr : Transport.State) :
  Streaming.textMessages st !! seg = None ->
  Streaming.statusCallback cfg fmt orc chat now "segment_end" content
    (Some seg) st tr = Some (st, tr).
Proof.
  intros H. rewrite segment_end_dispatch. unfold Streaming.on_segment_end.
  now rewrite H.
Qed.

End Sink.

(** A [segment_end] event with empty content for a segment whose last
    render is ["abc"]: the rendered content (the empty string) differs from
    the last render and fits in one unit, but the sink sends nothing,
    because the branch is guarded by [... && content]. *)
Lemma segment_end_with_empty_content_is_ignored :
  Streaming.statusCallback Sample.cfg Sample.fmt Transport.reliable 42 1000
    "segment_end" "" (Some 0%nat) Sample.streaming Transport.init
  = Some (Sample.streaming, Transport.init) /\
  Streaming.textMessages Sample.streaming !! 0%nat = Some Sample.unit0 /\
  Streaming.lastContent Sample.streaming !! 0%nat = Some "abc"%string /\
  convertMarkdownToHtml Sample.fmt "" <> "abc"%string.
Proof. repeat split; try reflexivity. discriminate. Qed.

(** The end of a segment that has a display unit.  For every [segment_end]
    event with non-empty content, for a segment that has a display unit,
    whose rendered content differs from the last render of that segment:
    when the rendered content fits in one
    unit, the sink issues exactly one request, an edit of the segment's unit
    with the full rendered content (whatever the throttle state); when it
    does not fit, the sink asks for the deletion of the unit and then, with
    a positive chunk length and a transport that accepts plain-text sends,
    only sends new messages to the chat: the messages that went through are
    non-empty, at most [TELEGRAM_SAFE_LIMIT] long, and their concatenation in
    order is the rendered content. *)
Theorem segment_end_final_render (cfg : Config) (fmt : Formatting)
    (orc : Transport.Oracle) (chat now : Z) (content : string) (seg : nat)
    (st : Streaming.StreamingState) (tr : Transport.State) (msg : Message)
    (Hunit : Streaming.textMessages st !! seg = Some msg)
    (Hcontent : content <> ""%string)
    (Hdiff : Streaming.lastContent st !! seg <>
             Some (convertMarkdownToHtml fmt content))
    (Hlimit : (0 < TELEGRAM_SAFE_LIMIT cfg)%nat)
    (Hplain : forall h c t, orc h (Transport.Reply c t false) = true) :
  exists tr',
    Streaming.statusCallback cfg fmt orc chat now "segment_end" content
      (Some seg) st tr = Some (st, tr') /\
    if (String.length (convertMarkdownToHtml fmt content)
        <=? TELEGRAM_MESSAGE_LIMIT cfg)%nat
    then
      exists ok,
        Transport.log tr' =
        Transport.log tr ++
          [(Transport.EditMessageText msg (convertMarkdownToHtml fmt content) true,
            ok)]
    else
      exists ok sends,
        Transport.log tr' =
          Transport.log tr ++ (Transport.DeleteMessage msg, ok) :: sends /\
        Forall (Transport.is_reply_to chat) sends /\
        Js.join (Transport.sent_texts sends) = convertMarkdownToHtml fmt content /\
        Forall (fun text =>
                  (String.length text <= TELEGRAM_SAFE_LIMIT cfg)%nat /\
                  text <> ""%string)
               (Transport.sent_texts sends).
Proof.
  rewrite segment_end_dispatch. unfold Streaming.on_segment_end.
  rewrite Hunit.
  destruct content as [|c content']; [congruence |].
  cbn [Js.truthy].
  set (formatted := convertMarkdownToHtml fmt (String c content')) in *.
  rewrite bool_decide_eq_false_2 by assumption.
  destruct (String.length formatted <=? TELEGRAM_MESSAGE_LIMIT cfg)%nat.
  - eexists. split; [reflexivity |]. simpl. eexists. reflexivity.
  - destruct (send_chunks_spec cfg orc chat Hlimit Hplain formatted
                (S (String.length formatted)) 0%nat
                (fst (Transport.deleteMessage orc msg tr)) ltac:(lia))
      as (tr' & sends & Hs & Hlog & Hrep & Hjoin & Hlen).
    rewrite Hs. exists tr'. split; [reflexivity |].
    exists (orc (Transport.log tr) (Transport.DeleteMessage msg)), sends.
    split; [rewrite Hlog; simpl; rewrite <- app_assoc; reflexivity |].
    split; [assumption |].
    split; [| assumption].
    rewrite Hjoin, Nat.sub_0_r. apply substring_all.
Qed.

(** The final render of a text of 26 code units on the sample configuration
    (units of 10, chunks of 8): the unit is deleted and four messages are
    sent. *)
Lemma segment_end_final_render_witness :
  Streaming.textMessages Sample.streaming !! 0%nat = Some Sample.unit0 /\
  "abcdefghijklmnopqrstuvwxyz"%string <> ""%string /\
  (0 < TELEGRAM_SAFE_LIMIT Sample.cfg)%nat /\
  exists tr',
    Streaming.statusCallback Sample.cfg Sample.fmt Transport.reliable 42 1000
      "segment_end" "abcdefghijklmnopqrstuvwxyz" (Some 0%nat)
      Sample.streaming Transport.init = Some (Sample.streaming, tr') /\
    Transport.sent_texts (Transport.log tr') =
      ["abcdefgh"; "ijklmnop"; "qrstuvwx"; "yz"]%string.
Proof.
  assert (H1 : Streaming.textMessages Sample.streaming !! 0%nat
               = Some Sample.unit0) by reflexivity.
  assert (H2 : "abcdefghijklmnopqrstuvwxyz"%string <> ""%string) by discriminate.
  assert (H3 : Streaming.lastContent Sample.streaming !! 0%nat <>
               Some (convertMarkdownToHtml Sample.fmt "abcdefghijklmnopqrstuvwxyz"))
    by (vm_compute; discriminate).
  assert (H4 : (0 < TELEGRAM_SAFE_LIMIT Sample.cfg)%nat) by (vm_compute; lia).
  assert (H5 : forall h c t, Transport.reliable h (Transport.Reply c t false) = true)
    by reflexivity.
  split; [exact H1 | split; [exact H2 | split; [exact H4 |]]].
  destruct (segment_end_final_render Sample.cfg Sample.fmt Transport.reliable
              42 1000 "abcdefghijklmnopqrstuvwxyz" 0%nat Sample.streaming
              Transport.init Sample.unit0 H1 H2 H3 H4 H5) as (tr' & Hrun & _).
  exists tr'. split; [exact Hrun |].
  vm_compute in Hrun. injection Hrun as <-. reflexivity.
Defined.

(* ===================================================================== *)
(** * Properties of [src/session.ts] *)
(* ===================================================================== *)

Section Resume.

Variables (cfg : Config) (now : Z).

Lemma truthy_opt_iff (o : option string) :
  Js.truthy_opt o = true <-> exists v, o = Some v /\ v <> ""%string.
Proof.
  destruct o as [[|c v]|]; simpl; split; try discriminate.
  - intros (v & [= <-] & H). now elim H.
  - intros _. eexists. split; [reflexivity | discriminate].
  - reflexivity.
  - intros (v & [=] & _).
Qed.

Lemma resumeLast_success (file : ClaudeSession.SessionFile)
    (s : ClaudeSession.Session) :
  fst (snd (ClaudeSession.resumeLast cfg now file s)) = true <->
  exists data id,
    file = ClaudeSession.Saved data /\
    ClaudeSession.session_id data = Some id /\ id <> ""%string /\
    ~ (exists wd, ClaudeSession.working_dir data = Some wd /\
                  wd <> ""%string /\ wd <> WORKING_DIR cfg).
Proof.
  unfold ClaudeSession.resumeLast.
  destruct file as [|err|data]; simpl.
  - split; [discriminate | intros (? & ? & [=] & _)].
  - split; [discriminate | intros (? & ? & [=] & _)].
  - destruct (Js.truthy_opt (ClaudeSession.session_id data)) eqn:Hid; simpl.
    + apply truthy_opt_iff in Hid as (id & Hid & Hne).
      destruct (Js.truthy_opt (ClaudeSession.working_dir data)) eqn:Hwd; simpl.
      * apply truthy_opt_iff in Hwd as (wd & Hwd & Hwne).
        case_bool_decide as Heq; simpl.
        -- split; [| reflexivity]. intros _. exists data, id.
           repeat split; try assumption.
           intros (wd' & Hwd' & _ & Hdiff). congruence.
        -- split; [discriminate |].
           intros (d & i & [= <-] & _ & _ & Hno). elim Hno.
           exists wd. repeat split; try assumption. congruence.
      * split; [| reflexivity]. intros _. exists data, id.
        repeat split; try assumption.
        intros (wd' & Hwd' & Hne' & _).
        assert (Js.truthy_opt (ClaudeSession.working_dir data) = true)
          by (apply truthy_opt_iff; eauto).
        congruence.
    + split; [discriminate |].
      intros (d & i & [= <-] & Hi & Hne & _).
      assert (Js.truthy_opt (ClaudeSession.session_id data) = true)
        by (apply truthy_opt_iff; eauto).
      congruence.
Qed.

End Resume.

(** C9: [resumeLast()] fails when there is no persisted record (no file, an
    empty one, or a content that cannot be read as a record), when the
    record has no session identity, and when the record has a working
    directory that differs from the current one, whatever its session
    identity; it succeeds in exactly the remaining cases, and only then
    adopts the recorded identity.  A field is present when it is a
    non-empty string, as the source tests it.  A failed call leaves the
    session as it was. *)
Theorem resumeLast_outcome (cfg : Config) (now : Z)
    (file : ClaudeSession.SessionFile) (s : ClaudeSession.Session) :
  let r := ClaudeSession.resumeLast cfg now file s in
  (fst (snd r) = true <->
   exists data id,
     file = ClaudeSession.Saved data /\
     ClaudeSession.session_id data = Some id /\ id <> ""%string /\
     ~ (exists wd, ClaudeSession.working_dir data = Some wd /\
                   wd <> ""%string /\ wd <> WORKING_DIR cfg)) /\
  (forall data id wd,
     file = ClaudeSession.Saved data ->
     ClaudeSession.session_id data = Some id -> id <> ""%string ->
     ClaudeSession.working_dir data = Some wd ->
     wd <> ""%string -> wd <> WORKING_DIR cfg ->
     r = (s, (false, ("Session was for different directory: " ++ wd)%string))) /\
  (fst (snd r) = true ->
   exists data,
     file = ClaudeSession.Saved data /\
     ClaudeSession.sessionId (fst r) = ClaudeSession.session_id data /\
     ClaudeSession.lastActivity (fst r) = Some now) /\
  (fst (snd r) = false -> fst r = s).
Proof.
  intros r. split; [apply resumeLast_success |].
  subst r. unfold ClaudeSession.resumeLast. split; [| split].
  - intros data id wd -> Hid Hne Hwd Hwne Hdiff.
    assert (H1 : Js.truthy_opt (ClaudeSession.session_id data) = true)
      by (apply truthy_opt_iff; eauto).
    assert (H2 : Js.truthy_opt (ClaudeSession.working_dir data) = true)
      by (apply truthy_opt_iff; eauto).
    rewrite H1, H2. simpl.
    rewrite bool_decide_eq_false_2 by congruence. simpl.
    now rewrite Hwd.
  - destruct file as [|err|data]; simpl; try discriminate.
    destruct (Js.truthy_opt (ClaudeSession.session_id data)); simpl;
      [| discriminate].
    destruct (_ && _); simpl; [discriminate |].
    intros _. exists data. repeat split.
  - destruct file as [|err|data]; simpl; try reflexivity.
    destruct (Js.truthy_opt (ClaudeSession.session_id data)); simpl;
      [| reflexivity].
    destruct (_ && _); simpl; [reflexivity | discriminate].
Qed.

Section StopBeforeStart.

Import ClaudeSession.

Lemma poke_keeps_stop (p : Poke) (s : Session) :
  p <> PokeClearStopRequested ->
  stopRequested s = true -> stopRequested (poke p s) = true.
Proof.
  intros Hp Hs. destruct p; simpl; try assumption; try congruence.
  unfold stop. destruct (_ && _); [reflexivity |].
  destruct (_isProcessing s); simpl; [reflexivity | assumption].
Qed.

Lemma pokes_keep_stop (ps : list Poke) : forall s,
  Forall (fun p => p <> PokeClearStopRequested) ps ->
  stopRequested s = true ->
  stopRequested (fold_left (fun s p => poke p s) ps s) = true.
Proof.
  induction ps as [|p ps IH]; intros s Hq Hs; simpl; [assumption |].
  inversion Hq; subst. apply IH; [assumption |]. now apply poke_keeps_stop.
Qed.

Variables (cfg : Config) (env : Env) (fmt : Formatting)
          (orc : Transport.Oracle) (chat : Z) (engine : Engine).

(** With the stop flag set, [sendMessageStreaming] throws before it calls
    the engine. *)
Lemma cancelled_before_start (now : Z) (message : string)
    (st : Streaming.StreamingState) (w : World) :
  stopRequested (session w) = true ->
  exists w',
    sendMessageStreaming cfg env fmt orc chat engine now message st w =
      Some (st, w', Throws "Error: Query cancelled") /\
    invocations w' = invocations w /\
    transport w' = transport w /\
    file w' = file w /\
    stopRequested (session w') = false /\
    isQueryRunning (session w') = isQueryRunning (session w).
Proof.
  intros Hs. unfold sendMessageStreaming.
  set (s1 := if _ && _ then session w else set_sessionId None (session w)).
  assert (H1 : stopRequested s1 = true /\
               isQueryRunning s1 = isQueryRunning (session w)).
  { subst s1. destruct (_ && _); simpl; auto. }
  destruct H1 as [H1 H2]. rewrite H1.
  eexists. split; [reflexivity |]. simpl. repeat split. exact H2.
Qed.

End StopBeforeStart.

Section CancelledTurn.

Variables (cfg : Config) (env : Env) (fmt : Formatting)
          (orc : Transport.Oracle) (engine : ClaudeSession.Engine)
          (clock : nat -> Z).

(** An attempt that starts with the stop flag set is the last one of its
    turn, and the turn does not call the engine. *)
Lemma cancelled_attempt (remaining attempt : nat) (chat userId : Z)
    (username trimmed : string) (st : Streaming.StreamingState)
    (hs : Handlers.State) :
  ClaudeSession.stopRequested (Handlers.session_of hs) = true ->
  exists hs' exit,
    Handlers.attempts cfg env fmt orc engine clock (S remaining) attempt chat
      userId username trimmed st hs = Some (hs', exit) /\
    ClaudeSession.invocations (Handlers.world hs') =
      ClaudeSession.invocations (Handlers.world hs) /\
    Handlers.calls hs' = Handlers.calls hs ++ [(trimmed, st)].
Proof.
  intros Hs. cbn [Handlers.attempts].
  change (Handlers.world (Handlers.log_call trimmed st hs))
    with (Handlers.world hs).
  destruct (cancelled_before_start cfg env fmt orc chat engine (clock attempt)
              trimmed st (Handlers.world hs) Hs)
    as (w' & -> & Hinv & _).
  cbn [mbind option_bind].
  change (Js.includes "Error: Query cancelled" "exited with code") with false.
  cbn [andb]. unfold Handlers.report_failure.
  change (Js.includes "Error: Query cancelled" "abort"
          || Js.includes "Error: Query cancelled" "cancel") with true.
  cbv iota.
  destruct (ClaudeSession.consumeInterruptFlag _) as [s' was].
  destruct was; cbn [negb].
  - do 2 eexists. split; [reflexivity |]. simpl. split; [exact Hinv | reflexivity].
  - destruct (Handlers.say orc chat _ _) as [hs5 ok] eqn:Hsay.
    do 2 eexists. split; [reflexivity |].
    unfold Handlers.say in Hsay.
    destruct (Transport.reply orc chat _ false _) as [tr sent].
    injection Hsay as <- _. simpl. split; [exact Hinv | reflexivity].
Qed.

End CancelledTurn.

(** What [handleStop] does 100 ms after [stop()] voids the cancellation: on
    a session that is processing, [stop()], then [clearStopRequested()],
    then [sendMessageStreaming] calls the engine. *)
Lemma stop_then_clear_lets_the_engine_run :
  let s1 := fst (ClaudeSession.stop
                   (ClaudeSession.startProcessing ClaudeSession.empty)) in
  let w := ClaudeSession.with_session (ClaudeSession.clearStopRequested s1)
             Sample.world0 in
  snd (ClaudeSession.stop (ClaudeSession.startProcessing ClaudeSession.empty))
    = ClaudeSession.Pending /\
  exists st' w' out,
    ClaudeSession.sendMessageStreaming Sample.cfg Sample.env Sample.fmt
      Transport.reliable 42 Sample.engine_crash_once 0 "hello"
      Streaming.fresh w = Some (st', w', out) /\
    List.length (ClaudeSession.invocations w') = 1%nat.
Proof.
  split; [reflexivity |].
  do 3 eexists. split; [vm_compute; reflexivity | reflexivity].
Qed.

(** As long as nothing clears the flag: when [stop()] is called on a session
    that is processing and whose query is not running, it returns
    ["pending"] and sets the stop flag; the call of [sendMessageStreaming]
    that follows, whatever other handlers did to the session in between
    short of [clearStopRequested()], throws the cancellation error, and it
    does so without calling the engine and without sending anything; the
    attempt loop of the turn then ends without a retry. *)
Theorem stop_while_processing_cancels (cfg : Config) (env : Env)
    (fmt : Formatting) (orc : Transport.Oracle) (chat : Z)
    (engine : ClaudeSession.Engine) (now : Z) (message : string)
    (st : Streaming.StreamingState) (w : ClaudeSession.World)
    (ps : list ClaudeSession.Poke)
    (Hprocessing : ClaudeSession._isProcessing (ClaudeSession.session w) = true)
    (Hnotrunning : ClaudeSession.isQueryRunning (ClaudeSession.session w) = false)
    (Hquiet : Forall (fun p => p <> ClaudeSession.PokeClearStopRequested) ps) :
  snd (ClaudeSession.stop (ClaudeSession.session w)) = ClaudeSession.Pending /\
  ClaudeSession.stopRequested
    (fst (ClaudeSession.stop (ClaudeSession.session w))) = true /\
  exists w',
    ClaudeSession.sendMessageStreaming cfg env fmt orc chat engine now message
      st
      (ClaudeSession.poke_all ps
         (ClaudeSession.with_session
            (fst (ClaudeSession.stop (ClaudeSession.session w))) w))
    = Some (st, w', ClaudeSession.Throws "Error: Query cancelled") /\
    ClaudeSession.invocations w' = ClaudeSession.invocations w /\
    ClaudeSession.transport w' = ClaudeSession.transport w /\
    forall clock remaining attempt userId username (hs : Handlers.State),
      Handlers.world hs =
        ClaudeSession.poke_all ps
          (ClaudeSession.with_session
             (fst (ClaudeSession.stop (ClaudeSession.session w))) w) ->
      exists hs' exit,
        Handlers.attempts cfg env fmt orc engine clock (S remaining) attempt
          chat userId username message st hs = Some (hs', exit) /\
        ClaudeSession.invocations (Handlers.world hs') =
          ClaudeSession.invocations w.
Proof.
  assert (Hstop : ClaudeSession.stop (ClaudeSession.session w) =
                  (ClaudeSession.set_stopRequested true (ClaudeSession.session w),
                   ClaudeSession.Pending)).
  { unfold ClaudeSession.stop. now rewrite Hnotrunning, Hprocessing. }
  rewrite Hstop. simpl. split; [reflexivity | split; [reflexivity |]].
  destruct (cancelled_before_start cfg env fmt orc chat engine now message st
              (ClaudeSession.poke_all ps
                 (ClaudeSession.with_session
                    (ClaudeSession.set_stopRequested true
                       (ClaudeSession.session w)) w)))
    as (w' & Hrun & Hinv & Htr & _).
  { simpl. now apply pokes_keep_stop. }
  exists w'. split; [exact Hrun |]. split; [exact Hinv |]. split; [exact Htr |].
  intros clock remaining attempt userId username hs Hw.
  destruct (cancelled_attempt cfg env fmt orc engine clock remaining attempt
              chat userId username message st hs)
    as (hs' & exit & Hatt & Hi & _).
  { unfold Handlers.session_of. rewrite Hw. simpl. now apply pokes_keep_stop. }
  exists hs', exit. split; [exact Hatt |]. rewrite Hi, Hw. reflexivity.
Qed.

(** A [/stop] that arrives right after [startProcessing()], followed by a
    second stop and a kill by other handlers. *)
Lemma stop_while_processing_cancels_witness :
  ClaudeSession._isProcessing
    (ClaudeSession.startProcessing ClaudeSession.empty) = true /\
  ClaudeSession.isQueryRunning
    (ClaudeSession.startProcessing ClaudeSession.empty) = false /\
  exists w',
    ClaudeSession.sendMessageStreaming Sample.cfg Sample.env Sample.fmt
      Transport.reliable 42 Sample.engine_crash_once 0 "hello" Streaming.fresh
      (ClaudeSession.poke_all [ClaudeSession.PokeStop; ClaudeSession.PokeKill]
         (ClaudeSession.with_session
            (fst (ClaudeSession.stop
                    (ClaudeSession.startProcessing ClaudeSession.empty)))
            Sample.world0))
    = Some (Streaming.fresh, w', ClaudeSession.Throws "Error: Query cancelled") /\
    ClaudeSession.invocations w' = [].
Proof.
  split; [reflexivity | split; [reflexivity |]].
  assert (Hq : Forall (fun p => p <> ClaudeSession.PokeClearStopRequested)
                 [ClaudeSession.PokeStop; ClaudeSession.PokeKill]).
  { repeat constructor; discriminate. }
  destruct (stop_while_processing_cancels Sample.cfg Sample.env Sample.fmt
              Transport.reliable 42 Sample.engine_crash_once 0 "hello"
              Streaming.fresh
              (ClaudeSession.with_session
                 (ClaudeSession.startProcessing ClaudeSession.empty)
                 Sample.world0)
              [ClaudeSession.PokeStop; ClaudeSession.PokeKill]
              eq_refl eq_refl Hq) as (_ & _ & w' & Hrun & Hinv & _ & _).
  exists w'. split; [exact Hrun | exact Hinv].
Defined.

Section Invocations.

Import ClaudeSession.

Variables (cfg : Config) (env : Env) (fmt : Formatting)
          (orc : Transport.Oracle) (chat : Z) (engine : Engine).

Lemma callback_invocations now ty content seg st w st' w' :
  callback cfg fmt orc chat now ty content seg st w = Some (st', w') ->
  invocations w' = invocations w.
Proof.
  unfold callback. intros H.
  destruct (Streaming.statusCallback _ _ _ _ _ _ _ _ _ _) as [[st1 tr1]|];
    simpl in H; [| discriminate].
  now injection H as <- <-.
Qed.

Ltac use_callbacks :=
  repeat match goal with
  | E : callback _ _ _ _ _ _ _ _ _ _ = Some _ |- _ =>
      apply callback_invocations in E; simpl in E
  end.

Lemma process_block_invocations now b st w l st' w' l' raised :
  process_block cfg env fmt orc chat now b st w l = Some (st', w', l', raised) ->
  invocations w' = invocations w.
Proof.
  unfold process_block. intros H. crunch; subst; use_callbacks; simpl in *;
    congruence.
Qed.

Lemma process_blocks_invocations now bs : forall st w l st' w' l' raised,
  process_blocks cfg env fmt orc chat now bs st w l = Some (st', w', l', raised) ->
  invocations w' = invocations w.
Proof.
  induction bs as [|b bs IH]; intros st w l st' w' l' raised H; simpl in H.
  - now simplify_eq.
  - open_bind H. apply process_block_invocations in E.
    destruct o; [simplify_eq; assumption |].
    apply IH in H. congruence.
Qed.

Lemma process_event_invocations now ev st w l st' w' l' raised :
  process_event cfg env fmt orc chat now ev st w l = Some (st', w', l', raised) ->
  invocations w' = invocations w.
Proof.
  unfold process_event. intros H.
  set (w1 := if _ && _ then _ else w) in H.
  assert (Hw1 : invocations w1 = invocations w).
  { subst w1. destruct (_ && _); [| reflexivity].
    unfold saveSession. now destruct (negb _). }
  destruct (body ev) as [content|usage|].
  - apply process_blocks_invocations in H. congruence.
  - destruct usage; simplify_eq; simpl; assumption.
  - simplify_eq. assumption.
Qed.

Lemma poke_all_invocations ps w : invocations (poke_all ps w) = invocations w.
Proof. reflexivity. Qed.

Lemma consume_invocations items : forall st w l st' w' l' exit,
  consume cfg env fmt orc chat items st w l = Some (st', w', l', exit) ->
  invocations w' = invocations w.
Proof.
  induction items as [|item rest IH]; intros st w l st' w' l' exit H; simpl in H.
  - now simplify_eq.
  - destruct (stopRequested _); [now simplify_eq |].
    open_bind H. apply process_event_invocations in E.
    rewrite poke_all_invocations in E.
    destruct o; [simplify_eq; assumption |].
    apply IH in H. congruence.
Qed.

(** A call that returns has called the engine at most once, and exactly
    once when the stop flag was not set. *)
Lemma engine_called_once (now : Z) (message : string)
    (st st' : Streaming.StreamingState) (w w' : World) (out : Outcome) :
  stopRequested (session w) = false ->
  sendMessageStreaming cfg env fmt orc chat engine now message st w =
    Some (st', w', out) ->
  invocations w' =
    invocations w ++ [invocation_of cfg env fmt now message (session w)].
Proof.
  intros Hs H. unfold sendMessageStreaming in H.
  set (s1 := if _ && _ then session w else set_sessionId None (session w)) in H.
  assert (H1 : stopRequested s1 = false) by (subst s1; now destruct (_ && _)).
  rewrite H1 in H.
  open_bind H. apply consume_invocations in E. simpl in E.
  crunch; subst; use_callbacks; simpl in *; congruence.
Qed.

End Invocations.


(* ===================================================================== *)
(** * Properties of [src/handlers/assistant.ts] *)
(* ===================================================================== *)

Section Retry.

Variables (cfg : Config) (env : Env) (fmt : Formatting)
          (orc : Transport.Oracle) (engine : ClaudeSession.Engine)
          (clock : nat -> Z).

Hypothesis Hplain : forall h c t, orc h (Transport.Reply c t false) = true.

Lemma deleteAll_log (ms : list Message) : forall tr,
  exists dels,
    Transport.log (Transport.deleteAll orc ms tr) = Transport.log tr ++ dels /\
    map fst dels = map Transport.DeleteMessage ms.
Proof.
  induction ms as [|m ms IH]; intros tr; cbn [Transport.deleteAll].
  - exists []. now rewrite app_nil_r.
  - destruct (IH (fst (Transport.deleteMessage orc m tr))) as (dels & Hlog & Hm).
    exists ((Transport.DeleteMessage m, orc (Transport.log tr) (Transport.DeleteMessage m)) :: dels).
    split; [| simpl; now rewrite Hm].
    rewrite Hlog. simpl. now rewrite <- app_assoc.
Qed.

Lemma say_delivers (chat : Z) (text : string) (hs : Handlers.State) :
  snd (Handlers.say orc chat text hs) = true /\
  Transport.log (ClaudeSession.transport (Handlers.world (fst (Handlers.say orc chat text hs)))) =
    Transport.log (ClaudeSession.transport (Handlers.world hs)) ++
      [(Transport.Reply chat text false, true)] /\
  Handlers.calls (fst (Handlers.say orc chat text hs)) = Handlers.calls hs /\
  Handlers.audit (fst (Handlers.say orc chat text hs)) = Handlers.audit hs /\
  ClaudeSession.session (Handlers.world (fst (Handlers.say orc chat text hs))) =
    ClaudeSession.session (Handlers.world hs) /\
  ClaudeSession.invocations (Handlers.world (fst (Handlers.say orc chat text hs))) =
    ClaudeSession.invocations (Handlers.world hs).
Proof.
  unfold Handlers.say, Transport.reply, Transport.call. rewrite Hplain. simpl.
  repeat split.
Qed.


Import Handlers.

Lemma crash_retry (chat userId : Z) (username trimmed : string) (hs : State)
    (st1 st2 : Streaming.StreamingState) (w1 w2 : ClaudeSession.World)
    (e1 : string) (out2 : ClaudeSession.Outcome) :
  ClaudeSession.sendMessageStreaming cfg env fmt orc chat engine (clock 0%nat)
    trimmed Streaming.fresh (world hs) = Some (st1, w1, ClaudeSession.Throws e1) ->
  Js.includes e1 "exited with code" = true ->
  ClaudeSession.sendMessageStreaming cfg env fmt orc chat engine (clock 1%nat)
    trimmed Streaming.fresh (world (retry_state orc chat trimmed st1 w1 hs))
    = Some (st2, w2, out2) ->
  (exists dels,
     Transport.log (ClaudeSession.transport (world (retry_state orc chat trimmed st1 w1 hs))) =
       Transport.log (ClaudeSession.transport w1) ++ dels ++
       [(Transport.Reply chat "⚠️ Claude crashed, retrying..." false, true)] /\
     map fst dels = map Transport.DeleteMessage (Streaming.toolMessages st1)) /\
  ClaudeSession.sessionId (session_of (retry_state orc chat trimmed st1 w1 hs)) = None /\
  exists hs',
    attempts cfg env fmt orc engine clock (S MAX_RETRIES) 0 chat userId username
      trimmed Streaming.fresh hs = Some (hs', Completed) /\
    calls hs' =
      calls hs ++ [(trimmed, Streaming.fresh); (trimmed, Streaming.fresh)] /\
    match out2 with
    | ClaudeSession.Returns response =>
        audit hs' =
          audit hs ++ [AuditMessage userId username "CLAUDE" trimmed response] /\
        world hs' = w2
    | ClaudeSession.Throws e2 =>
        audit hs' = audit hs /\
        exists dels2,
          map fst dels2 = map Transport.DeleteMessage (Streaming.toolMessages st2) /\
          Transport.log (ClaudeSession.transport (world hs')) =
            Transport.log (ClaudeSession.transport w2) ++ dels2 ++
            (if Js.includes e2 "abort" || Js.includes e2 "cancel" then
               if ClaudeSession._wasInterruptedByNewMessage (ClaudeSession.session w2)
               then []
               else [(Transport.Reply chat "🛑 Query stopped." false, true)]
             else [(Transport.Reply chat ("❌ Error: " ++ Js.slice e2 0 200) false,
                    true)])
    end.
Proof.
  intros H1 Hcrash H2.
  unfold retry_state in *.
  set (hs2 := with_world w1 (log_call trimmed Streaming.fresh hs)) in *.
  set (hs3 := cleanup_tools orc st1 hs2) in *.
  unfold announce_retry in *.
  set (hs3k := with_session (ClaudeSession.kill (session_of hs3)) hs3) in *.
  destruct (say_delivers chat "⚠️ Claude crashed, retrying..." hs3k)
    as (Hok & Hlog & Hcalls & Haudit & Hsess & Hinv).
  destruct (deleteAll_log (Streaming.toolMessages st1) (ClaudeSession.transport w1))
    as (dels & Hdlog & Hdmap).
  split; [| split].
  - exists dels. split; [| exact Hdmap].
    rewrite Hlog. subst hs3k hs3 hs2. simpl. rewrite Hdlog.
    now rewrite <- app_assoc.
  - unfold session_of. rewrite Hsess. reflexivity.
  - unfold MAX_RETRIES. cbn [attempts]. change (world (log_call trimmed Streaming.fresh hs)) with (world hs).
    rewrite H1. cbn [mbind option_bind]. rewrite Hcrash. cbn [andb Nat.ltb Nat.leb MAX_RETRIES].
    fold hs2. fold hs3. unfold announce_retry. fold hs3k.
    destruct (say orc chat "⚠️ Claude crashed, retrying..." hs3k) as [hs4 ok] eqn:Hsay.
    simpl in Hok, Hlog, Hcalls, Haudit, Hsess, Hinv, H2. subst ok.
    cbn [attempts].
    change (world (log_call trimmed Streaming.fresh hs4)) with (world hs4).
    rewrite H2. cbn [mbind option_bind].
    assert (Hc4 : calls hs4 = calls hs ++ [(trimmed, Streaming.fresh)]).
    { rewrite Hcalls. reflexivity. }
    assert (Ha4 : audit hs4 = audit hs).
    { rewrite Haudit. reflexivity. }
    destruct out2 as [response|e2].
    + eexists. split; [reflexivity |]. simpl. rewrite Hc4, Ha4, <- app_assoc.
      repeat split.
    + cbn [Nat.ltb Nat.leb]. rewrite andb_false_r.
      set (hs5 := cleanup_tools orc st2 (with_world w2 (log_call trimmed Streaming.fresh hs4))).
      destruct (deleteAll_log (Streaming.toolMessages st2) (ClaudeSession.transport w2))
        as (dels2 & Hd2log & Hd2map).
      unfold report_failure.
      destruct (Js.includes e2 "abort" || Js.includes e2 "cancel").
      * unfold ClaudeSession.consumeInterruptFlag.
        change (ClaudeSession._wasInterruptedByNewMessage (session_of hs5))
          with (ClaudeSession._wasInterruptedByNewMessage (ClaudeSession.session w2)).
        destruct (ClaudeSession._wasInterruptedByNewMessage (ClaudeSession.session w2)).
        -- cbn [negb]. eexists. split; [reflexivity |]. simpl.
           rewrite Hc4, Ha4, <- app_assoc. repeat split.
           exists dels2. split; [exact Hd2map |]. rewrite Hd2log. now rewrite app_nil_r.
        -- cbn [negb].
           match goal with |- context [say orc chat ?t ?h] =>
             destruct (say_delivers chat t h) as (Hok' & Hlog' & Hcalls' & Haudit' & _);
             destruct (say orc chat t h) as [hs6 ok'] eqn:Hsay'
           end.
           simpl in Hok', Hlog', Hcalls', Haudit'. subst ok'.
           eexists. split; [reflexivity |].
           rewrite Hcalls', Haudit'. simpl. rewrite Hc4, Ha4, <- app_assoc.
           repeat split.
           exists dels2. split; [exact Hd2map |]. rewrite Hlog'. simpl.
           rewrite Hd2log. now rewrite <- app_assoc.
      * match goal with |- context [say orc chat ?t ?h] =>
          destruct (say_delivers chat t h) as (Hok' & Hlog' & Hcalls' & Haudit' & _);
          destruct (say orc chat t h) as [hs6 ok'] eqn:Hsay'
        end.
        simpl in Hok', Hlog', Hcalls', Haudit'. subst ok'.
        eexists. split; [reflexivity |].
        rewrite Hcalls', Haudit'. simpl. rewrite Hc4, Ha4, <- app_assoc.
        repeat split.
        exists dels2. split; [exact Hd2map |]. rewrite Hlog'. simpl.
        rewrite Hd2log. now rewrite <- app_assoc.
Qed.

End Retry.


(** C8, as stated, on an engine whose model asks twice to read the file
    [/etc/exited with code/cancel], which is outside the allowed roots: the
    orchestrator refuses the read and throws; the text of the exception
    contains [exited with code], so the handler takes the failure for a
    crash and retries once; the second failure, of the same kind, also
    contains [cancel], and the user is told ["Query stopped."], not shown a
    fatal error. *)
Lemma second_crash_shown_as_stop :
  exists hs',
    Handlers.handleAssistantMessage Sample.cfg Sample.env Sample.fmt
      Transport.reliable Sample.engine_blocked Sample.clock Sample.ctx
      "read it" Sample.state0 = Some (hs', Handlers.Completed) /\
    Handlers.calls hs' =
      [("read it"%string, Streaming.fresh); ("read it"%string, Streaming.fresh)] /\
    Js.includes "Error: File access blocked: /etc/exited with code/cancel"
                "exited with code" = true /\
    Transport.sent_texts
      (Transport.log (ClaudeSession.transport (Handlers.world hs'))) =
      [ "Access denied: /etc/exited with code/cancel";
        "⚠️ Claude crashed, retrying...";
        "Access denied: /etc/exited with code/cancel";
        "🛑 Query stopped." ]%string.
Proof.
  eexists. split; [vm_compute; reflexivity |].
  repeat split; reflexivity.
Qed.

(** The same happens when it is the engine that fails twice with a text
    that contains both [exited with code] and [cancel]. *)
Lemma cancel_text_in_crash_error :
  exists hs',
    Handlers.handleAssistantMessage Sample.cfg Sample.env Sample.fmt
      Transport.reliable Sample.engine_cancelled_crash Sample.clock Sample.ctx
      "hello" Sample.state0 = Some (hs', Handlers.Completed) /\
    List.length (ClaudeSession.invocations (Handlers.world hs')) = 2%nat /\
    Transport.sent_texts
      (Transport.log (ClaudeSession.transport (Handlers.world hs'))) =
      [ "⚠️ Claude crashed, retrying..."; "🛑 Query stopped." ]%string.
Proof.
  eexists. split; [vm_compute; reflexivity |]. split; reflexivity.
Qed.

(** C8 (amended): with a transport that delivers plain-text sends, a first
    failure of [sendMessageStreaming] whose text contains [exited with code]
    causes exactly one more call, with the same message and a fresh
    [StreamingState], after the deletion of the tool messages of the failed
    attempt was requested, the session identity was cleared and the retry
    was announced; when the stop flag is not set the retry calls the engine
    with the same message after the date line of a new session.  Whatever
    the second call does, there is no third one.  A second failure is shown
    to the user as ["Error: ..."] when its text contains neither [abort]
    nor [cancel]; otherwise it is handled as a cancellation (the stop
    notice, or nothing after an interrupt by a new message). *)
Theorem crash_retried_once (cfg : Config) (env : Env) (fmt : Formatting)
    (orc : Transport.Oracle) (engine : ClaudeSession.Engine)
    (clock : nat -> Z) (chat userId : Z) (username trimmed : string)
    (hs : Handlers.State) (st1 st2 : Streaming.StreamingState)
    (w1 w2 : ClaudeSession.World) (e1 : string) (out2 : ClaudeSession.Outcome)
    (Hplain : forall h c t, orc h (Transport.Reply c t false) = true)
    (Hfirst : ClaudeSession.sendMessageStreaming cfg env fmt orc chat engine
                (clock 0%nat) trimmed Streaming.fresh (Handlers.world hs)
              = Some (st1, w1, ClaudeSession.Throws e1))
    (Hcrash : Js.includes e1 "exited with code" = true)
    (Hsecond : ClaudeSession.sendMessageStreaming cfg env fmt orc chat engine
                 (clock 1%nat) trimmed Streaming.fresh
                 (Handlers.world (Handlers.retry_state orc chat trimmed st1 w1 hs))
               = Some (st2, w2, out2)) :
  (exists dels,
     Transport.log (ClaudeSession.transport
                      (Handlers.world (Handlers.retry_state orc chat trimmed st1 w1 hs))) =
       Transport.log (ClaudeSession.transport w1) ++ dels ++
       [(Transport.Reply chat "⚠️ Claude crashed, retrying..." false, true)] /\
     map fst dels = map Transport.DeleteMessage (Streaming.toolMessages st1)) /\
  ClaudeSession.sessionId
    (Handlers.session_of (Handlers.retry_state orc chat trimmed st1 w1 hs)) = None /\
  (ClaudeSession.stopRequested (ClaudeSession.session w1) = false ->
   exists inv,
     ClaudeSession.invocations w2 = ClaudeSession.invocations w1 ++ [inv] /\
     ClaudeSession.prompt inv =
       ClaudeSession.messageToSend fmt (clock 1%nat) true trimmed) /\
  exists hs',
    Handlers.attempts cfg env fmt orc engine clock (S Handlers.MAX_RETRIES) 0
      chat userId username trimmed Streaming.fresh hs
    = Some (hs', Handlers.Completed) /\
    Handlers.calls hs' =
      Handlers.calls hs ++
      [(trimmed, Streaming.fresh); (trimmed, Streaming.fresh)] /\
    match out2 with
    | ClaudeSession.Returns response =>
        Handlers.audit hs' =
          Handlers.audit hs ++
          [Handlers.AuditMessage userId username "CLAUDE" trimmed response] /\
        Handlers.world hs' = w2
    | ClaudeSession.Throws e2 =>
        Handlers.audit hs' = Handlers.audit hs /\
        exists dels2,
          map fst dels2 =
            map Transport.DeleteMessage (Streaming.toolMessages st2) /\
          Transport.log (ClaudeSession.transport (Handlers.world hs')) =
            Transport.log (ClaudeSession.transport w2) ++ dels2 ++
            (if Js.includes e2 "abort" || Js.includes e2 "cancel" then
               if ClaudeSession._wasInterruptedByNewMessage
                    (ClaudeSession.session w2)
               then []
               else [(Transport.Reply chat "🛑 Query stopped." false, true)]
             else [(Transport.Reply chat ("❌ Error: " ++ Js.slice e2 0 200)
                                    false, true)])
    end.
Proof.
  destruct (crash_retry cfg env fmt orc engine clock Hplain chat userId username
              trimmed hs st1 st2 w1 w2 e1 out2 Hfirst Hcrash Hsecond)
    as (Hlog & Hid & Hrun).
  split; [exact Hlog |]. split; [exact Hid |]. split; [| exact Hrun].
  intros Hflag.
  assert (Hs : ClaudeSession.session
                 (Handlers.world (Handlers.retry_state orc chat trimmed st1 w1 hs))
               = ClaudeSession.kill (ClaudeSession.session w1)).
  { unfold Handlers.retry_state, Handlers.announce_retry.
    destruct (say_delivers orc Hplain chat "⚠️ Claude crashed, retrying..."
                (Handlers.with_session
                   (ClaudeSession.kill
                      (Handlers.session_of
                         (Handlers.cleanup_tools orc st1
                            (Handlers.with_world w1
                               (Handlers.log_call trimmed Streaming.fresh hs)))))
                   (Handlers.cleanup_tools orc st1
                      (Handlers.with_world w1
                         (Handlers.log_call trimmed Streaming.fresh hs)))))
      as (_ & _ & _ & _ & Hsess & _).
    rewrite Hsess. reflexivity. }
  assert (Hi : ClaudeSession.invocations
                 (Handlers.world (Handlers.retry_state orc chat trimmed st1 w1 hs))
               = ClaudeSession.invocations w1).
  { unfold Handlers.retry_state, Handlers.announce_retry.
    match goal with |- context [Handlers.say orc chat ?t ?h] =>
      destruct (say_delivers orc Hplain chat t h) as (_ & _ & _ & _ & _ & Hinv)
    end.
    rewrite Hinv. reflexivity. }
  eexists. split.
  - rewrite <- Hi.
    apply (engine_called_once cfg env fmt orc chat engine (clock 1%nat) trimmed
             Streaming.fresh st2 _ w2 out2); [| exact Hsecond].
    rewrite Hs. exact Hflag.
  - unfold ClaudeSession.invocation_of. simpl. now rewrite Hs.
Qed.

(** The retry on an engine whose process dies once and then answers. *)
Lemma crash_retried_once_witness :
  (forall h c t, Transport.reliable h (Transport.Reply c t false) = true) /\
  Js.includes "Error: Claude Code process exited with code 1"
              "exited with code" = true /\
  exists hs',
    Handlers.attempts Sample.cfg Sample.env Sample.fmt Transport.reliable
      Sample.engine_crash_once Sample.clock (S Handlers.MAX_RETRIES) 0
      42 7 "ada" "hello" Streaming.fresh Sample.state0
    = Some (hs', Handlers.Completed) /\
    Handlers.calls hs' =
      [("hello"%string, Streaming.fresh); ("hello"%string, Streaming.fresh)] /\
    Handlers.audit hs' =
      [Handlers.AuditMessage 7 "ada" "CLAUDE" "hello" "Hello Ada."].
Proof.
  assert (Hp : forall h c t,
             Transport.reliable h (Transport.Reply c t false) = true)
    by reflexivity.
  split; [exact Hp | split; [reflexivity |]].
  eassert (H1 : ClaudeSession.sendMessageStreaming Sample.cfg Sample.env
                  Sample.fmt Transport.reliable 42 Sample.engine_crash_once
                  (Sample.clock 0%nat) "hello" Streaming.fresh
                  (Handlers.world Sample.state0)
                = Some (_, _, ClaudeSession.Throws
                                "Error: Claude Code process exited with code 1")).
  { vm_compute. reflexivity. }
  match type of H1 with
  | _ = Some (?st1, ?w1, _) =>
      eassert (H2 : ClaudeSession.sendMessageStreaming Sample.cfg Sample.env
                      Sample.fmt Transport.reliable 42 Sample.engine_crash_once
                      (Sample.clock 1%nat) "hello" Streaming.fresh
                      (Handlers.world
                         (Handlers.retry_state Transport.reliable 42 "hello"
                            st1 w1 Sample.state0))
                    = Some (_, _, ClaudeSession.Returns "Hello Ada."))
        by (vm_compute; reflexivity)
  end.
  destruct (crash_retried_once Sample.cfg Sample.env Sample.fmt
              Transport.reliable Sample.engine_crash_once Sample.clock 42 7
              "ada" "hello" Sample.state0 _ _ _ _ _ _ Hp H1 eq_refl H2)
    as (_ & _ & _ & hs' & Hrun & Hcalls & Haudit & _).
  exists hs'. split; [exact Hrun |]. split; [exact Hcalls | exact Haudit].
Defined.

(* ===================================================================== *)
(** * Properties of [src/handlers/media-group.ts] *)
(* ===================================================================== *)

Section GroupBuffer.

Import MediaGroup.

Context {T : Type}.
Variable cfg : Config.

Implicit Types (st : State T) (es : list (Effect T)) (gid g : string).

Lemma delivered_app gid es es' :
  delivered gid (es ++ es') = delivered gid es ++ delivered gid es'.
Proof.
  induction es as [|e es IH]; simpl; [reflexivity |].
  destruct e; try assumption.
  destruct (String.eqb _ gid); [rewrite IH; now rewrite app_assoc | assumption].
Qed.

Lemma batches_app gid es es' :
  batches gid (es ++ es') = (batches gid es + batches gid es')%nat.
Proof.
  induction es as [|e es IH]; simpl; [reflexivity |].
  destruct e; try assumption. rewrite IH. lia.
Qed.

Lemma take_removes g st :
  pendingGroups (fst (processGroup_take g st)) !! g = None.
Proof.
  unfold processGroup_take.
  destruct (pendingGroups st !! g) as [grp|] eqn:Hg; [| assumption].
  destruct (_ || _); simpl; apply lookup_delete_eq.
Qed.

Lemma processGroup_absent g cb st :
  pendingGroups st !! g = None -> processGroup g cb st = st.
Proof. intros H. unfold processGroup, processGroup_take. now rewrite H. Qed.

Lemma deliver_groups g taken cb st :
  pendingGroups (processGroup_deliver g taken cb st) = pendingGroups st.
Proof.
  unfold processGroup_deliver. destruct taken as [[[grp u] n] c].
  destruct cb, (statusMsg grp); reflexivity.
Qed.

Lemma deliver_effects g grp u n c cb st :
  exists pre post,
    effects (processGroup_deliver g (grp, u, n, c) cb st) =
      effects st ++ pre ++ [Batch g (ctx grp) (items grp) (caption grp) u n c] ++ post /\
    (forall gid, delivered gid pre = [] /\ delivered gid post = [] /\
                 batches gid pre = 0%nat /\ batches gid post = 0%nat).
Proof.
  unfold processGroup_deliver.
  destruct cb, (statusMsg grp) as [m|]; simpl.
  - exists [EditProcessing m (List.length (items grp))], [DeleteStatus m].
    split; [now rewrite <- !app_assoc | now intros].
  - exists [], []. split; [reflexivity | now intros].
  - exists [EditProcessing m (List.length (items grp))], [].
    split; [now rewrite <- !app_assoc | now intros].
  - exists [], []. split; [reflexivity | now intros].
Qed.

Lemma processGroup_groups g cb st :
  pendingGroups (processGroup g cb st) = delete g (pendingGroups st).
Proof.
  unfold processGroup, processGroup_take.
  destruct (pendingGroups st !! g) as [grp|] eqn:Hg.
  - destruct (_ || _); [reflexivity |]. now rewrite deliver_groups.
  - symmetry. now apply delete_id.
Qed.

Lemma processGroup_twice g cb cb' st :
  processGroup g cb' (processGroup g cb st) = processGroup g cb st.
Proof.
  apply processGroup_absent. rewrite processGroup_groups. apply lookup_delete_eq.
Qed.

Lemma processGroup_balance gid g cb st :
  groups_valid st ->
  delivered gid (effects (processGroup g cb st)) ++ waiting gid (processGroup g cb st)
  = delivered gid (effects st) ++ waiting gid st.
Proof.
  intros Hv. unfold waiting at 1. rewrite processGroup_groups.
  unfold processGroup, processGroup_take.
  destruct (pendingGroups st !! g) as [grp|] eqn:Hg.
  - specialize (Hv g grp Hg). unfold valid_ctx in Hv.
    apply andb_true_iff in Hv as [H1 H2].
    apply negb_true_iff in H1. apply negb_true_iff in H2. rewrite H1, H2.
    cbn [orb].
    destruct (deliver_effects g grp (default 0 (from_id (ctx grp)))
                (username_of (ctx grp)) (default 0 (chat_id (ctx grp))) cb
                (set_groups (delete g (pendingGroups st)) st))
      as (pre & post & -> & Hpp).
    destruct (Hpp gid) as (Hpre & Hpost & _ & _).
    rewrite !delivered_app, Hpre, Hpost. simpl.
    destruct (String.eqb_spec g gid) as [->|Hne].
    + rewrite lookup_delete_eq, !app_nil_r. unfold waiting. now rewrite Hg.
    + rewrite lookup_delete_ne by assumption. now rewrite app_nil_r.
  - rewrite delete_id by assumption. reflexivity.
Qed.

Lemma processGroup_valid g cb st :
  groups_valid st -> groups_valid (processGroup g cb st).
Proof.
  intros Hv g' grp. rewrite processGroup_groups. intros H.
  apply lookup_delete_Some in H as [_ H]. eauto.
Qed.

Lemma processGroup_batches gid g cb st :
  (batches gid (effects (processGroup g cb st)) <=
   batches gid (effects st) + (if String.eqb g gid then 1 else 0))%nat.
Proof.
  unfold processGroup, processGroup_take.
  destruct (pendingGroups st !! g) as [grp|] eqn:Hg; [| lia].
  destruct (_ || _); [simpl; lia |].
  match goal with |- context [processGroup_deliver g (?a, ?b, ?c, ?d) cb ?s] =>
    destruct (deliver_effects g a b c d cb s) as (pre & post & -> & Hpp) end.
  destruct (Hpp gid) as (_ & _ & Hpre & Hpost).
  rewrite !batches_app, Hpre, Hpost. simpl. lia.
Qed.


Lemma addToGroup_effects now g item c uid uname ok st :
  exists es,
    effects (fst (addToGroup cfg now g item c uid uname ok st)) = effects st ++ es /\
    forall gid, delivered gid es = [] /\ batches gid es = 0%nat.
Proof.
  unfold addToGroup, addToGroup_open, addToGroup_create, addToGroup_append.
  destruct (pendingGroups st !! g) as [grp|].
  - exists []. simpl. split; [now rewrite app_nil_r | now intros].
  - destruct (Security.check cfg now uid (buckets st)) as [b [allowed ra]].
    destruct allowed; simpl.
    + destruct ok; simpl.
      * eexists [_]. split; [reflexivity | now intros].
      * exists []. split; [now rewrite app_nil_r | now intros].
    + destruct ok; simpl.
      * eexists [_; _]. split; [now rewrite <- app_assoc | now intros].
      * eexists [_]. split; [reflexivity | now intros].
Qed.

Lemma addToGroup_waiting gid now g item c uid uname ok st :
  waiting gid (fst (addToGroup cfg now g item c uid uname ok st)) =
  waiting gid st ++
  (if String.eqb g gid then
     match snd (addToGroup cfg now g item c uid uname ok st) with
     | Added => [item]
     | _ => []
     end
   else []).
Proof.
  unfold addToGroup, addToGroup_open, addToGroup_create, addToGroup_append,
    waiting.
  destruct (pendingGroups st !! g) as [grp|] eqn:Hg.
  - simpl. destruct (String.eqb_spec g gid) as [->|Hne].
    + rewrite lookup_insert_eq, Hg. reflexivity.
    + rewrite lookup_insert_ne by assumption. now rewrite app_nil_r.
  - destruct (Security.check cfg now uid (buckets st)) as [b [allowed ra]].
    destruct allowed; simpl.
    + destruct ok; simpl.
      * destruct (String.eqb_spec g gid) as [->|Hne].
        -- rewrite lookup_insert_eq, Hg. reflexivity.
        -- rewrite lookup_insert_ne by assumption. now rewrite app_nil_r.
      * destruct (String.eqb g gid); now rewrite app_nil_r.
    + destruct ok; simpl; destruct (String.eqb g gid); now rewrite app_nil_r.
Qed.

Lemma addToGroup_valid now g item c uid uname ok st :
  valid_ctx c = true -> groups_valid st ->
  groups_valid (fst (addToGroup cfg now g item c uid uname ok st)).
Proof.
  intros Hc Hv g' grp'.
  unfold addToGroup, addToGroup_open, addToGroup_create, addToGroup_append.
  destruct (pendingGroups st !! g) as [grp|] eqn:Hg.
  - simpl. destruct (decide (g = g')) as [->|Hne].
    + rewrite lookup_insert_eq. intros [= <-]. simpl. eauto.
    + rewrite lookup_insert_ne by assumption. eauto.
  - destruct (Security.check cfg now uid (buckets st)) as [b [allowed ra]].
    destruct allowed; simpl.
    + destruct ok; simpl; [| eauto].
      destruct (decide (g = g')) as [->|Hne].
      * rewrite lookup_insert_eq. intros [= <-]. exact Hc.
      * rewrite lookup_insert_ne by assumption. eauto.
    + destruct ok; simpl; eauto.
Qed.

Lemma fire_cases now h cb st :
  fire now h cb st = st \/
  exists g, fire now h cb st = processGroup g cb (clearTimeout h st).
Proof.
  unfold fire. destruct (timers st !! h) as [[g due]|]; [| now left].
  destruct (due <=? now); [right; now exists g | now left].
Qed.

Lemma step_balance gid op st st1 r :
  step cfg op st = (st1, r) ->
  op_valid op = true -> groups_valid st ->
  groups_valid st1 /\
  delivered gid (effects st1) ++ waiting gid st1
  = delivered gid (effects st) ++ waiting gid st ++
    match op, r with
    | OpAdd _ g item _ _ _ _, Some Added =>
        if String.eqb g gid then [item] else []
    | _, _ => []
    end.
Proof.
  intros Hstep Hop Hv.
  destruct op as [now g item c uid uname ok|now h cb|g cb]; simpl in Hstep.
  - pose proof (addToGroup_valid now g item c uid uname ok st Hop Hv) as Hv'.
    pose proof (addToGroup_waiting gid now g item c uid uname ok st) as Hw.
    destruct (addToGroup_effects now g item c uid uname ok st) as (es & He & Hes).
    destruct (addToGroup cfg now g item c uid uname ok st) as [st' r'].
    injection Hstep as <- <-.
    simpl in *. split; [assumption |].
    rewrite He, delivered_app, Hw. destruct (Hes gid) as [-> _].
    rewrite app_nil_r.
    destruct r', (String.eqb g gid); reflexivity.
  - injection Hstep as <- <-. rewrite app_nil_r.
    destruct (fire_cases now h cb st) as [-> | [g ->]]; [now split |].
    split; [now apply processGroup_valid |].
    now rewrite processGroup_balance.
  - injection Hstep as <- <-. rewrite app_nil_r.
    split; [now apply processGroup_valid |].
    now apply processGroup_balance.
Qed.

Lemma run_balance gid ops : forall st,
  forallb op_valid ops = true -> groups_valid st ->
  delivered gid (effects (fst (run cfg ops st))) ++ waiting gid (fst (run cfg ops st))
  = delivered gid (effects st) ++ waiting gid st ++ accepted gid (snd (run cfg ops st)).
Proof.
  induction ops as [|op ops IH]; intros st Hops Hv; simpl.
  - unfold accepted. simpl. now rewrite app_nil_r.
  - simpl in Hops. apply andb_true_iff in Hops as [Hop Hops].
    destruct (step cfg op st) as [st1 r] eqn:Hstep.
    destruct (step_balance gid op st st1 r Hstep Hop Hv) as [Hv1 Hb].
    specialize (IH st1 Hops Hv1).
    destruct (run cfg ops st1) as [st2 acc] eqn:Hrun. simpl in IH |- *.
    rewrite IH, app_assoc, Hb, <- !app_assoc. f_equal. f_equal.
    unfold accepted.
    destruct op as [now g item c uid uname ok| |]; try reflexivity.
    destruct r as [[| |]|]; try reflexivity.
    simpl. destruct (String.eqb g gid); reflexivity.
Qed.

End GroupBuffer.

(** C6: for every run of the buffer from its initial state and every group
    id, the items that the callback received for that group id, batch after
    batch, followed by the items still waiting under it, are exactly the
    items that [addToGroup] accepted under that group id, in arrival order:
    each item reaches the callback of its own group at most once, and items
    added under another group id never appear.  [processGroup] removes the
    entry before anything else, so a second call for the same group id,
    racing or later, changes nothing; one call invokes the callback at most
    once, with the items of the entry in their order, and never for another
    group id; [addToGroup] never invokes the callback.  (Contexts carry a
    user id and a chat id, as the photo handler checks before buffering.) *)
Theorem media_group_batches {T : Type} (cfg : Config)
    (ops : list (MediaGroup.Op T)) (gid : string)
    (Hvalid : forallb MediaGroup.op_valid ops = true) :
  MediaGroup.delivered gid
    (MediaGroup.effects (fst (MediaGroup.run cfg ops MediaGroup.init))) ++
  MediaGroup.waiting gid (fst (MediaGroup.run cfg ops MediaGroup.init))
  = MediaGroup.accepted gid (snd (MediaGroup.run cfg ops MediaGroup.init)) /\
  (forall g cb (st : MediaGroup.State T),
     MediaGroup.pendingGroups (fst (MediaGroup.processGroup_take g st)) !! g
       = None /\
     MediaGroup.processGroup g cb (fst (MediaGroup.processGroup_take g st))
       = fst (MediaGroup.processGroup_take g st)) /\
  (forall g cb cb' (st : MediaGroup.State T),
     MediaGroup.processGroup g cb' (MediaGroup.processGroup g cb st)
     = MediaGroup.processGroup g cb st) /\
  (forall g cb (st : MediaGroup.State T),
     (MediaGroup.batches gid (MediaGroup.effects (MediaGroup.processGroup g cb st))
      <= MediaGroup.batches gid (MediaGroup.effects st) +
         (if String.eqb g gid then 1 else 0))%nat) /\
  (forall now g item c uid uname ok (st : MediaGroup.State T),
     MediaGroup.batches gid
       (MediaGroup.effects
          (fst (MediaGroup.addToGroup cfg now g item c uid uname ok st)))
     = MediaGroup.batches gid (MediaGroup.effects st)) /\
  (forall g cb (st : MediaGroup.State T) grp,
     MediaGroup.pendingGroups st !! g = Some grp ->
     MediaGroup.valid_ctx (MediaGroup.ctx grp) = true ->
     MediaGroup.delivered g
       (MediaGroup.effects (MediaGroup.processGroup g cb st))
     = MediaGroup.delivered g (MediaGroup.effects st) ++ MediaGroup.items grp /\
     MediaGroup.batches g
       (MediaGroup.effects (MediaGroup.processGroup g cb st))
     = S (MediaGroup.batches g (MediaGroup.effects st))).
Proof.
  split; [| split; [| split; [| split; [| split]]]].
  - rewrite (run_balance cfg gid ops MediaGroup.init Hvalid).
    + reflexivity.
    + intros g grp H. unfold MediaGroup.init in H. simpl in H.
      rewrite lookup_empty in H. discriminate.
  - intros g cb st. split; [apply take_removes |].
    apply processGroup_absent, take_removes.
  - intros. apply processGroup_twice.
  - intros. apply processGroup_batches.
  - intros. destruct (addToGroup_effects cfg now g item c uid uname ok st)
      as (es & -> & Hes).
    rewrite batches_app. destruct (Hes gid) as [_ ->]. lia.
  - intros g cb st grp Hg Hv.
    unfold MediaGroup.processGroup, MediaGroup.processGroup_take. rewrite Hg.
    unfold MediaGroup.valid_ctx in Hv.
    apply andb_true_iff in Hv as [H1 H2].
    apply negb_true_iff in H1. apply negb_true_iff in H2. rewrite H1, H2.
    cbn [orb].
    match goal with
    | |- context [MediaGroup.processGroup_deliver g (?a, ?b, ?c, ?d) cb ?s] =>
        destruct (deliver_effects g a b c d cb s) as (pre & post & -> & Hpp)
    end.
    destruct (Hpp g) as (Hd1 & Hd2 & Hb1 & Hb2).
    rewrite !delivered_app, !batches_app, Hd1, Hd2, Hb1, Hb2. simpl.
    rewrite String.eqb_refl, !app_nil_r. split; [reflexivity | lia].
Qed.

(** The album of the sample: three photos under [g1] with a photo of [g2]
    in between. *)
Lemma media_group_batches_witness :
  forallb MediaGroup.op_valid Sample.album = true /\
  MediaGroup.delivered "g1"
    (MediaGroup.effects (fst (MediaGroup.run Sample.cfg Sample.album MediaGroup.init)))
  = ["a"; "b"; "c"]%string /\
  MediaGroup.batches "g1"
    (MediaGroup.effects (fst (MediaGroup.run Sample.cfg Sample.album MediaGroup.init)))
  = 1%nat.
Proof.
  assert (Hv : forallb MediaGroup.op_valid Sample.album = true) by reflexivity.
  split; [exact Hv |].
  pose proof (proj1 (media_group_batches Sample.cfg Sample.album "g1" Hv)) as H.
  split; [| vm_compute; reflexivity].
  replace (MediaGroup.waiting "g1"
             (fst (MediaGroup.run Sample.cfg Sample.album MediaGroup.init)))
    with (@nil string) in H by (vm_compute; reflexivity).
  rewrite app_nil_r in H. rewrite H. vm_compute. reflexivity.
Defined.

(* ===================================================================== *)
(** * Further properties of [src/security.ts] *)
(* ===================================================================== *)

Section CommandVerdict.

Variables (cfg : Config) (env : Env).

(** The first element that [find] accepts: everything before it was
    refused. *)
Lemma find_first {A : Type} (f : A -> bool) (l : list A) (x : A) :
  find f l = Some x ->
  f x = true /\
  exists pre post, l = pre ++ x :: post /\ Forall (fun y => f y = false) pre.
Proof.
  induction l as [|a l IH]; simpl; [discriminate |].
  destruct (f a) eqn:Ha.
  - intros [= ->]. split; [exact Ha |]. now exists [], l.
  - intros Hf. destruct (IH Hf) as (Hx & pre & post & -> & Hpre).
    split; [exact Hx |]. exists (a :: pre), post. split; [reflexivity |].
    now constructor.
Qed.

Lemma find_none_iff {A : Type} (f : A -> bool) (l : list A) :
  find f l = None <-> forall y, In y l -> f y = false.
Proof.
  split; [apply find_none |].
  induction l as [|a l IH]; simpl; [reflexivity |]. intros H.
  rewrite (H a (or_introl eq_refl)). apply IH. intros y Hy. apply H. now right.
Qed.

End CommandVerdict.

(** X1: a command in which a configured blocked pattern occurs, whatever the
    case of the command and of the pattern, is refused, and the reason names
    the first pattern, in the order of the configuration, that occurs. *)
Theorem blocked_pattern_reason (cfg : Config) (env : Env)
    (command pattern : string)
    (Hin : In pattern (BLOCKED_PATTERNS cfg))
    (Hocc : Js.includes (Js.toLowerCase command) (Js.toLowerCase pattern) = true) :
  exists first pre post,
    BLOCKED_PATTERNS cfg = pre ++ first :: post /\
    Forall (fun p => Js.includes (Js.toLowerCase command) (Js.toLowerCase p) = false)
           pre /\
    Js.includes (Js.toLowerCase command) (Js.toLowerCase first) = true /\
    Security.checkCommandSafety cfg env command =
      (false, ("Blocked pattern: " ++ first)%string).
Proof.
  unfold Security.checkCommandSafety.
  destruct (find _ (BLOCKED_PATTERNS cfg)) as [p|] eqn:Hf.
  - destruct (find_first _ _ _ Hf) as (Hp & pre & post & Hl & Hpre).
    exists p, pre, post. repeat split; assumption.
  - pose proof (find_none _ _ Hf pattern Hin) as Hn. simpl in Hn. congruence.
Qed.

Lemma blocked_pattern_reason_witness :
  In "sudo rm"%string (BLOCKED_PATTERNS Sample.cfg) /\
  Js.includes (Js.toLowerCase "SUDO RM -rf /") (Js.toLowerCase "sudo rm") = true /\
  exists first pre post,
    BLOCKED_PATTERNS Sample.cfg = pre ++ first :: post /\
    Forall (fun p => Js.includes (Js.toLowerCase "SUDO RM -rf /")
                       (Js.toLowerCase p) = false) pre /\
    Js.includes (Js.toLowerCase "SUDO RM -rf /") (Js.toLowerCase first) = true /\
    Security.checkCommandSafety Sample.cfg Sample.env "SUDO RM -rf /" =
      (false, ("Blocked pattern: " ++ first)%string).
Proof.
  assert (H1 : In "sudo rm"%string (BLOCKED_PATTERNS Sample.cfg))
    by (simpl; tauto).
  assert (H2 : Js.includes (Js.toLowerCase "SUDO RM -rf /")
                 (Js.toLowerCase "sudo rm") = true) by reflexivity.
  split; [exact H1 |]. split; [exact H2 |].
  exact (blocked_pattern_reason Sample.cfg Sample.env "SUDO RM -rf /" "sudo rm"
           H1 H2).
Defined.

(** X2: for a command and blocked patterns made of ASCII characters,
    [checkCommandSafety] answers safe exactly when no blocked pattern occurs
    in the command and, if the lower-cased command contains [rm ] with a
    space, every argument that the match of [/rm\s+(.+)/i] captures is
    either skipped (it starts with [-] or has at most one code unit) or
    allowed by [isPathAllowed]; and the reason is empty exactly when the
    answer is safe. *)
Theorem checkCommandSafety_safe_iff (cfg : Config) (env : Env)
    (command : string)
    (Hcommand : Js.ascii_only command = true)
    (Hpatterns : Forall (fun p => Js.ascii_only p = true)
                        (BLOCKED_PATTERNS cfg)) :
  (fst (Security.checkCommandSafety cfg env command) = true <->
   (forall p, In p (BLOCKED_PATTERNS cfg) ->
      Js.includes (Js.toLowerCase command) (Js.toLowerCase p) = false) /\
   (Js.includes (Js.toLowerCase command) "rm " = true ->
    forall rest arg,
      Security.rm_match command = Some rest ->
      In arg (Js.split_ws rest) ->
      Security.skipped_arg arg = true \/
      Security.isPathAllowed cfg env arg = true)) /\
  (snd (Security.checkCommandSafety cfg env command) = ""%string <->
   fst (Security.checkCommandSafety cfg env command) = true).
Proof.
  unfold Security.checkCommandSafety.
  destruct (find _ (BLOCKED_PATTERNS cfg)) as [p|] eqn:Hf; simpl.
  - destruct (find_first _ _ _ Hf) as (Hp & pre & post & Hl & _).
    split; split; try discriminate.
    intros [Hno _]. rewrite Hno in Hp; [discriminate |].
    rewrite Hl. apply in_or_app. right. now left.
  - pose proof (find_none _ _ Hf) as Hno. simpl in Hno.
    destruct (Js.includes (Js.toLowerCase command) "rm ") eqn:Hrm.
    + destruct (Security.rm_match command) as [rest|] eqn:Hm.
      * destruct (find _ (Js.split_ws rest)) as [a|] eqn:Hfa; simpl.
        -- destruct (find_first _ _ _ Hfa) as (Ha & pre & post & Hl & _).
           split; split; try discriminate.
           intros [_ Hargs].
           apply andb_true_iff in Ha as [Hs Hp].
           apply negb_true_iff in Hs, Hp.
           destruct (Hargs eq_refl rest a eq_refl) as [H|H]; [| congruence..].
           rewrite Hl. apply in_or_app. right. now left.
        -- pose proof (find_none _ _ Hfa) as Hnone. simpl in Hnone.
           split; split; try reflexivity.
           intros _. split; [exact Hno |].
           intros _ rest' arg [= <-] Hin. specialize (Hnone arg Hin).
           destruct (Security.skipped_arg arg); [now left | right].
           simpl in Hnone. now apply negb_false_iff in Hnone.
      * simpl. split; split; try reflexivity.
        intros _. split; [exact Hno |]. intros _ rest arg Hd. discriminate.
    + simpl. split; split; try reflexivity.
      intros _. split; [exact Hno |]. discriminate.
Qed.

Lemma checkCommandSafety_safe_iff_witness :
  Js.ascii_only "rm -rf /etc" = true /\
  Forall (fun p => Js.ascii_only p = true) (BLOCKED_PATTERNS Sample.cfg) /\
  fst (Security.checkCommandSafety Sample.cfg Sample.env "rm -rf /etc") = false /\
  snd (Security.checkCommandSafety Sample.cfg Sample.env "rm -rf /etc")
    <> ""%string.
Proof.
  assert (H1 : Js.ascii_only "rm -rf /etc" = true) by reflexivity.
  assert (H2 : Forall (fun p => Js.ascii_only p = true)
                 (BLOCKED_PATTERNS Sample.cfg))
    by (repeat constructor).
  assert (H3 : fst (Security.checkCommandSafety Sample.cfg Sample.env
                      "rm -rf /etc") = false) by reflexivity.
  split; [exact H1 |]. split; [exact H2 |]. split; [exact H3 |].
  intros Hempty.
  apply (proj2 (checkCommandSafety_safe_iff Sample.cfg Sample.env
                  "rm -rf /etc" H1 H2)) in Hempty.
  rewrite H3 in Hempty. discriminate Hempty.
Defined.

Section Buckets.

Import Security.

Variable cfg : Config.

(** A check reads and writes the bucket of its own identity only. *)
Lemma check_local now uid bs bs' :
  bs !! uid = bs' !! uid ->
  snd (check cfg now uid bs) = snd (check cfg now uid bs') /\
  fst (check cfg now uid bs) !! uid = fst (check cfg now uid bs') !! uid.
Proof.
  intros Hb. unfold check, bucket_of. rewrite Hb.
  destruct (negb (RATE_LIMIT_ENABLED cfg)); simpl; [now split |].
  destruct (Qle_bool 1 _); simpl; rewrite !lookup_insert_eq; now split.
Qed.

Lemma check_frame now u uid bs :
  u <> uid -> fst (check cfg now u bs) !! uid = bs !! uid.
Proof.
  intros Hne. unfold check.
  destruct (negb (RATE_LIMIT_ENABLED cfg)); simpl; [reflexivity |].
  destruct (Qle_bool 1 _); simpl; now rewrite lookup_insert_ne.
Qed.

Lemma run_checks_local uid calls : forall bs bs',
  bs !! uid = bs' !! uid ->
  results_of uid calls (snd (run_checks cfg calls bs)) =
    snd (run_checks cfg (calls_of uid calls) bs') /\
  fst (run_checks cfg calls bs) !! uid =
    fst (run_checks cfg (calls_of uid calls) bs') !! uid.
Proof.
  induction calls as [|[now u] rest IH]; intros bs bs' Hb;
    unfold calls_of in *; simpl.
  - now split.
  - destruct (Z.eqb_spec u uid) as [->|Hne]; simpl.
    + destruct (check_local now uid bs bs' Hb) as [Hr Hn].
      destruct (check cfg now uid bs) as [bs1 r] eqn:Hc.
      destruct (check cfg now uid bs') as [bs1' r'] eqn:Hc'.
      simpl in Hr, Hn. subst r'.
      specialize (IH bs1 bs1' Hn).
      destruct (run_checks cfg rest bs1) as [bs2 rs].
      destruct (run_checks cfg (List.filter _ rest) bs1') as [bs2' rs'].
      simpl in *. rewrite ?Z.eqb_refl. destruct IH as [-> ->]. now split.
    + pose proof (check_frame now u uid bs Hne) as Hf.
      destruct (check cfg now u bs) as [bs1 r] eqn:Hc. simpl in Hf.
      specialize (IH bs1 bs' (eq_trans Hf Hb)).
      destruct (run_checks cfg rest bs1) as [bs2 rs]. simpl in *.
      exact IH.
Qed.

End Buckets.

(** X3: the buckets are kept per identity.  In any run of checks, the
    answers to the calls of one identity, and what [getStatus] reports for
    it afterwards, are those of the run in which only that identity calls;
    an identity that made no call has the status it had before. *)
Theorem rate_limiter_identities_independent (cfg : Config) (uid : Z)
    (calls : list (Z * Z)) (bs : gmap Z Security.RateLimitBucket) :
  Security.results_of uid calls (snd (Security.run_checks cfg calls bs)) =
    snd (Security.run_checks cfg (Security.calls_of uid calls) bs) /\
  Security.getStatus cfg uid (fst (Security.run_checks cfg calls bs)) =
    Security.getStatus cfg uid
      (fst (Security.run_checks cfg (Security.calls_of uid calls) bs)) /\
  (Security.calls_of uid calls = [] ->
   Security.getStatus cfg uid (fst (Security.run_checks cfg calls bs)) =
     Security.getStatus cfg uid bs).
Proof.
  destruct (run_checks_local cfg uid calls bs bs eq_refl) as [Hr Hb].
  split; [exact Hr |].
  assert (Hs : Security.getStatus cfg uid (fst (Security.run_checks cfg calls bs)) =
               Security.getStatus cfg uid
                 (fst (Security.run_checks cfg (Security.calls_of uid calls) bs))).
  { unfold Security.getStatus. now rewrite Hb. }
  split; [exact Hs |].
  intros Hnone. rewrite Hs, Hnone. reflexivity.
Qed.

Section Burst.

Import Security.

Variable cfg : Config.
Hypothesis Henabled : RATE_LIMIT_ENABLED cfg = true.

(** No time has passed since the bucket was touched: the refill step adds
    nothing. *)
Lemma refill_same_instant now (b : RateLimitBucket) :
  lastUpdate b = now ->
  (refill cfg now b == Qmin (maxTokens cfg) (tokens b))%Q.
Proof.
  intros Hl. unfold refill, elapsed. rewrite Hl, Z.sub_diag.
  apply Q.min_compat; [reflexivity |].
  change (inject_Z 0) with 0%Q. field.
Qed.

(** Once a check was denied, every further check at the same clock reading
    is denied as well. *)
Lemma denied_at_same_instant now uid n : forall bs,
  lastUpdate (bucket_of cfg now uid bs) = now ->
  (tokens (bucket_of cfg now uid bs) < 1)%Q ->
  Forall (fun r => fst r = false)
         (snd (run_checks cfg (repeat (now, uid) n) bs)).
Proof.
  induction n as [|n IH]; intros bs Hl Ht; simpl; [constructor |].
  rewrite (check_enabled cfg Henabled). cbv zeta.
  set (b := bucket_of cfg now uid bs) in *.
  pose proof (refill_same_instant now _ Hl) as Hr.
  pose proof (Q.le_min_r (maxTokens cfg) (tokens b)) as Hm.
  destruct (Qle_bool 1 _) eqn:Hq.
  - apply Qle_bool_iff in Hq. lra.
  - match goal with
    | |- context [run_checks cfg _ ?bs1] =>
        specialize (IH bs1);
        destruct (run_checks cfg (repeat (now, uid) n) bs1) as [bs2 rs]
    end.
    simpl. constructor; [reflexivity |]. apply IH.
    + unfold bucket_of. now rewrite lookup_insert_eq.
    + unfold bucket_of. rewrite lookup_insert_eq. simpl. lra.
Qed.

Lemma burst_from (now uid : Z) n : forall (j : nat) bs,
  lastUpdate (bucket_of cfg now uid bs) = now ->
  (tokens (bucket_of cfg now uid bs) == maxTokens cfg - inject_Z (Z.of_nat j))%Q ->
  forall i r,
    nth_error (snd (run_checks cfg (repeat (now, uid) n) bs)) i = Some r ->
    (fst r = true <-> (inject_Z (Z.of_nat (j + i)) + 1 <= maxTokens cfg)%Q).
Proof.
  induction n as [|n IH]; intros j bs Hl Ht i r; simpl.
  - destruct i; discriminate.
  - rewrite (check_enabled cfg Henabled). cbv zeta.
    set (b := bucket_of cfg now uid bs) in *.
    pose proof (refill_same_instant now _ Hl) as Hr.
    assert (Hj : (0 <= inject_Z (Z.of_nat j))%Q).
    { change 0%Q with (inject_Z 0). rewrite <- Zle_Qle. lia. }
    assert (Hmin : (Qmin (maxTokens cfg) (tokens b) == tokens b)%Q).
    { apply Q.min_r. lra. }
    assert (Hi : forall k : nat,
               (inject_Z (Z.of_nat (j + S k)) ==
                inject_Z (Z.of_nat j) + 1 + inject_Z (Z.of_nat k))%Q).
    { intros k. change 1%Q with (inject_Z 1). rewrite <- !inject_Z_plus.
      replace (Z.of_nat (j + S k)) with (Z.of_nat j + 1 + Z.of_nat k) by lia.
      reflexivity. }
    assert (Hk : forall k : nat, (0 <= inject_Z (Z.of_nat k))%Q).
    { intros k. change 0%Q with (inject_Z 0). rewrite <- Zle_Qle. lia. }
    destruct (Qle_bool 1 _) eqn:Hq.
    + apply Qle_bool_iff in Hq.
      match goal with
      | |- context [run_checks cfg _ ?bs1] =>
          specialize (IH (S j) bs1);
          destruct (run_checks cfg (repeat (now, uid) n) bs1) as [bs2 rs]
      end.
      simpl. destruct i as [|i]; simpl.
      * intros [= <-]. simpl. rewrite Nat.add_0_r. split; [intros _ | reflexivity].
        lra.
      * intros Hn. replace (j + S i)%nat with (S j + i)%nat by lia.
        apply IH; [| | exact Hn].
        -- unfold bucket_of. now rewrite lookup_insert_eq.
        -- unfold bucket_of. rewrite lookup_insert_eq. simpl.
           replace (Z.of_nat (S j)) with (Z.of_nat j + 1) by lia.
           rewrite inject_Z_plus. change (inject_Z 1) with 1%Q. lra.
    + assert (Hlt : (refill cfg now b < 1)%Q).
      { apply Qnot_le_lt. intros Hle. apply Qle_bool_iff in Hle. congruence. }
      match goal with
      | |- context [run_checks cfg _ ?bs1] =>
          pose proof (denied_at_same_instant now uid n bs1) as Hden;
          destruct (run_checks cfg (repeat (now, uid) n) bs1) as [bs2 rs]
      end.
      assert (Hall : Forall (fun r => fst r = false) rs).
      { apply Hden.
        - unfold bucket_of. now rewrite lookup_insert_eq.
        - unfold bucket_of. rewrite lookup_insert_eq. simpl. exact Hlt. }
      simpl. destruct i as [|i]; simpl.
      * intros [= <-]. simpl. rewrite Nat.add_0_r.
        split; [discriminate | intros Hle; lra].
      * intros Hn.
        assert (Hf : fst r = false).
        { rewrite List.Forall_forall in Hall. apply Hall.
          eapply nth_error_In; exact Hn. }
        rewrite Hf. split; [discriminate |]. intros Hle.
        rewrite (Hi i) in Hle. specialize (Hk i). lra.
Qed.

End Burst.

(** X5: the burst of a new identity.  With the limiter enabled and a
    positive window, when an identity without bucket calls [check] any
    number of times at one clock reading, the call number [i] (from 0) is
    allowed exactly when [i + 1 <= maxTokens]. *)
Theorem fresh_identity_burst (cfg : Config)
    (Henabled : RATE_LIMIT_ENABLED cfg = true)
    (Hwin : (0 < RATE_LIMIT_WINDOW cfg)%Q)
    (now uid : Z) (bs : gmap Z Security.RateLimitBucket)
    (Hfresh : bs !! uid = None) (n i : nat) (r : bool * option Q)
    (Hith : nth_error
              (snd (Security.run_checks cfg (repeat (now, uid) n) bs)) i
            = Some r) :
  fst r = true <->
  (inject_Z (Z.of_nat i) + 1 <= Security.maxTokens cfg)%Q.
Proof.
  assert (Hb : Security.bucket_of cfg now uid bs =
               {| Security.tokens := Security.maxTokens cfg;
                  Security.lastUpdate := now |}).
  { unfold Security.bucket_of. now rewrite Hfresh. }
  apply (burst_from cfg Henabled now uid n 0 bs) with (i := i) (r := r).
  - now rewrite Hb.
  - rewrite Hb. simpl. change (inject_Z (Z.of_nat 0)) with 0%Q. lra.
  - exact Hith.
Qed.

Lemma fresh_identity_burst_witness :
  RATE_LIMIT_ENABLED Sample.cfg = true /\
  (0 < RATE_LIMIT_WINDOW Sample.cfg)%Q /\
  (∅ : gmap Z Security.RateLimitBucket) !! 7 = None /\
  exists r,
    nth_error (snd (Security.run_checks Sample.cfg (repeat (0, 7) 3) ∅)) 2
      = Some r /\
    (fst r = true <->
     (inject_Z (Z.of_nat 2) + 1 <= Security.maxTokens Sample.cfg)%Q).
Proof.
  assert (H1 : RATE_LIMIT_ENABLED Sample.cfg = true) by reflexivity.
  assert (H2 : (∅ : gmap Z Security.RateLimitBucket) !! 7 = None)
    by reflexivity.
  eassert (H3 : nth_error
                  (snd (Security.run_checks Sample.cfg (repeat (0, 7) 3) ∅)) 2
                = Some _) by (vm_compute; reflexivity).
  assert (H0 : (0 < RATE_LIMIT_WINDOW Sample.cfg)%Q) by reflexivity.
  split; [exact H1 |]. split; [exact H0 |]. split; [exact H2 |].
  eexists. split; [exact H3 |].
  exact (fresh_identity_burst Sample.cfg H1 H0 0 7 ∅ H2 3 2 _ H3).
Defined.

(** With [RATE_LIMIT_ENABLED] off every check is allowed without a retry
    delay and the bucket table is never written. *)
Theorem disabled_limiter_admits_everything (cfg : Config)
    (Hoff : RATE_LIMIT_ENABLED cfg = false)
    (calls : list (Z * Z)) (bs : gmap Z Security.RateLimitBucket) :
  Security.run_checks cfg calls bs =
    (bs, repeat (true, None) (List.length calls)).
Proof.
  revert bs. induction calls as [|[now uid] rest IH]; intros bs; simpl.
  - reflexivity.
  - unfold Security.check. rewrite Hoff. simpl. now rewrite IH.
Qed.

Lemma disabled_limiter_admits_everything_witness :
  RATE_LIMIT_ENABLED Sample.cfg_off = false /\
  Security.run_checks Sample.cfg_off Sample.burst ∅ =
    (∅, [(true, None); (true, None); (true, None)]).
Proof.
  split; [reflexivity |].
  exact (disabled_limiter_admits_everything Sample.cfg_off eq_refl
           Sample.burst ∅).
Defined.

Section Canonical.

Lemma includes_slash_cons (c : ascii) (seg : string) :
  c <> "/"%char -> Js.includes (String c seg) "/" = Js.includes seg "/".
Proof.
  intros Hne.
  change (Js.includes (String c seg) "/")
    with (String.prefix "/" (String c seg) || Js.includes seg "/").
  change (String.prefix "/" (String c seg))
    with (if ascii_dec "/" c then String.prefix "" seg else false).
  destruct (ascii_dec "/" c) as [<-|_]; [contradiction | reflexivity].
Qed.

(** The segments that [split("/")] returns hold no slash. *)
Lemma split_slash_no_slash (s : string) :
  Forall (fun seg => Js.includes seg "/" = false) (Js.split_slash s).
Proof.
  induction s as [|c s IH]; simpl.
  - repeat constructor.
  - destruct (Ascii.eqb_spec c "/") as [->|Hne].
    + constructor; [reflexivity | exact IH].
    + destruct (Js.split_slash s) as [|seg segs]; inversion IH; subst.
      * repeat constructor. now rewrite includes_slash_cons.
      * constructor; [| assumption]. now rewrite includes_slash_cons.
Qed.

(** Below the root, normalization keeps segments of the path only. *)
Lemma normalize_segments_keeps (P : string -> Prop) (segs : list string) :
  forall acc,
    Forall P segs -> Forall P acc ->
    Forall P (Path.normalize_segments false segs acc).
Proof.
  induction segs as [|seg rest IH]; intros acc Hsegs Hacc; simpl.
  - now apply Forall_rev.
  - inversion Hsegs; subst.
    destruct (String.eqb seg "" || String.eqb seg "."); [now apply IH |].
    destruct (String.eqb seg "..").
    + destruct acc as [|top acc']; [now apply IH |].
      destruct (String.eqb top ".."); apply IH; try assumption.
      now inversion Hacc.
    + apply IH; [assumption |]. now constructor.
Qed.

Lemma normalizeString_canonical (p : string) :
  Forall (fun seg => Security.proper_segment seg = true)
         (Path.normalize_segments false (Js.split_slash p) []).
Proof.
  pose proof (normalize_segments_no_dots (Js.split_slash p) [] (List.Forall_nil _))
    as Hdots.
  pose proof (normalize_segments_keeps _ (Js.split_slash p) []
                (split_slash_no_slash p) (List.Forall_nil _)) as Hslash.
  rewrite List.Forall_forall in *. intros seg Hin.
  unfold Security.proper_segment.
  now rewrite (Hdots seg Hin), (Hslash seg Hin).
Qed.

End Canonical.

(** X7: when [realpathSync] throws (the path does not exist) and the process
    runs in an absolute directory, the path that the containment tests of
    [isPathAllowed] look at is [/] followed by segments joined by [/], none
    of which is empty, [.] or [..] or holds a separator: no traversal
    segment is left for the prefix tests. *)
Theorem unresolved_path_is_canonical (env : Env) (path : string)
    (Habs : Js.first_is_slash (cwd env) = true)
    (Hmissing : realpathSync env
                  (Path.normalize (Security.expand_home env path)) = None) :
  exists segs,
    Security.resolved_path env path = ("/" ++ Js.join_slash segs)%string /\
    Forall (fun seg => Security.proper_segment seg = true) segs.
Proof.
  unfold Security.resolved_path. rewrite Hmissing. unfold Path.resolve.
  set (p := Path.normalize (Security.expand_home env path)).
  destruct (Js.first_is_slash p).
  - eexists. split; [reflexivity |]. apply normalizeString_canonical.
  - destruct (String.eqb_spec (cwd env) "") as [Hc|Hc].
    + rewrite Hc in Habs. discriminate.
    + rewrite Habs. eexists. split; [reflexivity |].
      apply normalizeString_canonical.
Qed.

Lemma unresolved_path_is_canonical_witness :
  Js.first_is_slash (cwd Sample.env) = true /\
  realpathSync Sample.env
    (Path.normalize (Security.expand_home Sample.env "~/vault/../.ssh/./id_rsa"))
    = None /\
  exists segs,
    Security.resolved_path Sample.env "~/vault/../.ssh/./id_rsa" =
      ("/" ++ Js.join_slash segs)%string /\
    Forall (fun seg => Security.proper_segment seg = true) segs.
Proof.
  split; [reflexivity |]. split; [reflexivity |].
  exact (unresolved_path_is_canonical Sample.env "~/vault/../.ssh/./id_rsa"
           eq_refl eq_refl).
Defined.

(* ===================================================================== *)
(** * Further properties of [src/handlers/streaming.ts] *)
(* ===================================================================== *)

Section Units.

Import Streaming.

Variables (cfg : Config) (fmt : Formatting) (orc : Transport.Oracle) (chat : Z).

(** A reply that went through returns the message with the next id. *)
Lemma reply_next text html tr :
  match Transport.reply orc chat text html tr with
  | (tr1, Some m) =>
      message_id m = Transport.next_id tr /\
      Transport.next_id tr1 = Transport.next_id tr + 1
  | (tr1, None) => Transport.next_id tr1 = Transport.next_id tr
  end.
Proof.
  unfold Transport.reply, Transport.call.
  destruct (orc _ _); simpl; [split |]; reflexivity.
Qed.

Lemma deleteAll_next ms : forall tr,
  Transport.next_id (Transport.deleteAll orc ms tr) = Transport.next_id tr.
Proof.
  induction ms as [|m ms IH]; intros tr; simpl; [reflexivity |].
  now rewrite IH.
Qed.

Lemma send_chunks_next formatted fuel : forall i tr tr',
  send_chunks fuel cfg orc chat formatted i tr = Some tr' ->
  Transport.next_id tr <= Transport.next_id tr'.
Proof.
  induction fuel as [|fuel IH]; intros i tr tr'; simpl.
  - destruct (i <? String.length formatted)%nat; [discriminate |].
    intros [= <-]. lia.
  - destruct (i <? String.length formatted)%nat; [| intros [= <-]; lia].
    pose proof (reply_next (Js.slice formatted i (i + TELEGRAM_SAFE_LIMIT cfg))
                  true tr) as H1.
    destruct (Transport.reply orc chat _ true tr) as [tr1 [m|]].
    + intros H. apply IH in H. lia.
    + pose proof (reply_next (Js.slice formatted i (i + TELEGRAM_SAFE_LIMIT cfg))
                    false tr1) as H2.
      destruct (Transport.reply orc chat _ false tr1) as [tr2 [m|]].
      * intros H. apply IH in H. lia.
      * intros [= <-]. lia.
Qed.

Lemma send_chunks_returns formatted fuel :
  (0 < TELEGRAM_SAFE_LIMIT cfg)%nat ->
  forall i tr,
    (String.length formatted - i <= fuel)%nat ->
    exists tr', send_chunks fuel cfg orc chat formatted i tr = Some tr'.
Proof.
  intros Hlimit. induction fuel as [|fuel IH]; intros i tr Hfuel; simpl.
  - destruct (Nat.ltb_spec i (String.length formatted)); [lia | eauto].
  - destruct (Nat.ltb_spec i (String.length formatted)); [| eauto].
    destruct (Transport.reply orc chat _ true tr) as [tr1 [m|]].
    + apply IH. lia.
    + destruct (Transport.reply orc chat _ false tr1) as [tr2 [m|]].
      * apply IH. lia.
      * eauto.
Qed.

(** The callback returns whenever the chunks have a positive length. *)
Lemma statusCallback_returns now ty content seg st tr :
  (0 < TELEGRAM_SAFE_LIMIT cfg)%nat ->
  exists r, statusCallback cfg fmt orc chat now ty content seg st tr = Some r.
Proof.
  intros Hlimit. unfold statusCallback.
  destruct (String.eqb ty "thinking").
  { destruct (Transport.reply _ _ _ _ _) as [tr1 [m|]]; eauto. }
  destruct (String.eqb ty "tool").
  { destruct (Transport.reply _ _ _ _ _) as [tr1 [m|]]; eauto. }
  destruct seg as [seg|]; [| destruct (String.eqb ty "done"); eauto].
  destruct (String.eqb ty "text"); [eauto |].
  destruct (String.eqb ty "segment_end");
    [| destruct (String.eqb ty "done"); eauto].
  unfold on_segment_end.
  destruct (textMessages st !! seg); [| eauto].
  destruct (Js.truthy content); [| eauto].
  destruct (bool_decide _); [eauto |].
  destruct (_ <=? _)%nat; [eauto |].
  destruct (send_chunks_returns (convertMarkdownToHtml fmt content)
              (S (String.length (convertMarkdownToHtml fmt content))) Hlimit 0%nat
              (fst (Transport.deleteMessage orc m tr))) as [tr' ->]; [lia |].
  simpl. eauto.
Qed.

(** What a text event does to the state: the unit of a segment is set once
    and the other units stay. *)
Lemma on_text_units now content seg st tr :
  let r := on_text cfg fmt orc chat now content seg st tr in
  toolMessages (fst r) = toolMessages st /\
  Transport.next_id tr <= Transport.next_id (snd r) /\
  (forall s m, textMessages st !! s = Some m ->
               textMessages (fst r) !! s = Some m) /\
  (forall s m, textMessages (fst r) !! s = Some m ->
               textMessages st !! s = Some m \/
               (s = seg /\ textMessages st !! seg = None /\
                Transport.next_id tr <= message_id m /\
                message_id m < Transport.next_id (snd r))).
Proof.
  unfold on_text. destruct (textMessages st !! seg) as [msg|] eqn:Hseg.
  - destruct (_ <? _); [| simpl; repeat split; auto; lia].
    destruct (bool_decide _); [simpl; repeat split; auto; lia |].
    unfold Transport.editMessageText, Transport.call.
    destruct (orc _ _); simpl; [repeat split; auto; lia |].
    destruct (orc _ _); simpl; repeat split; auto; lia.
  - pose proof (reply_next
                  (convertMarkdownToHtml fmt (truncate (TELEGRAM_SAFE_LIMIT cfg) content))
                  true tr) as H1.
    destruct (Transport.reply orc chat _ true tr) as [tr1 [m|]].
    + destruct H1 as [Hm Hn]. simpl. repeat split; [lia | |].
      * intros s m' Hs. destruct (decide (s = seg)) as [->|Hne];
          [congruence | now rewrite lookup_insert_ne].
      * intros s m' Hs. destruct (decide (s = seg)) as [->|Hne].
        -- rewrite lookup_insert_eq in Hs. injection Hs as <-. right.
           split; [reflexivity |]. split; [reflexivity |]. lia.
        -- rewrite lookup_insert_ne in Hs by auto. now left.
    + pose proof (reply_next
                    (convertMarkdownToHtml fmt (truncate (TELEGRAM_SAFE_LIMIT cfg) content))
                    false tr1) as H2.
      destruct (Transport.reply orc chat _ false tr1) as [tr2 [m|]].
      * destruct H2 as [Hm Hn]. simpl. repeat split; [lia | |].
        -- intros s m' Hs. destruct (decide (s = seg)) as [->|Hne];
             [congruence | now rewrite lookup_insert_ne].
        -- intros s m' Hs. destruct (decide (s = seg)) as [->|Hne].
           ++ rewrite lookup_insert_eq in Hs. injection Hs as <-. right.
              split; [reflexivity |]. split; [reflexivity |]. lia.
           ++ rewrite lookup_insert_ne in Hs by auto. now left.
      * simpl. repeat split; auto; lia.
Qed.


(** What one call of the callback does to the units: the units that the
    state holds stay, a unit that comes in has an id that the transport
    handed out during the call, and a call does not add to both kinds. *)
Lemma statusCallback_units now ty content seg st tr st' tr' :
  statusCallback cfg fmt orc chat now ty content seg st tr = Some (st', tr') ->
  units_step st tr st' tr'.
Proof.
  unfold statusCallback.
  assert (Hpush : forall text tr1 sent,
            Transport.reply orc chat text true tr = (tr1, sent) ->
            match sent with
            | Some m => Some (push_tool m st, tr1)
            | None => Some (st, tr1)
            end = Some (st', tr') ->
            units_step st tr st' tr').
  { intros text tr1 sent Hr. pose proof (reply_next text true tr) as Hn.
    rewrite Hr in Hn. unfold units_step.
    destruct sent as [m|]; intros [= <- <-]; simpl.
    - destruct Hn as [Hm Hn]. split; [lia |]. split; [auto |].
      split; [auto |]. intros m' Hin. apply in_app_or in Hin as [Hin|Hin].
      + now left.
      + destruct Hin as [<-|[]]. right. split; [lia |]. split; [lia | reflexivity].
    - split; [lia |]. auto. }
  assert (Hsame : forall tr1,
            Transport.next_id tr <= Transport.next_id tr1 ->
            Some (st, tr1) = Some (st', tr') ->
            units_step st tr st' tr').
  { intros tr1 Hle [= <- <-]. unfold units_step. auto. }
  destruct (String.eqb ty "thinking").
  { destruct (Transport.reply _ _ _ _ _) as [tr1 sent] eqn:Hr. eapply Hpush, Hr. }
  destruct (String.eqb ty "tool").
  { destruct (Transport.reply _ _ _ _ _) as [tr1 sent] eqn:Hr. eapply Hpush, Hr. }
  assert (Hdone : (if String.eqb ty "done"
                   then Some (st, Transport.deleteAll orc (toolMessages st) tr)
                   else Some (st, tr)) = Some (st', tr') ->
                  units_step st tr st' tr').
  { destruct (String.eqb ty "done"); apply Hsame;
      rewrite ?deleteAll_next; lia. }
  destruct seg as [seg|]; [| exact Hdone].
  destruct (String.eqb ty "text").
  { intros [= Ht].
    pose proof (on_text_units now content seg st tr) as Hu. cbv zeta in Hu.
    rewrite Ht in Hu. simpl in Hu. destruct Hu as (Htool & Hle & Hkeep & Hnew).
    unfold units_step. split; [exact Hle |]. split; [exact Hkeep |]. split.
    - intros s m Hs. destruct (Hnew s m Hs) as [H|(-> & _ & H1 & H2)];
        [now left | right; auto].
    - intros m Hin. left. now rewrite <- Htool. }
  destruct (String.eqb ty "segment_end"); [| exact Hdone].
  unfold on_segment_end.
  destruct (textMessages st !! seg) as [msg|]; [| apply Hsame; lia].
  destruct (Js.truthy content); [| apply Hsame; lia].
  destruct (bool_decide _); [apply Hsame; lia |].
  destruct (_ <=? _)%nat; [apply Hsame; simpl; lia |].
  destruct (send_chunks _ _ _ _ _ _ _) as [tr2|] eqn:Hs; [| discriminate].
  simpl. apply Hsame. apply send_chunks_next in Hs. simpl in Hs. exact Hs.
Qed.

Lemma statusCallback_invariant now ty content seg st tr st' tr' :
  statusCallback cfg fmt orc chat now ty content seg st tr = Some (st', tr') ->
  units_known st tr -> units_apart st ->
  units_known st' tr' /\ units_apart st'.
Proof.
  intros Hc [Htool Htext] Hapart.
  destruct (statusCallback_units _ _ _ _ _ _ _ _ Hc)
    as (Hle & Hkeep & Hnewtext & Hnewtool).
  split; [split |].
  - intros m Hin. destruct (Hnewtool m Hin) as [H|H];
      [specialize (Htool m H) |]; lia.
  - intros s m Hs. destruct (Hnewtext s m Hs) as [H|H];
      [specialize (Htext s m H) |]; lia.
  - intros m s m' Hin Hs.
    destruct (Hnewtool m Hin) as [Hm|(Hm1 & Hm2 & Hsame)];
      destruct (Hnewtext s m' Hs) as [Hm'|(Hm'1 & Hm'2 & Hsame')].
    + now apply (Hapart m s m').
    + specialize (Htool m Hm). lia.
    + specialize (Htext s m' Hm'). lia.
    + rewrite Hsame' in Hin. specialize (Htool m Hin). lia.
Qed.

Lemma run_calls_invariant cs : forall st tr st' tr',
  run_calls cfg fmt orc chat cs st tr = Some (st', tr') ->
  units_known st tr -> units_apart st ->
  units_known st' tr' /\ units_apart st'.
Proof.
  induction cs as [|c cs IH]; intros st tr st' tr'; simpl.
  - intros [= <- <-]. auto.
  - intros H Hk Ha. apply bind_Some in H as ([st1 tr1] & Hc & H).
    destruct (statusCallback_invariant _ _ _ _ _ _ _ _ Hc Hk Ha) as [Hk1 Ha1].
    exact (IH _ _ _ _ H Hk1 Ha1).
Qed.

Lemma run_calls_keeps_units cs : forall st tr st' tr' seg m,
  run_calls cfg fmt orc chat cs st tr = Some (st', tr') ->
  textMessages st !! seg = Some m -> textMessages st' !! seg = Some m.
Proof.
  induction cs as [|c cs IH]; intros st tr st' tr' seg m; simpl.
  - now intros [= <- <-].
  - intros H Hm. apply bind_Some in H as ([st1 tr1] & Hc & H).
    apply (IH _ _ _ _ _ _ H).
    now apply (statusCallback_units _ _ _ _ _ _ _ _ Hc).
Qed.

End Units.

(** X8: with a positive [TELEGRAM_SAFE_LIMIT] the status callback returns
    for every call, in every state and whatever the transport answers (its
    chunk loop ends and no exception leaves it); message ids are only
    handed out upwards. *)
Theorem status_callback_always_returns (cfg : Config) (fmt : Formatting)
    (orc : Transport.Oracle) (chat : Z)
    (Hlimit : (0 < TELEGRAM_SAFE_LIMIT cfg)%nat)
    (calls : list Streaming.Call) (st : Streaming.StreamingState)
    (tr : Transport.State) :
  exists st' tr',
    Streaming.run_calls cfg fmt orc chat calls st tr = Some (st', tr') /\
    Transport.next_id tr <= Transport.next_id tr'.
Proof.
  revert st tr. induction calls as [|c cs IH]; intros st tr; simpl.
  - exists st, tr. split; [reflexivity | lia].
  - destruct (statusCallback_returns cfg fmt orc chat (Streaming.call_now c)
                (Streaming.call_type c) (Streaming.call_content c)
                (Streaming.call_segment c) st tr Hlimit) as [[st1 tr1] Hc].
    rewrite Hc. simpl.
    destruct (IH st1 tr1) as (st' & tr' & Hrun & Hle).
    exists st', tr'. split; [exact Hrun |].
    apply statusCallback_units in Hc. destruct Hc as [Hc _]. lia.
Qed.


Lemma status_callback_always_returns_witness :
  (0 < TELEGRAM_SAFE_LIMIT Sample.cfg)%nat /\
  exists st' tr',
    Streaming.run_calls Sample.cfg Sample.fmt Transport.reliable 42
      Sample.display_calls Streaming.fresh Transport.init = Some (st', tr') /\
    Transport.next_id Transport.init <= Transport.next_id tr'.
Proof.
  assert (H : (0 < TELEGRAM_SAFE_LIMIT Sample.cfg)%nat) by (simpl; lia).
  split; [exact H |].
  exact (status_callback_always_returns Sample.cfg Sample.fmt Transport.reliable
           42 H Sample.display_calls Streaming.fresh Transport.init).
Defined.

Lemma edit_log (orc : Transport.Oracle) (m : Message) (text : string)
    (html : bool) (tr : Transport.State) :
  Transport.log (fst (Transport.editMessageText orc m text html tr)) =
  Transport.log tr ++
    [(Transport.EditMessageText m text html,
      snd (Transport.editMessageText orc m text html tr))].
Proof. reflexivity. Qed.

(** X9: the display unit of a segment is created once.  Once a segment has
    a message, no later call of the callback replaces it, and a [text] call
    for that segment sends no new message: it issues at most edits of that
    same message. *)
Theorem segment_unit_is_created_once (cfg : Config) (fmt : Formatting)
    (orc : Transport.Oracle) (chat : Z) (calls : list Streaming.Call)
    (st st' : Streaming.StreamingState) (tr tr' : Transport.State)
    (seg : nat) (m : Message)
    (Hunit : Streaming.textMessages st !! seg = Some m)
    (Hrun : Streaming.run_calls cfg fmt orc chat calls st tr = Some (st', tr')) :
  Streaming.textMessages st' !! seg = Some m /\
  forall now content,
    exists st'' tr'' added,
      Streaming.statusCallback cfg fmt orc chat now "text" content (Some seg)
        st' tr' = Some (st'', tr'') /\
      Streaming.textMessages st'' = Streaming.textMessages st' /\
      Transport.log tr'' = Transport.log tr' ++ added /\
      Forall (fun e => exists text html,
                         fst e = Transport.EditMessageText m text html) added.
Proof.
  pose proof (run_calls_keeps_units cfg fmt orc chat calls _ _ _ _ seg m
                Hrun Hunit) as Hkept.
  split; [exact Hkept |]. intros now content.
  change (Streaming.statusCallback cfg fmt orc chat now "text" content
            (Some seg) st' tr')
    with (Some (Streaming.on_text cfg fmt orc chat now content seg st' tr')).
  unfold Streaming.on_text. rewrite Hkept.
  set (formatted := convertMarkdownToHtml fmt
                      (Streaming.truncate (TELEGRAM_SAFE_LIMIT cfg) content)).
  destruct (_ <? _);
    [| exists st', tr', []; rewrite app_nil_r; repeat split; constructor].
  destruct (bool_decide _);
    [exists st', tr', []; rewrite app_nil_r; repeat split; constructor |].
  pose proof (edit_log orc m formatted true tr') as L1.
  destruct (Transport.editMessageText orc m formatted true tr') as [tr1 ok1].
  simpl in L1. destruct ok1.
  - eexists _, tr1, [_]. split; [reflexivity |]. split; [reflexivity |].
    split; [exact L1 |]. repeat constructor. simpl. eauto.
  - pose proof (edit_log orc m formatted false tr1) as L2.
    destruct (Transport.editMessageText orc m formatted false tr1) as [tr2 ok2].
    simpl in L2.
    assert (Hlog : Transport.log tr2 =
                   Transport.log tr' ++
                   [(Transport.EditMessageText m formatted true, false);
                    (Transport.EditMessageText m formatted false, ok2)]).
    { rewrite L2, L1, <- app_assoc. reflexivity. }
    destruct ok2; eexists _, tr2, [_; _];
      (split; [reflexivity |]); (split; [reflexivity |]);
      (split; [exact Hlog |]); repeat constructor; simpl; eauto.
Qed.

Lemma segment_unit_is_created_once_witness :
  Streaming.textMessages Sample.streaming !! 0%nat = Some Sample.unit0 /\
  exists st' tr',
    Streaming.run_calls Sample.cfg Sample.fmt Transport.reliable 42
      Sample.display_calls Sample.streaming Transport.init = Some (st', tr') /\
    Streaming.textMessages st' !! 0%nat = Some Sample.unit0.
Proof.
  assert (H1 : Streaming.textMessages Sample.streaming !! 0%nat
               = Some Sample.unit0) by reflexivity.
  eassert (H2 : Streaming.run_calls Sample.cfg Sample.fmt Transport.reliable 42
                  Sample.display_calls Sample.streaming Transport.init
                = Some (_, _)) by (vm_compute; reflexivity).
  split; [exact H1 |]. eexists _, _. split; [exact H2 |].
  exact (proj1 (segment_unit_is_created_once Sample.cfg Sample.fmt
                  Transport.reliable 42 Sample.display_calls _ _ _ _ 0%nat
                  Sample.unit0 H1 H2)).
Defined.

(** X10: a [text] call that created the display unit of its segment records
    what it rendered, and a second [text] call with the same content, at
    any later or earlier clock reading, sends nothing and changes
    nothing. *)
Theorem repeated_text_is_not_sent_again (cfg : Config) (fmt : Formatting)
    (orc : Transport.Oracle) (chat now1 now2 : Z) (content : string)
    (seg : nat) (st st1 : Streaming.StreamingState)
    (tr tr1 : Transport.State)
    (Hnew : Streaming.textMessages st !! seg = None)
    (Hfirst : Streaming.statusCallback cfg fmt orc chat now1 "text" content
                (Some seg) st tr = Some (st1, tr1))
    (Hshown : Streaming.textMessages st1 !! seg <> None) :
  Streaming.lastContent st1 !! seg =
    Some (convertMarkdownToHtml fmt
            (Streaming.truncate (TELEGRAM_SAFE_LIMIT cfg) content)) /\
  Streaming.statusCallback cfg fmt orc chat now2 "text" content (Some seg)
    st1 tr1 = Some (st1, tr1).
Proof.
  change (Streaming.statusCallback cfg fmt orc chat now1 "text" content
            (Some seg) st tr)
    with (Some (Streaming.on_text cfg fmt orc chat now1 content seg st tr))
    in Hfirst.
  change (Streaming.statusCallback cfg fmt orc chat now2 "text" content
            (Some seg) st1 tr1)
    with (Some (Streaming.on_text cfg fmt orc chat now2 content seg st1 tr1)).
  injection Hfirst as Hfirst. revert Hfirst.
  unfold Streaming.on_text at 1. rewrite Hnew.
  assert (Hagain : forall msg tr2,
            (Streaming.set_edit_time seg now1
               (Streaming.set_text seg msg
                  (convertMarkdownToHtml fmt
                     (Streaming.truncate (TELEGRAM_SAFE_LIMIT cfg) content)) st),
             tr2) = (st1, tr1) ->
            Streaming.lastContent st1 !! seg =
              Some (convertMarkdownToHtml fmt
                      (Streaming.truncate (TELEGRAM_SAFE_LIMIT cfg) content)) /\
            Some (Streaming.on_text cfg fmt orc chat now2 content seg st1 tr1) =
              Some (st1, tr1)).
  { intros msg tr2 [= <- <-]. simpl. rewrite lookup_insert_eq.
    split; [reflexivity |].
    unfold Streaming.on_text. simpl. rewrite !lookup_insert_eq.
    destruct (_ <? _); [| reflexivity].
    now rewrite bool_decide_eq_true_2. }
  destruct (Transport.reply orc chat _ true tr) as [tr2 [msg|]];
    [apply Hagain |].
  destruct (Transport.reply orc chat _ false tr2) as [tr3 [msg|]];
    [apply Hagain |].
  intros [= <- <-]. now rewrite Hnew in Hshown.
Qed.

Lemma repeated_text_is_not_sent_again_witness :
  Streaming.textMessages Streaming.fresh !! 0%nat = None /\
  exists st1 tr1,
    Streaming.statusCallback Sample.cfg Sample.fmt Transport.reliable 42 1000
      "text" "Hello Ada" (Some 0%nat) Streaming.fresh Transport.init
    = Some (st1, tr1) /\
    Streaming.textMessages st1 !! 0%nat <> None /\
    Streaming.statusCallback Sample.cfg Sample.fmt Transport.reliable 42 9000
      "text" "Hello Ada" (Some 0%nat) st1 tr1 = Some (st1, tr1).
Proof.
  assert (H1 : Streaming.textMessages Streaming.fresh !! 0%nat = None)
    by reflexivity.
  eassert (H2 : Streaming.statusCallback Sample.cfg Sample.fmt
                  Transport.reliable 42 1000 "text" "Hello Ada" (Some 0%nat)
                  Streaming.fresh Transport.init = Some (_, _))
    by (vm_compute; reflexivity).
  split; [exact H1 |]. eexists _, _. split; [exact H2 |].
  match type of H2 with
  | _ = Some (?st1, _) =>
      assert (H3 : Streaming.textMessages st1 !! 0%nat <> None)
        by (vm_compute; discriminate)
  end.
  split; [exact H3 |].
  exact (proj2 (repeated_text_is_not_sent_again Sample.cfg Sample.fmt
                  Transport.reliable 42 1000 9000 "Hello Ada" 0%nat _ _ _ _
                  H1 H2 H3)).
Defined.

(** X11: in a state reached from a new [StreamingState] by any calls of the
    callback, [done] requests the deletion of the thinking and tool
    messages, each once and in the order in which they were sent, keeps the
    state, and never requests the deletion of the message of a text
    segment. *)
Theorem done_deletes_only_ephemeral_units (cfg : Config) (fmt : Formatting)
    (orc : Transport.Oracle) (chat : Z) (calls : list Streaming.Call)
    (tr0 tr : Transport.State) (st : Streaming.StreamingState)
    (now : Z) (content : string) (segmentId : option nat)
    (Hrun : Streaming.run_calls cfg fmt orc chat calls Streaming.fresh tr0
            = Some (st, tr)) :
  exists tr' dels,
    Streaming.statusCallback cfg fmt orc chat now "done" content segmentId st tr
      = Some (st, tr') /\
    Transport.log tr' = Transport.log tr ++ dels /\
    map fst dels = map Transport.DeleteMessage (Streaming.toolMessages st) /\
    forall seg m,
      Streaming.textMessages st !! seg = Some m ->
      ~ In (Transport.DeleteMessage m) (map fst dels).
Proof.
  assert (Hinv : Streaming.units_known st tr /\ Streaming.units_apart st).
  { apply (run_calls_invariant cfg fmt orc chat calls _ _ _ _ Hrun).
    - split; [intros m [] |].
      intros seg m Hm. simpl in Hm. rewrite lookup_empty in Hm. discriminate.
    - intros m seg m' []. }
  destruct Hinv as [_ Hapart].
  destruct (deleteAll_log orc (Streaming.toolMessages st) tr)
    as (dels & Hlog & Hdels).
  exists (Transport.deleteAll orc (Streaming.toolMessages st) tr), dels.
  split; [now destruct segmentId |]. split; [exact Hlog |].
  split; [exact Hdels |].
  intros seg m Hm Hin. rewrite Hdels in Hin.
  apply in_map_iff in Hin as (m' & [= ->] & Hin).
  now apply (Hapart m seg m Hin Hm).
Qed.

Lemma done_deletes_only_ephemeral_units_witness :
  exists st tr,
    Streaming.run_calls Sample.cfg Sample.fmt Transport.reliable 42
      Sample.display_calls Streaming.fresh Transport.init = Some (st, tr) /\
    map message_id (Streaming.toolMessages st) = [1; 3] /\
    exists tr' dels,
      Streaming.statusCallback Sample.cfg Sample.fmt Transport.reliable 42 4000
        "done" "" None st tr = Some (st, tr') /\
      Transport.log tr' = Transport.log tr ++ dels /\
      map fst dels = map Transport.DeleteMessage (Streaming.toolMessages st) /\
      forall seg m,
        Streaming.textMessages st !! seg = Some m ->
        ~ In (Transport.DeleteMessage m) (map fst dels).
Proof.
  eassert (H : Streaming.run_calls Sample.cfg Sample.fmt Transport.reliable 42
                 Sample.display_calls Streaming.fresh Transport.init
               = Some (_, _)) by (vm_compute; reflexivity).
  eexists _, _. split; [exact H |]. split; [vm_compute; reflexivity |].
  exact (done_deletes_only_ephemeral_units Sample.cfg Sample.fmt
           Transport.reliable 42 Sample.display_calls _ _ _ 4000 "" None H).
Defined.

Lemma reply_log (orc : Transport.Oracle) (chat : Z) (text : string)
    (html : bool) (tr : Transport.State) :
  exists ok,
    Transport.log (fst (Transport.reply orc chat text html tr)) =
    Transport.log tr ++ [(Transport.Reply chat text html, ok)].
Proof.
  unfold Transport.reply, Transport.call. destruct (orc _ _); simpl; eauto.
Qed.

Lemma length_append (s t : string) :
  String.length (s ++ t) = (String.length s + String.length t)%nat.
Proof. induction s as [|c s IH]; simpl; [reflexivity | now rewrite IH]. Qed.

Lemma truncate_length (limit : nat) (content : string) :
  (String.length (Streaming.truncate limit content) <= limit + 3)%nat.
Proof.
  unfold Streaming.truncate, Js.slice.
  destruct (Nat.ltb_spec limit (String.length content)); [| lia].
  rewrite length_append. simpl.
  pose proof (length_substring_le content 0 (limit - 0)). lia.
Qed.

(** X12: a [text] call sends at most two requests, each carrying the
    rendering of the content cut to [TELEGRAM_SAFE_LIMIT] code units plus
    the three dots, hence of at most [TELEGRAM_SAFE_LIMIT + 3] code units
    before conversion; content within the limit is rendered whole. *)
Theorem text_event_render_is_bounded (cfg : Config) (fmt : Formatting)
    (orc : Transport.Oracle) (chat now : Z) (content : string) (seg : nat)
    (st : Streaming.StreamingState) (tr : Transport.State) :
  exists st' tr' added,
    Streaming.statusCallback cfg fmt orc chat now "text" content (Some seg)
      st tr = Some (st', tr') /\
    Transport.log tr' = Transport.log tr ++ added /\
    (List.length added <= 2)%nat /\
    Forall (fun e =>
              Streaming.shown_text (fst e) =
              Some (convertMarkdownToHtml fmt
                      (Streaming.truncate (TELEGRAM_SAFE_LIMIT cfg) content)))
           added /\
    (String.length (Streaming.truncate (TELEGRAM_SAFE_LIMIT cfg) content)
     <= TELEGRAM_SAFE_LIMIT cfg + 3)%nat /\
    ((String.length content <= TELEGRAM_SAFE_LIMIT cfg)%nat ->
     Streaming.truncate (TELEGRAM_SAFE_LIMIT cfg) content = content).
Proof.
  change (Streaming.statusCallback cfg fmt orc chat now "text" content
            (Some seg) st tr)
    with (Some (Streaming.on_text cfg fmt orc chat now content seg st tr)).
  set (formatted := convertMarkdownToHtml fmt
                      (Streaming.truncate (TELEGRAM_SAFE_LIMIT cfg) content)).
  assert (Hshort : (String.length content <= TELEGRAM_SAFE_LIMIT cfg)%nat ->
                   Streaming.truncate (TELEGRAM_SAFE_LIMIT cfg) content = content).
  { intros Hle. unfold Streaming.truncate.
    destruct (Nat.ltb_spec (TELEGRAM_SAFE_LIMIT cfg) (String.length content));
      [lia | reflexivity]. }
  pose proof (truncate_length (TELEGRAM_SAFE_LIMIT cfg) content) as Hlen.
  unfold Streaming.on_text. fold formatted.
  destruct (Streaming.textMessages st !! seg) as [msg|].
  - destruct (_ <? _);
      [| exists st, tr, []; rewrite app_nil_r; repeat split; simpl;
         [lia | constructor | exact Hlen | exact Hshort]].
    destruct (bool_decide _);
      [exists st, tr, []; rewrite app_nil_r; repeat split; simpl;
       [lia | constructor | exact Hlen | exact Hshort] |].
    pose proof (edit_log orc msg formatted true tr) as L1.
    destruct (Transport.editMessageText orc msg formatted true tr) as [tr1 ok1].
    simpl in L1. destruct ok1.
    + eexists _, tr1, [_]. split; [reflexivity |]. split; [exact L1 |].
      split; [simpl; lia |]. split; [repeat constructor |]. now split.
    + pose proof (edit_log orc msg formatted false tr1) as L2.
      destruct (Transport.editMessageText orc msg formatted false tr1)
        as [tr2 ok2].
      simpl in L2.
      assert (Hlog : Transport.log tr2 =
                     Transport.log tr ++
                     [(Transport.EditMessageText msg formatted true, false);
                      (Transport.EditMessageText msg formatted false, ok2)]).
      { rewrite L2, L1, <- app_assoc. reflexivity. }
      destruct ok2; eexists _, tr2, [_; _];
        (split; [reflexivity |]); (split; [exact Hlog |]);
        (split; [simpl; lia |]); (split; [repeat constructor |]); now split.
  - destruct (reply_log orc chat formatted true tr) as [ok1 L1].
    destruct (Transport.reply orc chat formatted true tr) as [tr1 [m|]].
    + simpl in L1. eexists _, tr1, [_]. split; [reflexivity |].
      split; [exact L1 |]. split; [simpl; lia |].
      split; [repeat constructor |]. now split.
    + simpl in L1. destruct (reply_log orc chat formatted false tr1) as [ok2 L2].
      destruct (Transport.reply orc chat formatted false tr1) as [tr2 sent2].
      simpl in L2.
      assert (Hlog : Transport.log tr2 =
                     Transport.log tr ++
                     [(Transport.Reply chat formatted true, ok1);
                      (Transport.Reply chat formatted false, ok2)]).
      { rewrite L2, L1, <- app_assoc. reflexivity. }
      destruct sent2; eexists _, tr2, [_; _];
        (split; [reflexivity |]); (split; [exact Hlog |]);
        (split; [simpl; lia |]); (split; [repeat constructor |]); now split.
Qed.

(* ===================================================================== *)
(** * Further properties of [src/session.ts] *)
(* ===================================================================== *)

Section SessionFrame.

Import ClaudeSession.

Variables (cfg : Config) (env : Env) (fmt : Formatting)
          (orc : Transport.Oracle) (chat : Z) (engine : Engine).

(** The status callback works on the transport only. *)
Lemma callback_session now ty content seg st w st' w' :
  callback cfg fmt orc chat now ty content seg st w = Some (st', w') ->
  session w' = session w /\ file w' = file w.
Proof.
  unfold callback. intros H.
  destruct (Streaming.statusCallback _ _ _ _ _ _ _ _ _ _) as [[st1 tr1]|];
    simpl in H; [| discriminate].
  injection H as <- <-. now split.
Qed.

Ltac use_callback_session :=
  repeat match goal with
  | E : callback _ _ _ _ _ _ _ _ _ _ = Some _ |- _ =>
      apply callback_session in E; destruct E as [? ?]
  end.

Ltac frame :=
  subst; use_callback_session; simpl in *;
  repeat match goal with
  | H : session ?w = _ |- context [session ?w] => rewrite H; simpl
  end;
  unfold handler_fields in *; simpl in *; try congruence.

Lemma poke_handler_fields p s : handler_fields (poke p s) = handler_fields s.
Proof.
  unfold handler_fields. destruct p; simpl; try reflexivity.
  unfold stop. destruct (_ && _); [reflexivity |].
  destruct (_isProcessing s) eqn:E; simpl; rewrite ?E; reflexivity.
Qed.

Lemma poke_all_handler_fields ps w :
  handler_fields (session (poke_all ps w)) = handler_fields (session w).
Proof.
  unfold poke_all. simpl. generalize (session w).
  induction ps as [|p ps IH]; intros s; simpl; [reflexivity |].
  now rewrite IH, poke_handler_fields.
Qed.

Lemma process_block_handler_fields now b st w l st' w' l' raised :
  process_block cfg env fmt orc chat now b st w l = Some (st', w', l', raised) ->
  handler_fields (session w') = handler_fields (session w).
Proof.
  unfold process_block. intros H.
  crunch; frame.
Qed.

Lemma process_blocks_handler_fields now bs : forall st w l st' w' l' raised,
  process_blocks cfg env fmt orc chat now bs st w l = Some (st', w', l', raised) ->
  handler_fields (session w') = handler_fields (session w).
Proof.
  induction bs as [|b bs IH]; intros st w l st' w' l' raised H; simpl in H.
  - now simplify_eq.
  - open_bind H. apply process_block_handler_fields in E.
    destruct o; [injection H as <- <- <- <-; assumption |].
    apply IH in H. congruence.
Qed.

Lemma process_event_handler_fields now ev st w l st' w' l' raised :
  process_event cfg env fmt orc chat now ev st w l = Some (st', w', l', raised) ->
  handler_fields (session w') = handler_fields (session w).
Proof.
  unfold process_event. intros H.
  set (w1 := if _ && _ then _ else w) in H.
  assert (Hw1 : handler_fields (session w1) = handler_fields (session w)).
  { subst w1. destruct (_ && _); [| reflexivity].
    unfold saveSession. now destruct (negb _). }
  destruct (body ev) as [content|usage|].
  - apply process_blocks_handler_fields in H. congruence.
  - destruct usage; injection H as <- <- <- <-; simpl; assumption.
  - injection H as <- <- <- <-. assumption.
Qed.

Lemma consume_handler_fields items : forall st w l st' w' l' exit,
  consume cfg env fmt orc chat items st w l = Some (st', w', l', exit) ->
  handler_fields (session w') = handler_fields (session w).
Proof.
  induction items as [|item rest IH]; intros st w l st' w' l' exit H; simpl in H.
  - now simplify_eq.
  - destruct (stopRequested _).
    { injection H as <- <- <- <-. apply poke_all_handler_fields. }
    open_bind H. apply process_event_handler_fields in E.
    rewrite poke_all_handler_fields in E.
    destruct o; [injection H as <- <- <- <-; assumption |].
    apply IH in H. congruence.
Qed.

Lemma sendMessageStreaming_handler_fields now message st w st' w' out :
  sendMessageStreaming cfg env fmt orc chat engine now message st w =
    Some (st', w', out) ->
  handler_fields (session w') = handler_fields (session w).
Proof.
  intros H. unfold sendMessageStreaming in H.
  set (s1 := if _ && _ then session w else set_sessionId None (session w)) in H.
  assert (H1 : handler_fields s1 = handler_fields (session w))
    by (subst s1; now destruct (_ && _)).
  destruct (stopRequested s1); [injection H as <- <- <-; simpl; exact H1 |].
  open_bind H. apply consume_handler_fields in E. simpl in E.
  assert (Hp : forall ps w0, handler_fields (session (poke_all ps w0)) =
                             handler_fields (session w0))
    by apply poke_all_handler_fields.
  crunch; frame; rewrite ?Hp in *; congruence.
Qed.

End SessionFrame.

(** X14: the [finally] clause.  Whenever [sendMessageStreaming] got past the
    stop check and returns or throws, the query is no longer running, the
    abort controller, the start time and the current tool are cleared, and
    the processing flag is as before; a normal return clears the last error
    and stamps the activity, an error is recorded cut to 100 code
    units. *)
Theorem query_state_is_reset_on_exit (cfg : Config) (env : Env)
    (fmt : Formatting) (orc : Transport.Oracle) (chat : Z)
    (engine : ClaudeSession.Engine) (now : Z) (message : string)
    (st st' : Streaming.StreamingState) (w w' : ClaudeSession.World)
    (out : ClaudeSession.Outcome)
    (Hgo : ClaudeSession.stopRequested (ClaudeSession.session w) = false)
    (Hret : ClaudeSession.sendMessageStreaming cfg env fmt orc chat engine now
              message st w = Some (st', w', out)) :
  let run := engine (List.length (ClaudeSession.invocations w))
               (ClaudeSession.invocation_of cfg env fmt now message
                  (ClaudeSession.session w)) in
  ClaudeSession.isQueryRunning (ClaudeSession.session w') = false /\
  ClaudeSession.abortController (ClaudeSession.session w') = None /\
  ClaudeSession.queryStarted (ClaudeSession.session w') = None /\
  ClaudeSession.currentTool (ClaudeSession.session w') = None /\
  ClaudeSession._isProcessing (ClaudeSession.session w') =
    ClaudeSession._isProcessing (ClaudeSession.session w) /\
  match out with
  | ClaudeSession.Returns _ =>
      ClaudeSession.lastError (ClaudeSession.session w') = None /\
      ClaudeSession.lastErrorTime (ClaudeSession.session w') = None /\
      ClaudeSession.lastActivity (ClaudeSession.session w') =
        Some (ClaudeSession.end_ms run)
  | ClaudeSession.Throws e =>
      ClaudeSession.lastError (ClaudeSession.session w') =
        Some (Js.slice e 0 100) /\
      ClaudeSession.lastErrorTime (ClaudeSession.session w') =
        Some (ClaudeSession.end_ms run)
  end.
Proof.
  intros run.
  pose proof (sendMessageStreaming_handler_fields cfg env fmt orc chat engine now
                message st w st' w' out Hret) as Hproc.
  apply (f_equal fst) in Hproc. simpl in Hproc.
  enough (Hx : ClaudeSession.isQueryRunning (ClaudeSession.session w') = false /\
               ClaudeSession.abortController (ClaudeSession.session w') = None /\
               ClaudeSession.queryStarted (ClaudeSession.session w') = None /\
               ClaudeSession.currentTool (ClaudeSession.session w') = None /\
               match out with
               | ClaudeSession.Returns _ =>
                   ClaudeSession.lastError (ClaudeSession.session w') = None /\
                   ClaudeSession.lastErrorTime (ClaudeSession.session w') = None /\
                   ClaudeSession.lastActivity (ClaudeSession.session w') =
                     Some (ClaudeSession.end_ms run)
               | ClaudeSession.Throws e =>
                   ClaudeSession.lastError (ClaudeSession.session w') =
                     Some (Js.slice e 0 100) /\
                   ClaudeSession.lastErrorTime (ClaudeSession.session w') =
                     Some (ClaudeSession.end_ms run)
               end).
  { destruct Hx as (Ha & Hb & Hc & Hd & He). repeat (split; [assumption |]).
    exact He. }
  clear Hproc.
  unfold ClaudeSession.sendMessageStreaming in Hret.
  set (s1 := if _ && _ then ClaudeSession.session w
             else ClaudeSession.set_sessionId None (ClaudeSession.session w))
    in Hret.
  assert (H1 : ClaudeSession.stopRequested s1 = false)
    by (subst s1; now destruct (_ && _)).
  rewrite H1 in Hret. fold run in Hret.
  open_bind Hret. clear E.
  crunch; subst;
    repeat match goal with
    | E : ClaudeSession.callback _ _ _ _ _ _ _ _ _ _ = Some _ |- _ =>
        apply callback_session in E; destruct E as [? ?]
    end;
    simpl in *;
    repeat match goal with
    | H : ClaudeSession.session ?w = _ |- context [ClaudeSession.session ?w] =>
        rewrite H; simpl
    end;
    repeat split; try reflexivity; try assumption.
Qed.

Lemma query_state_is_reset_on_exit_witness :
  ClaudeSession.stopRequested (ClaudeSession.session Sample.world0) = false /\
  exists st' w' e,
    ClaudeSession.sendMessageStreaming Sample.cfg Sample.env Sample.fmt
      Transport.reliable 42 Sample.engine_crash_once 0 "hello" Streaming.fresh
      Sample.world0 = Some (st', w', ClaudeSession.Throws e) /\
    ClaudeSession.isQueryRunning (ClaudeSession.session w') = false /\
    ClaudeSession.abortController (ClaudeSession.session w') = None.
Proof.
  assert (H1 : ClaudeSession.stopRequested
                 (ClaudeSession.session Sample.world0) = false) by reflexivity.
  eassert (H2 : ClaudeSession.sendMessageStreaming Sample.cfg Sample.env
                  Sample.fmt Transport.reliable 42 Sample.engine_crash_once 0
                  "hello" Streaming.fresh Sample.world0
                = Some (_, _, ClaudeSession.Throws _))
    by (vm_compute; reflexivity).
  split; [exact H1 |]. eexists _, _, _. split; [exact H2 |].
  pose proof (query_state_is_reset_on_exit Sample.cfg Sample.env Sample.fmt
                Transport.reliable 42 Sample.engine_crash_once 0 "hello"
                _ _ _ _ _ H1 H2) as H.
  cbv zeta in H. destruct H as (Ha & Hb & _). split; [exact Ha | exact Hb].
Defined.

(** X13: what [saveSession] writes for a session with an id, [resumeLast]
    accepts in a process with the same [WORKING_DIR] (or when the saved
    directory is empty) and adopts that id; in a process with another
    [WORKING_DIR] it is refused with the saved directory in the
    message. *)
Theorem saved_session_can_be_resumed (cfg cfg' : Config) (fmt : Formatting)
    (now now' : Z) (w : ClaudeSession.World) (s : ClaudeSession.Session)
    (Hid : Js.truthy_opt (ClaudeSession.sessionId (ClaudeSession.session w))
           = true) :
  let saved := ClaudeSession.file (ClaudeSession.saveSession cfg fmt now w) in
  (WORKING_DIR cfg' = WORKING_DIR cfg \/ WORKING_DIR cfg = ""%string ->
   fst (snd (ClaudeSession.resumeLast cfg' now' saved s)) = true /\
   ClaudeSession.sessionId (fst (ClaudeSession.resumeLast cfg' now' saved s)) =
     ClaudeSession.sessionId (ClaudeSession.session w) /\
   ClaudeSession.lastActivity (fst (ClaudeSession.resumeLast cfg' now' saved s)) =
     Some now') /\
  (WORKING_DIR cfg' <> WORKING_DIR cfg -> WORKING_DIR cfg <> ""%string ->
   ClaudeSession.resumeLast cfg' now' saved s =
     (s, (false, ("Session was for different directory: " ++
                  WORKING_DIR cfg)%string))).
Proof.
  intros saved. subst saved. unfold ClaudeSession.saveSession.
  rewrite Hid. simpl. unfold ClaudeSession.resumeLast. simpl. rewrite Hid. simpl.
  split.
  - intros [Heq | Hempty].
    + rewrite Heq, bool_decide_eq_true_2 by reflexivity.
      rewrite andb_false_r. simpl. repeat split.
    + rewrite Hempty. simpl. repeat split.
  - intros Hne Hnon.
    destruct (WORKING_DIR cfg) as [|c rest] eqn:Hwd; [contradiction |].
    simpl. rewrite bool_decide_eq_false_2; [reflexivity |].
    intros [= Heq]. congruence.
Qed.

Lemma saved_session_can_be_resumed_witness :
  let w := ClaudeSession.with_session
             (ClaudeSession.set_sessionId (Some "sess-1"%string)
                ClaudeSession.empty) Sample.world0 in
  Js.truthy_opt (ClaudeSession.sessionId (ClaudeSession.session w)) = true /\
  ClaudeSession.sessionId
    (fst (ClaudeSession.resumeLast Sample.cfg 9000
            (ClaudeSession.file (ClaudeSession.saveSession Sample.cfg Sample.fmt 10 w))
            ClaudeSession.empty)) = Some "sess-1"%string.
Proof.
  intros w.
  assert (H : Js.truthy_opt (ClaudeSession.sessionId (ClaudeSession.session w))
              = true) by reflexivity.
  split; [exact H |].
  destruct (saved_session_can_be_resumed Sample.cfg Sample.cfg Sample.fmt 10
              9000 w ClaudeSession.empty H) as [Hsame _].
  destruct (Hsame (or_introl eq_refl)) as (_ & Hs & _). exact Hs.
Defined.

Section LowerCase.

Lemma lower_ascii_idempotent (c : ascii) :
  Js.lower_ascii (Js.lower_ascii c) = Js.lower_ascii c.
Proof.
  destruct c as [[] [] [] [] [] [] [] []]; reflexivity.
Qed.

Lemma toLowerCase_idempotent (s : string) :
  Js.toLowerCase (Js.toLowerCase s) = Js.toLowerCase s.
Proof.
  induction s as [|c s IH]; simpl; [reflexivity |].
  now rewrite lower_ascii_idempotent, IH.
Qed.

(** A prefix of a string without capitals has no capitals. *)
Lemma prefix_lowered (k : string) : forall s,
  Js.toLowerCase s = s -> String.prefix k s = true -> Js.toLowerCase k = k.
Proof.
  induction k as [|a k IH]; intros s Hs Hp; [reflexivity |].
  destruct s as [|b s]; [discriminate |].
  cbn [String.prefix] in Hp.
  destruct (ascii_dec a b) as [->|_]; [| discriminate].
  simpl in Hs. injection Hs as Hb Hs. simpl.
  now rewrite Hb, (IH s Hs Hp).
Qed.

Lemma includes_lowered (s k : string) :
  Js.toLowerCase s = s -> Js.includes s k = true -> Js.toLowerCase k = k.
Proof.
  induction s as [|b s IH]; intros Hs Hi.
  - simpl in Hi. rewrite orb_false_r in Hi. now apply (prefix_lowered k "").
  - cbn [Js.includes] in Hi. apply orb_true_iff in Hi as [Hp|Hi].
    + now apply (prefix_lowered k (String b s)).
    + simpl in Hs. injection Hs as _ Hs. now apply IH.
Qed.

Lemma existsb_false_all {A : Type} (f : A -> bool) (l : list A) :
  Forall (fun x => f x = false) l -> existsb f l = false.
Proof.
  induction 1 as [|x l Hx _ IH]; simpl; [reflexivity |]. now rewrite Hx, IH.
Qed.

End LowerCase.

(** X15: the keywords are compared as written with the lower-cased message:
    a keyword that holds a capital letter never occurs in it, so with only
    such keywords configured the thinking budget is always 0. *)
Theorem thinking_keyword_with_capital_never_matches (cfg : Config)
    (message : string)
    (Hcaps : Forall (fun k => Js.toLowerCase k <> k)
                    (THINKING_DEEP_KEYWORDS cfg ++ THINKING_KEYWORDS cfg)) :
  ClaudeSession.getThinkingLevel cfg message = 0 /\
  forall k, Js.toLowerCase k <> k ->
            Js.includes (Js.toLowerCase message) k = false.
Proof.
  assert (Hdead : forall k, Js.toLowerCase k <> k ->
                            Js.includes (Js.toLowerCase message) k = false).
  { intros k Hk.
    destruct (Js.includes (Js.toLowerCase message) k) eqn:Hi; [| reflexivity].
    exfalso. apply Hk.
    exact (includes_lowered _ k (toLowerCase_idempotent message) Hi). }
  split; [| exact Hdead].
  apply Forall_app in Hcaps as [Hdeep Hnormal].
  unfold ClaudeSession.getThinkingLevel.
  rewrite (existsb_false_all _ (THINKING_DEEP_KEYWORDS cfg)),
          (existsb_false_all _ (THINKING_KEYWORDS cfg)); [reflexivity | |].
  - eapply Forall_impl; [exact Hnormal |]. intros k Hk. now apply Hdead.
  - eapply Forall_impl; [exact Hdeep |]. intros k Hk. now apply Hdead.
Qed.


Lemma thinking_keyword_with_capital_never_matches_witness :
  Forall (fun k => Js.toLowerCase k <> k)
         (THINKING_DEEP_KEYWORDS Sample.cfg_caps ++
          THINKING_KEYWORDS Sample.cfg_caps) /\
  ClaudeSession.getThinkingLevel Sample.cfg_caps "Think hard, ULTRATHINK" = 0.
Proof.
  assert (H : Forall (fun k => Js.toLowerCase k <> k)
                (THINKING_DEEP_KEYWORDS Sample.cfg_caps ++
                 THINKING_KEYWORDS Sample.cfg_caps)).
  { repeat constructor; simpl; discriminate. }
  split; [exact H |].
  exact (proj1 (thinking_keyword_with_capital_never_matches Sample.cfg_caps
                  "Think hard, ULTRATHINK" H)).
Defined.

(** X16: after [markInterrupt()], the report of a cancellation sends
    nothing, returns normally and clears both the interrupt flag and the
    stop flag; the report of the next cancellation sends the stop notice
    again. *)
Theorem interrupt_suppresses_one_stop_notice (orc : Transport.Oracle)
    (chat : Z) (errorStr : string) (hs : Handlers.State)
    (Hcancel : Js.includes errorStr "abort" || Js.includes errorStr "cancel"
               = true) :
  let hs0 := Handlers.with_session
               (ClaudeSession.markInterrupt (Handlers.session_of hs)) hs in
  let r1 := Handlers.report_failure orc chat errorStr hs0 in
  let r2 := Handlers.report_failure orc chat errorStr (fst r1) in
  snd r1 = true /\
  ClaudeSession.transport (Handlers.world (fst r1)) =
    ClaudeSession.transport (Handlers.world hs) /\
  ClaudeSession.stopRequested (Handlers.session_of (fst r1)) = false /\
  ClaudeSession._wasInterruptedByNewMessage (Handlers.session_of (fst r1))
    = false /\
  exists ok,
    Transport.log (ClaudeSession.transport (Handlers.world (fst r2))) =
      Transport.log (ClaudeSession.transport (Handlers.world hs)) ++
      [(Transport.Reply chat "🛑 Query stopped." false, ok)] /\
    snd r2 = ok.
Proof.
  intros hs0 r1 r2. subst r2 r1 hs0.
  unfold Handlers.report_failure. rewrite Hcancel. simpl.
  repeat (split; [reflexivity |]).
  unfold Handlers.say, Transport.reply, Transport.call. simpl.
  destruct (orc _ _); simpl; eexists; split; reflexivity.
Qed.

Lemma interrupt_suppresses_one_stop_notice_witness :
  Js.includes "Error: Query cancelled" "abort" ||
  Js.includes "Error: Query cancelled" "cancel" = true /\
  Transport.sent_texts
    (Transport.log
       (ClaudeSession.transport
          (Handlers.world
             (fst (Handlers.report_failure Transport.reliable 42
                     "Error: Query cancelled"
                     (Handlers.with_session
                        (ClaudeSession.markInterrupt
                           (Handlers.session_of Sample.state0))
                        Sample.state0)))))) = [].
Proof.
  assert (H : Js.includes "Error: Query cancelled" "abort" ||
              Js.includes "Error: Query cancelled" "cancel" = true)
    by reflexivity.
  split; [exact H |].
  pose proof (interrupt_suppresses_one_stop_notice Transport.reliable 42
                "Error: Query cancelled" Sample.state0 H) as Hx.
  cbv zeta in Hx. destruct Hx as (_ & Htr & _). rewrite Htr. reflexivity.
Defined.

(** X17: [stop()] called twice is [stop()] called once; it never touches
    the session id or [isRunning]; it answers [false] only when it changed
    nothing, and otherwise leaves the stop flag set, with the abort signal
    given exactly in the ["stopped"] case. *)
Theorem stop_is_idempotent (s : ClaudeSession.Session) :
  ClaudeSession.stop (fst (ClaudeSession.stop s)) = ClaudeSession.stop s /\
  ClaudeSession.sessionId (fst (ClaudeSession.stop s)) =
    ClaudeSession.sessionId s /\
  ClaudeSession.isRunning (fst (ClaudeSession.stop s)) =
    ClaudeSession.isRunning s /\
  match snd (ClaudeSession.stop s) with
  | ClaudeSession.NothingToStop => fst (ClaudeSession.stop s) = s
  | ClaudeSession.Stopped =>
      ClaudeSession.stopRequested (fst (ClaudeSession.stop s)) = true /\
      ClaudeSession.abortController (fst (ClaudeSession.stop s)) = Some true /\
      ClaudeSession.isQueryRunning s = true
  | ClaudeSession.Pending =>
      ClaudeSession.stopRequested (fst (ClaudeSession.stop s)) = true /\
      ClaudeSession.abortController (fst (ClaudeSession.stop s)) =
        ClaudeSession.abortController s /\
      ClaudeSession._isProcessing s = true
  end.
Proof.
  unfold ClaudeSession.stop, ClaudeSession.isRunning.
  destruct (ClaudeSession.isQueryRunning s) eqn:Hq;
    destruct (bool_decide (ClaudeSession.abortController s <> None)) eqn:Ha;
    destruct (ClaudeSession._isProcessing s) eqn:Hp; simpl;
    rewrite ?Hq, ?Hp, ?Ha; simpl; rewrite ?Hq, ?Hp; repeat split; auto.
Qed.

Section Clearance.

Import ClaudeSession.

Variables (cfg : Config) (env : Env) (fmt : Formatting)
          (orc : Transport.Oracle) (chat : Z).

Lemma process_block_cleared now b st w l st' w' l' raised :
  process_block cfg env fmt orc chat now b st w l = Some (st', w', l', raised) ->
  (raised = None <-> ClaudeSession.tool_cleared cfg env b = true) /\
  (ClaudeSession.tool_cleared cfg env b = false -> session w' = session w /\ l' = l).
Proof.
  destruct b as [thinkingText|toolName toolInput|text|];
    unfold process_block; intros H.
  - split; [| discriminate]. crunch; subst; now split.
  - unfold ClaudeSession.tool_cleared, ClaudeSession.exempt_read.
    set (filePath := default ""%string (file_path toolInput)) in *.
    set (isFileTool := existsb (String.eqb toolName) _) in *.
    set (exempt := String.eqb toolName "Read" && _) in *.
    set (allowed := Security.isPathAllowed cfg env filePath) in *.
    set (verdict := Security.checkCommandSafety cfg env _) in *.
    destruct verdict as [isSafe reason].
    destruct (String.eqb toolName "Bash"), isSafe, isFileTool,
      (Js.truthy filePath), exempt, allowed;
      cbn [negb andb orb fst] in *;
      first
        [ split; [| discriminate]; crunch; subst; now split
        | open_bind H; injection H as <- <- <- <-;
          apply callback_session in E as [Hs _];
          split; [split; discriminate | now intros _] ].
  - split; [| discriminate]. crunch; subst; now split.
  - split; [| discriminate]. crunch; subst; now split.
Qed.


Lemma process_blocks_cleared now bs : forall st w l st' w' l' raised,
  process_blocks cfg env fmt orc chat now bs st w l = Some (st', w', l', raised) ->
  (raised = None <-> forallb (ClaudeSession.tool_cleared cfg env) bs = true).
Proof.
  induction bs as [|b bs IH]; intros st w l st' w' l' raised H; simpl in H.
  - simplify_eq. now split.
  - open_bind H. apply process_block_cleared in E as [Hb _]. simpl.
    destruct o as [e|].
    + simplify_eq. split; [discriminate |]. intros Hall.
      apply andb_true_iff in Hall as [Hc _]. apply Hb in Hc. discriminate.
    + rewrite (proj1 Hb eq_refl). simpl. exact (IH _ _ _ _ _ _ _ H).
Qed.

Lemma string_app_assoc (x u v : string) :
  (x ++ (u ++ v))%string = ((x ++ u) ++ v)%string.
Proof.
  induction x as [|c x IH]; [reflexivity |].
  change (String c (x ++ (u ++ v))%string = String c ((x ++ u) ++ v)%string).
  now rewrite IH.
Qed.

Lemma join_app (a b : list string) :
  Js.join (a ++ b) = (Js.join a ++ Js.join b)%string.
Proof.
  induction a as [|x a IH]; [reflexivity |].
  change (Js.join ((x :: a) ++ b)) with (x ++ Js.join (a ++ b))%string.
  change (Js.join (x :: a)) with (x ++ Js.join a)%string.
  now rewrite IH, string_app_assoc.
Qed.

Lemma process_block_parts now b st w l st' w' l' :
  process_block cfg env fmt orc chat now b st w l = Some (st', w', l', None) ->
  responseParts l' = responseParts l ++ text_parts [b].
Proof.
  unfold process_block, text_parts. intros H.
  destruct b; simpl; crunch; subst; simpl; rewrite ?app_nil_r; reflexivity.
Qed.

Lemma process_blocks_parts now bs : forall st w l st' w' l',
  process_blocks cfg env fmt orc chat now bs st w l = Some (st', w', l', None) ->
  responseParts l' = responseParts l ++ text_parts bs.
Proof.
  induction bs as [|b bs IH]; intros st w l st' w' l' H; simpl in H.
  - simplify_eq. now rewrite app_nil_r.
  - open_bind H. destruct o as [e|]; [discriminate |].
    apply process_block_parts in E. apply IH in H. rewrite H, E.
    rewrite <- app_assoc. f_equal.
    unfold text_parts. simpl. now destruct b.
Qed.

End Clearance.

(** X18: the tool checks fail closed.  The loop over the content blocks of
    an event ends without exception exactly when every tool-use block in it
    is cleared ([Bash] commands judged safe, paths of [Read], [Write] and
    [Edit] exempt or allowed); otherwise the exception comes from the first
    block that is not cleared and names the reason or the path, and the
    blocks after it are not processed: whatever follows that block, the
    loop ends in the same state with the same exception. *)
Theorem no_exception_iff_every_tool_use_cleared (cfg : Config) (env : Env)
    (fmt : Formatting) (orc : Transport.Oracle) (chat now : Z)
    (bs : list ClaudeSession.Block) (st st' : Streaming.StreamingState)
    (w w' : ClaudeSession.World) (l l' : ClaudeSession.Locals)
    (raised : option string)
    (Hret : ClaudeSession.process_blocks cfg env fmt orc chat now bs st w l
            = Some (st', w', l', raised)) :
  (raised = None <-> forallb (ClaudeSession.tool_cleared cfg env) bs = true) /\
  (forall e, raised = Some e ->
     exists pre name input post,
       bs = pre ++ ClaudeSession.ToolUse name input :: post /\
       forallb (ClaudeSession.tool_cleared cfg env) pre = true /\
       ClaudeSession.tool_cleared cfg env (ClaudeSession.ToolUse name input) = false /\
       ((name = "Bash"%string /\
         e = ("Error: Unsafe command blocked: " ++
              snd (Security.checkCommandSafety cfg env
                     (default "" (command input))))%string) \/
        e = ("Error: File access blocked: " ++
             default "" (file_path input))%string) /\
       forall post',
         ClaudeSession.process_blocks cfg env fmt orc chat now
           (pre ++ ClaudeSession.ToolUse name input :: post') st w l
         = Some (st', w', l', Some e)).
Proof.
  split; [exact (process_blocks_cleared cfg env fmt orc chat now bs _ _ _ _ _ _ _
                   Hret) |].
  revert st w l Hret.
  induction bs as [|b bs IH]; intros st w l Hret e He; simpl in Hret.
  - simplify_eq.
  - open_bind Hret. destruct o as [e1|].
    + simplify_eq. clear IH.
      pose proof (process_block_cleared cfg env fmt orc chat now _ _ _ _ _ _ _ _ E)
        as [Hb _].
      destruct b as [t|name input|t|];
        try (assert (Hn : Some e = None) by (now apply Hb); discriminate).
      exists [], name, input, bs. split; [reflexivity |].
      split; [reflexivity |].
      split.
      { destruct (ClaudeSession.tool_cleared cfg env (ClaudeSession.ToolUse name input));
          [| reflexivity].
        assert (Hn : Some e = None) by (now apply Hb). discriminate. }
      split.
      2:{ intros post'. cbn [app ClaudeSession.process_blocks].
          rewrite E. reflexivity. }
      unfold ClaudeSession.process_block in E.
      destruct (String.eqb_spec name "Bash") as [Hname|Hname].
      * destruct (Security.checkCommandSafety cfg env _) as [isSafe reason].
        destruct (negb isSafe).
        { open_bind E. injection E as <- <- <- <-. left. now split. }
        destruct (_ && _ && _ && _).
        { open_bind E. injection E as <- <- <- <-. right. reflexivity. }
        crunch.
      * cbn [negb] in E.
      destruct (_ && _ && _ && _).
      { open_bind E. injection E as <- <- <- <-. right. reflexivity. }
      crunch.
    + pose proof (process_block_cleared cfg env fmt orc chat now _ _ _ _ _ _ _ _ E)
        as [Hb _].
      destruct (IH _ _ _ Hret e He)
        as (pre & name & input & post & -> & Hpre & Hc & Hs & Hcut).
      exists (b :: pre), name, input, post. split; [reflexivity |].
      split; [simpl; now rewrite (proj1 Hb eq_refl) |].
      split; [exact Hc |]. split; [exact Hs |].
      intros post'.
      change ((b :: pre) ++ ClaudeSession.ToolUse name input :: post')
        with (b :: (pre ++ ClaudeSession.ToolUse name input :: post')).
      cbn [ClaudeSession.process_blocks]. rewrite E. cbn. apply Hcut.
Qed.


Lemma no_exception_iff_every_tool_use_cleared_witness :
  let input := {| command := None;
                  file_path := Some "/etc/.claude/../passwd"%string |} in
  Security.isPathAllowed Sample.cfg Sample.env "/etc/.claude/../passwd" = false /\
  exists st' w' l',
    ClaudeSession.process_blocks Sample.cfg Sample.env Sample.fmt
      Transport.reliable 42 10
      [ClaudeSession.ToolUse "Read" input; ClaudeSession.ToolUse "Write" input]
      Streaming.fresh Sample.world0
      Sample.locals0
    = Some (st', w', l',
            Some "Error: File access blocked: /etc/.claude/../passwd"%string) /\
    forallb (ClaudeSession.tool_cleared Sample.cfg Sample.env)
      [ClaudeSession.ToolUse "Read" input; ClaudeSession.ToolUse "Write" input]
    <> true.
Proof.
  intros input. split; [reflexivity |].
  eassert (H : ClaudeSession.process_blocks Sample.cfg Sample.env Sample.fmt
                 Transport.reliable 42 10
                 [ClaudeSession.ToolUse "Read" input;
                  ClaudeSession.ToolUse "Write" input]
                 Streaming.fresh Sample.world0 Sample.locals0 = Some (_, _, _, Some _))
    by (vm_compute; reflexivity).
  eexists _, _, _. split; [exact H |].
  intros Hall.
  apply (proj1 (no_exception_iff_every_tool_use_cleared Sample.cfg Sample.env
                  Sample.fmt Transport.reliable 42 10 _ _ _ _ _ _ _ _ H)) in Hall.
  discriminate Hall.
Defined.

(** X19: when the blocks of an assistant event are processed without
    exception, the response gains exactly the texts of its text blocks, in
    order: the concatenation that [getTextFromMessage] returns for the
    event, which is [null] exactly when the response gains nothing. *)
Theorem response_parts_are_the_text_blocks (cfg : Config) (env : Env)
    (fmt : Formatting) (orc : Transport.Oracle) (chat now : Z)
    (bs : list ClaudeSession.Block) (st st' : Streaming.StreamingState)
    (w w' : ClaudeSession.World) (l l' : ClaudeSession.Locals)
    (sid : option string)
    (Hret : ClaudeSession.process_blocks cfg env fmt orc chat now bs st w l
            = Some (st', w', l', None)) :
  ClaudeSession.responseParts l' =
    ClaudeSession.responseParts l ++ ClaudeSession.text_parts bs /\
  Js.join (ClaudeSession.responseParts l') =
    (Js.join (ClaudeSession.responseParts l) ++
     default ""
       (ClaudeSession.getTextFromMessage
          {| ClaudeSession.ev_session_id := sid;
             ClaudeSession.body := ClaudeSession.Assistant bs |}))%string /\
  (ClaudeSession.getTextFromMessage
     {| ClaudeSession.ev_session_id := sid;
        ClaudeSession.body := ClaudeSession.Assistant bs |} = None <->
   ClaudeSession.responseParts l' = ClaudeSession.responseParts l).
Proof.
  pose proof (process_blocks_parts cfg env fmt orc chat now bs _ _ _ _ _ _ Hret)
    as Hparts.
  split; [exact Hparts |].
  unfold ClaudeSession.getTextFromMessage. simpl.
  rewrite Hparts, join_app.
  destruct (ClaudeSession.text_parts bs) as [|t ts] eqn:Ht; simpl.
  - rewrite app_nil_r. split; [reflexivity | now split].
  - split; [reflexivity |]. split; [discriminate |].
    intros Heq. apply (f_equal (@List.length string)) in Heq.
    rewrite length_app in Heq. simpl in Heq. lia.
Qed.

Lemma response_parts_are_the_text_blocks_witness :
  exists st' w' l',
    ClaudeSession.process_blocks Sample.cfg Sample.env Sample.fmt
      Transport.reliable 42 10
      [ClaudeSession.Text "Hello "; ClaudeSession.Thinking "hm";
       ClaudeSession.Text "Ada."]
      Streaming.fresh Sample.world0
      Sample.locals0
    = Some (st', w', l', None) /\
    Js.join (ClaudeSession.responseParts l') = "Hello Ada."%string.
Proof.
  eassert (H : ClaudeSession.process_blocks Sample.cfg Sample.env Sample.fmt
                 Transport.reliable 42 10
                 [ClaudeSession.Text "Hello "; ClaudeSession.Thinking "hm";
                  ClaudeSession.Text "Ada."]
                 Streaming.fresh Sample.world0 Sample.locals0 = Some (_, _, _, None))
    by (vm_compute; reflexivity).
  eexists _, _, _. split; [exact H |].
  destruct (response_parts_are_the_text_blocks Sample.cfg Sample.env Sample.fmt
              Transport.reliable 42 10 _ _ _ _ _ _ _ None H) as (_ & Hj & _).
  rewrite Hj. reflexivity.
Defined.

(* ===================================================================== *)
(** * Further properties of [src/handlers/assistant.ts] *)
(* ===================================================================== *)

Section Turn.

Import Handlers.

Variables (cfg : Config) (env : Env) (fmt : Formatting)
          (orc : Transport.Oracle) (engine : ClaudeSession.Engine)
          (clock : nat -> Z).

(** A reply of a handler touches the transport only. *)
Lemma say_frame (chat : Z) (text : string) (hs : State) :
  Transport.log (ClaudeSession.transport (world (fst (say orc chat text hs)))) =
    Transport.log (ClaudeSession.transport (world hs)) ++
      [(Transport.Reply chat text false, snd (say orc chat text hs))] /\
  session_of (fst (say orc chat text hs)) = session_of hs /\
  ClaudeSession.invocations (world (fst (say orc chat text hs))) =
    ClaudeSession.invocations (world hs) /\
  ClaudeSession.file (world (fst (say orc chat text hs))) =
    ClaudeSession.file (world hs) /\
  calls (fst (say orc chat text hs)) = calls hs /\
  audit (fst (say orc chat text hs)) = audit hs /\
  buckets (fst (say orc chat text hs)) = buckets hs.
Proof.
  unfold say, Transport.reply, Transport.call, session_of.
  destruct (orc _ _); simpl; repeat split.
Qed.

(** One call of [sendMessageStreaming] calls the engine at most once. *)
Lemma engine_called_at_most_once chat now message st w st' w' out :
  ClaudeSession.sendMessageStreaming cfg env fmt orc chat engine now message
    st w = Some (st', w', out) ->
  exists invs,
    ClaudeSession.invocations w' = ClaudeSession.invocations w ++ invs /\
    (List.length invs <= 1)%nat.
Proof.
  intros H.
  destruct (ClaudeSession.stopRequested (ClaudeSession.session w)) eqn:Hs.
  - destruct (cancelled_before_start cfg env fmt orc chat engine now message
                st w Hs) as (w1 & Hc & Hinv & _).
    rewrite Hc in H. injection H as <- <- <-.
    exists []. rewrite app_nil_r. split; [exact Hinv | simpl; lia].
  - eexists [_]. split; [| simpl; lia].
    exact (engine_called_once cfg env fmt orc chat engine now message
             st st' w w' out Hs H).
Qed.

(** What the retry loop does to the records of a turn: every iteration
    records one call, of the same message, and calls the engine at most
    once; the fields of the handler and the buckets stay. *)
Lemma attempts_frame (remaining : nat) : forall attempt chat userId username
    trimmed st hs hs' exit,
  attempts cfg env fmt orc engine clock remaining attempt chat userId username
    trimmed st hs = Some (hs', exit) ->
  ClaudeSession.handler_fields (session_of hs') =
    ClaudeSession.handler_fields (session_of hs) /\
  buckets hs' = buckets hs /\
  exists invs cs,
    ClaudeSession.invocations (world hs') =
      ClaudeSession.invocations (world hs) ++ invs /\
    calls hs' = calls hs ++ cs /\
    (List.length invs <= List.length cs)%nat /\
    (List.length cs <= remaining)%nat /\
    (remaining <> 0%nat -> cs <> []) /\
    Forall (fun c => fst c = trimmed) cs.
Proof.
  induction remaining as [|remaining IH];
    intros attempt chat userId username trimmed st hs hs' exit H; simpl in H.
  - injection H as <- <-. split; [reflexivity |]. split; [reflexivity |].
    exists [], []. rewrite !app_nil_r. repeat split; auto; congruence.
  - open_bind H.
    pose proof (sendMessageStreaming_handler_fields _ _ _ _ _ _ _ _ _ _ _ _ _ E)
      as Hkept.
    destruct (engine_called_at_most_once _ _ _ _ _ _ _ _ E)
      as (invs1 & Hinv1 & Hlen1).
    simpl in Hkept, Hinv1.
    destruct o as [response|errorStr].
    + injection H as <- <-. simpl.
      split; [exact Hkept |]. split; [reflexivity |].
      exists invs1, [(trimmed, st)].
      repeat split; simpl; auto; try lia; try discriminate.
    + destruct (Js.includes errorStr "exited with code" &&
                (attempt <? MAX_RETRIES)%nat).
      * unfold announce_retry in H.
        match type of H with
        | context [say orc chat ?t ?h] =>
            pose proof (say_frame chat t h) as Hsay;
            destruct (say orc chat t h) as [hs4 ok]
        end.
        simpl in Hsay. destruct Hsay as (_ & Hs4 & Hi4 & _ & Hc4 & _ & Hb4).
        destruct ok.
        -- apply IH in H as (Hk & Hb & invs & cs & Hi & Hc & Hl1 & Hl2 & _ & Hall).
           split.
           { rewrite Hk. unfold session_of in *. rewrite Hs4. simpl.
             exact Hkept. }
           split; [now rewrite Hb, Hb4 |].
           exists (invs1 ++ invs), ((trimmed, st) :: cs).
           rewrite Hi, Hi4, Hc, Hc4. simpl. rewrite Hinv1, <- !app_assoc.
           repeat split; simpl; auto; try lia; try discriminate.
           rewrite length_app. lia.
        -- injection H as <- <-.
           split.
           { unfold session_of in *. rewrite Hs4. simpl. exact Hkept. }
           split; [now rewrite Hb4 |].
           exists invs1, [(trimmed, st)]. rewrite Hi4, Hc4. simpl.
           repeat split; simpl; auto; try lia; try discriminate.
      * unfold report_failure in H.
        destruct (Js.includes errorStr "abort" || Js.includes errorStr "cancel").
        -- unfold ClaudeSession.consumeInterruptFlag in H. simpl in H.
           destruct (ClaudeSession._wasInterruptedByNewMessage _) eqn:Hwas;
             simpl in H.
           ++ injection H as <- <-. split; [exact Hkept |].
              split; [reflexivity |].
              exists invs1, [(trimmed, st)].
              repeat split; simpl; auto; try lia; try discriminate.
           ++ match type of H with
              | context [say orc chat ?t ?h] =>
                  pose proof (say_frame chat t h) as Hsay;
                  destruct (say orc chat t h) as [hs4 ok]
              end.
              simpl in Hsay. destruct Hsay as (_ & Hs4 & Hi4 & _ & Hc4 & _ & Hb4).
              injection H as <- <-.
              split.
              { unfold session_of in *. rewrite Hs4. simpl. exact Hkept. }
              split; [now rewrite Hb4 |].
              exists invs1, [(trimmed, st)]. rewrite Hi4, Hc4. simpl.
              repeat split; simpl; auto; try lia; try discriminate.
        -- match type of H with
           | context [say orc chat ?t ?h] =>
               pose proof (say_frame chat t h) as Hsay;
               destruct (say orc chat t h) as [hs4 ok]
           end.
           simpl in Hsay. destruct Hsay as (_ & Hs4 & Hi4 & _ & Hc4 & _ & Hb4).
           injection H as <- <-.
           split.
           { unfold session_of in *. rewrite Hs4. simpl. exact Hkept. }
           split; [now rewrite Hb4 |].
           exists invs1, [(trimmed, st)]. rewrite Hi4, Hc4. simpl.
           repeat split; simpl; auto; try lia; try discriminate.
Qed.

End Turn.


(** X20: one turn of [handleAssistantMessage] calls
    [sendMessageStreaming] at most twice, each time with the trimmed
    message, and the engine is started at most once per such call: no turn
    starts the engine more than twice. *)
Theorem turn_calls_engine_at_most_twice (cfg : Config) (env : Env)
    (fmt : Formatting) (orc : Transport.Oracle)
    (engine : ClaudeSession.Engine) (clock : nat -> Z) (c : Ctx)
    (message : string) (hs hs' : Handlers.State) (exit : Handlers.Exit)
    (Hret : Handlers.handleAssistantMessage cfg env fmt orc engine clock c
              message hs = Some (hs', exit)) :
  exists invs cs,
    ClaudeSession.invocations (Handlers.world hs') =
      ClaudeSession.invocations (Handlers.world hs) ++ invs /\
    Handlers.calls hs' = Handlers.calls hs ++ cs /\
    (List.length invs <= List.length cs)%nat /\
    (List.length cs <= 2)%nat /\
    Forall (fun call => fst call = Js.trim message) cs.
Proof.
  assert (Hnone : forall text chat (h : Handlers.State) ok,
            Handlers.calls h = Handlers.calls hs ->
            ClaudeSession.invocations (Handlers.world h) =
              ClaudeSession.invocations (Handlers.world hs) ->
            Handlers.say orc chat text h = (hs', ok) ->
            exists invs cs,
              ClaudeSession.invocations (Handlers.world hs') =
                ClaudeSession.invocations (Handlers.world hs) ++ invs /\
              Handlers.calls hs' = Handlers.calls hs ++ cs /\
              (List.length invs <= List.length cs)%nat /\
              (List.length cs <= 2)%nat /\
              Forall (fun call => fst call = Js.trim message) cs).
  { intros text chat h ok Hc Hi Hsay.
    destruct (say_frame orc chat text h) as (_ & _ & Hi' & _ & Hc' & _).
    rewrite Hsay in Hi', Hc'. simpl in Hi', Hc'.
    exists [], []. rewrite !app_nil_r. rewrite Hi', Hc', Hi, Hc.
    repeat split; simpl; auto. }
  unfold Handlers.handleAssistantMessage in Hret.
  destruct (falsy_id (from_id c) || falsy_id (chat_id c)).
  { injection Hret as <- <-. exists [], []. rewrite !app_nil_r.
    repeat split; simpl; auto. }
  destruct (negb (Security.isAuthorized _ _)).
  { destruct (Handlers.say orc _ _ hs) as [hs1 ok] eqn:Hsay.
    injection Hret as <- <-. eapply Hnone; [| | exact Hsay]; reflexivity. }
  destruct (Security.check cfg _ _ _) as [b [allowed retryAfter]].
  destruct (negb allowed).
  { destruct (Handlers.say orc _ _ _) as [hs3 ok] eqn:Hsay.
    injection Hret as <- <-. eapply Hnone; [| | exact Hsay]; reflexivity. }
  destruct (negb (Js.truthy (Js.trim message))).
  { destruct (Handlers.say orc _ _ _) as [hs3 ok] eqn:Hsay.
    injection Hret as <- <-. eapply Hnone; [| | exact Hsay]; reflexivity. }
  open_bind Hret.
  apply attempts_frame in E as (_ & _ & invs & cs & Hi & Hc & Hl1 & Hl2 & _ & Hall).
  simpl in Hi, Hc. exists invs, cs.
  destruct e; injection Hret as <-; simpl;
    repeat split; auto.
Qed.

Lemma turn_calls_engine_at_most_twice_witness :
  exists hs' invs cs,
    Handlers.handleAssistantMessage Sample.cfg Sample.env Sample.fmt
      Transport.reliable Sample.engine_crash_once Sample.clock Sample.ctx
      "  hello " Sample.state0 = Some (hs', Handlers.Completed) /\
    ClaudeSession.invocations (Handlers.world hs') =
      ClaudeSession.invocations (Handlers.world Sample.state0) ++ invs /\
    Handlers.calls hs' = Handlers.calls Sample.state0 ++ cs /\
    (List.length invs <= List.length cs)%nat /\
    (List.length cs <= 2)%nat /\
    Forall (fun call => fst call = Js.trim "  hello ") cs.
Proof.
  eassert (H : Handlers.handleAssistantMessage Sample.cfg Sample.env Sample.fmt
                 Transport.reliable Sample.engine_crash_once Sample.clock
                 Sample.ctx "  hello " Sample.state0
               = Some (_, Handlers.Completed)) by (vm_compute; reflexivity).
  destruct (turn_calls_engine_at_most_twice Sample.cfg Sample.env Sample.fmt
              Transport.reliable Sample.engine_crash_once Sample.clock
              Sample.ctx "  hello " Sample.state0 _ _ H) as (invs & cs & Hx).
  eexists _, invs, cs. split; [exact H | exact Hx].
Defined.

(** X21: a turn calls [sendMessageStreaming] exactly when it got past the
    gates (ids present, user authorized, rate limit, message not empty after
    trimming).  A refused turn starts no engine, leaves the session as it
    was and sends at most one reply; a turn refused for its ids or its
    authorization touches neither the rate buckets nor the audit log, and
    every other turn, also one with an empty message, is charged to the
    rate limiter. *)
Theorem refused_turn_never_reaches_engine (cfg : Config) (env : Env)
    (fmt : Formatting) (orc : Transport.Oracle)
    (engine : ClaudeSession.Engine) (clock : nat -> Z) (c : Ctx)
    (message : string) (hs hs' : Handlers.State) (exit : Handlers.Exit)
    (Hret : Handlers.handleAssistantMessage cfg env fmt orc engine clock c
              message hs = Some (hs', exit)) :
  (Handlers.refused cfg (clock 0%nat) c message hs = true <->
   Handlers.calls hs' = Handlers.calls hs) /\
  (Handlers.refused cfg (clock 0%nat) c message hs = true ->
   ClaudeSession.invocations (Handlers.world hs') =
     ClaudeSession.invocations (Handlers.world hs) /\
   Handlers.session_of hs' = Handlers.session_of hs /\
   (List.length (Transport.log (ClaudeSession.transport (Handlers.world hs')))
    <= S (List.length
            (Transport.log (ClaudeSession.transport (Handlers.world hs)))))%nat) /\
  (falsy_id (from_id c) || falsy_id (chat_id c) ||
   negb (Security.isAuthorized (Some (default 0 (from_id c)))
           (ALLOWED_USERS cfg)) = true ->
   Handlers.buckets hs' = Handlers.buckets hs /\
   Handlers.audit hs' = Handlers.audit hs) /\
  (falsy_id (from_id c) || falsy_id (chat_id c) ||
   negb (Security.isAuthorized (Some (default 0 (from_id c)))
           (ALLOWED_USERS cfg)) = false ->
   Handlers.buckets hs' =
     fst (Security.check cfg (clock 0%nat) (default 0 (from_id c))
            (Handlers.buckets hs))).
Proof.
  assert (Hnone : forall text chat (h : Handlers.State) ok,
            Handlers.say orc chat text h = (hs', ok) ->
            Handlers.calls h = Handlers.calls hs ->
            ClaudeSession.invocations (Handlers.world h) =
              ClaudeSession.invocations (Handlers.world hs) ->
            Handlers.session_of h = Handlers.session_of hs ->
            Transport.log (ClaudeSession.transport (Handlers.world h)) =
              Transport.log (ClaudeSession.transport (Handlers.world hs)) ->
            Handlers.calls hs' = Handlers.calls hs /\
            ClaudeSession.invocations (Handlers.world hs') =
              ClaudeSession.invocations (Handlers.world hs) /\
            Handlers.session_of hs' = Handlers.session_of hs /\
            (List.length
               (Transport.log (ClaudeSession.transport (Handlers.world hs')))
             <= S (List.length
                     (Transport.log
                        (ClaudeSession.transport (Handlers.world hs)))))%nat /\
            Handlers.buckets hs' = Handlers.buckets h /\
            Handlers.audit hs' = Handlers.audit h).
  { intros text chat h ok Hsay Hc Hi Hs Hl.
    destruct (say_frame orc chat text h) as (Hl' & Hs' & Hi' & _ & Hc' & Ha' & Hb').
    rewrite Hsay in *. simpl in *.
    rewrite Hc', Hi', Hs', Hl', Hc, Hi, Hs, Hl, length_app. simpl.
    repeat split; auto; lia. }
  unfold Handlers.refused. unfold Handlers.handleAssistantMessage in Hret.
  destruct (falsy_id (from_id c) || falsy_id (chat_id c)); cbn [orb negb].
  { injection Hret as <- <-. repeat split; auto; try discriminate. }
  destruct (Security.isAuthorized _ _); cbn [orb negb fst snd] in *.
  2:{ destruct (Handlers.say orc _ _ hs) as [hs1 ok] eqn:Hsay.
      injection Hret as <- <-.
      destruct (Hnone _ _ _ _ Hsay eq_refl eq_refl eq_refl eq_refl)
        as (H1 & H2 & H3 & H4 & H5 & H6).
      repeat split; auto; try discriminate. }
  destruct (Security.check cfg _ _ _) as [b [allowed retryAfter]]; cbn [orb negb fst snd] in *.
  destruct allowed; cbn [orb negb fst snd] in *.
  2:{ destruct (Handlers.say orc _ _ _) as [hs3 ok] eqn:Hsay.
      injection Hret as <- <-.
      destruct (Hnone _ _ _ _ Hsay eq_refl eq_refl eq_refl eq_refl)
        as (H1 & H2 & H3 & H4 & H5 & H6).
      repeat split; auto; try discriminate. }
  destruct (Js.truthy (Js.trim message)); cbn [orb negb fst snd] in *.
  2:{ destruct (Handlers.say orc _ _ _) as [hs3 ok] eqn:Hsay.
      injection Hret as <- <-.
      destruct (Hnone _ _ _ _ Hsay eq_refl eq_refl eq_refl eq_refl)
        as (H1 & H2 & H3 & H4 & H5 & H6).
      repeat split; auto; try discriminate. }
  open_bind Hret.
  apply attempts_frame in E as (_ & Hb & invs & cs & Hi & Hc & Hl1 & Hl2 & Hne & Hall).
  simpl in Hi, Hc, Hb.
  assert (Hcalls : Handlers.calls hs' = Handlers.calls hs ++ cs)
    by (destruct e; injection Hret as <-; exact Hc).
  assert (Hbuckets : Handlers.buckets hs' = b)
    by (destruct e; injection Hret as <-; exact Hb).
  split; [| split; [discriminate | split; [discriminate | now intros _]]].
  split; [discriminate |]. intros Heq. exfalso.
  rewrite Hcalls in Heq. apply (f_equal (@List.length _)) in Heq.
  rewrite length_app in Heq.
  destruct cs; [now apply Hne | simpl in Heq; lia].
Qed.

Lemma refused_turn_never_reaches_engine_witness :
  exists hs',
    Handlers.handleAssistantMessage Sample.cfg Sample.env Sample.fmt
      Transport.reliable Sample.engine_crash_once Sample.clock Sample.ctx
      "   " Sample.state0 = Some (hs', Handlers.Completed) /\
    Handlers.refused Sample.cfg (Sample.clock 0%nat) Sample.ctx "   " Sample.state0
      = true /\
    Handlers.calls hs' = Handlers.calls Sample.state0 /\
    Handlers.buckets hs' =
      fst (Security.check Sample.cfg (Sample.clock 0%nat) 7 ∅).
Proof.
  eassert (H : Handlers.handleAssistantMessage Sample.cfg Sample.env Sample.fmt
                 Transport.reliable Sample.engine_crash_once Sample.clock
                 Sample.ctx "   " Sample.state0
               = Some (_, Handlers.Completed)) by (vm_compute; reflexivity).
  assert (Hr : Handlers.refused Sample.cfg (Sample.clock 0%nat) Sample.ctx "   "
                 Sample.state0 = true) by (vm_compute; reflexivity).
  destruct (refused_turn_never_reaches_engine Sample.cfg Sample.env Sample.fmt
              Transport.reliable Sample.engine_crash_once Sample.clock
              Sample.ctx "   " Sample.state0 _ _ H) as (H1 & _ & _ & H4).
  eexists. split; [exact H |]. split; [exact Hr |].
  split; [exact (proj1 H1 Hr) | exact (H4 eq_refl)].
Defined.

(** X22: a turn that got past the gates records the trimmed message as the
    last message, and when the handler returns normally the processing flag
    is released; the flag is left set exactly when the handler is left by an
    exception of one of its own replies, which skips [stopProcessing()]. *)
Theorem processing_flag_released_unless_reply_fails (cfg : Config) (env : Env)
    (fmt : Formatting) (orc : Transport.Oracle)
    (engine : ClaudeSession.Engine) (clock : nat -> Z) (c : Ctx)
    (message : string) (hs hs' : Handlers.State) (exit : Handlers.Exit)
    (Hret : Handlers.handleAssistantMessage cfg env fmt orc engine clock c
              message hs = Some (hs', exit))
    (Hpass : Handlers.refused cfg (clock 0%nat) c message hs = false) :
  ClaudeSession._isProcessing (Handlers.session_of hs') =
    match exit with
    | Handlers.Completed => false
    | Handlers.Uncaught => true
    end /\
  ClaudeSession.lastMessage (Handlers.session_of hs') = Some (Js.trim message).
Proof.
  unfold Handlers.refused in Hpass.
  apply orb_false_iff in Hpass as [Hpass Hmsg].
  apply orb_false_iff in Hpass as [Hpass Hrate].
  apply orb_false_iff in Hpass as [Hids Hauth].
  unfold Handlers.handleAssistantMessage in Hret.
  rewrite Hids, Hauth in Hret.
  destruct (Security.check cfg _ _ _) as [b [allowed retryAfter]].
  simpl in Hrate. rewrite Hrate, Hmsg in Hret.
  open_bind Hret.
  apply attempts_frame in E as (Hkept & _).
  unfold ClaudeSession.handler_fields in Hkept. simpl in Hkept.
  injection Hkept as Hp Hm.
  destruct e; injection Hret as <- <-; simpl; split; auto.
Qed.

Lemma processing_flag_released_unless_reply_fails_witness :
  exists hs',
    Handlers.handleAssistantMessage Sample.cfg Sample.env Sample.fmt
      Transport.reliable Sample.engine_crash_once Sample.clock Sample.ctx
      "  hello " Sample.state0 = Some (hs', Handlers.Completed) /\
    Handlers.refused Sample.cfg (Sample.clock 0%nat) Sample.ctx "  hello "
      Sample.state0 = false /\
    ClaudeSession._isProcessing (Handlers.session_of hs') = false /\
    ClaudeSession.lastMessage (Handlers.session_of hs') = Some "hello"%string.
Proof.
  eassert (H : Handlers.handleAssistantMessage Sample.cfg Sample.env Sample.fmt
                 Transport.reliable Sample.engine_crash_once Sample.clock
                 Sample.ctx "  hello " Sample.state0
               = Some (_, Handlers.Completed)) by (vm_compute; reflexivity).
  assert (Hr : Handlers.refused Sample.cfg (Sample.clock 0%nat) Sample.ctx "  hello "
                 Sample.state0 = false) by (vm_compute; reflexivity).
  eexists. split; [exact H |]. split; [exact Hr |].
  exact (processing_flag_released_unless_reply_fails Sample.cfg Sample.env
           Sample.fmt Transport.reliable Sample.engine_crash_once Sample.clock
           Sample.ctx "  hello " Sample.state0 _ _ H Hr).
Defined.

(* ===================================================================== *)
(** * Further properties of [src/handlers/commands.ts] *)
(* ===================================================================== *)

(** X23: [/stop] from an authorized user sends nothing and writes nothing to
    the audit log; it keeps the session id, the processing flag, the last
    message and the running flag.  When nothing is running it changes
    nothing at all; otherwise the stop flag it set is cleared again after
    the pause, and what remains is the abort signal of a running query. *)
Theorem stop_command_is_silent (cfg : Config) (orc : Transport.Oracle)
    (c : Ctx) (hs : Handlers.State)
    (Hauth : Security.isAuthorized (from_id c) (ALLOWED_USERS cfg) = true) :
  let r := Handlers.handleStop_begin cfg orc c hs in
  let hs' := if snd r then Handlers.handleStop_finish (fst r) else fst r in
  ClaudeSession.transport (Handlers.world hs') =
    ClaudeSession.transport (Handlers.world hs) /\
  Handlers.audit hs' = Handlers.audit hs /\
  ClaudeSession.sessionId (Handlers.session_of hs') =
    ClaudeSession.sessionId (Handlers.session_of hs) /\
  ClaudeSession.handler_fields (Handlers.session_of hs') =
    ClaudeSession.handler_fields (Handlers.session_of hs) /\
  ClaudeSession.isQueryRunning (Handlers.session_of hs') =
    ClaudeSession.isQueryRunning (Handlers.session_of hs) /\
  (if snd r
   then ClaudeSession.stopRequested (Handlers.session_of (fst r)) = true /\
        ClaudeSession.stopRequested (Handlers.session_of hs') = false /\
        ClaudeSession.isRunning (Handlers.session_of hs) = true
   else hs' = hs) /\
  ClaudeSession.abortController (Handlers.session_of hs') =
    (if ClaudeSession.isQueryRunning (Handlers.session_of hs) &&
        bool_decide (ClaudeSession.abortController (Handlers.session_of hs)
                     <> None)
     then Some true
     else ClaudeSession.abortController (Handlers.session_of hs)).
Proof.
  intros r hs'. subst hs' r. unfold Handlers.handleStop_begin.
  rewrite Hauth. cbn [negb]. clear Hauth.
  destruct hs as [[s fl iv tr] b a cl].
  unfold ClaudeSession.isRunning, ClaudeSession.stop,
    ClaudeSession.handler_fields, Handlers.session_of,
    Handlers.handleStop_finish, Handlers.with_session, Handlers.session_of.
  simpl.
  destruct (ClaudeSession.isQueryRunning s) eqn:Hq;
    destruct (bool_decide (ClaudeSession.abortController s <> None)) eqn:Ha;
    destruct (ClaudeSession._isProcessing s) eqn:Hp;
    simpl; rewrite ?Hq, ?Hp, ?Ha; simpl; repeat split; auto.
Qed.

Lemma stop_command_is_silent_witness :
  let hs := Handlers.with_session
              (ClaudeSession.startProcessing ClaudeSession.empty)
              Sample.state0 in
  Security.isAuthorized (from_id Sample.ctx) (ALLOWED_USERS Sample.cfg) = true /\
  snd (Handlers.handleStop_begin Sample.cfg Transport.reliable Sample.ctx hs)
    = true /\
  ClaudeSession.transport
    (Handlers.world
       (Handlers.handleStop_finish
          (fst (Handlers.handleStop_begin Sample.cfg Transport.reliable
                  Sample.ctx hs)))) =
    ClaudeSession.transport (Handlers.world hs).
Proof.
  intros hs.
  assert (H : Security.isAuthorized (from_id Sample.ctx)
                (ALLOWED_USERS Sample.cfg) = true) by reflexivity.
  split; [exact H |]. split; [reflexivity |].
  pose proof (stop_command_is_silent Sample.cfg Transport.reliable Sample.ctx
                hs H) as Hx.
  cbv zeta in Hx. destruct Hx as [Htr _]. exact Htr.
Defined.

(** X24: [/new] from an authorized user clears the session id and the
    activity stamp, keeps the saved session file, and answers with one
    reply; the next query then resumes nothing and is sent as a new
    session. *)
Theorem new_command_clears_the_session (cfg : Config) (env : Env)
    (fmt : Formatting) (orc : Transport.Oracle) (c : Ctx)
    (hs : Handlers.State) (now : Z) (message : string)
    (Hauth : Security.isAuthorized (from_id c) (ALLOWED_USERS cfg) = true) :
  let hs' := Handlers.handleNew cfg orc c hs in
  ClaudeSession.sessionId (Handlers.session_of hs') = None /\
  ClaudeSession.lastActivity (Handlers.session_of hs') = None /\
  ClaudeSession.isRunning (Handlers.session_of hs') =
    ClaudeSession.isRunning (Handlers.session_of hs) /\
  ClaudeSession.file (Handlers.world hs') =
    ClaudeSession.file (Handlers.world hs) /\
  ClaudeSession.resume
    (ClaudeSession.invocation_of cfg env fmt now message
       (Handlers.session_of hs')) = None /\
  ClaudeSession.prompt
    (ClaudeSession.invocation_of cfg env fmt now message
       (Handlers.session_of hs')) =
    ClaudeSession.messageToSend fmt now true message /\
  exists ok,
    Transport.log (ClaudeSession.transport (Handlers.world hs')) =
      Transport.log (ClaudeSession.transport (Handlers.world hs)) ++
      [(Transport.Reply (default 0 (chat_id c))
          "🆕 Session cleared. Next message starts fresh." false, ok)].
Proof.
  intros hs'. subst hs'.
  unfold Handlers.handleNew, Handlers.handleNew_begin, Handlers.handleNew_finish.
  rewrite Hauth. cbn [negb]. clear Hauth.
  destruct hs as [[s fl iv tr] b a cl].
  unfold ClaudeSession.isRunning, ClaudeSession.stop, Handlers.session_of,
    Handlers.with_session, Handlers.say, Transport.reply, Transport.call.
  simpl.
  destruct (ClaudeSession.isQueryRunning s) eqn:Hq;
    destruct (bool_decide (ClaudeSession.abortController s <> None)) eqn:Ha;
    destruct (ClaudeSession._isProcessing s) eqn:Hp;
    simpl; rewrite ?Hq, ?Hp, ?Ha; simpl;
    destruct (orc _ _); simpl; rewrite ?Hq, ?Hp;
    repeat split; eauto.
Qed.

Lemma new_command_clears_the_session_witness :
  let hs := Handlers.with_session
              (ClaudeSession.set_sessionId (Some "sess-1"%string)
                 ClaudeSession.empty) Sample.state0 in
  Security.isAuthorized (from_id Sample.ctx) (ALLOWED_USERS Sample.cfg) = true /\
  ClaudeSession.sessionId (Handlers.session_of hs) = Some "sess-1"%string /\
  ClaudeSession.sessionId
    (Handlers.session_of
       (Handlers.handleNew Sample.cfg Transport.reliable Sample.ctx hs)) = None.
Proof.
  intros hs.
  assert (H : Security.isAuthorized (from_id Sample.ctx)
                (ALLOWED_USERS Sample.cfg) = true) by reflexivity.
  split; [exact H |]. split; [reflexivity |].
  pose proof (new_command_clears_the_session Sample.cfg Sample.env Sample.fmt
                Transport.reliable Sample.ctx hs 0 "hello" H) as Hx.
  cbv zeta in Hx. destruct Hx as [Hid _]. exact Hid.
Defined.

(** X25: [/resume] from an authorized user with an active session leaves the
    session as it is and says so; without one it adopts what [resumeLast]
    returns and reports its message behind a check mark or a cross.  The
    session is active afterwards exactly when it was before or [resumeLast]
    succeeded; the saved file is never written, and exactly one reply is
    sent. *)
Theorem resume_command_outcome (cfg : Config) (orc : Transport.Oracle)
    (now : Z) (c : Ctx) (hs : Handlers.State)
    (Hauth : Security.isAuthorized (from_id c) (ALLOWED_USERS cfg) = true) :
  let r := ClaudeSession.resumeLast cfg now
             (ClaudeSession.file (Handlers.world hs)) (Handlers.session_of hs) in
  let hs' := fst (Handlers.handleResume cfg orc now c hs) in
  (if ClaudeSession.isActive (Handlers.session_of hs)
   then Handlers.session_of hs' = Handlers.session_of hs
   else Handlers.session_of hs' = fst r) /\
  (ClaudeSession.isActive (Handlers.session_of hs') = true <->
   ClaudeSession.isActive (Handlers.session_of hs) = true \/
   fst (snd r) = true) /\
  ClaudeSession.file (Handlers.world hs') =
    ClaudeSession.file (Handlers.world hs) /\
  exists ok,
    Transport.log (ClaudeSession.transport (Handlers.world hs')) =
      Transport.log (ClaudeSession.transport (Handlers.world hs)) ++
      [(Transport.Reply (default 0 (chat_id c))
          (if ClaudeSession.isActive (Handlers.session_of hs)
           then "Session already active. Use /new to start fresh first."
           else ((if fst (snd r) then "✅ " else "❌ ") ++ snd (snd r)))%string
          false, ok)].
Proof.
  intros r hs'. subst hs' r. unfold Handlers.handleResume.
  rewrite Hauth. cbn [negb]. clear Hauth.
  destruct hs as [[s fl iv tr] b a cl].
  unfold Handlers.session_of, Handlers.with_session, Handlers.say,
    Transport.reply, Transport.call. simpl.
  destruct (ClaudeSession.isActive s) eqn:Hact.
  - destruct (orc _ _); simpl; rewrite Hact;
      (split; [reflexivity |]); (split; [tauto |]);
      (split; [reflexivity |]); eauto.
  - unfold ClaudeSession.resumeLast.
    destruct fl as [|err|data]; simpl.
    + destruct (orc _ _); simpl; rewrite Hact;
        (split; [reflexivity |]);
        (split; [split; [discriminate | intros [H|H]; discriminate] |]);
        (split; [reflexivity |]); eauto.
    + destruct (orc _ _); simpl; rewrite Hact;
        (split; [reflexivity |]);
        (split; [split; [discriminate | intros [H|H]; discriminate] |]);
        (split; [reflexivity |]); eauto.
    + destruct (ClaudeSession.session_id data) as [[|ch id]|] eqn:Hid; simpl;
        try (destruct (orc _ _); simpl; rewrite Hact;
             (split; [reflexivity |]);
             (split; [split; [discriminate | intros [H|H]; discriminate] |]);
             (split; [reflexivity |]); eauto).
      destruct (Js.truthy_opt (ClaudeSession.working_dir data) &&
                negb (bool_decide
                        (ClaudeSession.working_dir data = Some (WORKING_DIR cfg))));
        simpl; destruct (orc _ _); simpl; rewrite ?Hact;
        (split; [reflexivity |]);
        (split; [first [ split; [discriminate | intros [H|H]; discriminate]
                       | split; [now right | reflexivity] ] |]);
        (split; [reflexivity |]); eauto.
Qed.

Lemma resume_command_outcome_witness :
  let hs := Handlers.with_session
              (ClaudeSession.set_sessionId (Some "sess-1"%string)
                 ClaudeSession.empty) Sample.state0 in
  Security.isAuthorized (from_id Sample.ctx) (ALLOWED_USERS Sample.cfg) = true /\
  Handlers.session_of
    (fst (Handlers.handleResume Sample.cfg Transport.reliable 5000 Sample.ctx hs))
  = Handlers.session_of hs.
Proof.
  intros hs.
  assert (H : Security.isAuthorized (from_id Sample.ctx)
                (ALLOWED_USERS Sample.cfg) = true) by reflexivity.
  split; [exact H |].
  pose proof (resume_command_outcome Sample.cfg Transport.reliable 5000
                Sample.ctx hs H) as Hx.
  cbv zeta in Hx. destruct Hx as [Hs _]. exact Hs.
Defined.

(** X26: [/new] does not forget the saved session.  With a saved record for
    the same working directory, [/new] followed by [/resume] brings the
    saved session id back and stamps the activity. *)
Theorem resume_after_new_restores_saved_session (cfg : Config)
    (orc : Transport.Oracle) (now : Z) (c : Ctx) (hs : Handlers.State)
    (data : ClaudeSession.SessionData) (id : string)
    (Hauth : Security.isAuthorized (from_id c) (ALLOWED_USERS cfg) = true)
    (Hfile : ClaudeSession.file (Handlers.world hs) = ClaudeSession.Saved data)
    (Hid : ClaudeSession.session_id data = Some id)
    (Hne : id <> ""%string)
    (Hwd : ClaudeSession.working_dir data = Some (WORKING_DIR cfg)) :
  let cleared := Handlers.handleNew cfg orc c hs in
  let resumed := fst (Handlers.handleResume cfg orc now c cleared) in
  ClaudeSession.sessionId (Handlers.session_of cleared) = None /\
  ClaudeSession.file (Handlers.world cleared) = ClaudeSession.Saved data /\
  ClaudeSession.sessionId (Handlers.session_of resumed) = Some id /\
  ClaudeSession.lastActivity (Handlers.session_of resumed) = Some now.
Proof.
  intros cleared resumed. subst resumed cleared.
  unfold Handlers.handleResume, Handlers.handleNew, Handlers.handleNew_begin,
    Handlers.handleNew_finish.
  rewrite Hauth. cbn [negb]. clear Hauth.
  destruct hs as [[s fl iv tr] b a cl]. simpl in Hfile. subst fl.
  assert (Htruthy : Js.truthy_opt (Some id) = true)
    by (destruct id; [contradiction | reflexivity]).
  unfold ClaudeSession.isRunning, ClaudeSession.stop, Handlers.session_of,
    Handlers.with_session, Handlers.say, Transport.reply, Transport.call,
    ClaudeSession.resumeLast.
  simpl.
  destruct (ClaudeSession.isQueryRunning s) eqn:Hq;
    destruct (bool_decide (ClaudeSession.abortController s <> None)) eqn:Ha;
    destruct (ClaudeSession._isProcessing s) eqn:Hp;
    simpl; rewrite ?Hq, ?Hp, ?Ha; simpl;
    destruct (orc _ _); simpl; rewrite Hid, Hwd, Htruthy; simpl;
    rewrite bool_decide_eq_true_2 by reflexivity; rewrite andb_false_r;
    destruct (orc _ _); simpl; repeat split; auto.
Qed.

Lemma resume_after_new_restores_saved_session_witness :
  let data := {| ClaudeSession.session_id := Some "sess-1"%string;
                 ClaudeSession.saved_at := Some "yesterday"%string;
                 ClaudeSession.working_dir := Some (WORKING_DIR Sample.cfg) |} in
  let hs := Handlers.with_world
              {| ClaudeSession.session :=
                   ClaudeSession.set_sessionId (Some "sess-1"%string)
                     ClaudeSession.empty;
                 ClaudeSession.file := ClaudeSession.Saved data;
                 ClaudeSession.invocations := [];
                 ClaudeSession.transport := Transport.init |} Sample.state0 in
  Security.isAuthorized (from_id Sample.ctx) (ALLOWED_USERS Sample.cfg) = true /\
  ClaudeSession.file (Handlers.world hs) = ClaudeSession.Saved data /\
  "sess-1"%string <> ""%string /\
  ClaudeSession.sessionId
    (Handlers.session_of
       (fst (Handlers.handleResume Sample.cfg Transport.reliable 5000 Sample.ctx
               (Handlers.handleNew Sample.cfg Transport.reliable Sample.ctx hs))))
  = Some "sess-1"%string.
Proof.
  intros data hs.
  assert (H1 : Security.isAuthorized (from_id Sample.ctx)
                 (ALLOWED_USERS Sample.cfg) = true) by reflexivity.
  assert (H2 : ClaudeSession.file (Handlers.world hs) = ClaudeSession.Saved data)
    by reflexivity.
  assert (H3 : "sess-1"%string <> ""%string) by discriminate.
  split; [exact H1 |]. split; [exact H2 |]. split; [exact H3 |].
  pose proof (resume_after_new_restores_saved_session Sample.cfg
                Transport.reliable 5000 Sample.ctx hs data "sess-1" H1 H2
                eq_refl H3 eq_refl) as Hx.
  cbv zeta in Hx. destruct Hx as (_ & _ & Hs & _). exact Hs.
Defined.

(* ===================================================================== *)
(** * Further properties of [src/handlers/media-group.ts] *)
(* ===================================================================== *)

Section Timers.

Import MediaGroup.

Context {T : Type}.
Variable cfg : Config.

Implicit Types (st : State T) (g : string).

Lemma processGroup_timers g cb st :
  timers (processGroup g cb st) = timers st /\
  nextTimer (processGroup g cb st) = nextTimer st.
Proof.
  unfold processGroup, processGroup_take, processGroup_deliver.
  destruct (pendingGroups st !! g) as [grp|]; [| now split].
  destruct (_ || _); [now split |].
  destruct (statusMsg grp), cb; now split.
Qed.

(** What [addToGroup] does to the group map and to the timers. *)
Lemma addToGroup_timers now g item c uid uname ok st :
  let r := addToGroup cfg now g item c uid uname ok st in
  match snd r with
  | Added =>
      exists grp,
        pendingGroups (fst r) = <[g := grp]> (pendingGroups st) /\
        timeout grp = nextTimer st /\
        nextTimer (fst r) = S (nextTimer st) /\
        timers (fst r) =
          <[nextTimer st := (g, now + MEDIA_GROUP_TIMEOUT cfg)]>
            (match pendingGroups st !! g with
             | Some old => delete (timeout old) (timers st)
             | None => timers st
             end)
  | _ =>
      pendingGroups (fst r) = pendingGroups st /\
      timers (fst r) = timers st /\
      nextTimer (fst r) = nextTimer st
  end.
Proof.
  unfold addToGroup, addToGroup_open, addToGroup_create, addToGroup_append.
  destruct (pendingGroups st !! g) as [old|] eqn:Hg; simpl.
  - eexists. repeat split.
  - destruct (Security.check cfg now uid (buckets st)) as [b [allowed ra]].
    destruct allowed, ok; simpl; try (repeat split; fail).
    eexists. repeat split.
Qed.

Lemma addToGroup_timers_ok now g item c uid uname ok st :
  timers_ok st -> timers_ok (fst (addToGroup cfg now g item c uid uname ok st)).
Proof.
  intros (Hown & Hback & Hfresh).
  pose proof (addToGroup_timers now g item c uid uname ok st) as Hr.
  cbv zeta in Hr. unfold timers_ok.
  destruct (snd (addToGroup cfg now g item c uid uname ok st)).
  2,3: destruct Hr as (-> & -> & ->); now repeat split.
  destruct Hr as (grp & -> & Hto & -> & ->).
  assert (Hrest : forall h x,
            match pendingGroups st !! g with
            | Some old => delete (timeout old) (timers st)
            | None => timers st
            end !! h = Some x ->
            timers st !! h = Some x /\
            forall old, pendingGroups st !! g = Some old -> h <> timeout old).
  { intros h x. destruct (pendingGroups st !! g) as [old|].
    - rewrite lookup_delete_Some. intros [Hne Hx]. split; [exact Hx |].
      intros ? [= <-]. congruence.
    - intros Hx. split; [exact Hx | discriminate]. }
  repeat split.
  - intros g' grp' Hg'. destruct (decide (g' = g)) as [->|Hne].
    + rewrite lookup_insert_eq in Hg'. injection Hg' as <-.
      rewrite Hto, lookup_insert_eq. eauto.
    + rewrite lookup_insert_ne in Hg' by auto.
      destruct (Hown g' grp' Hg') as [due Hdue]. exists due.
      pose proof (Hfresh _ _ Hdue) as Hlt.
      rewrite lookup_insert_ne by lia.
      destruct (pendingGroups st !! g) as [old|] eqn:Hg; [| exact Hdue].
      rewrite lookup_delete_ne; [exact Hdue |].
      intros Heq. destruct (Hown g old Hg) as [due' Hdue'].
      rewrite Heq in Hdue'. congruence.
  - intros h g' due. destruct (decide (h = nextTimer st)) as [->|Hne].
    + rewrite lookup_insert_eq. intros [= <- <-]. exists grp.
      now rewrite lookup_insert_eq.
    + rewrite lookup_insert_ne by auto. intros Hx.
      destruct (Hrest h _ Hx) as [Hx' Hold].
      destruct (Hback h g' due Hx') as (grp' & Hg' & Ht').
      exists grp'. split; [| exact Ht'].
      rewrite lookup_insert_ne; [exact Hg' |].
      intros <-. now apply (Hold grp' Hg').
  - intros h x. destruct (decide (h = nextTimer st)) as [->|Hne]; [lia |].
    rewrite lookup_insert_ne by auto. intros Hx.
    destruct (Hrest h _ Hx) as [Hx' _]. specialize (Hfresh _ _ Hx'). lia.
Qed.

Lemma fire_timers_ok now h cb st :
  timers_ok st -> timers_ok (fire now h cb st).
Proof.
  intros (Hown & Hback & Hfresh). unfold fire.
  destruct (timers st !! h) as [[g due]|] eqn:Hh; [| now repeat split].
  destruct (due <=? now); [| now repeat split].
  destruct (processGroup_timers g cb (clearTimeout h st)) as [Ht Hn].
  pose proof (processGroup_groups g cb (clearTimeout h st)) as Hg.
  simpl in Ht, Hn, Hg.
  destruct (Hback h g due Hh) as (grp & Hgrp & Hto).
  repeat split.
  - intros g' grp'. rewrite Hg, Ht, lookup_delete_Some. intros [Hne Hg'].
    destruct (Hown g' grp' Hg') as [due' Hdue']. exists due'.
    rewrite lookup_delete_ne; [exact Hdue' |].
    intros Heq. rewrite <- Heq in Hdue'. congruence.
  - intros h' g' due'. rewrite Ht, Hg, lookup_delete_Some. intros [Hne Hx].
    destruct (Hback h' g' due' Hx) as (grp' & Hg' & Ht').
    exists grp'. split; [| exact Ht'].
    rewrite lookup_delete_ne; [exact Hg' |].
    intros <-. congruence.
  - intros h' x. rewrite Ht, Hn, lookup_delete_Some. intros [_ Hx].
    exact (Hfresh _ _ Hx).
Qed.

Lemma run_timers_ok ops : forall st,
  forallb timer_driven ops = true -> timers_ok st ->
  timers_ok (fst (run cfg ops st)).
Proof.
  induction ops as [|op ops IH]; intros st Hops Hok; simpl; [exact Hok |].
  simpl in Hops. apply andb_true_iff in Hops as [Hop Hops].
  destruct (step cfg op st) as [st1 r] eqn:Hstep.
  assert (Hok1 : timers_ok st1).
  { destruct op; simpl in Hstep; try discriminate.
    - pose proof (addToGroup_timers_ok now groupId item c userId username
                    reply_ok st Hok) as H.
      destruct (addToGroup _ _ _ _ _ _ _ _ _). injection Hstep as <- _. exact H.
    - injection Hstep as <- _. now apply fire_timers_ok. }
  specialize (IH st1 Hops Hok1).
  destruct (run cfg ops st1) as [st2 acc]. exact IH.
Qed.

Lemma init_timers_ok : timers_ok (@init T).
Proof.
  repeat split.
  - intros g grp H. simpl in H. rewrite lookup_empty in H. discriminate.
  - intros h g due H. simpl in H. rewrite lookup_empty in H. discriminate.
  - intros h x H. simpl in H. rewrite lookup_empty in H. discriminate.
Qed.

End Timers.

(** X27: when groups are only closed by their timers, after any run of
    [addToGroup] calls and timer firings every pending group has exactly one
    timer, the one recorded in its [timeout] field, and every timer belongs
    to a pending group: a superseded timer is always cleared. *)
Theorem one_timer_per_pending_group {T : Type} (cfg : Config)
    (ops : list (MediaGroup.Op T))
    (Hops : forallb MediaGroup.timer_driven ops = true) :
  let st := fst (MediaGroup.run cfg ops MediaGroup.init) in
  MediaGroup.timers_ok st /\
  (forall g grp h due,
     MediaGroup.pendingGroups st !! g = Some grp ->
     MediaGroup.timers st !! h = Some (g, due) ->
     h = MediaGroup.timeout grp) /\
  (forall h g due,
     MediaGroup.timers st !! h = Some (g, due) ->
     MediaGroup.pendingGroups st !! g <> None).
Proof.
  intros st.
  assert (Hok : MediaGroup.timers_ok st)
    by (apply run_timers_ok; [exact Hops | apply init_timers_ok]).
  split; [exact Hok |]. destruct Hok as (_ & Hback & _). split.
  - intros g grp h due Hg Hh.
    destruct (Hback h g due Hh) as (grp' & Hg' & Ht). congruence.
  - intros h g due Hh. destruct (Hback h g due Hh) as (grp & -> & _).
    discriminate.
Qed.

Lemma one_timer_per_pending_group_witness :
  forallb MediaGroup.timer_driven (firstn 8 Sample.album) = true /\
  MediaGroup.timers_ok
    (fst (MediaGroup.run Sample.cfg (firstn 8 Sample.album) MediaGroup.init)).
Proof.
  assert (H : forallb MediaGroup.timer_driven (firstn 8 Sample.album) = true)
    by reflexivity.
  split; [exact H |].
  exact (proj1 (one_timer_per_pending_group Sample.cfg (firstn 8 Sample.album) H)).
Defined.

(** X28: an item added to a group sets the deadline of the group to
    [MEDIA_GROUP_TIMEOUT] after that item.  No timer firing before the
    deadline closes the group, and the firing of its timer at or after the
    deadline does. *)
Theorem album_closes_only_after_quiet_period {T : Type} (cfg : Config)
    (ops : list (MediaGroup.Op T)) (now : Z) (g : string) (item : T)
    (c : Ctx) (uid : Z) (uname : string) (ok : bool)
    (Hops : forallb MediaGroup.timer_driven ops = true)
    (Hadded : snd (MediaGroup.addToGroup cfg now g item c uid uname ok
                     (fst (MediaGroup.run cfg ops MediaGroup.init)))
              = MediaGroup.Added) :
  let st := fst (MediaGroup.addToGroup cfg now g item c uid uname ok
                   (fst (MediaGroup.run cfg ops MediaGroup.init))) in
  exists grp,
    MediaGroup.pendingGroups st !! g = Some grp /\
    In item (MediaGroup.items grp) /\
    MediaGroup.timers st !! MediaGroup.timeout grp =
      Some (g, now + MEDIA_GROUP_TIMEOUT cfg) /\
    (forall now' h cb,
       now' < now + MEDIA_GROUP_TIMEOUT cfg ->
       MediaGroup.pendingGroups (MediaGroup.fire now' h cb st) !! g = Some grp) /\
    (forall now' cb,
       now + MEDIA_GROUP_TIMEOUT cfg <= now' ->
       MediaGroup.pendingGroups
         (MediaGroup.fire now' (MediaGroup.timeout grp) cb st) !! g = None).
Proof.
  intros st.
  set (st0 := fst (MediaGroup.run cfg ops MediaGroup.init)) in *.
  assert (Hok0 : MediaGroup.timers_ok st0)
    by (apply run_timers_ok; [exact Hops | apply init_timers_ok]).
  assert (Hok : MediaGroup.timers_ok st)
    by (apply addToGroup_timers_ok; exact Hok0).
  pose proof (addToGroup_timers cfg now g item c uid uname ok st0) as Hr.
  cbv zeta in Hr. rewrite Hadded in Hr. fold st in Hr.
  destruct Hr as (grp & Hp & Hto & Hn & Ht).
  pose proof (addToGroup_waiting cfg g now g item c uid uname ok st0) as Hw.
  rewrite Hadded, String.eqb_refl in Hw. fold st in Hw.
  assert (Hg : MediaGroup.pendingGroups st !! g = Some grp)
    by (rewrite Hp; apply lookup_insert_eq).
  assert (Hdue : MediaGroup.timers st !! MediaGroup.timeout grp =
                 Some (g, now + MEDIA_GROUP_TIMEOUT cfg))
    by (rewrite Ht, Hto; apply lookup_insert_eq).
  exists grp. split; [exact Hg |]. split.
  { unfold MediaGroup.waiting in Hw. rewrite Hg in Hw. rewrite Hw.
    apply in_or_app. right. now left. }
  split; [exact Hdue |]. split.
  - intros now' h cb Hearly. unfold MediaGroup.fire.
    destruct (MediaGroup.timers st !! h) as [[g' due]|] eqn:Hh; [| exact Hg].
    destruct (Z.leb_spec due now'); [| exact Hg].
    rewrite processGroup_groups. simpl.
    destruct Hok as (_ & Hback & _).
    destruct (Hback h g' due Hh) as (grp' & Hg' & Hto').
    rewrite lookup_delete_ne; [exact Hg |].
    intros <-. rewrite Hg in Hg'. injection Hg' as <-.
    rewrite <- Hto', Hdue in Hh. injection Hh as <-. lia.
  - intros now' cb Hlate. unfold MediaGroup.fire. rewrite Hdue.
    destruct (Z.leb_spec (now + MEDIA_GROUP_TIMEOUT cfg) now'); [| lia].
    rewrite processGroup_groups. simpl. apply lookup_delete_eq.
Qed.

Lemma album_closes_only_after_quiet_period_witness :
  forallb MediaGroup.timer_driven (firstn 3 Sample.album) = true /\
  snd (MediaGroup.addToGroup Sample.cfg 900 "g1" "c"%string Sample.ctx 7 "ada"
         true
         (fst (MediaGroup.run Sample.cfg (firstn 3 Sample.album) MediaGroup.init)))
    = MediaGroup.Added /\
  exists grp,
    MediaGroup.pendingGroups
      (fst (MediaGroup.addToGroup Sample.cfg 900 "g1" "c"%string Sample.ctx 7
              "ada" true
              (fst (MediaGroup.run Sample.cfg (firstn 3 Sample.album)
                      MediaGroup.init)))) !! "g1"%string = Some grp /\
    MediaGroup.items grp = ["a"; "b"; "c"]%string /\
    MediaGroup.timers
      (fst (MediaGroup.addToGroup Sample.cfg 900 "g1" "c"%string Sample.ctx 7
              "ada" true
              (fst (MediaGroup.run Sample.cfg (firstn 3 Sample.album)
                      MediaGroup.init)))) !! MediaGroup.timeout grp
      = Some ("g1"%string, 1900).
Proof.
  assert (H1 : forallb MediaGroup.timer_driven (firstn 3 Sample.album) = true)
    by reflexivity.
  assert (H2 : snd (MediaGroup.addToGroup Sample.cfg 900 "g1" "c"%string
                      Sample.ctx 7 "ada" true
                      (fst (MediaGroup.run Sample.cfg (firstn 3 Sample.album)
                              MediaGroup.init))) = MediaGroup.Added)
    by (vm_compute; reflexivity).
  split; [exact H1 |]. split; [exact H2 |].
  destruct (album_closes_only_after_quiet_period Sample.cfg
              (firstn 3 Sample.album) 900 "g1" "c"%string Sample.ctx 7 "ada"
              true H1 H2) as (grp & Hg & _ & Hdue & _).
  exists grp. split; [exact Hg |]. split; [| exact Hdue].
  revert Hg. vm_compute. intros [= <-]. reflexivity.
Defined.

Section Album.

Import MediaGroup.

Context {T : Type}.
Variable cfg : Config.

(** An item that is added to a pending group. *)
Lemma addToGroup_pending now g item c uid uname ok (st : State T) grp :
  pendingGroups st !! g = Some grp ->
  let r := addToGroup cfg now g item c uid uname ok st in
  snd r = Added /\
  buckets (fst r) = buckets st /\
  effects (fst r) = effects st /\
  nextMessageId (fst r) = nextMessageId st /\
  exists grp',
    pendingGroups (fst r) !! g = Some grp' /\
    items grp' = items grp ++ [item] /\
    ctx grp' = ctx grp /\
    statusMsg grp' = statusMsg grp /\
    caption grp' =
      (if Js.truthy_opt (msg_caption c) && negb (Js.truthy_opt (caption grp))
       then msg_caption c else caption grp).
Proof.
  intros Hg. unfold addToGroup, addToGroup_append. rewrite Hg. simpl.
  repeat split. eexists. rewrite lookup_insert_eq. repeat split.
Qed.

End Album.

(** X29: items added to a group that is already pending never consult the
    rate limiter and send nothing; they are appended in arrival order, and
    the group keeps its context, its status message and its caption, except
    that a group without caption takes the first non-empty caption among
    the items. *)
Theorem album_costs_one_token {T : Type} (cfg : Config)
    (st : MediaGroup.State T) (g : string)
    (grp : MediaGroup.PendingMediaGroup T)
    (more : list (Z * T * Ctx * Z * string * bool))
    (Hopen : MediaGroup.pendingGroups st !! g = Some grp) :
  let r := MediaGroup.run cfg (MediaGroup.more_items g more) st in
  let captions := map (fun '(_, _, c, _, _, _) => msg_caption c) more in
  MediaGroup.buckets (fst r) = MediaGroup.buckets st /\
  MediaGroup.effects (fst r) = MediaGroup.effects st /\
  snd r = map (fun '(_, item, _, _, _, _) => (g, item)) more /\
  exists grp',
    MediaGroup.pendingGroups (fst r) !! g = Some grp' /\
    MediaGroup.items grp' =
      MediaGroup.items grp ++ map (fun '(_, item, _, _, _, _) => item) more /\
    MediaGroup.ctx grp' = MediaGroup.ctx grp /\
    MediaGroup.statusMsg grp' = MediaGroup.statusMsg grp /\
    MediaGroup.caption grp' =
      (if Js.truthy_opt (MediaGroup.caption grp) then MediaGroup.caption grp
       else if Js.truthy_opt (MediaGroup.first_caption captions)
            then MediaGroup.first_caption captions
            else MediaGroup.caption grp).
Proof.
  revert st grp Hopen.
  induction more as [|[[[[[now item] c] uid] uname] ok] more IH];
    intros st grp Hopen; simpl.
  - repeat split. exists grp. rewrite app_nil_r.
    repeat split; [exact Hopen |]. now destruct (Js.truthy_opt _).
  - destruct (addToGroup_pending cfg now g item c uid uname ok st grp Hopen)
      as (Hres & Hb & He & _ & grp1 & Hg1 & Hi1 & Hc1 & Hs1 & Hcap1).
    destruct (MediaGroup.addToGroup cfg now g item c uid uname ok st)
      as [st1 res]. simpl in *. subst res.
    specialize (IH st1 grp1 Hg1). cbv zeta in IH.
    destruct (MediaGroup.run cfg (MediaGroup.more_items g more) st1)
      as [st2 acc]. simpl in *.
    destruct IH as (Hb2 & He2 & Hacc & grp2 & Hg2 & Hi2 & Hc2 & Hs2 & Hcap2).
    split; [congruence |]. split; [congruence |]. split; [now rewrite Hacc |].
    exists grp2. split; [exact Hg2 |].
    split; [rewrite Hi2, Hi1, <- app_assoc; reflexivity |].
    split; [congruence |]. split; [congruence |].
    rewrite Hcap2, Hcap1.
    destruct (Js.truthy_opt (MediaGroup.caption grp)) eqn:Hold;
      destruct (Js.truthy_opt (msg_caption c)) eqn:Hnew; simpl;
      rewrite ?Hold, ?Hnew; reflexivity.
Qed.

Lemma album_costs_one_token_witness :
  let st := fst (MediaGroup.run Sample.cfg (firstn 1 Sample.album)
                   MediaGroup.init) in
  let more := [(500, "b"%string, Sample.ctx, 7, "ada"%string, true);
               (900, "c"%string, Sample.ctx, 7, "ada"%string, true)] in
  (exists grp, MediaGroup.pendingGroups st !! "g1"%string = Some grp) /\
  MediaGroup.buckets
    (fst (MediaGroup.run Sample.cfg (MediaGroup.more_items "g1" more) st))
  = MediaGroup.buckets st.
Proof.
  intros st more.
  eassert (H : MediaGroup.pendingGroups st !! "g1"%string = Some _)
    by (vm_compute; reflexivity).
  split; [eexists; exact H |].
  pose proof (album_costs_one_token Sample.cfg st "g1" _ more H) as Hx.
  cbv zeta in Hx. destruct Hx as [Hb _]. exact Hb.
Defined.

(* ===================================================================== *)
(** * Further properties of [src/handlers/text.ts] *)
(* ===================================================================== *)

Section TextGates.

Import TextHandler.

Lemma text_say_frame (orc : Transport.Oracle) (chat : Z) (text : string)
    (ts : State) :
  entries (fst (say orc chat text ts)) = entries ts /\
  Handlers.buckets (base (fst (say orc chat text ts))) =
    Handlers.buckets (base ts) /\
  Handlers.audit (base (fst (say orc chat text ts))) =
    Handlers.audit (base ts).
Proof.
  unfold say, Handlers.say, Transport.reply, Transport.call.
  destruct (orc _ _); simpl; repeat split.
Qed.

End TextGates.

(** X30: [handleText] appends the trimmed message to the daily note, and
    logs the capture, exactly when the ids and the text are present, the
    user is authorized, the text is no command, the rate limiter allows the
    call and the vault accepts the entry; a rate-limited call is logged as
    such; a command of an authorized user, or an update without ids or
    text, changes nothing at all. *)
Theorem text_is_captured_only_past_the_gates (cfg : Config) (fmt : Formatting)
    (orc : Transport.Oracle) (vault : TextHandler.Vault) (replyError : string)
    (now : Z) (c : Ctx) (text : option string) (ts : TextHandler.State) :
  let r := TextHandler.handleText cfg fmt orc vault replyError now c text ts in
  let message := default ""%string text in
  let captured :=
    negb (falsy_id (from_id c) || negb (Js.truthy_opt text) ||
          falsy_id (chat_id c)) &&
    Security.isAuthorized (Some (default 0 (from_id c))) (ALLOWED_USERS cfg) &&
    negb (Js.startsWith message "/") &&
    fst (snd (Security.check cfg now (default 0 (from_id c))
                (Handlers.buckets (TextHandler.base ts)))) &&
    match vault (TextHandler.entries ts) (Js.trim message) with
    | inr _ => true
    | inl _ => false
    end in
  TextHandler.entries (fst r) =
    (if captured then TextHandler.entries ts ++ [Js.trim message]
     else TextHandler.entries ts) /\
  Handlers.audit (TextHandler.base (fst r)) =
    Handlers.audit (TextHandler.base ts) ++
    (if captured
     then [Handlers.AuditMessage (default 0 (from_id c)) (username_of c)
             "CAPTURE" message ""]
     else if negb (falsy_id (from_id c) || negb (Js.truthy_opt text) ||
                   falsy_id (chat_id c)) &&
             Security.isAuthorized (Some (default 0 (from_id c)))
               (ALLOWED_USERS cfg) &&
             negb (Js.startsWith message "/") &&
             negb (fst (snd (Security.check cfg now (default 0 (from_id c))
                               (Handlers.buckets (TextHandler.base ts)))))
          then [Handlers.AuditRateLimit (default 0 (from_id c)) (username_of c)
                  (default 0%Q
                     (snd (snd (Security.check cfg now (default 0 (from_id c))
                                  (Handlers.buckets (TextHandler.base ts))))))]
          else []) /\
  (Js.startsWith message "/" = true /\
   Security.isAuthorized (Some (default 0 (from_id c))) (ALLOWED_USERS cfg) = true
   \/ falsy_id (from_id c) || negb (Js.truthy_opt text) || falsy_id (chat_id c)
      = true ->
   r = (ts, Handlers.Completed)).
Proof.
  intros r message captured. subst r captured message.
  unfold TextHandler.handleText. cbv zeta beta.
  destruct (falsy_id (from_id c) || negb (Js.truthy_opt text) ||
            falsy_id (chat_id c)); cbn [negb andb].
  { rewrite app_nil_r. repeat split. }
  destruct (Security.isAuthorized _ _); cbn [negb andb].
  2:{ destruct (text_say_frame orc (default 0 (chat_id c))
                  "Unauthorized. Contact the bot owner for access." ts)
        as (He & _ & Ha).
      cbn [fst snd]. rewrite He, Ha, app_nil_r. repeat split.
      intros [[_ H]|H]; discriminate. }
  destruct (Js.startsWith (default ""%string text) "/"); cbn [negb andb].
  { rewrite app_nil_r. repeat split. }
  destruct (Security.check cfg now _ _) as [b [allowed retryAfter]].
  cbn [fst snd]. destruct allowed; cbn [negb andb].
  2:{ match goal with
      | |- context [TextHandler.say orc ?ch ?t ?s] =>
          destruct (text_say_frame orc ch t s) as (He & _ & Ha)
      end.
      cbn [fst snd]. rewrite He, Ha. simpl. repeat split.
      intros [[H _]|H]; discriminate. }
  cbn [TextHandler.entries TextHandler.with_base].
  destruct (vault (TextHandler.entries ts) (Js.trim (default ""%string text)))
    as [error|[dateStamp timeStamp]].
  - match goal with
    | |- context [TextHandler.say orc ?ch ?t ?s] =>
        destruct (text_say_frame orc ch t s) as (He & _ & Ha)
    end.
    cbn [fst snd]. rewrite He, Ha, app_nil_r. simpl. repeat split.
    intros [[H _]|H]; discriminate.
  - match goal with
    | |- context [TextHandler.say orc ?ch ?t ?s] =>
        pose proof (text_say_frame orc ch t s) as (He & _ & Ha);
        destruct (TextHandler.say orc ch t s) as [ts3 ok]
    end.
    cbn [fst snd] in He, Ha. destruct ok; cbn [fst snd].
    + rewrite He, Ha. simpl. repeat split. intros [[H _]|H]; discriminate.
    + match goal with
      | |- context [TextHandler.say orc ?ch ?t ?s] =>
          destruct (text_say_frame orc ch t s) as (He' & _ & Ha')
      end.
      rewrite He', Ha', He, Ha. simpl. repeat split.
      intros [[H _]|H]; discriminate.
Qed.

(* ===================================================================== *)
(** * Further properties of [src/vault.ts] *)
(* ===================================================================== *)

Section Wikilinks.

Import Vault.

Local Open Scope nat_scope.

Lemma substring_drop (s : string) : forall i m,
  String.substring i m s = String.substring 0 m (drop i s).
Proof.
  induction s as [|c s IH]; intros i m.
  - destruct i, m; reflexivity.
  - destruct i as [|i]; [reflexivity |]. simpl. apply IH.
Qed.

Lemma drop_length (s : string) : forall i,
  String.length (drop i s) = String.length s - i.
Proof.
  induction s as [|c s IH]; intros [|i]; simpl; auto.
Qed.

Lemma slice_from_drop (s : string) (i : nat) : Js.slice_from s i = drop i s.
Proof.
  unfold Js.slice_from. rewrite substring_drop, <- drop_length.
  apply substring_all.
Qed.

Lemma drop_drop (s : string) : forall a b, drop (a + b) s = drop b (drop a s).
Proof.
  induction s as [|c s IH]; intros [|a] b; simpl; auto.
  now destruct b.
Qed.

Lemma drop_past (s : string) (i : nat) :
  String.length s <= i -> drop i s = ""%string.
Proof.
  revert i. induction s as [|c s IH]; intros [|i] H; simpl in *; auto; try lia.
  apply IH. lia.
Qed.

Lemma drop_app (a b : string) : forall j,
  j <= String.length a -> drop j (a ++ b) = (drop j a ++ b)%string.
Proof.
  induction a as [|c a IH]; intros [|j] H; simpl in *; auto; try lia.
  apply IH. lia.
Qed.

Lemma drop_app_length (a b : string) : drop (String.length a) (a ++ b) = b.
Proof.
  rewrite drop_app by lia. now rewrite drop_past.
Qed.

(** A slice followed by the rest of the text. *)
Lemma slice_drop (s : string) (a b : nat) :
  a <= b -> (Js.slice s a b ++ drop b s)%string = drop a s.
Proof.
  intros Hab. unfold Js.slice.
  rewrite <- (slice_from_drop s b), <- (slice_from_drop s a).
  unfold Js.slice_from.
  destruct (Nat.le_gt_cases b (String.length s)) as [Hb|Hb].
  - replace (String.length s - a) with ((b - a) + (String.length s - b)) by lia.
    rewrite substring_plus. now replace (a + (b - a)) with b by lia.
  - replace (String.length s - b) with 0 by lia.
    rewrite substring_zero, append_empty_r.
    apply substring_past_end. lia.
Qed.

Lemma slice_split (s : string) (a b c : nat) :
  a <= b -> b <= c ->
  Js.slice s a c = (Js.slice s a b ++ Js.slice s b c)%string.
Proof.
  intros Hab Hbc. unfold Js.slice.
  replace (c - a) with ((b - a) + (c - b)) by lia.
  rewrite substring_plus. now replace (a + (b - a)) with b by lia.
Qed.

Lemma length_slice (s : string) (a b : nat) :
  a <= b -> b <= String.length s -> String.length (Js.slice s a b) = b - a.
Proof.
  intros Hab Hb. pose proof (slice_drop s a b Hab) as H.
  apply (f_equal String.length) in H.
  rewrite length_append, !drop_length in H. lia.
Qed.

Lemma take_app (p r : string) :
  String.substring 0 (String.length p) (p ++ r) = p.
Proof.
  induction p as [|c p IH]; [apply substring_zero |].
  change (String c (String.substring 0 (String.length p) (p ++ r)) = String c p).
  now rewrite IH.
Qed.

(** Where [p] occurs, the slice of its length is [p]. *)
Lemma occurs_at_spec (p s : string) (i : nat) :
  occurs_at p s i <-> exists r, drop i s = (p ++ r)%string.
Proof. unfold occurs_at. apply prefix_has_prefix. Qed.

Lemma slice_found (p s : string) (i : nat) :
  occurs_at p s i -> Js.slice s i (i + String.length p) = p.
Proof.
  intros H. apply occurs_at_spec in H as [r Hr]. unfold Js.slice.
  replace (i + String.length p - i) with (String.length p) by lia.
  rewrite substring_drop, Hr. apply take_app.
Qed.

Lemma occurs_in_range (p s : string) (i : nat) :
  occurs_at p s i -> p <> ""%string ->
  i + String.length p <= String.length s.
Proof.
  intros H Hp. apply occurs_at_spec in H as [r Hr].
  apply (f_equal String.length) in Hr.
  rewrite drop_length, length_append in Hr.
  destruct p; [contradiction |]. simpl in *. lia.
Qed.

Lemma occurs_at_drop (p s : string) (a k : nat) :
  occurs_at p (drop a s) k <-> occurs_at p s (a + k).
Proof. unfold occurs_at. now rewrite drop_drop. Qed.

Lemma occurs_at_app (p a b : string) (j : nat) :
  occurs_at p a j -> occurs_at p (a ++ b) j.
Proof.
  intros H. destruct (Nat.le_gt_cases j (String.length a)) as [Hj|Hj].
  - apply occurs_at_spec in H as [r Hr]. apply occurs_at_spec.
    exists (r ++ b)%string. now rewrite drop_app, Hr, string_app_assoc.
  - unfold occurs_at in *. rewrite drop_past in H by lia.
    destruct p; [now destruct (drop j (a ++ b)) | discriminate].
Qed.

(** The first occurrence in a text is the first occurrence in every
    beginning of the text that holds it. *)
Lemma first_at_beginning (p a b : string) (k : nat) :
  first_at p (a ++ b) k -> occurs_at p a k -> first_at p a k.
Proof.
  intros [_ Hmin] Hocc. split; [exact Hocc |].
  intros j Hj Hoj. apply (Hmin j Hj). now apply occurs_at_app.
Qed.

Lemma indexOf_in_first (p : string) (rest : string) : forall pos i,
  indexOf_in rest p pos = Some i ->
  exists k, i = pos + k /\ first_at p rest k.
Proof.
  induction rest as [|c rest IH]; intros pos i.
  - destruct p; [| discriminate].
    intros [= <-]. exists 0. split; [lia |].
    split; [reflexivity | intros j Hj; lia].
  - change (indexOf_in (String c rest) p pos)
      with (if String.prefix p (String c rest) then Some pos
            else indexOf_in rest p (S pos)).
    destruct (String.prefix p (String c rest)) eqn:Hp.
    + intros [= <-]. exists 0. split; [lia |].
      split; [exact Hp | intros j Hj; lia].
    + intros H. apply IH in H as (k & -> & Hk & Hmin).
      exists (S k). split; [lia |]. split; [exact Hk |].
      intros [|j] Hj; unfold occurs_at; cbn [drop].
      * now rewrite Hp.
      * apply Hmin. lia.
Qed.

Lemma indexOf_in_none (p : string) (rest : string) : forall pos,
  indexOf_in rest p pos = None -> absent p rest.
Proof.
  induction rest as [|c rest IH]; intros pos.
  - destruct p; [discriminate |]. intros _ [|j]; unfold occurs_at; cbn;
      discriminate.
  - change (indexOf_in (String c rest) p pos)
      with (if String.prefix p (String c rest) then Some pos
            else indexOf_in rest p (S pos)).
    destruct (String.prefix p (String c rest)) eqn:Hp; [discriminate |].
    intros H [|j]; unfold occurs_at; cbn [drop].
    + now rewrite Hp.
    + exact (IH _ H j).
Qed.

(** What [indexOf] returns is the first occurrence from [from] on. *)
Lemma indexOf_first (s p : string) (from i : nat) :
  indexOf s p from = Some i ->
  from <= i /\ first_at p (drop from s) (i - from).
Proof.
  unfold indexOf. rewrite slice_from_drop. intros H.
  apply indexOf_in_first in H as (k & -> & Hk).
  split; [lia |]. now replace (from + k - from) with k by lia.
Qed.

Lemma indexOf_none (s p : string) (from : nat) :
  indexOf s p from = None -> absent p (drop from s).
Proof.
  unfold indexOf. rewrite slice_from_drop. apply indexOf_in_none.
Qed.

Lemma drop_truthy (s : string) (i : nat) :
  i < String.length s -> Js.truthy (drop i s) = true.
Proof.
  intros H. destruct (drop i s) eqn:E; [| reflexivity].
  apply (f_equal String.length) in E. rewrite drop_length in E.
  simpl in E. lia.
Qed.

Lemma assemble_cons (o l : string) (parts : list (string * string))
    (rest : string) :
  assemble ((o, l) :: parts) rest = (o ++ l ++ assemble parts rest)%string.
Proof.
  unfold assemble.
  change (Js.join (map _ ((o, l) :: parts)))
    with ((o ++ l) ++ Js.join (map (fun '(outside, link) =>
                                      (outside ++ link)%string) parts))%string.
  now rewrite <- !string_app_assoc.
Qed.

Lemma replaced_cons (f : string -> string) (o l : string)
    (parts : list (string * string)) (rest : string) :
  replaced f ((o, l) :: parts) rest = (f o ++ l ++ replaced f parts rest)%string.
Proof.
  unfold replaced.
  change (Js.join (map _ ((o, l) :: parts)))
    with ((f o ++ l) ++ Js.join (map (fun '(outside, link) =>
                                        (f outside ++ link)%string) parts))%string.
  now rewrite <- !string_app_assoc.
Qed.

(** The stretch up to the first opening pair and the link that the first
    closing pair after it ends. *)
Lemma found_stretch_and_link (text : string) (cursor start end_ : nat) :
  cursor <= start -> start + 2 <= end_ ->
  first_at "[[" (drop cursor text) (start - cursor) ->
  first_at "]]" (drop (start + 2) text) (end_ - (start + 2)) ->
  stretch_and_link (Js.slice text cursor start, Js.slice text start (end_ + 2)).
Proof.
  intros Hcs Hse Hopen Hclose.
  assert (Ho : occurs_at "[[" text start).
  { destruct Hopen as [H _]. apply occurs_at_drop in H.
    now replace (cursor + (start - cursor)) with start in H by lia. }
  assert (Hc : occurs_at "]]" text end_).
  { destruct Hclose as [H _]. apply occurs_at_drop in H.
    now replace (start + 2 + (end_ - (start + 2))) with end_ in H by lia. }
  pose proof (occurs_in_range _ _ _ Ho ltac:(discriminate)) as Hro.
  pose proof (occurs_in_range _ _ _ Hc ltac:(discriminate)) as Hrc.
  cbn [String.length] in Hro, Hrc.
  assert (Hso : Js.slice text start (start + 2) = "[["%string)
    by exact (slice_found "[[" text start Ho).
  assert (Hsc : Js.slice text end_ (end_ + 2) = "]]"%string)
    by exact (slice_found "]]" text end_ Hc).
  set (inner := Js.slice text (start + 2) end_).
  assert (Hmid : Js.slice text (start + 2) (end_ + 2) = (inner ++ "]]")%string).
  { rewrite (slice_split text (start + 2) end_ (end_ + 2)) by lia.
    now rewrite Hsc. }
  assert (Hlink : Js.slice text start (end_ + 2) = ("[[" ++ inner ++ "]]")%string).
  { rewrite (slice_split text start (start + 2) (end_ + 2)) by lia.
    now rewrite Hso, Hmid. }
  assert (Hlen_o : String.length (Js.slice text cursor start) = start - cursor)
    by (apply length_slice; lia).
  assert (Hlen_i : String.length inner = end_ - (start + 2))
    by (apply length_slice; lia).
  split; cbn [fst snd].
  - apply (first_at_beginning _ _ (drop (end_ + 2) text)).
    + rewrite <- string_app_assoc, (slice_drop text start (end_ + 2)) by lia.
      rewrite (slice_drop text cursor start) by lia. now rewrite Hlen_o.
    + apply occurs_at_spec. rewrite drop_app_length, Hlink.
      now exists (inner ++ "]]")%string.
  - exists inner. split; [exact Hlink |].
    apply (first_at_beginning _ _ (drop (end_ + 2) text)).
    + rewrite <- Hmid, (slice_drop text (start + 2) (end_ + 2)) by lia.
      now rewrite Hlen_i.
    + apply occurs_at_spec. rewrite drop_app_length. now exists ""%string.
Qed.

(** The loop from any cursor: it ends within [length text - cursor + 1]
    rounds, and what it appends to the result is the rest of the text with
    the replacer applied outside the links. *)
Lemma replace_loop_from (replacer : string -> string) (text : string) :
  forall fuel cursor result,
    String.length text - cursor < fuel ->
    exists parts rest,
      drop cursor text = assemble parts rest /\
      replace_loop fuel replacer text cursor result =
        Some (result ++ replaced replacer parts rest)%string /\
      Forall stretch_and_link parts /\
      no_link rest.
Proof.
  induction fuel as [|fuel IH]; intros cursor result Hfuel; [lia |].
  cbn [replace_loop].
  destruct (cursor <? String.length text) eqn:Hc.
  2:{ apply Nat.ltb_ge in Hc. exists [], ""%string.
      split; [now rewrite drop_past |].
      split; [unfold replaced; cbn; now rewrite append_empty_r |].
      split; [constructor |].
      left. intros [|j]; unfold occurs_at; cbn; discriminate. }
  apply Nat.ltb_lt in Hc.
  assert (Hrest : no_link (drop cursor text) ->
            exists parts rest,
              drop cursor text = assemble parts rest /\
              Some (result ++ replacer (Js.slice_from text cursor))%string =
                Some (result ++ replaced replacer parts rest)%string /\
              Forall stretch_and_link parts /\
              no_link rest).
  { intros Hno. exists [], (drop cursor text). split; [reflexivity |].
    split; [| split; [constructor | exact Hno]].
    unfold replaced. cbn [map Js.join fold_right].
    rewrite drop_truthy by exact Hc. now rewrite slice_from_drop. }
  destruct (indexOf text "[[" cursor) as [start|] eqn:Hs.
  2:{ apply Hrest. left. now apply indexOf_none. }
  apply indexOf_first in Hs as [Hcs Hopen].
  destruct (indexOf text "]]" (start + 2)) as [end_|] eqn:He.
  2:{ apply Hrest. right. exists (start - cursor). split; [exact Hopen |].
      apply indexOf_none in He. intros j Hj. apply (He j).
      unfold occurs_at in *. rewrite <- !drop_drop in Hj.
      rewrite <- drop_drop.
      now replace (start + 2 + j) with (cursor + (start - cursor + 2 + j))
        by lia. }
  clear Hrest.
  apply indexOf_first in He as [Hse Hclose].
  destruct (IH (end_ + 2)
              (result ++ replacer (Js.slice text cursor start) ++
               Js.slice text start (end_ + 2))%string)
    as (parts & rest & Hdrop & Hloop & Hparts & Hno); [lia |].
  exists ((Js.slice text cursor start, Js.slice text start (end_ + 2)) :: parts),
    rest.
  split; [| split; [| split]].
  - rewrite assemble_cons, <- Hdrop.
    rewrite (slice_drop text start (end_ + 2)) by lia.
    now rewrite slice_drop.
  - rewrite Hloop, replaced_cons. f_equal.
    now rewrite <- !string_app_assoc.
  - constructor; [| exact Hparts].
    now apply found_stretch_and_link.
  - exact Hno.
Qed.

Lemma prefix_within (p : string) : forall x b,
  String.prefix p (x ++ b) = true -> String.length p <= String.length x ->
  String.prefix p x = true.
Proof.
  induction p as [|a p IH]; intros x b H Hl.
  - now destruct x.
  - destruct x as [|c x]; simpl in Hl; [lia |].
    change (String.prefix (String a p) (String c (x ++ b)) = true) in H.
    cbn [String.prefix] in H |- *.
    destruct (ascii_dec a c); [| discriminate].
    apply (IH x b H). lia.
Qed.

Lemma occurs_at_within (p a b : string) (j : nat) :
  occurs_at p (a ++ b) j -> j + String.length p <= String.length a ->
  occurs_at p a j.
Proof.
  unfold occurs_at. intros H Hj. rewrite drop_app in H by lia.
  apply (prefix_within p _ b H). rewrite drop_length. lia.
Qed.

(** The first occurrence in a beginning of the text is the first
    occurrence in the text. *)
Lemma first_at_whole (p a b : string) (k : nat) :
  p <> ""%string -> first_at p a k -> first_at p (a ++ b) k.
Proof.
  intros Hp [Hocc Hmin]. split; [now apply occurs_at_app |].
  intros j Hj Hoj. apply (Hmin j Hj).
  apply (occurs_at_within p a b j Hoj).
  pose proof (occurs_in_range p a k Hocc Hp). lia.
Qed.

Lemma first_at_unique (p s : string) (i j : nat) :
  first_at p s i -> first_at p s j -> i = j.
Proof.
  intros [Hi Hmi] [Hj Hmj].
  destruct (Nat.lt_trichotomy i j) as [H|[H|H]]; [| exact H |].
  - now destruct (Hmj i H).
  - now destruct (Hmi j H).
Qed.

Lemma app_same_length (a : string) : forall a' x x',
  (a ++ x)%string = (a' ++ x')%string -> String.length a = String.length a' ->
  a = a' /\ x = x'.
Proof.
  induction a as [|c a IH]; intros [|c' a'] x x' H Hl; simpl in Hl;
    try discriminate.
  - now split.
  - change (String c (a ++ x) = String c' (a' ++ x')) in H.
    injection H as -> H. destruct (IH a' x x' H) as [-> ->]; [lia |].
    now split.
Qed.

(** A text with a stretch and a link in front: where its first opening
    pair is, and where the first closing pair after it. *)
Lemma front_link (o l more : string) :
  stretch_and_link (o, l) ->
  first_at "[[" (o ++ l ++ more) (String.length o) /\
  exists inner,
    l = ("[[" ++ inner ++ "]]")%string /\
    first_at "]]" (inner ++ "]]" ++ more) (String.length inner).
Proof.
  intros [Hopen (inner & Hl & Hclose)]. cbn [fst snd] in *. split.
  - rewrite string_app_assoc. now apply first_at_whole.
  - exists inner. split; [exact Hl |].
    rewrite string_app_assoc. now apply first_at_whole.
Qed.

(** A rest without link does not start with a stretch and a link. *)
Lemma no_link_front (o l more : string) :
  stretch_and_link (o, l) -> ~ no_link (o ++ l ++ more).
Proof.
  intros Hpart. destruct (front_link o l more Hpart)
    as [Hopen (inner & Hl & Hclose)].
  intros [Habs | (i & Hi & Habs)].
  - destruct Hopen as [Hocc _]. exact (Habs _ Hocc).
  - rewrite (first_at_unique _ _ _ _ Hi Hopen) in Habs.
    destruct Hclose as [Hocc _]. apply (Habs (String.length inner)).
    unfold occurs_at in *. rewrite <- drop_drop.
    replace (String.length o + 2 + String.length inner)
      with (String.length o + (2 + String.length inner)) by lia.
    rewrite drop_drop, drop_app_length, Hl, drop_drop.
    change (drop 2 (("[[" ++ inner ++ "]]") ++ more))
      with ((inner ++ "]]") ++ more)%string.
    rewrite <- string_app_assoc. exact Hocc.
Qed.

(** The cut of a text in stretches, links and a rest is unique. *)
Lemma decomposition_unique (parts : list (string * string)) :
  forall parts' rest rest',
    assemble parts rest = assemble parts' rest' ->
    Forall stretch_and_link parts -> no_link rest ->
    Forall stretch_and_link parts' -> no_link rest' ->
    parts = parts' /\ rest = rest'.
Proof.
  induction parts as [|[o l] parts IH];
    intros [|[o' l'] parts'] rest rest' Heq Hp Hr Hp' Hr'.
  - split; [reflexivity | exact Heq].
  - rewrite assemble_cons in Heq.
    change (assemble [] rest) with rest in Heq. subst rest.
    apply Forall_cons in Hp' as [Hh _].
    now destruct (no_link_front _ _ _ Hh Hr).
  - rewrite assemble_cons in Heq.
    change (assemble [] rest') with rest' in Heq. subst rest'.
    apply Forall_cons in Hp as [Hh _].
    now destruct (no_link_front _ _ _ Hh Hr').
  - rewrite !assemble_cons in Heq.
    apply Forall_cons in Hp as [Hh Hp]. apply Forall_cons in Hp' as [Hh' Hp'].
    destruct (front_link o l (assemble parts rest) Hh)
      as [Hopen (inner & Hl & Hclose)].
    destruct (front_link o' l' (assemble parts' rest') Hh')
      as [Hopen' (inner' & Hl' & Hclose')].
    rewrite Heq in Hopen.
    destruct (app_same_length _ _ _ _ Heq
                (first_at_unique _ _ _ _ Hopen Hopen')) as [-> Heq1].
    rewrite Hl, Hl' in Heq1.
    change (String "[" (String "[" ((inner ++ "]]") ++ assemble parts rest)) =
            String "[" (String "[" ((inner' ++ "]]") ++ assemble parts' rest')))
      in Heq1.
    injection Heq1 as Heq1.
    rewrite <- !string_app_assoc in Heq1.
    rewrite Heq1 in Hclose.
    destruct (app_same_length _ _ _ _ Heq1
                (first_at_unique _ _ _ _ Hclose Hclose')) as [-> Heq2].
    injection Heq2 as Heq2.
    destruct (IH parts' rest rest' Heq2 Hp Hr Hp' Hr') as [-> ->].
    subst l l'. now split.
Qed.

End Wikilinks.

(** X6: [replaceOutsideWikilinks] ends on every text.  Every text is, in
    exactly one way, a sequence of stretches each followed by a link and a
    rest, where a link starts at the first opening pair [[[] after the
    stretch began and ends with the first closing pair []]] after its
    opening pair, and the rest holds no opening pair or no closing pair
    after its first opening pair.  The result keeps each link as it is and
    applies the replacer to each stretch and, when it is not empty, to the
    rest.  With the identity as replacer the text is returned unchanged. *)
Theorem links_are_kept_and_the_rest_replaced (text : string)
    (replacer : string -> string) :
  (exists parts rest,
     text = Vault.assemble parts rest /\
     Forall Vault.stretch_and_link parts /\
     Vault.no_link rest) /\
  (forall parts rest,
     text = Vault.assemble parts rest ->
     Forall Vault.stretch_and_link parts ->
     Vault.no_link rest ->
     Vault.replaceOutsideWikilinks text replacer =
       Some (Vault.replaced replacer parts rest)) /\
  Vault.replaceOutsideWikilinks text (fun s => s) = Some text.
Proof.
  unfold Vault.replaceOutsideWikilinks.
  destruct (replace_loop_from replacer text (S (String.length text)) 0%nat
              ""%string)
    as (parts & rest & Hdrop & Hloop & Hlinks & Hno); [simpl; lia |].
  destruct (replace_loop_from (fun s => s) text (S (String.length text)) 0%nat
              ""%string)
    as (parts' & rest' & Hdrop' & Hloop' & _); [simpl; lia |].
  cbn [Vault.drop] in Hdrop, Hdrop'.
  split; [now exists parts, rest |]. split.
  - intros parts1 rest1 Htext Hlinks1 Hno1.
    rewrite Hdrop in Htext.
    destruct (decomposition_unique parts parts1 rest rest1 Htext Hlinks Hno
                Hlinks1 Hno1) as [<- <-].
    exact Hloop.
  - rewrite Hloop'. f_equal.
    change ("" ++ Vault.replaced (fun s => s) parts' rest')%string
      with (Vault.replaced (fun s : string => s) parts' rest').
    transitivity (Vault.assemble parts' rest'); [| now symmetry].
    unfold Vault.replaced, Vault.assemble. now destruct rest'.
Qed.

(* ===================================================================== *)
(** * The rate limiter of [src/security.ts] in double precision *)
(* ===================================================================== *)

Section ZeroWindow.

Import SpecFloat Security.Double.

Variable maxTokens : spec_float.

Lemma add_nan_l (y : spec_float) : add S754_nan y = S754_nan.
Proof. reflexivity. Qed.

Lemma add_nan_r (x : spec_float) : add x S754_nan = S754_nan.
Proof. now destruct x. Qed.

Lemma min_nan_r (x : spec_float) : min x S754_nan = S754_nan.
Proof. now destruct x. Qed.

(** With an infinite refill rate the refill of a new bucket, and of a
    spoiled one, is [NaN]. *)
Lemma refill_infinite now uid bs :
  spoiled bs ->
  refill maxTokens (S754_infinity false) now (bucket_of maxTokens now uid bs)
  = S754_nan.
Proof.
  intros Hbs. unfold refill, bucket_of.
  destruct (bs !! uid) as [b|] eqn:Hb.
  - rewrite (Hbs uid b Hb), add_nan_l. apply min_nan_r.
  - unfold elapsed. cbn [lastUpdate tokens]. rewrite Z.sub_diag.
    change (mul (div (of_Z 0) (of_Z 1000)) (S754_infinity false))
      with S754_nan.
    rewrite add_nan_r. apply min_nan_r.
Qed.

Lemma check_infinite now uid bs :
  spoiled bs ->
  snd (check maxTokens (S754_infinity false) now uid bs) =
    (false, Some S754_nan) /\
  spoiled (fst (check maxTokens (S754_infinity false) now uid bs)).
Proof.
  intros Hbs. unfold check. rewrite (refill_infinite now uid bs Hbs).
  change (SFleb (of_Z 1) S754_nan) with false. cbv iota.
  split; [reflexivity |].
  intros u b. cbn [fst]. destruct (decide (u = uid)) as [->|Hne].
  - rewrite lookup_insert_eq. now intros [= <-].
  - rewrite lookup_insert_ne by congruence. apply Hbs.
Qed.

Lemma run_checks_infinite calls : forall bs,
  spoiled bs ->
  snd (run_checks maxTokens (S754_infinity false) calls bs) =
    repeat (false, Some S754_nan) (List.length calls).
Proof.
  induction calls as [|[now uid] rest IH]; intros bs Hbs; [reflexivity |].
  cbn [run_checks].
  destruct (check_infinite now uid bs Hbs) as [Hr Hs].
  destruct (check maxTokens (S754_infinity false) now uid bs) as [bs1 r].
  cbn [fst snd] in Hr, Hs. subst r.
  specialize (IH bs1 Hs).
  destruct (run_checks maxTokens (S754_infinity false) rest bs1) as [bs2 rs].
  cbn [snd] in IH |- *. now rewrite IH.
Qed.

End ZeroWindow.

(** X4: a window of zero.  With [RATE_LIMIT_WINDOW = 0] and a positive
    [RATE_LIMIT_REQUESTS] the refill rate is [Infinity]; then, from an empty
    table, the first check of an identity computes [0 * Infinity = NaN]
    tokens, and every check of every identity, at any clock reading, is
    denied with a [retryAfter] of [NaN]. *)
Theorem zero_window_denies_every_call (requests : Z)
    (calls : list (Z * Z))
    (Hrate : Security.Double.refillRate_of requests 0 =
             SpecFloat.S754_infinity false) :
  snd (Security.Double.run_checks (Security.Double.maxTokens_of requests)
         (Security.Double.refillRate_of requests 0) calls ∅) =
    repeat (false, Some SpecFloat.S754_nan) (List.length calls).
Proof.
  rewrite Hrate. apply run_checks_infinite.
  intros u b Hb. rewrite lookup_empty in Hb. discriminate.
Qed.

Lemma zero_window_denies_every_call_witness :
  Security.Double.refillRate_of 20 0 = SpecFloat.S754_infinity false /\
  snd (Security.Double.run_checks (Security.Double.maxTokens_of 20)
         (Security.Double.refillRate_of 20 0) Sample.mixed ∅) =
    repeat (false, Some SpecFloat.S754_nan) 4.
Proof.
  assert (H : Security.Double.refillRate_of 20 0 = SpecFloat.S754_infinity false)
    by (vm_compute; reflexivity).
  split; [exact H |].
  exact (zero_window_denies_every_call 20 Sample.mixed H).
Defined.

(* ===================================================================== *)
(** * The pending stop and [handleStop] *)
(* ===================================================================== *)

Section Returns.

Import ClaudeSession.

Variables (cfg : Config) (env : Env) (fmt : Formatting)
          (orc : Transport.Oracle) (chat : Z).

Hypothesis Hlimit : (0 < TELEGRAM_SAFE_LIMIT cfg)%nat.

Lemma callback_returns now ty content seg st w :
  exists st' w', callback cfg fmt orc chat now ty content seg st w = Some (st', w').
Proof.
  unfold callback.
  destruct (statusCallback_returns cfg fmt orc chat now ty content seg st
              (transport w) Hlimit) as [[st1 tr1] ->].
  simpl. eauto.
Qed.

Ltac call_returns :=
  match goal with
  | |- context [callback cfg fmt orc chat ?now ?ty ?content ?seg ?st ?w] =>
      let st1 := fresh "st" in
      let w1 := fresh "w" in
      let H := fresh "H" in
      destruct (callback_returns now ty content seg st w) as (st1 & w1 & H);
      rewrite H; cbn [mbind option_bind]
  end.

Lemma process_block_returns now b st w l :
  exists r, process_block cfg env fmt orc chat now b st w l = Some r.
Proof.
  destruct b as [thinkingText|toolName toolInput|text|]; unfold process_block.
  - destruct (Js.truthy thinkingText); [call_returns |]; eauto.
  - destruct (if String.eqb toolName "Bash" then _ else _) as [isSafe reason].
    destruct (negb isSafe); [call_returns; eauto |].
    destruct (_ && _ && _ && _); [call_returns; eauto |].
    destruct (Js.truthy (currentSegmentText l)).
    + call_returns. call_returns. eauto.
    + cbn [mbind option_bind]. call_returns. eauto.
  - destruct (_ && _); [call_returns |]; eauto.
  - eauto.
Qed.

Lemma process_blocks_returns now bs : forall st w l,
  exists r, process_blocks cfg env fmt orc chat now bs st w l = Some r.
Proof.
  induction bs as [|b bs IH]; intros st w l; cbn [process_blocks]; [eauto |].
  destruct (process_block_returns now b st w l) as [[[[st1 w1] l1] raised] ->].
  cbn [mbind option_bind]. destruct raised; [eauto | apply IH].
Qed.

Lemma process_event_returns now ev st w l :
  exists r, process_event cfg env fmt orc chat now ev st w l = Some r.
Proof.
  unfold process_event. destruct (body ev); [apply process_blocks_returns | |];
    eauto.
Qed.

Lemma consume_returns items : forall st w l,
  exists r, consume cfg env fmt orc chat items st w l = Some r.
Proof.
  induction items as [|item rest IH]; intros st w l; cbn [consume]; [eauto |].
  cbv zeta. destruct (stopRequested _); [eauto |].
  destruct (process_event_returns (at_ms item) (event item) st
              (poke_all (pokes item) w) l) as [[[[st2 w2] l2] raised] ->].
  cbn [mbind option_bind]. destruct raised; [eauto | apply IH].
Qed.

(** With chunks of positive length [sendMessageStreaming] returns or
    throws: it does not hang. *)
Lemma sendMessageStreaming_returns engine now message st w :
  exists r,
    sendMessageStreaming cfg env fmt orc chat engine now message st w = Some r.
Proof.
  unfold sendMessageStreaming. cbv zeta.
  destruct (stopRequested _); [eauto |].
  match goal with
  | |- context [consume cfg env fmt orc chat ?items ?st0 ?w0 ?l0] =>
      destruct (consume_returns items st0 w0 l0) as [[[[st2 w2] l2] exit] ->]
  end.
  cbn [mbind option_bind].
  match goal with
  | |- context [match ?e with Exhausted => _ | Broke => _ | Raised _ => _ end] =>
      destruct e as [| |e]
  end.
  all: repeat match goal with
       | |- context [match ?x with Some _ => _ | None => _ end] =>
           destruct x eqn:?; cbn [mbind option_bind]
       | |- context [if ?b then _ else _] => destruct b eqn:?
       end; eauto.
  all: repeat call_returns; eauto.
Qed.

End Returns.

(** C1, as the code behaves: a [/stop] that finds the session processing
    with no query running gets ["pending"] from [stop()], which sets the
    stop flag; 100 ms later [handleStop] clears the flag itself.  A turn
    that reaches the stop check of [sendMessageStreaming] only then is not
    cancelled: the call returns or throws after having started the
    engine. *)
Theorem pending_stop_is_voided_by_handleStop (cfg : Config) (env : Env)
    (fmt : Formatting) (orc : Transport.Oracle) (chat : Z)
    (engine : ClaudeSession.Engine) (now : Z) (message : string)
    (st : Streaming.StreamingState) (c : Ctx) (hs : Handlers.State)
    (Hlimit : (0 < TELEGRAM_SAFE_LIMIT cfg)%nat)
    (Hauth : Security.isAuthorized (from_id c) (ALLOWED_USERS cfg) = true)
    (Hprocessing : ClaudeSession._isProcessing (Handlers.session_of hs) = true)
    (Hnotrunning : ClaudeSession.isQueryRunning (Handlers.session_of hs) = false) :
  let r := Handlers.handleStop_begin cfg orc c hs in
  let hs' := Handlers.handleStop_finish (fst r) in
  snd (ClaudeSession.stop (Handlers.session_of hs)) = ClaudeSession.Pending /\
  snd r = true /\
  ClaudeSession.stopRequested (Handlers.session_of (fst r)) = true /\
  ClaudeSession.stopRequested (Handlers.session_of hs') = false /\
  exists st' w' out,
    ClaudeSession.sendMessageStreaming cfg env fmt orc chat engine now message
      st (Handlers.world hs') = Some (st', w', out) /\
    ClaudeSession.invocations w' =
      ClaudeSession.invocations (Handlers.world hs) ++
      [ClaudeSession.invocation_of cfg env fmt now message
         (Handlers.session_of hs')].
Proof.
  assert (Hstop : ClaudeSession.stop (Handlers.session_of hs) =
                  (ClaudeSession.set_stopRequested true (Handlers.session_of hs),
                   ClaudeSession.Pending)).
  { unfold ClaudeSession.stop. now rewrite Hnotrunning, Hprocessing. }
  assert (Hbegin : Handlers.handleStop_begin cfg orc c hs =
                   (Handlers.with_session
                      (ClaudeSession.set_stopRequested true
                         (Handlers.session_of hs)) hs, true)).
  { unfold Handlers.handleStop_begin, ClaudeSession.isRunning.
    now rewrite Hauth, Hprocessing, orb_true_r, Hstop. }
  cbv zeta. rewrite Hbegin, Hstop. cbn [fst snd].
  split; [reflexivity |]. split; [reflexivity |].
  split; [now destruct hs as [[]] |]. split; [now destruct hs as [[]] |].
  set (hs' := Handlers.handleStop_finish _).
  destruct (sendMessageStreaming_returns cfg env fmt orc chat Hlimit engine now
              message st (Handlers.world hs')) as [[[st' w'] out] Hret].
  exists st', w', out. split; [exact Hret |].
  assert (Hclear : ClaudeSession.stopRequested
                     (ClaudeSession.session (Handlers.world hs')) = false)
    by now destruct hs as [[]].
  rewrite (engine_called_once cfg env fmt orc chat engine now message st st'
             (Handlers.world hs') w' out Hclear Hret).
  now destruct hs as [[]].
Qed.

Lemma pending_stop_is_voided_by_handleStop_witness :
  let hs := Handlers.with_session
              (ClaudeSession.startProcessing ClaudeSession.empty)
              Sample.state0 in
  let hs' := Handlers.handleStop_finish
               (fst (Handlers.handleStop_begin Sample.cfg Transport.reliable
                       Sample.ctx hs)) in
  (0 < TELEGRAM_SAFE_LIMIT Sample.cfg)%nat /\
  Security.isAuthorized (from_id Sample.ctx) (ALLOWED_USERS Sample.cfg) = true /\
  snd (ClaudeSession.stop (Handlers.session_of hs)) = ClaudeSession.Pending /\
  exists st' w' out,
    ClaudeSession.sendMessageStreaming Sample.cfg Sample.env Sample.fmt
      Transport.reliable 42 Sample.engine_crash_once 0 "hello" Streaming.fresh
      (Handlers.world hs') = Some (st', w', out) /\
    List.length (ClaudeSession.invocations w') = 1%nat.
Proof.
  intros hs hs'.
  assert (H1 : (0 < TELEGRAM_SAFE_LIMIT Sample.cfg)%nat) by (vm_compute; lia).
  assert (H2 : Security.isAuthorized (from_id Sample.ctx)
                 (ALLOWED_USERS Sample.cfg) = true) by reflexivity.
  destruct (pending_stop_is_voided_by_handleStop Sample.cfg Sample.env
              Sample.fmt Transport.reliable 42 Sample.engine_crash_once 0
              "hello" Streaming.fresh Sample.ctx hs H1 H2 eq_refl eq_refl)
    as (Hp & _ & _ & _ & st' & w' & out & Hret & Hinv).
  split; [exact H1 |]. split; [exact H2 |]. split; [exact Hp |].
  exists st', w', out. split; [exact Hret |]. rewrite Hinv. reflexivity.
Defined.

(* ===================================================================== *)
(** * Short answers and the end of a segment *)
(* ===================================================================== *)

Section ShortAnswer.

Import ClaudeSession.

Variables (cfg : Config) (env : Env) (fmt : Formatting)
          (orc : Transport.Oracle) (chat : Z).

Lemma poke_all_nil (w : World) : poke_all [] w = w.
Proof. now destruct w. Qed.

(** The bookkeeping at the head of the loop body keeps the transport and
    the stop flag. *)
Lemma adopt_session_id now sid (w : World) :
  let w1 :=
    if negb (Js.truthy_opt (sessionId (session w))) && Js.truthy_opt sid
    then saveSession cfg fmt now
           (with_session (set_sessionId sid (session w)) w)
    else w in
  transport w1 = transport w /\
  stopRequested (session w1) = stopRequested (session w).
Proof.
  cbv zeta. destruct (_ && _); [| now split].
  unfold saveSession. destruct (negb _); destruct w as [[]]; now split.
Qed.

(** A text block that leaves the segment at 20 code units or fewer calls
    nothing. *)
Lemma short_text_event now sid text st w l :
  (20 <? String.length (currentSegmentText l ++ text))%nat = false ->
  exists w',
    process_event cfg env fmt orc chat now
      {| ev_session_id := sid; body := Assistant [Text text] |} st w l =
    Some (st, w',
          {| responseParts := responseParts l ++ [text];
             currentSegmentId := currentSegmentId l;
             currentSegmentText := currentSegmentText l ++ text;
             lastTextUpdate := lastTextUpdate l;
             queryCompleted := queryCompleted l |}, None) /\
    transport w' = transport w /\
    stopRequested (session w') = stopRequested (session w).
Proof.
  intros Hlen. unfold process_event. cbn [body ev_session_id].
  destruct (adopt_session_id now sid w) as [Ht Hs]. cbv zeta in Ht, Hs.
  eexists. split; [| split; [exact Ht | exact Hs]].
  cbn [process_blocks process_block]. rewrite Hlen, andb_false_r.
  reflexivity.
Qed.

Lemma result_event now sid usage st w l :
  exists w',
    process_event cfg env fmt orc chat now
      {| ev_session_id := sid; body := Result usage |} st w l =
    Some (st, w',
          {| responseParts := responseParts l;
             currentSegmentId := currentSegmentId l;
             currentSegmentText := currentSegmentText l;
             lastTextUpdate := lastTextUpdate l;
             queryCompleted := true |}, None) /\
    transport w' = transport w /\
    stopRequested (session w') = stopRequested (session w).
Proof.
  unfold process_event. cbn [body ev_session_id].
  destruct (adopt_session_id now sid w) as [Ht Hs]. cbv zeta in Ht, Hs.
  eexists. split; [reflexivity |].
  destruct usage; [| now split].
  rewrite <- Ht, <- Hs.
  match goal with |- context [with_session _ ?w0] => now destruct w0 as [[]] end.
Qed.

(** On a new [StreamingState] the end of a segment and the end of the query
    send nothing. *)
Lemma callbacks_on_fresh now now' content seg (w : World) :
  callback cfg fmt orc chat now "segment_end" content (Some seg)
    Streaming.fresh w = Some (Streaming.fresh, w) /\
  callback cfg fmt orc chat now' "done" "" None Streaming.fresh w =
    Some (Streaming.fresh, w).
Proof.
  unfold callback.
  rewrite (segment_end_without_unit cfg fmt orc chat now content seg
             Streaming.fresh (transport w) (lookup_empty _)).
  split; [now destruct w | now destruct w].
Qed.

End ShortAnswer.

(** C7, as the code behaves: an answer of at most 20 code units is never
    shown.  When the engine yields one text block of 1 to 20 code units and
    then the result, no [text] call is made (the threshold of
    [sendMessageStreaming]), so the segment has no display unit when
    [segment_end] is called with the full answer, and [segment_end] sends
    nothing: the call returns the answer and the transport is as before. *)
Theorem short_answer_is_never_displayed (cfg : Config) (env : Env)
    (fmt : Formatting) (orc : Transport.Oracle) (chat : Z)
    (engine : ClaudeSession.Engine) (now : Z) (message : string)
    (w : ClaudeSession.World) (text : string) (t1 t2 t3 : Z)
    (sid1 sid2 : option string) (usage : option ClaudeSession.TokenUsage)
    (Hgo : ClaudeSession.stopRequested (ClaudeSession.session w) = false)
    (Hsome : text <> ""%string)
    (Hshort : (String.length text <= 20)%nat)
    (Hrun :
       engine (List.length (ClaudeSession.invocations w))
         (ClaudeSession.invocation_of cfg env fmt now message
            (ClaudeSession.session w)) =
       {| ClaudeSession.stream :=
            [ {| ClaudeSession.pokes := []; ClaudeSession.at_ms := t1;
                 ClaudeSession.event :=
                   {| ClaudeSession.ev_session_id := sid1;
                      ClaudeSession.body :=
                        ClaudeSession.Assistant [ClaudeSession.Text text] |} |};
              {| ClaudeSession.pokes := []; ClaudeSession.at_ms := t2;
                 ClaudeSession.event :=
                   {| ClaudeSession.ev_session_id := sid2;
                      ClaudeSession.body := ClaudeSession.Result usage |} |} ];
          ClaudeSession.end_pokes := [];
          ClaudeSession.end_ms := t3;
          ClaudeSession.failure := None |}) :
  exists w',
    ClaudeSession.sendMessageStreaming cfg env fmt orc chat engine now message
      Streaming.fresh w = Some (Streaming.fresh, w', ClaudeSession.Returns text) /\
    ClaudeSession.transport w' = ClaudeSession.transport w /\
    Streaming.statusCallback cfg fmt orc chat t3 "segment_end" text (Some 0%nat)
      Streaming.fresh (ClaudeSession.transport w) =
      Some (Streaming.fresh, ClaudeSession.transport w).
Proof.
  assert (Hlen : (20 <? String.length ("" ++ text))%nat = false)
    by (apply Nat.ltb_ge; exact Hshort).
  assert (Htruthy : Js.truthy text = true) by (now destruct text).
  unfold ClaudeSession.sendMessageStreaming. cbv zeta.
  set (s1 := if _ && _ then _ else _).
  assert (H1 : ClaudeSession.stopRequested s1 = false)
    by (subst s1; now destruct (_ && _)).
  rewrite H1, Hrun. clear Hrun.
  cbn [ClaudeSession.stream ClaudeSession.end_pokes ClaudeSession.end_ms
       ClaudeSession.failure ClaudeSession.consume ClaudeSession.pokes
       ClaudeSession.at_ms ClaudeSession.event].
  rewrite !poke_all_nil.
  cbn [ClaudeSession.session ClaudeSession.stopRequested
       ClaudeSession.begin_query].
  match goal with
  | |- context [ClaudeSession.process_event _ _ _ _ _ t1 _ _ ?w0 ?l0] =>
      destruct (short_text_event cfg env fmt orc chat t1 sid1 text
                  Streaming.fresh w0 l0 Hlen) as (w2 & -> & Ht2 & Hs2)
  end.
  cbn [mbind option_bind ClaudeSession.consume ClaudeSession.pokes
       ClaudeSession.at_ms ClaudeSession.event].
  rewrite !poke_all_nil, Hs2.
  cbn [ClaudeSession.session ClaudeSession.stopRequested
       ClaudeSession.begin_query].
  match goal with
  | |- context [ClaudeSession.process_event _ _ _ _ _ t2 _ _ ?w0 ?l0] =>
      destruct (result_event cfg env fmt orc chat t2 sid2 usage
                  Streaming.fresh w0 l0) as (w3 & -> & Ht3 & Hs3)
  end.
  cbn [mbind option_bind ClaudeSession.consume].
  rewrite !poke_all_nil.
  cbn [ClaudeSession.currentSegmentText ClaudeSession.currentSegmentId
       ClaudeSession.responseParts].
  change ("" ++ text)%string with text. rewrite Htruthy.
  match goal with
  | |- context [ClaudeSession.callback _ _ _ _ t3 "segment_end" _ _ _ ?w0] =>
      destruct (callbacks_on_fresh cfg fmt orc chat t3 t3 text 0%nat w0)
        as [-> Hdone]
  end.
  cbn [mbind option_bind]. rewrite Hdone. cbn [mbind option_bind].
  change (Js.join ([] ++ [text])) with (text ++ "")%string.
  rewrite append_empty_r, Htruthy.
  eexists. split; [reflexivity |].
  split.
  - cbn [ClaudeSession.transport ClaudeSession.with_session].
    rewrite Ht3, Ht2. reflexivity.
  - apply segment_end_without_unit. apply lookup_empty.
Qed.

Lemma short_answer_is_never_displayed_witness :
  ClaudeSession.stopRequested (ClaudeSession.session Sample.world0) = false /\
  "Hello Ada."%string <> ""%string /\
  (String.length "Hello Ada." <= 20)%nat /\
  exists w',
    ClaudeSession.sendMessageStreaming Sample.cfg Sample.env Sample.fmt
      Transport.reliable 42 (fun _ _ => Sample.answer) 0 "hi" Streaming.fresh
      Sample.world0 =
      Some (Streaming.fresh, w', ClaudeSession.Returns "Hello Ada.") /\
    Transport.log (ClaudeSession.transport w') = [].
Proof.
  assert (H1 : ClaudeSession.stopRequested
                 (ClaudeSession.session Sample.world0) = false) by reflexivity.
  assert (H2 : "Hello Ada."%string <> ""%string) by discriminate.
  assert (H3 : (String.length "Hello Ada." <= 20)%nat) by (simpl; lia).
  split; [exact H1 |]. split; [exact H2 |]. split; [exact H3 |].
  destruct (short_answer_is_never_displayed Sample.cfg Sample.env Sample.fmt
              Transport.reliable 42 (fun _ _ => Sample.answer) 0 "hi"
              Sample.world0 "Hello Ada." 1010 1020 1030 (Some "sess-2"%string)
              (Some "sess-2"%string) None H1 H2 H3 eq_refl)
    as (w' & Hret & Htr & _).
  exists w'. split; [exact Hret |]. rewrite Htr. reflexivity.
Defined.

(** The whole turn on the sample configuration: the engine answers
    ["Hello Ada."], the handler returns normally and records the answer in
    the audit log, and nothing has been sent to the chat. *)
Lemma short_answer_turn_sends_nothing :
  exists hs',
    Handlers.handleAssistantMessage Sample.cfg Sample.env Sample.fmt
      Transport.reliable (fun _ _ => Sample.answer) Sample.clock Sample.ctx
      "hi" Sample.state0 = Some (hs', Handlers.Completed) /\
    Transport.log (ClaudeSession.transport (Handlers.world hs')) = [] /\
    Handlers.audit hs' =
      [Handlers.AuditMessage 7 "ada" "CLAUDE" "hi" "Hello Ada."].
Proof.
  eexists. split; [vm_compute; reflexivity |]. split; reflexivity.
Qed.
